(* ===== verification/_CoqProject ===== *)
-Q . S2P
Prelude.v
Status.v
Sodium.v
Schema.v
State.v
Files.v
Openssl.v
Utils.v
Kdf.v
CryptoEngine.v
Storage.v
Sqlite.v
StorageFile.v
KeyManager.v
Merkle.v
Backup.v
AuditLog.v
Access.v
VaultRows.v
Vault.v
VaultSpec.v
VaultRefine.v
VaultReads.v
VaultUnlock.v
VaultRotate.v
VaultTheorems.v
VaultQueries.v
VaultFile.v
VaultTokens.v
VaultLocked.v
CliText.v
CliOptions.v
CliIo.v
Cli.v
CliTheorems.v
CliSession.v
