(* ===== verification/Prelude.v ===== *)
(** * A verification development for fuin, a local secrets vault

    fuin (src/src, in C) keeps versioned secrets in an SQLite file. A master
    password gives, through Argon2id and a key derivation, the keys of a
    session; each secret is sealed by a random data key (DEK), each data key is
    wrapped under the session key (KEK); every operation is recorded in a
    hash-chained, ratchet-signed log, over which Merkle roots and inclusion
    proofs are computed. Signed tokens give scoped access, capsules for a
    hybrid post-quantum key pair hold backups, and a command line with a
    clipboard helper is the interface to the user.

    ** Files and what they model

    The basis:
    - [Prelude]: bytes, C strings, machine integers, decimal text, list lemmas.
    - [Status]: [sm_status] of include/utils.h and the error monad [outcome].
    - [State]: the process state [world] (connection, session globals, disk,
      clock, random source), the state and error monad [M], the environment
      [env] that decides which library calls fail, and the rules [wp], [Keeps],
      [fails].
    - [Schema]: the tables of sql/schema.sql and their statements, with the
      constraints (CHECK, UNIQUE, the partial unique index) written out.

    What the code calls, each as a class of operations with a class of the laws
    the code relies on and a toy instance for the examples:
    - [Sodium]: libsodium, [Crypto] and [CryptoLaws].
    - [Files]: directories, permissions, symbolic links and streams over the
      entries of a disk, with the path functions of the system as [Posix].
    - [Openssl]: keys, key files, encapsulation and signatures.
    - [Sqlite]: how a database and its catalogue are laid out in a file, and
      what opening it does to the file and to the journal and log next to it.
    - [Access]: also [Cjson], the parser of the vendored cJSON.
    - [CliText]: also [Hex2bin], the hexadecimal decoder of libsodium.

    The library:
    - [Utils]: utils.c (time stamps, UUIDs, base32, TOTP, passwords).
    - [Kdf]: kdf.c. [CryptoEngine]: crypto_engine.c. [KeyManager]:
      key_manager.c, with the rotation of the KEK over the table.
    - [Storage]: transactions and the schema check of storage.c;
      [StorageFile]: the creation, opening and closing of the file.
    - [Merkle], [AuditLog]: audit.c, the Merkle tree and the hash chain.
    - [Access]: access.c, scopes and signed tokens.
    - [Backup]: backup.c, the capsule format, the hybrid key, export and
      import, key files, ML-DSA signatures.
    - [VaultRows], [Vault]: vault.c, the statements and row handling first,
      the operations on secrets second; [VaultQueries]: its listings, the
      expiry check and the security report; [VaultFile]: opening, closing,
      backups and signed roots; [VaultTokens]: its tokens; [VaultLocked]: what
      they all do without an unlocked session.
    - [VaultSpec]: an abstract store of versioned secrets with a trail, its
      transitions [step], and the invariant [db_ok] of the database.
    - [VaultRefine], [VaultReads], [VaultUnlock], [VaultRotate]: the lemmas
      that each operation refines its transition, that reads and unlocking
      succeed, and that the rotation loop ends; [VaultTheorems]: the theorems
      of the vault with their examples.

    The command line, main.c:
    - [CliText]: numbers and durations, the table of commands and the
      suggestion, hexadecimal text, names in listings.
    - [CliOptions]: [cli_options_t], getopt_long, [cli_parse_options].
    - [CliIo]: the streams, the terminal and the clipboard as a [console], the
      monad [C] over [M], prompts, key passphrase files, the clipboard helper.
    - [Cli]: the commands, the dispatch and [main] ([cli_main]; the part after
      the options are accepted is [cli_session]).
    - [CliTheorems]: its theorems; [CliSession]: two processes on one vault.

    ** How the model corresponds to the code

    Each C function is the definition of its name. A call that can fail for
    reasons outside the program (sqlite3, libsodium, the system, an allocation)
    consults [env_fault]; theorems quantify over every environment, so over
    every combination of failing calls, or assume a [healthy] one where they
    say that a call succeeds. [goto cleanup] is the error branch of the monad.
    A command of the command line carries its console also through an error, so
    what was written before it is not lost. Transactions keep what a connection
    sees apart from what is durable; closing writes what is durable into the
    entry of the file and removes the log. Callbacks are arguments with their user data threaded
    through. Integers have the width of their C type where it matters
    ([wrap_u], [wrap_s], [column_int]); text is a byte list read up to its
    first NUL ([c_str]). NULL arguments are refused by every function and not
    modelled; where NULL is a value it is [None].

    ** Theorems

    Envelopes: round trip, binding to the row, commitment of the keys,
    distinct nonces. Log: appending and re-signing keep the chain verifiable,
    verification is a declarative specification, an anchored Merkle root binds
    the entries, proofs are sound and complete. Rotation of the KEK: every row
    keeps its plaintext. Vault: the operations refine the store, are atomic
    under every failure, never lose a version; what is put is read; only the
    password unlocks; a rotated password reopens the same store; a locked vault
    refuses; the loop over expired secrets ends; the listing is the live part
    of the store and the report agrees with it. Files: opening touches only
    the vault file and its sidecars, through no symbolic link, and leaves them
    private, a closed vault reopens as it was, exports and imports never
    overwrite, a backup restores the vault. Tokens: scopes have a declarative
    reading, an accepted token is genuine, unexpired and in scope, revocation
    is permanent. Command line: it ends with an exit status on all arguments;
    passwords and tokens do not come from the arguments; the table of commands
    and the dispatch agree; a token is checked before anything is shown or
    stored; helpers see no secret; the clipboard is cleared; what one process
    stores a later one prints. Utilities: RFC 6238 codes, base32, ordered time
    stamps, UUID text. Theorems that rest on a hash state the colliding inputs
    explicitly instead of assuming there are none.

    ** Bounds and fuel

    [verify_proof_loop], [base32_loop] and [scope_loop] run on fuel that is
    proved enough; [utf8_prefix] has a turn for each byte of its room, and a
    turn uses one up; [follow_links] follows the 40 symbolic links the system
    does. [auto_rotate_loop] has the fuel as an argument, and
    [vault_auto_rotate_terminates] says one more than the rows is enough; the
    command line passes its own argument on, and marks the console ([con_stuck])
    when that was too little. The re-signing needs entry numbers that fit an
    [int], as the code binds them.

    ** Not modelled

    The insides of libsodium, OpenSSL, SQLite and the vendored cJSON; wiping
    and locking of memory; a second connection to an open file, the pages that
    a session writes into the log of SQLite, and so what a crash leaves in it; the modes of the terminal, signal
    masks, the wait before the clipboard is cleared and the clipboard programs
    themselves (those of the Linux build are started); the tests, fuzzers and
    benchmarks. *)

From Stdlib Require Export ZArith Lia.
From Stdlib Require Import Strings.Byte.
From stdpp Require Export prelude gmap strings list sorting.

(** * Bytes *)

Abbreviation byte := Init.Byte.byte.
Abbreviation bytes := (list Init.Byte.byte).

#[export] Instance byte_eq_decision : EqDecision byte := Byte.byte_eq_dec.

#[export] Instance byte_countable : Countable byte :=
  inj_countable Byte.to_N Byte.of_N Byte.of_to_N.

#[export] Instance byte_inhabited : Inhabited byte := populate Byte.x00.

(** The unsigned value of a byte and the conversion [(unsigned char) z]. *)
Definition byte_z (b : byte) : Z := Z.of_N (Byte.to_N b).

Definition z_byte (z : Z) : byte :=
  match Byte.of_N (Z.to_N (z mod 256)) with
  | Some b => b
  | None => Byte.x00
  end.

(** A string literal as the array of its characters, without the final NUL. *)
Definition str (s : string) : bytes := String.list_byte_of_string s.

Lemma byte_z_bound b : (0 ≤ byte_z b < 256)%Z.
Proof. unfold byte_z. pose proof (Byte.to_N_bounded b). lia. Qed.

Lemma byte_z_z_byte z : byte_z (z_byte z) = (z mod 256)%Z.
Proof.
  unfold byte_z, z_byte.
  pose proof (Z.mod_pos_bound z 256 ltac:(lia)) as Hz.
  destruct (Byte.of_N _) as [b|] eqn:E.
  - apply Byte.to_of_N in E. lia.
  - apply Byte.of_N_None_iff in E. lia.
Qed.

Lemma z_byte_byte_z b : z_byte (byte_z b) = b.
Proof.
  unfold z_byte. rewrite Z.mod_small by apply byte_z_bound.
  unfold byte_z. rewrite N2Z.id, Byte.of_to_N. done.
Qed.

Lemma byte_z_inj b c : byte_z b = byte_z c → b = c.
Proof. intros H. rewrite <- (z_byte_byte_z b), H. apply z_byte_byte_z. Qed.

Lemma z_byte_inj_small x y :
  (0 ≤ x < 256)%Z → (0 ≤ y < 256)%Z → z_byte x = z_byte y → x = y.
Proof.
  intros Hx Hy H. apply (f_equal byte_z) in H. rewrite !byte_z_z_byte in H.
  rewrite !Z.mod_small in H; done.
Qed.

(** * Little-endian integers of [n] bytes *)

(** [for (i = 0; i < n; i++) out[i] = (unsigned char)(value >> (i * 8))]. *)
Definition write_le (n : nat) (v : Z) : bytes :=
  (λ i, z_byte (Z.shiftr v (8 * Z.of_nat i))) <$> seq 0 n.

(** [for (i = 0; i < n; i++) value |= in[i] << (i * 8)], the recursion runs
    over the array and carries the index. *)
Fixpoint read_le_from (i : nat) (l : bytes) : Z :=
  match l with
  | [] => 0
  | b :: l' => Z.lor (Z.shiftl (byte_z b) (8 * Z.of_nat i)) (read_le_from (S i) l')
  end.

Definition read_le (l : bytes) : Z := read_le_from 0 l.

Lemma length_write_le n v : length (write_le n v) = n.
Proof. unfold write_le. rewrite length_fmap, length_seq. done. Qed.

Lemma read_le_from_shift i l :
  read_le_from i l = Z.shiftl (read_le_from 0 l) (8 * Z.of_nat i).
Proof.
  revert i. induction l as [|b l IH]; intros i; simpl.
  - by rewrite Z.shiftl_0_l.
  - rewrite (IH (S i)), (IH 1%nat), Z.shiftl_lor, !Z.shiftl_shiftl by lia.
    f_equal; f_equal; lia.
Qed.

Lemma read_le_cons b l :
  read_le (b :: l) = Z.lor (byte_z b) (Z.shiftl (read_le l) 8).
Proof.
  unfold read_le. simpl. rewrite Z.shiftl_0_r, (read_le_from_shift 1). done.
Qed.

Lemma write_le_S n v : write_le (S n) v = z_byte v :: write_le n (Z.shiftr v 8).
Proof.
  unfold write_le. simpl. rewrite Z.shiftr_0_r. f_equal.
  rewrite <- seq_shift, <- list_fmap_compose. apply list_fmap_ext.
  intros i x _. simpl. rewrite Z.shiftr_shiftr by lia. do 2 f_equal. lia.
Qed.

Lemma lor_low_high x y k :
  (0 ≤ k)%Z → (0 ≤ x < 2 ^ k)%Z → Z.lor x (Z.shiftl y k) = (x + y * 2 ^ k)%Z.
Proof.
  intros Hk Hx. rewrite Z.shiftl_mul_pow2 by done.
  rewrite <- Z.add_lor_land. rewrite <- Z.shiftl_mul_pow2 by done.
  replace (Z.land x (Z.shiftl y k)) with 0%Z; [lia|].
  symmetry. apply Z.bits_inj'. intros i Hi.
  rewrite Z.land_spec, Z.bits_0, Z.shiftl_spec by done.
  destruct (decide (i < k)%Z).
  - rewrite (Z.testbit_neg_r y) by lia. apply andb_false_r.
  - destruct (decide (x = 0)%Z) as [->|]; [by rewrite Z.bits_0|].
    rewrite Z.bits_above_log2; [done|lia|].
    assert (Z.log2 x < k)%Z by (apply Z.log2_lt_pow2; lia). lia.
Qed.

Lemma read_le_cons_add b l : read_le (b :: l) = (byte_z b + read_le l * 256)%Z.
Proof.
  rewrite read_le_cons. apply (lor_low_high _ _ 8); [lia|apply byte_z_bound].
Qed.

Lemma read_write_le n v : read_le (write_le n v) = (v mod 2 ^ (8 * Z.of_nat n))%Z.
Proof.
  revert v. induction n as [|n IH]; intros v.
  - simpl. rewrite Z.mod_1_r. done.
  - rewrite write_le_S, read_le_cons_add, IH, byte_z_z_byte.
    rewrite Z.shiftr_div_pow2 by lia. change (2 ^ 8)%Z with 256%Z.
    replace (8 * Z.of_nat (S n))%Z with (8 + 8 * Z.of_nat n)%Z by lia.
    rewrite Z.pow_add_r by lia. change (2 ^ 8)%Z with 256%Z.
    pose proof (Z.pow_pos_nonneg 2 (8 * Z.of_nat n) ltac:(lia) ltac:(lia)).
    rewrite (Z.rem_mul_r v 256) by lia. ring.
Qed.

Lemma read_le_bound l : (0 ≤ read_le l < 2 ^ (8 * Z.of_nat (length l)))%Z.
Proof.
  induction l as [|b l IH]; [simpl; done|].
  rewrite read_le_cons_add. simpl length.
  replace (8 * Z.of_nat (S (length l)))%Z with (8 + 8 * Z.of_nat (length l))%Z by lia.
  rewrite Z.pow_add_r by lia. change (2 ^ 8)%Z with 256%Z.
  pose proof (byte_z_bound b). nia.
Qed.

Lemma write_read_le l : write_le (length l) (read_le l) = l.
Proof.
  induction l as [|b l IH]; [done|].
  simpl length. rewrite write_le_S, read_le_cons_add.
  pose proof (byte_z_bound b) as Hb. f_equal.
  - apply byte_z_inj. rewrite byte_z_z_byte, Z.mod_add by lia.
    by apply Z.mod_small.
  - rewrite Z.shiftr_div_pow2 by lia. change (2 ^ 8)%Z with 256%Z.
    rewrite Z.div_add by lia. rewrite Z.div_small by done. done.
Qed.

Lemma write_le_inj n v w :
  (0 ≤ v < 2 ^ (8 * Z.of_nat n))%Z → (0 ≤ w < 2 ^ (8 * Z.of_nat n))%Z →
  write_le n v = write_le n w → v = w.
Proof.
  intros Hv Hw H. apply (f_equal read_le) in H. rewrite !read_write_le in H.
  rewrite !Z.mod_small in H; done.
Qed.

(** * C strings and lexicographic comparison *)

(** The characters of an array up to the first NUL: what [strlen], [strcmp],
    [%s] and [memcpy(_, s, strlen(s))] see. *)
Fixpoint c_str (l : bytes) : bytes :=
  match l with
  | [] => []
  | b :: l' => if decide (b = Byte.x00) then [] else b :: c_str l'
  end.

Definition no_nul (l : bytes) : bool := bool_decide (Byte.x00 ∉ l).

Lemma c_str_no_nul l : Byte.x00 ∉ l → c_str l = l.
Proof.
  induction l as [|b l IH]; [done|]. intros H. simpl.
  rewrite not_elem_of_cons in H. destruct H as [H1 H2].
  rewrite decide_False by congruence. by rewrite IH.
Qed.

Lemma c_str_app_nul l l' : Byte.x00 ∉ l → c_str (l ++ Byte.x00 :: l') = l.
Proof.
  induction l as [|b l IH]; intros H; simpl.
  - done.
  - rewrite not_elem_of_cons in H. destruct H as [H1 H2].
    rewrite decide_False by congruence. by rewrite IH.
Qed.

Lemma c_str_nul_free l : Byte.x00 ∉ c_str l.
Proof.
  induction l as [|b l IH]; simpl; [by apply not_elem_of_nil|].
  case_decide; [by apply not_elem_of_nil|].
  apply not_elem_of_cons. split; [congruence|done].
Qed.

Lemma c_str_idemp l : c_str (c_str l) = c_str l.
Proof. apply c_str_no_nul, c_str_nul_free. Qed.

(** [strcmp] on two C strings, also the BINARY collation of SQLite: the
    comparison of the first differing unsigned characters, a proper prefix
    being smaller. *)
Fixpoint strcmp (a b : bytes) : comparison :=
  match a, b with
  | [], [] => Eq
  | [], _ :: _ => Lt
  | _ :: _, [] => Gt
  | x :: a', y :: b' =>
      match Z.compare (byte_z x) (byte_z y) with
      | Eq => strcmp a' b'
      | c => c
      end
  end.

Definition str_leb (a b : bytes) : bool :=
  match strcmp a b with Gt => false | _ => true end.

Definition str_ltb (a b : bytes) : bool :=
  match strcmp a b with Lt => true | _ => false end.

Lemma strcmp_refl a : strcmp a a = Eq.
Proof. induction a as [|x a IH]; simpl; [done|]. by rewrite Z.compare_refl. Qed.

Lemma strcmp_eq a b : strcmp a b = Eq → a = b.
Proof.
  revert b. induction a as [|x a IH]; intros [|y b]; simpl; try done.
  destruct (Z.compare_spec (byte_z x) (byte_z y)) as [E| |]; try done.
  intros H. apply byte_z_inj in E. subst. f_equal. by apply IH.
Qed.

Lemma strcmp_antisym a b : strcmp b a = CompOpp (strcmp a b).
Proof.
  revert b. induction a as [|x a IH]; intros [|y b]; simpl; try done.
  rewrite (Z.compare_antisym (byte_z x)).
  destruct (Z.compare (byte_z x) (byte_z y)); simpl; auto.
Qed.

Lemma strcmp_lt_trans a b c : strcmp a b = Lt → strcmp b c = Lt → strcmp a c = Lt.
Proof.
  revert b c. induction a as [|x a IH]; intros [|y b] [|z c]; simpl; try done.
  destruct (Z.compare_spec (byte_z x) (byte_z y)) as [E1|L1|];
  destruct (Z.compare_spec (byte_z y) (byte_z z)) as [E2|L2|];
  destruct (Z.compare_spec (byte_z x) (byte_z z)) as [E3|L3|]; try done; try lia.
  intros H1 H2. by eapply IH.
Qed.

Lemma strcmp_app_same p a b : strcmp (p ++ a) (p ++ b) = strcmp a b.
Proof. induction p as [|x p IH]; simpl; [done|]. by rewrite Z.compare_refl. Qed.

Lemma strcmp_app_len a b a' b' :
  length a = length b → strcmp a b = Lt → strcmp (a ++ a') (b ++ b') = Lt.
Proof.
  revert b. induction a as [|x a IH]; intros [|y b]; simpl; try done.
  intros Hl. destruct (Z.compare (byte_z x) (byte_z y)); try done. apply IH. lia.
Qed.

Lemma str_leb_refl a : str_leb a a = true.
Proof. unfold str_leb. by rewrite strcmp_refl. Qed.

Lemma str_leb_total a b : str_leb a b = true ∨ str_leb b a = true.
Proof.
  unfold str_leb. rewrite (strcmp_antisym a b). destruct (strcmp a b); simpl; auto.
Qed.

Lemma str_leb_trans a b c :
  str_leb a b = true → str_leb b c = true → str_leb a c = true.
Proof.
  unfold str_leb.
  destruct (strcmp a b) eqn:E1, (strcmp b c) eqn:E2; try done; intros _ _;
    try (apply strcmp_eq in E1; subst); try (apply strcmp_eq in E2; subst);
    rewrite ?E1, ?E2, ?strcmp_refl; try done.
  by rewrite (strcmp_lt_trans _ _ _ E1 E2).
Qed.

#[export] Instance str_le_dec a b : Decision (Is_true (str_leb a b)) := _.

(** * Decimal output of [printf] *)

Definition digit (d : Z) : byte := z_byte (48 + d).

(** [%u]: the digits of [z >= 0], most significant first; the fuel bounds the
    number of digits. *)
Fixpoint print_dec_fuel (fuel : nat) (z : Z) : bytes :=
  match fuel with
  | O => []
  | S f => (if (z <? 10)%Z then [] else print_dec_fuel f (z / 10)) ++ [digit (z mod 10)]
  end.

Definition print_dec (z : Z) : bytes := print_dec_fuel (S (Z.to_nat (Z.log2 z))) z.

(** [%0*u]. *)
Definition print_pad (w : nat) (z : Z) : bytes :=
  let d := print_dec z in replicate (w - length d) (digit 0) ++ d.

(** [%0*d]: the sign counts in the width. *)
Definition print_pad_signed (w : nat) (z : Z) : bytes :=
  if (z <? 0)%Z then str "-" ++ print_pad (w - 1) (- z) else print_pad w z.

(** Exactly [w] digits. *)
Fixpoint dec_fixed (w : nat) (z : Z) : bytes :=
  match w with
  | O => []
  | S w' => dec_fixed w' (z / 10) ++ [digit (z mod 10)]
  end.

(** The value of a digit string. *)
Definition read_dec (l : bytes) : Z :=
  foldl (λ acc b, (acc * 10 + (byte_z b - 48))%Z) 0%Z l.

Definition is_digit (b : byte) : Prop := (48 ≤ byte_z b ≤ 57)%Z.

Lemma byte_z_digit d : (0 ≤ d < 10)%Z → byte_z (digit d) = (48 + d)%Z.
Proof. intros H. unfold digit. rewrite byte_z_z_byte. apply Z.mod_small. lia. Qed.

Lemma is_digit_digit d : (0 ≤ d < 10)%Z → is_digit (digit d).
Proof. intros H. unfold is_digit. rewrite byte_z_digit by done. lia. Qed.

Lemma log2_div10 z : (10 ≤ z)%Z → (Z.log2 (z / 10) < Z.log2 z)%Z.
Proof.
  intros H. pose proof (Z.div_le_mono 10 z 10 ltac:(lia) H) as H1.
  rewrite Z.div_same in H1 by lia.
  assert (z / 10 * 2 ≤ z)%Z as H2 by (pose proof (Z.mul_div_le z 10); lia).
  pose proof (Z.log2_mul_pow2 (z / 10) 1 ltac:(lia) ltac:(lia)) as H3.
  change (2 ^ 1)%Z with 2%Z in H3.
  pose proof (Z.log2_le_mono _ _ H2). lia.
Qed.

Lemma print_dec_fuel_enough f g z :
  (0 ≤ z)%Z → (Z.log2 z < Z.of_nat f)%Z → (Z.log2 z < Z.of_nat g)%Z →
  print_dec_fuel f z = print_dec_fuel g z.
Proof.
  revert g z. induction f as [|f IH]; intros g z Hz Hf Hg.
  { pose proof (Z.log2_nonneg z). lia. }
  destruct g as [|g]. { pose proof (Z.log2_nonneg z). lia. }
  simpl. destruct (Z.ltb_spec z 10) as [|H10]; [done|]. f_equal.
  pose proof (log2_div10 z H10). pose proof (Z.div_pos z 10 Hz ltac:(lia)).
  apply IH; lia.
Qed.

Lemma print_dec_eq z :
  (0 ≤ z)%Z →
  print_dec z = (if (z <? 10)%Z then [] else print_dec (z / 10)) ++ [digit (z mod 10)].
Proof.
  intros Hz. unfold print_dec at 1. simpl.
  destruct (Z.ltb_spec z 10) as [|H10]; [done|]. f_equal.
  pose proof (log2_div10 z H10). pose proof (Z.div_pos z 10 Hz ltac:(lia)).
  pose proof (Z.log2_nonneg (z / 10)).
  unfold print_dec. apply print_dec_fuel_enough; lia.
Qed.

(** Induction on the decimal digits. *)
Lemma dec_ind (P : Z → Prop) :
  (∀ z, (0 ≤ z < 10)%Z → P z) →
  (∀ z, (10 ≤ z)%Z → P (z / 10)%Z → P z) →
  ∀ z, (0 ≤ z)%Z → P z.
Proof.
  intros Hb Hs z Hz. revert z Hz.
  refine (Zlt_0_ind _ _); intros z IH Hz.
  destruct (decide (z < 10)%Z); [apply Hb; lia|].
  apply Hs; [lia|]. apply IH.
  split; [apply Z.div_pos; lia|apply Z.div_lt; lia].
Qed.

Lemma print_dec_digits z : (0 ≤ z)%Z → Forall is_digit (print_dec z).
Proof.
  revert z. apply dec_ind; intros z Hz.
  - rewrite print_dec_eq by lia. rewrite (proj2 (Z.ltb_lt _ _)) by lia.
    repeat constructor; apply is_digit_digit, Z.mod_pos_bound; lia.
  - intros IH. rewrite print_dec_eq by lia. rewrite (proj2 (Z.ltb_ge _ _)) by lia.
    apply Forall_app; split; [done|].
    repeat constructor; apply is_digit_digit, Z.mod_pos_bound; lia.
Qed.

Lemma read_dec_app_digit l d :
  (0 ≤ d < 10)%Z → read_dec (l ++ [digit d]) = (read_dec l * 10 + d)%Z.
Proof.
  intros H. unfold read_dec. rewrite foldl_app. simpl. rewrite byte_z_digit by done. lia.
Qed.

Lemma read_print_dec z : (0 ≤ z)%Z → read_dec (print_dec z) = z.
Proof.
  revert z. apply dec_ind; intros z Hz.
  - rewrite print_dec_eq by lia. rewrite (proj2 (Z.ltb_lt _ _)) by lia.
    rewrite read_dec_app_digit by (apply Z.mod_pos_bound; lia).
    rewrite Z.mod_small by lia. done.
  - intros IH. rewrite print_dec_eq by lia. rewrite (proj2 (Z.ltb_ge _ _)) by lia.
    rewrite read_dec_app_digit, IH by (apply Z.mod_pos_bound; lia).
    pose proof (Z.div_mod z 10). lia.
Qed.

Lemma print_dec_inj x y :
  (0 ≤ x)%Z → (0 ≤ y)%Z → print_dec x = print_dec y → x = y.
Proof. intros Hx Hy H. rewrite <- (read_print_dec x), H, read_print_dec; done. Qed.

Lemma length_dec_fixed w z : length (dec_fixed w z) = w.
Proof.
  revert z. induction w as [|w IH]; intros z; simpl; [done|].
  rewrite length_app, IH. simpl. lia.
Qed.

Lemma dec_fixed_0 w : dec_fixed w 0 = replicate w (digit 0).
Proof.
  induction w as [|w IH]; [done|]. cbn [dec_fixed].
  change (0 / 10)%Z with 0%Z. change (0 mod 10)%Z with 0%Z.
  rewrite IH. rewrite <- replicate_S_end. done.
Qed.

Lemma print_pad_fixed w z :
  (0 < w)%nat → (0 ≤ z < 10 ^ Z.of_nat w)%Z → print_pad w z = dec_fixed w z.
Proof.
  revert z. induction w as [|w IH]; [lia|]. intros z _ Hz.
  unfold print_pad. rewrite print_dec_eq by lia. cbn [dec_fixed].
  rewrite Nat2Z.inj_succ, Z.pow_succ_r in Hz by lia.
  destruct (Z.ltb_spec z 10) as [Hs|Hs].
  - rewrite (Z.div_small z 10), dec_fixed_0 by lia. simpl.
    replace (w - 0)%nat with w by lia. done.
  - assert (0 < w)%nat as Hw.
    { destruct w; [|lia]. change (10 ^ Z.of_nat 0)%Z with 1%Z in Hz. lia. }
    rewrite <- IH; [|done|split; [apply Z.div_pos; lia|apply Z.div_lt_upper_bound; lia]].
    unfold print_pad. rewrite length_app. simpl. rewrite app_assoc.
    do 3 f_equal. lia.
Qed.

(** Numbers of the same width are ordered as their digits are. *)
Lemma strcmp_dec_fixed w x y :
  (0 ≤ x)%Z → (x < y < 10 ^ Z.of_nat w)%Z →
  strcmp (dec_fixed w x) (dec_fixed w y) = Lt.
Proof.
  revert x y. induction w as [|w IH]; intros x y Hx Hy.
  { change (10 ^ Z.of_nat 0)%Z with 1%Z in Hy. lia. }
  cbn [dec_fixed]. rewrite Nat2Z.inj_succ, Z.pow_succ_r in Hy by lia.
  destruct (decide (x / 10 < y / 10)%Z) as [Hd|Hd].
  - apply strcmp_app_len; [by rewrite !length_dec_fixed|].
    apply IH; [apply Z.div_pos; lia|].
    split; [done|apply Z.div_lt_upper_bound; lia].
  - assert (x / 10 = y / 10)%Z as Hq.
    { pose proof (Z.div_le_mono x y 10). lia. }
    rewrite Hq, strcmp_app_same. simpl.
    pose proof (Z.div_mod x 10). pose proof (Z.div_mod y 10).
    pose proof (Z.mod_pos_bound x 10). pose proof (Z.mod_pos_bound y 10).
    rewrite !byte_z_digit by lia.
    rewrite (proj2 (Z.compare_lt_iff _ _)) by lia. done.
Qed.

Lemma dec_fixed_digits w z : Forall is_digit (dec_fixed w z).
Proof.
  revert z. induction w as [|w IH]; intros z; simpl; [done|].
  apply Forall_app; split; [done|].
  repeat constructor; apply is_digit_digit, Z.mod_pos_bound; lia.
Qed.

Lemma read_dec_fixed w z :
  (0 ≤ z < 10 ^ Z.of_nat w)%Z → read_dec (dec_fixed w z) = z.
Proof.
  revert z. induction w as [|w IH]; intros z Hz.
  { change (10 ^ Z.of_nat 0)%Z with 1%Z in Hz. simpl. cbv. lia. }
  cbn [dec_fixed]. rewrite Nat2Z.inj_succ, Z.pow_succ_r in Hz by lia.
  rewrite read_dec_app_digit by (apply Z.mod_pos_bound; lia).
  rewrite IH; [pose proof (Z.div_mod z 10); lia|].
  split; [apply Z.div_pos; lia|apply Z.div_lt_upper_bound; lia].
Qed.

(** Big-endian value of an array. *)
Definition read_be (l : bytes) : Z := foldl (λ acc b, acc * 256 + byte_z b)%Z 0%Z l.

(** [%x] of a nibble and [%02x] of a byte. *)
Definition hex_digit (z : Z) : byte :=
  if (z <? 10)%Z then z_byte (48 + z) else z_byte (87 + z).

Definition print_x2 (b : byte) : bytes :=
  [hex_digit (byte_z b / 16); hex_digit (byte_z b mod 16)].

(** Fields of a fixed width compare by the first that differs. *)
Lemma strcmp_field w x y a b :
  (0 ≤ x)%Z → (x ≤ y < 10 ^ Z.of_nat w)%Z → (x = y → strcmp a b = Lt) →
  strcmp (dec_fixed w x ++ a) (dec_fixed w y ++ b) = Lt.
Proof.
  intros Hx Hy H. destruct (decide (x = y)) as [->|Hne].
  - rewrite strcmp_app_same. by apply H.
  - apply strcmp_app_len; [by rewrite !length_dec_fixed|].
    apply strcmp_dec_fixed; lia.
Qed.

(** * Integers of the machine *)

Definition UINT32_MAX : Z := 4294967295.
Definition UINT64_MAX : Z := 18446744073709551615.
Definition SIZE_MAX : Z := UINT64_MAX.
Definition INT_MAX : Z := 2147483647.
Definition INT_MIN : Z := -2147483648.
Definition INT64_MAX : Z := 9223372036854775807.
Definition LONG_MAX : Z := INT64_MAX.

(** Conversion to an unsigned type and to a two's complement signed type. *)
Definition wrap_u (w : Z) (z : Z) : Z := z mod 2 ^ w.
Definition wrap_s (w : Z) (z : Z) : Z := (z + 2 ^ (w - 1)) mod 2 ^ w - 2 ^ (w - 1).

Lemma wrap_u_small w z : (0 ≤ z < 2 ^ w)%Z → wrap_u w z = z.
Proof. apply Z.mod_small. Qed.

Lemma wrap_s_small w z :
  (0 < w)%Z → (- 2 ^ (w - 1) ≤ z < 2 ^ (w - 1))%Z → wrap_s w z = z.
Proof.
  intros Hw Hz. unfold wrap_s. rewrite Z.mod_small; [lia|].
  replace (2 ^ w)%Z with (2 ^ (w - 1) * 2)%Z; [lia|].
  rewrite Z.mul_comm, <- Z.pow_succ_r by lia. f_equal. lia.
Qed.

(** * Lists *)

Lemma Forall2_impl_in {A B} (P Q : A → B → Prop) l k :
  Forall2 P l k → (∀ x y, x ∈ l → P x y → Q x y) → Forall2 Q l k.
Proof.
  induction 1 as [|x y l k Hxy _ IH]; intros HPQ; constructor.
  - apply HPQ; [apply elem_of_cons; by left|done].
  - apply IH. intros a b Ha. apply HPQ, elem_of_cons. by right.
Qed.

Lemma filter_none {A} (P : A → Prop) `{∀ x, Decision (P x)} l :
  Forall (λ x, ¬ P x) l → filter P l = [].
Proof. induction 1; [done|]. by rewrite filter_cons_False. Qed.

Lemma filter_all {A} (P : A → Prop) `{∀ x, Decision (P x)} l :
  Forall P l → filter P l = l.
Proof. induction 1 as [|x l Hx _ IH]; [done|]. by rewrite filter_cons_True, IH. Qed.

(** The first element that satisfies a predicate: [SELECT ... LIMIT 1]. *)
Lemma find_first_Some {A} (P : A → Prop) `{∀ x, Decision (P x)} l x :
  snd <$> list_find P l = Some x → x ∈ l ∧ P x.
Proof.
  intros ([i y] & E & ->)%fmap_Some. apply list_find_Some in E as (Hi & HP & _).
  split; [by eapply list_elem_of_lookup_2|done].
Qed.

Lemma find_first_None {A} (P : A → Prop) `{∀ x, Decision (P x)} l :
  snd <$> list_find P l = None ↔ ∀ x, x ∈ l → ¬ P x.
Proof. by rewrite fmap_None, list_find_None, Forall_forall. Qed.

Lemma find_first_unique {A} (P : A → Prop) `{∀ x, Decision (P x)} l x :
  x ∈ l → P x → (∀ y, y ∈ l → P y → y = x) → snd <$> list_find P l = Some x.
Proof.
  intros Hx HP Hu. destruct (snd <$> list_find P l) as [y|] eqn:E.
  - apply find_first_Some in E as [Hy HPy]. f_equal. auto.
  - by apply find_first_None with (x := x) in E.
Qed.

(** The same search on a mapped list. *)
Lemma find_first_fmap {A B} (f : A → B) (P : B → Prop) (Q : A → Prop)
    `{∀ x, Decision (P x), ∀ x, Decision (Q x)} l :
  (∀ x, x ∈ l → P (f x) ↔ Q x) → snd <$> list_find P (f <$> l) = f <$> (snd <$> list_find Q l).
Proof.
  induction l as [|x l IH]; intros HPQ; [done|]. specialize (IH (λ y Hy, HPQ y (list_elem_of_further _ _ _ Hy))).
  pose proof (HPQ x (list_elem_of_here _ _)) as Hx. cbn [fmap list_fmap list_find].
  destruct (decide (P (f x))), (decide (Q x)); [done|tauto|tauto|].
  destruct (list_find P (f <$> l)) as [[]|], (list_find Q l) as [[]|]; simpl in *; congruence.
Qed.

Lemma filter_fmap {A B} (f : A → B) (P : B → Prop) `{∀ x, Decision (P x)} (l : list A) :
  filter P (f <$> l) = f <$> filter (λ x, P (f x)) l.
Proof.
  induction l as [|x l IH]; [done|]. cbn [fmap list_fmap].
  rewrite !filter_cons. case_decide; [|done]. by rewrite IH.
Qed.

(** * Tactics and hints of the development *)

Create HintDb fuin.
Create Rewrite HintDb fuin_len.

#[export] Hint Resolve byte_z_bound c_str_nul_free str_leb_refl : fuin.
#[export] Hint Rewrite length_write_le length_dec_fixed byte_z_z_byte : fuin_len.
#[export] Hint Rewrite @length_app @length_replicate @length_fmap @length_take
  @length_drop @length_rev @length_seq : fuin_len.

(** Lengths of concatenations of encoded fields. *)
Ltac len := autorewrite with fuin_len in *; simpl length in *; try lia.

(** Destruct the scrutinee of the first match of the goal, keeping the equation. *)
Ltac case_step :=
  match goal with
  | |- context [match ?x with _ => _ end] =>
      lazymatch x with
      | context [match _ with _ => _ end] => fail
      | _ => destruct x eqn:?
      end
  end.
