(* ===== verification/Status.v ===== *)
(** Status codes of the library ([enum sm_status] of include/utils.h), their
    messages, and the outcome of a fallible operation: a C function that
    returns [SM_OK] and fills its output parameters is [Ok] of those outputs,
    any other return value is [Err] of the status. *)

From S2P Require Import Prelude.

(** [enum sm_status] without [SM_OK]. *)
Inductive sm_error :=
  | SM_ERR_INVALID_ARGUMENT
  | SM_ERR_NOT_IMPLEMENTED
  | SM_ERR_CRYPTO
  | SM_ERR_STORAGE
  | SM_ERR_AUTH
  | SM_ERR_NOT_FOUND
  | SM_ERR_INPUT_TOO_LARGE.

#[export] Instance sm_error_eq_dec : EqDecision sm_error.
Proof. solve_decision. Defined.

Definition sm_error_code (s : sm_error) : Z :=
  match s with
  | SM_ERR_INVALID_ARGUMENT => -1
  | SM_ERR_NOT_IMPLEMENTED => -2
  | SM_ERR_CRYPTO => -3
  | SM_ERR_STORAGE => -4
  | SM_ERR_AUTH => -5
  | SM_ERR_NOT_FOUND => -6
  | SM_ERR_INPUT_TOO_LARGE => -7
  end.

Inductive outcome (A : Type) :=
  | Ok (a : A)
  | Err (s : sm_error).
Arguments Ok {A} a.
Arguments Err {A} s.

#[export] Instance outcome_eq_dec `{EqDecision A} : EqDecision (outcome A).
Proof. solve_decision. Defined.

(** The integer a C caller sees. *)
Definition status_code {A} (r : outcome A) : Z :=
  match r with Ok _ => 0 | Err s => sm_error_code s end.

Definition is_ok {A} (r : outcome A) : bool :=
  match r with Ok _ => true | Err _ => false end.

#[export] Instance outcome_ret : MRet outcome := λ A a, Ok a.
#[export] Instance outcome_bind : MBind outcome :=
  λ A B f m, match m with Ok a => f a | Err s => Err s end.

(** [if (!b) return s;] *)
Definition check (b : bool) (s : sm_error) : outcome unit :=
  if b then Ok () else Err s.

Definition from_option_or {A} (s : sm_error) (o : option A) : outcome A :=
  match o with Some a => Ok a | None => Err s end.

Definition utils_status_message (status : Z) : bytes :=
  if (status =? 0)%Z then str "ok"
  else if (status =? -1)%Z then str "invalid argument"
  else if (status =? -2)%Z then str "not implemented"
  else if (status =? -3)%Z then str "crypto error"
  else if (status =? -4)%Z then str "storage error"
  else if (status =? -5)%Z then str "authentication error"
  else if (status =? -6)%Z then str "not found"
  else if (status =? -7)%Z then str "input too large"
  else str "unknown error".

Lemma outcome_bind_ok {A B} (m : outcome A) (f : A → outcome B) b :
  m ≫= f = Ok b ↔ ∃ a, m = Ok a ∧ f a = Ok b.
Proof.
  split.
  - destruct m as [a|s]; simpl; [eauto|done].
  - intros (a & -> & H). done.
Qed.

Lemma outcome_seq_ok {B} (m : outcome unit) (n : outcome B) b :
  (m ;; n) = Ok b ↔ m = Ok () ∧ n = Ok b.
Proof. destruct m as [[]|s]; simpl; intuition congruence. Qed.

Lemma check_ok b s : check b s = Ok () ↔ b = true.
Proof. destruct b; done. Qed.

Lemma check_run {A} b s (o : outcome A) : b = true → (check b s ;; o) = o.
Proof. by intros ->. Qed.
Lemma ok_run {A B} (a : A) (f : A → outcome B) : (Ok a ≫= f) = f a.
Proof. done. Qed.

Lemma from_option_or_ok {A} s (o : option A) a : from_option_or s o = Ok a ↔ o = Some a.
Proof. destruct o; simpl; split; congruence. Qed.

(** Distinct errors have distinct codes, none of them 0, and each message
    names one code. *)
Lemma sm_error_code_inj s t : sm_error_code s = sm_error_code t → s = t.
Proof. destruct s, t; simpl; done. Qed.

Lemma status_code_ok {A} (r : outcome A) : status_code r = 0%Z ↔ is_ok r = true.
Proof. destruct r as [a|[]]; done. Qed.

(** Invert hypotheses of the form [outcome = Ok _] through binds and checks. *)
Ltac inv_outcome :=
  repeat match goal with
  | H : (_ ≫= _) = Ok _ |- _ =>
      apply outcome_bind_ok in H; destruct H as (? & ? & H)
  | H : check _ _ = Ok _ |- _ => apply check_ok in H
  | H : check _ _ = Ok ?u |- _ => destruct u; apply check_ok in H
  | H : from_option_or _ _ = Ok _ |- _ => apply from_option_or_ok in H
  | H : Ok _ = Ok _ |- _ => injection H as H; subst
  | H : Err _ = Ok _ |- _ => discriminate H
  | H : mret _ = Ok _ |- _ => unfold mret, outcome_ret in H
  end.
