(* ===== verification/Sodium.v ===== *)
(** The interface of the cryptographic libraries. libsodium, OpenSSL and the
    base64/hex codecs of libsodium are not part of the repository: their
    functions are the fields of the class [Crypto], and what the code relies
    on is the class [CryptoLaws] (output lengths, decryption inverts
    encryption, codecs are lossless). No law states a security property:
    theorems that depend on collision resistance exhibit the collision
    instead. *)

From S2P Require Import Prelude.

(** The three ciphers the code selects from ([crypto_engine_algorithm_t],
    [key_manager_algorithm_t]). *)
Inductive aead_alg := AES_256_GCM | XCHACHA20_POLY1305 | AEGIS_256.

#[export] Instance aead_alg_eq_dec : EqDecision aead_alg.
Proof. solve_decision. Defined.

(** Constants of the libraries. *)
Definition crypto_hash_sha256_BYTES : nat := 32.
Definition crypto_auth_BYTES : nat := 32.
Definition crypto_auth_KEYBYTES : nat := 32.
Definition crypto_kdf_KEYBYTES : nat := 32.
Definition crypto_pwhash_SALTBYTES : nat := 16.
Definition crypto_generichash_BYTES : nat := 32.
Definition crypto_aead_KEYBYTES : nat := 32.

Definition aead_NPUBBYTES (a : aead_alg) : nat :=
  match a with AES_256_GCM => 12 | XCHACHA20_POLY1305 => 24 | AEGIS_256 => 32 end.

Definition aead_ABYTES (a : aead_alg) : nat :=
  match a with AES_256_GCM => 16 | XCHACHA20_POLY1305 => 16 | AEGIS_256 => 32 end.

Class Crypto := {
  sha256 : bytes → bytes;
  crypto_auth : bytes → bytes → bytes;               (* message, key *)
  generichash : bytes → bytes → nat → bytes;         (* key, message, output length *)
  aead_encrypt : aead_alg → bytes → bytes → bytes → bytes → bytes;
                                                     (* key, nonce, aad, plaintext *)
  aead_decrypt : aead_alg → bytes → bytes → bytes → bytes → option bytes;
  pwhash : bytes → bytes → bytes;                    (* password, salt; Argon2id *)
  kdf_derive_from_key : nat → Z → bytes → bytes → bytes;
                                                     (* length, id, context, key *)
  hmac_sha1 : bytes → bytes → bytes;                 (* key, message *)
  base64_encode : bytes → bytes;
  base64_decode : bytes → option bytes;
  bin2hex : bytes → bytes;
  aes256gcm_is_available : bool;
  has_aegis : bool;                                  (* built with AEGIS-256 *)
}.

Class CryptoLaws (C : Crypto) : Prop := {
  length_sha256 m : length (sha256 m) = crypto_hash_sha256_BYTES;
  length_crypto_auth m k : length (crypto_auth m k) = crypto_auth_BYTES;
  length_generichash k m n : length (generichash k m n) = n;
  length_kdf n i c k : length (kdf_derive_from_key n i c k) = n;
  length_pwhash p s : length (pwhash p s) = crypto_kdf_KEYBYTES;
  length_hmac_sha1 k m : length (hmac_sha1 k m) = 20;
  aead_decrypt_encrypt a k n ad pt :
    aead_decrypt a k n ad (aead_encrypt a k n ad pt) = Some pt;
  length_aead_encrypt a k n ad pt :
    length (aead_encrypt a k n ad pt) = length pt + aead_ABYTES a;
  length_aead_decrypt a k n ad ct pt :
    aead_decrypt a k n ad ct = Some pt → length ct = length pt + aead_ABYTES a;
  base64_decode_encode m : base64_decode (base64_encode m) = Some m;
  length_base64_encode m : length (base64_encode m) = 4 * ((length m + 2) / 3);
  base64_alphabet m :
    Forall (λ b, b ≠ Byte.x00 ∧ b ≠ Byte.x2e) (base64_encode m);
  bin2hex_inj a b : bin2hex a = bin2hex b → a = b;
  length_bin2hex m : length (bin2hex m) = 2 * length m;
  bin2hex_no_nul m : Byte.x00 ∉ bin2hex m;
}.

#[export] Hint Rewrite @length_sha256 @length_crypto_auth @length_generichash
  @length_kdf @length_pwhash @length_aead_encrypt @length_bin2hex
  using (typeclasses eauto) : fuin_len.

(** [sodium_base64_ENCODED_LEN(n, ORIGINAL)] counts the final NUL. *)
Definition sodium_base64_ENCODED_LEN (n : nat) : nat := 4 * ((n + 2) / 3) + 1.

(** [crypto_auth_verify]: recompute the tag and compare. *)
Definition crypto_auth_verify `{Crypto} (tag m k : bytes) : bool :=
  bool_decide (tag = crypto_auth m k).

(** A pair of different messages with the same SHA-256 digest. *)
Definition sha256_collision `{Crypto} (p : bytes * bytes) : Prop :=
  p.1 ≠ p.2 ∧ sha256 p.1 = sha256 p.2.

(** * An executable instance

    Keyed mixing by a polynomial hash: no security, but all the laws. *)

Module Toy.

Definition mix (l : bytes) : Z :=
  foldl (λ acc b, (acc * 1000003 + byte_z b + 7) mod 2 ^ 61)%Z 17%Z l.

Definition expand (n : nat) (seed : Z) : bytes :=
  (λ i, z_byte (Z.shiftr (mix (write_le 8 (seed + 31 * Z.of_nat i))) 8)) <$> seq 0 n.

(** Unambiguous join of two fields. *)
Definition join (a b : bytes) : bytes :=
  write_le 8 (Z.of_nat (length a)) ++ a ++ b.

Definition tag (a : aead_alg) (k n ad pt : bytes) : bytes :=
  expand (aead_ABYTES a) (mix (join k (join n (join ad pt)))).

Definition encrypt (a : aead_alg) (k n ad pt : bytes) : bytes :=
  pt ++ tag a k n ad pt.

Definition decrypt (a : aead_alg) (k n ad ct : bytes) : option bytes :=
  let pt := take (length ct - aead_ABYTES a) ct in
  if decide (aead_ABYTES a ≤ length ct ∧
             drop (length ct - aead_ABYTES a) ct = tag a k n ad pt)
  then Some pt else None.

Definition hex (m : bytes) : bytes :=
  flat_map print_x2 m.

(** Base64 with padding, three bytes at a time. *)
Definition b64_sym (z : Z) : byte :=
  if (z <? 26)%Z then z_byte (65 + z)
  else if (z <? 52)%Z then z_byte (71 + z)
  else if (z <? 62)%Z then z_byte (z - 4)
  else if (z =? 62)%Z then z_byte 43 else z_byte 47.

Definition b64_val (b : byte) : option Z :=
  let z := byte_z b in
  if ((65 <=? z) && (z <=? 90))%Z then Some (z - 65)%Z
  else if ((97 <=? z) && (z <=? 122))%Z then Some (z - 71)%Z
  else if ((48 <=? z) && (z <=? 57))%Z then Some (z + 4)%Z
  else if (z =? 43)%Z then Some 62%Z
  else if (z =? 47)%Z then Some 63%Z else None.

Definition pad_char : byte := z_byte 61.

Fixpoint b64_encode (m : bytes) : bytes :=
  match m with
  | a :: b :: c :: m' =>
      let v := (byte_z a * 65536 + byte_z b * 256 + byte_z c)%Z in
      b64_sym (v / 262144) :: b64_sym (v / 4096 mod 64) ::
      b64_sym (v / 64 mod 64) :: b64_sym (v mod 64) :: b64_encode m'
  | [a; b] =>
      let v := (byte_z a * 65536 + byte_z b * 256)%Z in
      [b64_sym (v / 262144); b64_sym (v / 4096 mod 64); b64_sym (v / 64 mod 64); pad_char]
  | [a] =>
      let v := (byte_z a * 65536)%Z in
      [b64_sym (v / 262144); b64_sym (v / 4096 mod 64); pad_char; pad_char]
  | [] => []
  end.

Fixpoint b64_decode (l : bytes) : option bytes :=
  match l with
  | [] => Some []
  | p :: q :: r :: s :: l' =>
      vp ← b64_val p; vq ← b64_val q;
      if decide (r = pad_char ∧ s = pad_char ∧ l' = []) then
        Some [z_byte (vp * 4 + vq / 16)]
      else
        vr ← b64_val r;
        if decide (s = pad_char ∧ l' = []) then
          Some [z_byte (vp * 4 + vq / 16); z_byte (vq mod 16 * 16 + vr / 4)]
        else
          vs ← b64_val s;
          rest ← b64_decode l';
          Some (z_byte (vp * 4 + vq / 16) :: z_byte (vq mod 16 * 16 + vr / 4)
                :: z_byte (vr mod 4 * 64 + vs) :: rest)
  | _ => None
  end.

#[export] Instance crypto : Crypto := {|
  sha256 m := expand 32 (mix m);
  crypto_auth m k := expand 32 (mix (join k m));
  generichash k m n := expand n (mix (join k m));
  aead_encrypt := encrypt;
  aead_decrypt := decrypt;
  pwhash p s := expand 32 (mix (join p s));
  kdf_derive_from_key n i c k := expand n (mix (join c (join k (write_le 8 i))));
  hmac_sha1 k m := expand 20 (mix (join k m));
  base64_encode := b64_encode;
  base64_decode := b64_decode;
  bin2hex := hex;
  aes256gcm_is_available := true;
  has_aegis := true;
|}.

Lemma length_expand n s : length (expand n s) = n.
Proof. unfold expand. by rewrite length_fmap, length_seq. Qed.

Lemma length_tag a k n ad pt : length (tag a k n ad pt) = aead_ABYTES a.
Proof. apply length_expand. Qed.

Lemma decrypt_encrypt a k n ad pt : decrypt a k n ad (encrypt a k n ad pt) = Some pt.
Proof.
  unfold decrypt, encrypt. rewrite length_app, length_tag.
  replace (length pt + aead_ABYTES a - aead_ABYTES a) with (length pt) by lia.
  rewrite take_app_length, drop_app_length. by rewrite decide_True by (split; [lia|done]).
Qed.

Lemma decrypt_length a k n ad ct pt :
  decrypt a k n ad ct = Some pt → length ct = length pt + aead_ABYTES a.
Proof.
  unfold decrypt. case_decide as H; [|done]. intros [= <-].
  rewrite length_take. lia.
Qed.

Lemma hex_digit_inj x y :
  (0 ≤ x < 16)%Z → (0 ≤ y < 16)%Z → hex_digit x = hex_digit y → x = y.
Proof.
  intros Hx Hy. unfold hex_digit.
  destruct (Z.ltb_spec x 10), (Z.ltb_spec y 10); intros E%z_byte_inj_small; lia.
Qed.

Lemma hex_inj a b : hex a = hex b → a = b.
Proof.
  revert b. induction a as [|x a IH]; intros [|y b]; simpl; try done.
  pose proof (byte_z_bound x). pose proof (byte_z_bound y).
  intros [= H1 H2 H3]. f_equal; [|by apply IH].
  apply hex_digit_inj in H1; [|split; [apply Z.div_pos; lia|apply Z.div_lt_upper_bound; lia]..].
  apply hex_digit_inj in H2; [|apply Z.mod_pos_bound; lia..].
  apply byte_z_inj. rewrite (Z.div_mod (byte_z x) 16), (Z.div_mod (byte_z y) 16) by lia.
  by rewrite H1, H2.
Qed.

Lemma length_hex m : length (hex m) = 2 * length m.
Proof. induction m as [|x m IH]; simpl; [done|]. lia. Qed.

Lemma hex_digit_nonzero z : (0 ≤ z < 16)%Z → hex_digit z ≠ Byte.x00.
Proof.
  intros Hz H. apply (f_equal byte_z) in H. unfold hex_digit in H.
  change (byte_z Byte.x00) with 0%Z in H.
  destruct (Z.ltb_spec z 10); rewrite byte_z_z_byte, Z.mod_small in H; lia.
Qed.

Lemma hex_no_nul m : Byte.x00 ∉ hex m.
Proof.
  induction m as [|x m IH]; simpl; [apply not_elem_of_nil|].
  pose proof (byte_z_bound x).
  rewrite !not_elem_of_cons. split_and!; [| |done]; intros E; symmetry in E; revert E;
    apply hex_digit_nonzero.
  - split; [apply Z.div_pos; lia|apply Z.div_lt_upper_bound; lia].
  - apply Z.mod_pos_bound; lia.
Qed.

(** The sixty-four symbols, checked one by one. *)
Lemma b64_val_sym z : (0 ≤ z < 64)%Z → b64_val (b64_sym z) = Some z.
Proof.
  intros Hz.
  assert (Forall (λ n, b64_val (b64_sym (Z.of_nat n)) = Some (Z.of_nat n)) (seq 0 64)) as H.
  { apply (bool_decide_unpack _). vm_compute. exact I. }
  rewrite Forall_forall in H. rewrite <- (Z2Nat.id z) by lia.
  apply H. apply elem_of_seq. lia.
Qed.

Lemma b64_sym_ok z :
  (0 ≤ z < 64)%Z → b64_sym z ≠ pad_char ∧ b64_sym z ≠ Byte.x00 ∧ b64_sym z ≠ Byte.x2e.
Proof.
  intros Hz. pose proof (b64_val_sym z Hz) as H.
  split_and!; intros E; rewrite E in H; vm_compute in H; discriminate H.
Qed.

(** Induction three bytes at a time. *)
Lemma three_ind (P : bytes → Prop) :
  P [] → (∀ a, P [a]) → (∀ a b, P [a; b]) →
  (∀ a b c m, P m → P (a :: b :: c :: m)) → ∀ m, P m.
Proof.
  intros H0 H1 H2 H3. fix IH 1. intros [|a [|b [|c m]]]; [done..|].
  apply H3, IH.
Qed.

Lemma b64_decode_encode m : b64_decode (b64_encode m) = Some m.
Proof.
  induction m as [|a|a b|a b c m IH] using three_ind; [done|..];
    cbn [b64_encode b64_decode];
    pose proof (byte_z_bound a); try pose proof (byte_z_bound b);
    try pose proof (byte_z_bound c).
  - rewrite !b64_val_sym by (Z.div_mod_to_equations; lia).
    cbn [mbind option_bind]. rewrite decide_True by done. do 2 f_equal.
    apply byte_z_inj; rewrite byte_z_z_byte; Z.div_mod_to_equations; lia.
  - rewrite !b64_val_sym by (Z.div_mod_to_equations; lia).
    cbn [mbind option_bind]. rewrite decide_False.
    2:{ intros [E _]. revert E. apply b64_sym_ok. Z.div_mod_to_equations; lia. }
    cbn [mbind option_bind].
    rewrite decide_True by done. f_equal.
    f_equal; [|f_equal]; apply byte_z_inj; rewrite byte_z_z_byte;
      Z.div_mod_to_equations; lia.
  - rewrite !b64_val_sym by (Z.div_mod_to_equations; lia).
    cbn [mbind option_bind]. rewrite decide_False.
    2:{ intros (_ & E & _). revert E. apply b64_sym_ok. Z.div_mod_to_equations; lia. }
    cbn [mbind option_bind].
    rewrite decide_False.
    2:{ intros (E & _). revert E. apply b64_sym_ok. Z.div_mod_to_equations; lia. }
    cbn [mbind option_bind].
    rewrite IH. cbn [mbind option_bind]. f_equal.
    f_equal; [|f_equal; [|f_equal]]; apply byte_z_inj; rewrite byte_z_z_byte;
      Z.div_mod_to_equations; lia.
Qed.

Lemma length_b64_encode m : length (b64_encode m) = 4 * ((length m + 2) / 3).
Proof.
  induction m as [|a|a b|a b c m IH] using three_ind; [done..|].
  cbn [b64_encode length]. rewrite IH.
  replace (S (S (S (length m))) + 2) with (length m + 2 + 1 * 3) by lia.
  rewrite Nat.div_add by lia. lia.
Qed.

Lemma b64_alphabet m : Forall (λ b, b ≠ Byte.x00 ∧ b ≠ Byte.x2e) (b64_encode m).
Proof.
  induction m as [|a|a b|a b c m IH] using three_ind; cbn [b64_encode];
    try pose proof (byte_z_bound a); try pose proof (byte_z_bound b);
    try pose proof (byte_z_bound c);
    repeat constructor; try done;
    try (apply b64_sym_ok; Z.div_mod_to_equations; lia).
Qed.

#[export] Instance laws : CryptoLaws crypto.
Proof.
  split; intros; simpl.
  all: rewrite ?length_expand; try reflexivity.
  - apply decrypt_encrypt.
  - unfold encrypt. by rewrite length_app, length_tag.
  - by eapply decrypt_length.
  - apply b64_decode_encode.
  - apply length_b64_encode.
  - apply b64_alphabet.
  - by apply hex_inj.
  - apply length_hex.
  - apply hex_no_nul.
Qed.

End Toy.
