(* ===== verification/Schema.v ===== *)
(** The four tables of sql/schema.sql and the SQL statements the code runs on
    them, as functions on tables. A table is the list of its rows: the rows of
    [secrets] in insertion order, the rows of [audit_log] in the order of
    [entry_id], its INTEGER PRIMARY KEY. An insertion returns [None] when a
    constraint of the schema refuses it. Integer columns hold the 64-bit
    value; [column_int] is what [sqlite3_column_int] makes of it. *)

From S2P Require Import Prelude.

(** * Rows *)

Record secret_row := SecretRow {
  sr_id : bytes;
  sr_name : bytes;
  sr_name_nonce : bytes;
  sr_encrypted_name : bytes;
  sr_version : Z;
  sr_algorithm : bytes;
  sr_ciphertext : bytes;
  sr_encrypted_dek : bytes;
  sr_nonce : bytes;
  sr_dek_nonce : bytes;
  sr_key_commitment : bytes;
  sr_nonce_counter : Z;
  sr_created_at : bytes;
  sr_updated_at : bytes;
  sr_expires_at : option bytes;
  sr_rotation_interval : option Z;
  sr_is_archived : Z;
}.

Record audit_row := AuditRow {
  ar_entry_id : Z;
  ar_timestamp : bytes;
  ar_action : bytes;
  ar_actor : bytes;
  ar_target : bytes;
  ar_target_version : option Z;
  ar_result : bytes;
  ar_prev_hash : bytes;
  ar_entry_hash : bytes;
  ar_hmac_signature : bytes;
}.

Record database := Database {
  t_secrets : list secret_row;
  t_audit_log : list audit_row;
  t_metadata : gmap bytes bytes;
  t_auth_failures : list bytes;
}.

#[export] Instance secret_row_eq_dec : EqDecision secret_row.
Proof. solve_decision. Defined.
#[export] Instance audit_row_eq_dec : EqDecision audit_row.
Proof. solve_decision. Defined.

#[export] Instance database_eq_dec : EqDecision database.
Proof. solve_decision. Defined.

Definition empty_database : database := Database [] [] ∅ [].

(** [sqlite3_column_int] keeps the low 32 bits of the stored value. *)
Definition column_int (z : Z) : Z := wrap_s 32 z.

(** * Table [secrets] *)

(** CHECK constraints of one row. *)
Definition secret_row_checks (r : secret_row) : bool :=
  bool_decide (sr_algorithm r = str "AES-256-GCM" ∨
               sr_algorithm r = str "XChaCha20-Poly1305" ∨
               sr_algorithm r = str "AEGIS-256") &&
  match sr_rotation_interval r with None => true | Some z => (0 <? z)%Z end &&
  bool_decide (sr_is_archived r = 0%Z ∨ sr_is_archived r = 1%Z).

(** PRIMARY KEY (id), UNIQUE (name, version) and the partial unique index
    [idx_secrets_name_active] against an existing row. *)
Definition secret_row_conflicts (r q : secret_row) : bool :=
  bool_decide (sr_id r = sr_id q) ||
  bool_decide (sr_name r = sr_name q ∧ sr_version r = sr_version q) ||
  bool_decide (sr_name r = sr_name q ∧ sr_is_archived r = 0%Z ∧ sr_is_archived q = 0%Z).

(** [INSERT INTO secrets ...]. *)
Definition insert_secret_row (r : secret_row) (t : list secret_row) : option (list secret_row) :=
  if secret_row_checks r && negb (existsb (secret_row_conflicts r) t)
  then Some (t ++ [r]) else None.

Definition rows_named (name : bytes) (t : list secret_row) : list secret_row :=
  filter (λ r, sr_name r = name) t.

(** [MAX(f)] over a list of rows, [None] for SQL NULL. *)
Definition sql_max {A} (f : A → Z) (l : list A) : option Z :=
  foldr (λ r acc, Some (match acc with None => f r | Some m => Z.max (f r) m end)) None l.

(** [VAULT_SQL_ACTIVE_ROW]: not archived and of the highest version among the
    rows of the same name. *)
Definition active_row (t : list secret_row) (r : secret_row) : bool :=
  (sr_is_archived r =? 0)%Z &&
  bool_decide (Some (sr_version r) = sql_max sr_version (rows_named (sr_name r) t)).

Definition archive_row (updated_at : bytes) (r : secret_row) : secret_row :=
  SecretRow (sr_id r) (sr_name r) (sr_name_nonce r) (sr_encrypted_name r)
    (sr_version r) (sr_algorithm r) (sr_ciphertext r) (sr_encrypted_dek r)
    (sr_nonce r) (sr_dek_nonce r) (sr_key_commitment r) (sr_nonce_counter r)
    (sr_created_at r) updated_at (sr_expires_at r) (sr_rotation_interval r) 1.

Definition rewrap_row (encrypted_dek dek_nonce key_commitment : bytes) (r : secret_row) : secret_row :=
  SecretRow (sr_id r) (sr_name r) (sr_name_nonce r) (sr_encrypted_name r)
    (sr_version r) (sr_algorithm r) (sr_ciphertext r) encrypted_dek
    (sr_nonce r) dek_nonce key_commitment (sr_nonce_counter r)
    (sr_created_at r) (sr_updated_at r) (sr_expires_at r) (sr_rotation_interval r)
    (sr_is_archived r).

(** [UPDATE secrets SET ... WHERE p]: the new table and [sqlite3_changes]. *)
Definition update_where (p : secret_row → bool) (f : secret_row → secret_row)
    (t : list secret_row) : list secret_row * nat :=
  ((λ r, if p r then f r else r) <$> t, length (filter (λ r, Is_true (p r)) t)).

Definition with_secrets (t : list secret_row) (db : database) : database :=
  Database t (t_audit_log db) (t_metadata db) (t_auth_failures db).

(** * Table [audit_log] *)

Definition audit_actions : list bytes :=
  [str "CREATE"; str "READ"; str "UPDATE"; str "DELETE"; str "ROLLBACK";
   str "ROTATE_KEK"; str "ROTATE_DEK"; str "TOKEN_ISSUE"; str "TOKEN_REVOKE"].

Definition audit_row_checks (r : audit_row) : bool :=
  bool_decide (ar_action r ∈ audit_actions) &&
  bool_decide (ar_result r = str "SUCCESS" ∨ ar_result r = str "FAILURE").

(** Insertion at the position of the primary key. *)
Fixpoint insert_by_entry_id (r : audit_row) (t : list audit_row) : option (list audit_row) :=
  match t with
  | [] => Some [r]
  | q :: t' =>
      if (ar_entry_id r <? ar_entry_id q)%Z then Some (r :: q :: t')
      else if (ar_entry_id r =? ar_entry_id q)%Z then None
      else cons q <$> insert_by_entry_id r t'
  end.

(** [INSERT INTO audit_log ...]. *)
Definition insert_audit_row (r : audit_row) (t : list audit_row) : option (list audit_row) :=
  if audit_row_checks r then insert_by_entry_id r t else None.

(** [UPDATE audit_log SET hmac_signature = ? WHERE entry_id = ?]. *)
Definition sign_row (signature : bytes) (r : audit_row) : audit_row :=
  AuditRow (ar_entry_id r) (ar_timestamp r) (ar_action r) (ar_actor r)
    (ar_target r) (ar_target_version r) (ar_result r) (ar_prev_hash r)
    (ar_entry_hash r) signature.

Definition update_signature (entry_id : Z) (signature : bytes) (t : list audit_row)
  : list audit_row * nat :=
  ((λ r, if (ar_entry_id r =? entry_id)%Z then sign_row signature r else r) <$> t,
   length (filter (λ r, ar_entry_id r = entry_id) t)).

Definition with_audit_log (t : list audit_row) (db : database) : database :=
  Database (t_secrets db) t (t_metadata db) (t_auth_failures db).

(** The primary key orders the table. *)
Definition audit_ordered (t : list audit_row) : Prop :=
  StronglySorted (λ a b, (ar_entry_id a < ar_entry_id b)%Z) t.

(** * Tables [metadata] and [auth_failures] *)

(** [INSERT OR REPLACE INTO metadata (key, value) VALUES (?, ?)]. *)
Definition put_metadata (key value : bytes) (db : database) : database :=
  Database (t_secrets db) (t_audit_log db) (<[key := value]> (t_metadata db))
    (t_auth_failures db).

Definition add_auth_failure (timestamp : bytes) (db : database) : database :=
  Database (t_secrets db) (t_audit_log db) (t_metadata db)
    (t_auth_failures db ++ [timestamp]).

(** * The catalogue of a file

    What SQLite reports of a database file: the names of its tables, the rows
    of PRAGMA table_info and of PRAGMA index_list, without the indexes that
    SQLite makes itself. *)

Record column_info := ColumnInfo {
  ci_name : bytes;
  ci_type : bytes;
  ci_not_null : bool;
  ci_primary_key : bool;
}.

Record index_info := IndexInfo {
  ix_name : bytes;
  ix_unique : bool;
  ix_partial : bool;
}.

Record catalogue := Catalogue {
  cat_tables : list bytes;
  cat_columns : bytes → list column_info;
  cat_indexes : bytes → list index_info;
}.

(** * Lemmas *)

Lemma sql_max_app {A} (f : A → Z) l r :
  sql_max f (l ++ [r]) = Some (match sql_max f l with None => f r | Some m => Z.max m (f r) end).
Proof.
  induction l as [|q l IH]; simpl; [done|]. rewrite IH.
  destruct (sql_max f l) as [m|]; simpl; f_equal; lia.
Qed.

Lemma sql_max_spec {A} (f : A → Z) l m :
  sql_max f l = Some m → (∃ r, r ∈ l ∧ f r = m) ∧ ∀ r, r ∈ l → (f r ≤ m)%Z.
Proof.
  revert m. induction l as [|q l IH]; simpl; [done|]. intros m [= <-].
  destruct (sql_max f l) as [m'|] eqn:E.
  - destruct (IH m' eq_refl) as [(r & Hr & <-) Hle]. split.
    + destruct (Z.max_spec (f q) (f r)) as [[_ ->]|[_ ->]];
        [exists r|exists q]; split; try done; apply elem_of_cons; auto.
    + intros x [->|Hx]%elem_of_cons; [lia|]. specialize (Hle x Hx). lia.
  - destruct l as [|x l]; [|done]. split.
    { exists q. split; [apply list_elem_of_singleton|]; done. }
    intros x ->%list_elem_of_singleton. lia.
Qed.

Lemma sql_max_None {A} (f : A → Z) l : sql_max f l = None ↔ l = [].
Proof. destruct l; simpl; done. Qed.

Lemma insert_by_entry_id_last r t :
  Forall (λ q, (ar_entry_id q < ar_entry_id r)%Z) t →
  insert_by_entry_id r t = Some (t ++ [r]).
Proof.
  induction 1 as [|q t Hq _ IH]; simpl; [done|].
  rewrite (proj2 (Z.ltb_ge _ _)), (proj2 (Z.eqb_neq _ _)) by lia. by rewrite IH.
Qed.

Lemma audit_ordered_app_last t r :
  audit_ordered t → Forall (λ q, (ar_entry_id q < ar_entry_id r)%Z) t →
  audit_ordered (t ++ [r]).
Proof.
  unfold audit_ordered. induction 1 as [|q t Ht IH Hq]; intros Hr; simpl.
  - repeat constructor.
  - apply Forall_cons in Hr as [Hqr Hr]. constructor; [by apply IH|].
    apply Forall_app; split; [done|by constructor].
Qed.

(** The primary key identifies the position of a row. *)
Lemma audit_ordered_NoDup t : audit_ordered t → NoDup (ar_entry_id <$> t).
Proof.
  induction 1 as [|q t Ht IH Hq]; simpl; [constructor|].
  apply NoDup_cons. split; [|done]. intros (r & E & Hr)%list_elem_of_fmap.
  rewrite Forall_forall in Hq. specialize (Hq r Hr). lia.
Qed.

Lemma audit_ordered_inj t i j r q :
  audit_ordered t → t !! i = Some r → t !! j = Some q → ar_entry_id r = ar_entry_id q → i = j.
Proof.
  intros Ht Hi Hj E. eapply (NoDup_lookup _ _ _ (ar_entry_id r) (audit_ordered_NoDup _ Ht)).
  - by rewrite list_lookup_fmap, Hi.
  - by rewrite list_lookup_fmap, Hj, E.
Qed.

Lemma update_signature_unique t entry_id s r :
  audit_ordered t → r ∈ t → ar_entry_id r = entry_id →
  (update_signature entry_id s t).2 = 1%nat.
Proof.
  intros Ht Hr <-. unfold update_signature. simpl.
  induction Ht as [|q t Ht IH Hq]; [by apply not_elem_of_nil in Hr|].
  apply elem_of_cons in Hr as [->|Hr].
  - rewrite filter_cons_True by done. simpl. f_equal.
    rewrite filter_none; [done|]. eapply Forall_impl; [done|]. simpl. lia.
  - rewrite filter_cons_False; [by apply IH|].
    rewrite Forall_forall in Hq. specialize (Hq _ Hr). lia.
Qed.
