(* ===== verification/State.v ===== *)
(** The state the library works on and the monad its stateful functions are
    written in. The state ([world]) holds the database connection, the global
    session of vault.c ([g_subkeys], [g_unlocked]), the files of the owner and
    the positions in the environment. The environment ([env]) supplies what
    the program reads from outside: the clock, the random bytes, and for each
    call of a library (sqlite3, libsodium, an allocation) whether it fails.
    Theorems quantify over every environment, so over every combination of
    failing calls; [healthy] environments are those where no call fails. *)

From S2P Require Import Prelude Status Schema.

(** * Connection

    [conn_cur] is what statements of the connection see, [conn_committed]
    what is durable: they differ only inside a transaction. A statement that
    fails has no effect (SQLite undoes it). *)

Record connection := Connection {
  conn_cur : database;
  conn_committed : database;
  conn_in_tx : bool;
}.

(** [kdf_subkeys_t] of include/kdf.h. *)
Record kdf_subkeys_t := Subkeys {
  kek_enc : bytes;
  kek_audit : bytes;
  kek_token : bytes;
  kek_meta : bytes;
}.

(** What a directory entry is: a regular file, a symbolic link to another
    entry, a directory, or something else (a device, a socket). *)
Inductive file_kind := Regular | Symlink (target : bytes) | Directory | Special.

(** A file as [stat] and [read] show it. *)
Record file := File {
  f_kind : file_kind;
  f_content : bytes;
  f_owned : bool;
  f_mode : Z;
}.

(** The file the open connection works on: its entry, the schema it has, and
    whether the program has run statements that may change the schema. *)
Record database_file := DatabaseFile {
  df_entry : bytes;
  df_catalogue : catalogue;
  df_changed : bool;
}.

(** The directory entries by their resolved paths, and the file of the open
    connection; without a connection the latter says nothing. *)
Record disk := Disk {
  d_files : gmap bytes file;
  d_database : database_file;
}.

Record world := World {
  w_conn : option connection;
  w_subkeys : option kdf_subkeys_t;
  w_unlocked : bool;
  w_disk : disk;
  w_ticks : nat;
  w_draws : nat;
  w_calls : nat;
}.

Record env := Env {
  env_clock : nat → Z;
  env_random : nat → nat → byte;
  env_uniform : nat → Z;
  env_fault : nat → bool;
}.

Definition healthy (e : env) : Prop := ∀ n, env_fault e n = false.

Definition set_conn (c : option connection) (w : world) : world :=
  World c (w_subkeys w) (w_unlocked w) (w_disk w) (w_ticks w) (w_draws w) (w_calls w).
Definition set_session (k : option kdf_subkeys_t) (u : bool) (w : world) : world :=
  World (w_conn w) k u (w_disk w) (w_ticks w) (w_draws w) (w_calls w).
Definition set_disk (d : disk) (w : world) : world :=
  World (w_conn w) (w_subkeys w) (w_unlocked w) d (w_ticks w) (w_draws w) (w_calls w).
Definition tick (w : world) : world :=
  World (w_conn w) (w_subkeys w) (w_unlocked w) (w_disk w) (S (w_ticks w)) (w_draws w) (w_calls w).
Definition draw (w : world) : world :=
  World (w_conn w) (w_subkeys w) (w_unlocked w) (w_disk w) (w_ticks w) (S (w_draws w)) (w_calls w).
Definition called (w : world) : world :=
  World (w_conn w) (w_subkeys w) (w_unlocked w) (w_disk w) (w_ticks w) (w_draws w) (S (w_calls w)).

(** * The monad *)

Definition M (A : Type) : Type := env → world → outcome A * world.

#[export] Instance M_ret : MRet M := λ A a e w, (Ok a, w).
#[export] Instance M_bind : MBind M := λ A B f m e w,
  match m e w with
  | (Ok a, w') => f a e w'
  | (Err s, w') => (Err s, w')
  end.
#[global] Typeclasses Opaque M.

Definition throw {A} (s : sm_error) : M A := λ e w, (Err s, w).
Definition lift {A} (o : outcome A) : M A := λ e w, (o, w).
Definition get_world : M world := λ e w, (Ok w, w).
Definition put_world (w' : world) : M unit := λ e w, (Ok (), w').

(** [if (!b) return s;] *)
Definition guard_or (b : bool) (s : sm_error) : M unit := lift (check b s).

(** Run [m] and return its outcome as a value, never failing: [(void)f()]
    and the calls whose status is inspected. *)
Definition try {A} (m : M A) : M (outcome A) := λ e w,
  let '(r, w') := m e w in (Ok r, w').

(** Every error of [m] is reported as [s]. *)
Definition as_status {A} (s : sm_error) (m : M A) : M A := λ e w,
  match m e w with
  | (Ok a, w') => (Ok a, w')
  | (Err _, w') => (Err s, w')
  end.

(** A library call that may fail, reported with status [s]. *)
Definition lib_call (s : sm_error) : M unit := λ e w,
  (if env_fault e (w_calls w) then Err s else Ok (), called w).

(** [randombytes_buf(p, n)]: it has no error. *)
Definition randombytes_buf (n : nat) : M bytes := λ e w,
  (Ok ((λ i, env_random e (w_draws w) i) <$> seq 0 n), draw w).

(** [randombytes_uniform(upper)]: below [upper]. *)
Definition randombytes_uniform (upper : Z) : M Z := λ e w,
  (Ok (env_uniform e (w_draws w) mod upper)%Z, draw w).

(** [time(NULL)]: -1 on error. *)
Definition time_null : M Z := λ e w, (Ok (env_clock e (w_ticks w)), tick w).

(** [for (i = 0; i < n; i++)] over the elements of a list. *)
Fixpoint for_each {A} (f : A → M unit) (l : list A) : M unit :=
  match l with
  | [] => mret ()
  | x :: l' => f x ;; for_each f l'
  end.

Fixpoint fold_m {A B} (f : B → A → M B) (b : B) (l : list A) : M B :=
  match l with
  | [] => mret b
  | x :: l' => b' ← f b x; fold_m f b' l'
  end.

(** * Statements *)

(** [storage_get_db() == NULL] is an invalid argument for every caller. *)
Definition require_db : M unit := λ e w,
  (match w_conn w with Some _ => Ok () | None => Err SM_ERR_INVALID_ARGUMENT end, w).

(** A SELECT: prepare, bind, step and finalize, any of which may fail. *)
Definition sql_query {A} (q : database → A) : M A := λ e w,
  match w_conn w with
  | None => (Err SM_ERR_INVALID_ARGUMENT, w)
  | Some c =>
      (if env_fault e (w_calls w) then Err SM_ERR_STORAGE else Ok (q (conn_cur c)), called w)
  end.

(** A statement that writes: it fails without effect when a call fails or a
    constraint refuses it; outside a transaction it is durable at once. The
    result is what the caller reads of it ([sqlite3_changes]). *)
Definition sql_exec {A} (u : database → option (database * A)) : M A := λ e w,
  match w_conn w with
  | None => (Err SM_ERR_INVALID_ARGUMENT, w)
  | Some c =>
      if env_fault e (w_calls w) then (Err SM_ERR_STORAGE, called w)
      else match u (conn_cur c) with
           | None => (Err SM_ERR_STORAGE, called w)
           | Some (db, a) =>
               (Ok a, set_conn (Some (Connection db
                        (if conn_in_tx c then conn_committed c else db)
                        (conn_in_tx c))) (called w))
           end
  end.

(** * What a computation may change

    [Keeps R m]: running [m] relates the worlds before and after by [R],
    whatever its outcome. The relation of a sequence follows from those of
    its parts when [R] is a preorder. *)

Class Keeps {A} (R : relation world) (m : M A) : Prop :=
  keeps : ∀ e w, R w (m e w).2.

(** The connection, the session and the files are untouched. *)
Definition same_state (w w' : world) : Prop :=
  w_conn w' = w_conn w ∧ w_subkeys w' = w_subkeys w ∧
  w_unlocked w' = w_unlocked w ∧ w_disk w' = w_disk w.

(** The session and the files are untouched; an open transaction stays open
    and nothing becomes durable. *)
Definition in_transaction (w w' : world) : Prop :=
  w_subkeys w' = w_subkeys w ∧ w_unlocked w' = w_unlocked w ∧ w_disk w' = w_disk w ∧
  match w_conn w with
  | None => w_conn w' = None
  | Some c => ∃ c', w_conn w' = Some c' ∧ conn_in_tx c' = conn_in_tx c ∧
                    (conn_in_tx c = true → conn_committed c' = conn_committed c)
  end.

(** Session, files and the existence of the connection are untouched. *)
Definition same_session (w w' : world) : Prop :=
  w_subkeys w' = w_subkeys w ∧ w_unlocked w' = w_unlocked w ∧ w_disk w' = w_disk w ∧
  (w_conn w' = None ↔ w_conn w = None).

#[export] Instance same_state_preorder : PreOrder same_state.
Proof. split; [intros w; by unfold same_state|]. intros a b c. unfold same_state. intuition congruence. Qed.

#[export] Instance in_transaction_preorder : PreOrder in_transaction.
Proof.
  split.
  - intros w. unfold in_transaction. split_and!; try done. destruct (w_conn w); eauto.
  - intros a b c (Ha1 & Ha2 & Ha3 & Ha) (Hb1 & Hb2 & Hb3 & Hb). unfold in_transaction.
    split_and!; try congruence. destruct (w_conn a) as [ca|].
    + destruct Ha as (cb & Eb & Htx & Hc). rewrite Eb in Hb.
      destruct Hb as (cc & Ec & Htx' & Hc'). exists cc. split_and!; [done|congruence|].
      intros E. rewrite Hc', Hc; congruence.
    + by rewrite Ha in Hb.
Qed.

#[export] Instance same_session_preorder : PreOrder same_session.
Proof.
  split.
  - intros w. unfold same_session. by split_and!.
  - intros a b c. unfold same_session. intuition congruence.
Qed.

Lemma same_state_in_transaction w w' : same_state w w' → in_transaction w w'.
Proof.
  intros (H1 & H2 & H3 & H4). unfold in_transaction. split_and!; try done.
  rewrite H1. destruct (w_conn w); eauto.
Qed.

Lemma in_transaction_same_session w w' : in_transaction w w' → same_session w w'.
Proof.
  intros (H1 & H2 & H3 & H4). unfold same_session. split_and!; try done.
  destruct (w_conn w); [destruct H4 as (c' & -> & _)|rewrite H4]; done.
Qed.

#[export] Instance keeps_ret {A} R `{!PreOrder R} (a : A) : Keeps R (mret a).
Proof. intros e w. simpl. reflexivity. Qed.
#[export] Instance keeps_throw {A} R `{!PreOrder R} s : Keeps R (throw s : M A).
Proof. intros e w. simpl. reflexivity. Qed.
#[export] Instance keeps_lift {A} R `{!PreOrder R} (o : outcome A) : Keeps R (lift o).
Proof. intros e w. simpl. reflexivity. Qed.
#[export] Instance keeps_guard R `{!PreOrder R} b s : Keeps R (guard_or b s).
Proof. apply _. Qed.
#[export] Instance keeps_get_world R `{!PreOrder R} : Keeps R get_world.
Proof. intros e w. simpl. reflexivity. Qed.

#[export] Instance keeps_bind {A B} R `{!PreOrder R} (m : M A) (f : A → M B) :
  Keeps R m → (∀ a, Keeps R (f a)) → Keeps R (m ≫= f).
Proof.
  intros Hm Hf e w. unfold mbind, M_bind. pose proof (Hm e w) as H.
  destruct (m e w) as [[a|s] w']; simpl in *; [|done].
  etrans; [done|apply Hf].
Qed.

#[export] Instance keeps_try {A} R (m : M A) : Keeps R m → Keeps R (try m).
Proof. intros Hm e w. unfold try. pose proof (Hm e w). by destruct (m e w). Qed.

#[export] Instance keeps_as_status {A} R s (m : M A) : Keeps R m → Keeps R (as_status s m).
Proof. intros Hm e w. unfold as_status. pose proof (Hm e w). by destruct (m e w) as [[]]. Qed.

#[export] Instance keeps_if {A} R (b : bool) (m n : M A) :
  Keeps R m → Keeps R n → Keeps R (if b then m else n).
Proof. by destruct b. Qed.

#[export] Instance keeps_option {A B} R (o : option B) (f : B → M A) (n : M A) :
  (∀ b, Keeps R (f b)) → Keeps R n →
  Keeps R (match o with Some b => f b | None => n end).
Proof. by destruct o. Qed.

#[export] Instance keeps_outcome {A B} R (o : outcome B) (f : B → M A) (g : sm_error → M A) :
  (∀ b, Keeps R (f b)) → (∀ s, Keeps R (g s)) →
  Keeps R (match o with Ok b => f b | Err s => g s end).
Proof. by destruct o. Qed.

#[export] Instance keeps_pair {A B C} R (p : B * C) (f : B → C → M A) :
  (∀ b c, Keeps R (f b c)) → Keeps R (let '(b, c) := p in f b c).
Proof. by destruct p. Qed.

#[export] Instance keeps_for_each {A} R `{!PreOrder R} (f : A → M unit) l :
  (∀ x, Keeps R (f x)) → Keeps R (for_each f l).
Proof. intros Hf. induction l; simpl; apply _. Qed.

#[export] Instance keeps_fold_m {A B} R `{!PreOrder R} (f : B → A → M B) b l :
  (∀ b x, Keeps R (f b x)) → Keeps R (fold_m f b l).
Proof. intros Hf. revert b. induction l; intros b; simpl; apply _. Qed.

#[export] Instance keeps_lib_call s : Keeps same_state (lib_call s).
Proof. intros e w. by unfold same_state. Qed.
#[export] Instance keeps_randombytes_buf n : Keeps same_state (randombytes_buf n).
Proof. intros e w. by unfold same_state. Qed.
#[export] Instance keeps_randombytes_uniform n : Keeps same_state (randombytes_uniform n).
Proof. intros e w. by unfold same_state. Qed.
#[export] Instance keeps_time_null : Keeps same_state time_null.
Proof. intros e w. by unfold same_state. Qed.
#[export] Instance keeps_require_db : Keeps same_state require_db.
Proof. intros e w. by unfold same_state. Qed.
#[export] Instance keeps_sql_query {A} (q : database → A) : Keeps same_state (sql_query q).
Proof. intros e w. unfold sql_query. unfold same_state. destruct (w_conn w) eqn:E; by split_and!. Qed.

#[export] Instance keeps_sql_exec {A} (u : database → option (database * A)) :
  Keeps in_transaction (sql_exec u).
Proof.
  intros e w. unfold sql_exec.
  destruct (w_conn w) as [c|] eqn:E; [|reflexivity].
  destruct (env_fault _ _); [apply same_state_in_transaction; by unfold same_state|].
  destruct (u _) as [[db a]|]; [|apply same_state_in_transaction; by unfold same_state].
  unfold in_transaction. simpl. rewrite E. split_and!; try done.
  eexists. split_and!; [done..|]. simpl. by intros ->.
Qed.

(** A computation that keeps the state keeps the weaker relations. *)
#[export] Instance keeps_weaken_tx {A} (m : M A) :
  Keeps same_state m → Keeps in_transaction m | 10.
Proof. intros H e w. by apply same_state_in_transaction. Qed.
#[export] Instance keeps_weaken_session {A} (m : M A) :
  Keeps in_transaction m → Keeps same_session m | 10.
Proof. intros H e w. by apply in_transaction_same_session. Qed.

(** [Keeps] goals: case on matches the instances do not cover. *)
Ltac keeps_tac :=
  repeat first
    [ apply _
    | progress intros
    | apply keeps_bind; [apply _| |]
    | match goal with
      | |- Keeps _ (match ?x with _ => _ end) => destruct x
      | |- Keeps _ (match ?x with _ => _ end _) => destruct x
      | |- Keeps _ (let '(_, _) := ?x in _) => destruct x
      end ].

(** * Reading results *)

Lemma bind_ok {A B} (m : M A) (f : A → M B) e w b w' :
  (m ≫= f) e w = (Ok b, w') ↔ ∃ a w1, m e w = (Ok a, w1) ∧ f a e w1 = (Ok b, w').
Proof.
  unfold mbind, M_bind. split.
  - destruct (m e w) as [[a|s] w1]; [eauto|congruence].
  - intros (a & w1 & -> & H). done.
Qed.

Lemma bind_run {A B} (m : M A) (f : A → M B) e w a w1 :
  m e w = (Ok a, w1) → (m ≫= f) e w = f a e w1.
Proof. intros H. unfold mbind, M_bind. by rewrite H. Qed.

Lemma bind_run_err {A B} (m : M A) (f : A → M B) e w s w1 :
  m e w = (Err s, w1) → (m ≫= f) e w = (Err s, w1).
Proof. intros H. unfold mbind, M_bind. by rewrite H. Qed.

Lemma ret_ok {A} (a b : A) (e : env) (w w' : world) :
  (mret a : M A) e w = (Ok b, w') → b = a ∧ w' = w.
Proof. by intros [= <- <-]. Qed.

Lemma guard_ok b s e w u w' : guard_or b s e w = (Ok u, w') ↔ b = true ∧ w' = w.
Proof.
  unfold guard_or, lift, check. destruct b, u; intuition congruence.
Qed.

Lemma as_status_ok {A} s (m : M A) e w a w' :
  as_status s m e w = (Ok a, w') ↔ m e w = (Ok a, w').
Proof. unfold as_status. destruct (m e w) as [[b|t] w1]; naive_solver congruence. Qed.

Lemma lib_call_ok s e w u w' :
  lib_call s e w = (Ok u, w') ↔ env_fault e (w_calls w) = false ∧ w' = called w.
Proof.
  unfold lib_call. destruct (env_fault _ _), u; intuition congruence.
Qed.

Lemma require_db_ok e w u w' :
  require_db e w = (Ok u, w') → (∃ c, w_conn w = Some c) ∧ w' = w.
Proof. unfold require_db. destruct (w_conn w); intros [= <- <-]; eauto. Qed.

Lemma randombytes_buf_ok n e w r w' :
  randombytes_buf n e w = (Ok r, w') → length r = n ∧ w' = draw w.
Proof. unfold randombytes_buf. intros [= <- <-]. split; [len|done]. Qed.

Lemma keeps_run {A} R (m : M A) `{!Keeps R m} e w r w' : m e w = (r, w') → R w w'.
Proof. intros H. pose proof (keeps (m := m) e w) as K. by rewrite H in K. Qed.

(** In a healthy environment a library call only counts. *)
Lemma lib_call_healthy e w s : healthy e → lib_call s e w = (Ok (), called w).
Proof. intros H. unfold lib_call. by rewrite H. Qed.

(** One step of a run: a guard that holds, a library call that succeeds. *)
Lemma guard_run {A} b s (m : M A) e w : b = true → (guard_or b s ;; m) e w = m e w.
Proof. by intros ->. Qed.

Lemma guard_fail {A} b s (m : M A) e w : b = false → (guard_or b s ;; m) e w = (Err s, w).
Proof. by intros ->. Qed.

Lemma lib_call_run {A} s (m : M A) e w :
  healthy e → (lib_call s ;; m) e w = m e (called w).
Proof. intros H. unfold mbind, M_bind. by rewrite lib_call_healthy. Qed.

Lemma sql_query_healthy {A} (q : database → A) e w c :
  healthy e → w_conn w = Some c → sql_query q e w = (Ok (q (conn_cur c)), called w).
Proof. intros H E. unfold sql_query. by rewrite E, H. Qed.

(** Split a successful run into the runs of its steps. *)
Ltac inv_m :=
  repeat match goal with
  | H : (_ ≫= _) ?e ?w = (Ok _, _) |- _ =>
      apply bind_ok in H; destruct H as (? & ? & ? & H)
  | H : guard_or _ _ _ _ = (Ok _, _) |- _ =>
      apply guard_ok in H; destruct H as [? ->]
  | H : as_status _ _ _ _ = (Ok _, _) |- _ => apply as_status_ok in H
  | H : lib_call _ _ _ = (Ok _, _) |- _ =>
      apply lib_call_ok in H; destruct H as [? ->]
  | H : require_db _ _ = (Ok _, _) |- _ =>
      apply require_db_ok in H; destruct H as [[? ?] ->]
  | H : randombytes_buf _ _ _ = (Ok _, _) |- _ =>
      apply randombytes_buf_ok in H; destruct H as [? ->]
  | H : mret _ _ _ = (Ok _, _) |- _ =>
      apply ret_ok in H; destruct H as [H ->];
      first [ match type of H with ?x = _ => is_var x; subst x end
            | injection H; clear H; intros; subst ]
  | H : throw _ _ _ = (Ok _, _) |- _ => unfold throw in H; discriminate H
  | H : lift ?o _ _ = (Ok _, _) |- _ => unfold lift in H; injection H as H <-
  | H : (if ?b then throw _ else _) _ _ = (Ok _, _) |- _ => destruct b eqn:?
  | H : (if ?b then _ else throw _) _ _ = (Ok _, _) |- _ => destruct b eqn:?
  end.

Lemma run_ok {A} (r : outcome A * world) : is_ok r.1 = true → ∃ a w, r = (Ok a, w).
Proof. destruct r as [[a|s] w]; simpl; [eauto|done]. Qed.

(** * Runs that succeed

    [wp m Q e w]: run in [e] from [w], [m] returns [Ok] of a result and a
    world that satisfy [Q]. In a healthy environment every library call
    returns, so a run is followed step by step. *)

Definition wp {A} (m : M A) (Q : A → world → Prop) (e : env) (w : world) : Prop :=
  ∃ a w', m e w = (Ok a, w') ∧ Q a w'.

Lemma wp_bind {A B} (m : M A) (f : A → M B) Q e w :
  wp m (λ a w', wp (f a) Q e w') e w → wp (m ≫= f) Q e w.
Proof.
  intros (a & w1 & E1 & b & w2 & E2 & H). exists b, w2. split; [|done].
  by rewrite (bind_run _ _ _ _ _ _ E1).
Qed.

Lemma wp_mono {A} (m : M A) (Q Q' : A → world → Prop) e w :
  wp m Q e w → (∀ a w', Q a w' → Q' a w') → wp m Q' e w.
Proof. intros (a & w' & E & H) HQ. exists a, w'. auto. Qed.

Lemma wp_keeps {A} R (m : M A) `{!Keeps R m} Q e w :
  wp m Q e w → wp m (λ a w', R w w' ∧ Q a w') e w.
Proof.
  intros (a & w' & E & H). exists a, w'. split_and!; [done| |done].
  by eapply keeps_run in E.
Qed.

Lemma wp_ret {A} (a : A) (Q : A → world → Prop) e w : Q a w → wp (mret a) Q e w.
Proof. intros H. by exists a, w. Qed.

Lemma wp_lift {A} (o : outcome A) a (Q : A → world → Prop) e w :
  o = Ok a → Q a w → wp (lift o) Q e w.
Proof. intros -> H. by exists a, w. Qed.

Lemma wp_guard b s (Q : unit → world → Prop) e w : b = true → Q () w → wp (guard_or b s) Q e w.
Proof. intros -> H. by exists (), w. Qed.

Lemma wp_try {A} (m : M A) (Q : outcome A → world → Prop) e w :
  (let '(r, w') := m e w in Q r w') → wp (try m) Q e w.
Proof. unfold wp, try. destruct (m e w) as [r w']. eauto. Qed.

Lemma wp_try_ok {A} (m : M A) (Q : outcome A → world → Prop) e w :
  wp m (λ a, Q (Ok a)) e w → wp (try m) Q e w.
Proof. intros (a & w' & E & H). apply wp_try. by rewrite E. Qed.

Lemma wp_as_status {A} s (m : M A) Q e w : wp m Q e w → wp (as_status s m) Q e w.
Proof. intros (a & w' & E & H). exists a, w'. by rewrite as_status_ok. Qed.

Lemma wp_get_world (Q : world → world → Prop) e w : Q w w → wp get_world Q e w.
Proof. intros H. by exists w, w. Qed.

Lemma wp_put_world w1 (Q : unit → world → Prop) e w : Q () w1 → wp (put_world w1) Q e w.
Proof. intros H. by exists (), w1. Qed.

Lemma wp_lib_call s (Q : unit → world → Prop) e w :
  healthy e → Q () (called w) → wp (lib_call s) Q e w.
Proof. intros He H. exists (), (called w). by rewrite lib_call_healthy. Qed.

Lemma wp_randombytes_buf n (Q : bytes → world → Prop) e w :
  (∀ r, length r = n → Q r (draw w)) → wp (randombytes_buf n) Q e w.
Proof.
  intros H. eexists _, (draw w). split; [reflexivity|]. apply H. len.
Qed.

Lemma wp_time_null (Q : Z → world → Prop) e w :
  Q (env_clock e (w_ticks w)) (tick w) → wp time_null Q e w.
Proof. intros H. by eexists _, (tick w). Qed.

Lemma wp_require_db c (Q : unit → world → Prop) e w :
  w_conn w = Some c → Q () w → wp require_db Q e w.
Proof. intros E H. exists (), w. unfold require_db. by rewrite E. Qed.

Lemma wp_sql_query {A} (q : database → A) c (Q : A → world → Prop) e w :
  healthy e → w_conn w = Some c → Q (q (conn_cur c)) (called w) → wp (sql_query q) Q e w.
Proof. intros He E H. eexists _, (called w). by rewrite (sql_query_healthy _ _ _ _ He E). Qed.

(** The connection after a statement that wrote [db]. *)
Definition written (c : connection) (db : database) : connection :=
  Connection db (if conn_in_tx c then conn_committed c else db) (conn_in_tx c).

Lemma sql_exec_ok {A} (u : database → option (database * A)) e w a w' :
  sql_exec u e w = (Ok a, w') →
  ∃ c db, w_conn w = Some c ∧ u (conn_cur c) = Some (db, a) ∧
          w' = set_conn (Some (written c db)) (called w).
Proof.
  unfold sql_exec, written. destruct (w_conn w) as [c|]; [|done].
  destruct (env_fault _ _); [done|]. destruct (u (conn_cur c)) as [[db b]|] eqn:E; [|done].
  intros [= <- <-]. exists c, db. done.
Qed.

Lemma sql_query_ok {A} (q : database → A) e w a w' :
  sql_query q e w = (Ok a, w') → ∃ c, w_conn w = Some c ∧ a = q (conn_cur c) ∧ w' = called w.
Proof.
  unfold sql_query. destruct (w_conn w) as [c|]; [|done].
  destruct (env_fault _ _); [done|]. intros [= <- <-]. eauto.
Qed.

Lemma wp_sql_exec {A} (u : database → option (database * A)) c db a (Q : A → world → Prop) e w :
  healthy e → w_conn w = Some c → u (conn_cur c) = Some (db, a) →
  Q a (set_conn (Some (written c db)) (called w)) → wp (sql_exec u) Q e w.
Proof.
  intros He E Hu H. unfold wp, sql_exec. rewrite E, He, Hu. eexists _, _. split; [done|]. done.
Qed.

Lemma wp_if {A} (b : bool) (m n : M A) Q e w :
  (b = true → wp m Q e w) → (b = false → wp n Q e w) → wp (if b then m else n) Q e w.
Proof. destruct b; auto. Qed.

(** Follow a successful run until a step needs an argument. *)
Ltac wp_step :=
  lazymatch goal with
  | |- wp (_ ≫= _) _ _ _ => apply wp_bind
  | |- wp (lib_call _) _ _ _ => apply wp_lib_call; [assumption|]
  | |- wp (mret _) _ _ _ => apply wp_ret
  | |- wp get_world _ _ _ => apply wp_get_world
  | |- wp (as_status _ _) _ _ _ => apply wp_as_status
  | |- wp (put_world _) _ _ _ => apply wp_put_world
  | |- wp time_null _ _ _ => apply wp_time_null
  | |- wp (randombytes_buf _) _ _ _ =>
      let r := fresh "r" in let Hr := fresh "Hlen" in apply wp_randombytes_buf; intros r Hr
  | |- wp (let '(_, _) := (_, _) in _) _ _ _ => cbv beta iota
  end.
Ltac wp_run := cbv beta; repeat (wp_step; cbv beta).

(** [fails m s e w]: run in [e] from [w], [m] returns the error [s]. *)
Definition fails {A} (m : M A) (s : sm_error) (e : env) (w : world) : Prop :=
  ∃ w', m e w = (Err s, w').

Lemma fails_bind {A B} (m : M A) (f : A → M B) s e w :
  wp m (λ a w', fails (f a) s e w') e w → fails (m ≫= f) s e w.
Proof. intros (a & w1 & E1 & w2 & E2). exists w2. by rewrite (bind_run _ _ _ _ _ _ E1). Qed.

Lemma fails_first {A B} (m : M A) (f : A → M B) s e w : fails m s e w → fails (m ≫= f) s e w.
Proof. intros (w1 & E). exists w1. by apply bind_run_err. Qed.

Lemma fails_throw {A} s e w : fails (throw s : M A) s e w.
Proof. by exists w. Qed.

Lemma fails_lift {A} (o : outcome A) s e w : o = Err s → fails (lift o) s e w.
Proof. intros ->. by exists w. Qed.

Lemma fails_guard b s e w : b = false → fails (guard_or b s) s e w.
Proof. intros ->. by exists w. Qed.

(** * Concrete environments, for evaluation *)

(** The outcome and the world of a run. *)
Lemma run_split {A} (m : M A) e w r : (m e w).1 = r → m e w = (r, (m e w).2).
Proof. intros <-. apply surjective_pairing. Qed.

(** Evaluates a run in an example. *)
Ltac runs m e w := refine (run_split m e w _ _); vm_compute; reflexivity.

Module Sample.

(** The clock stands still at [t], the random bytes differ from draw to draw
    and no call fails. *)
Definition env_at (t : Z) : env := Env
  (λ _, t)
  (λ k i, z_byte (Z.of_nat (17 * k + 5 * i + 1)))
  (λ k, Z.of_nat (7 * k))
  (λ _, false).

(** The same, but call number [n] fails. *)
Definition env_failing (t : Z) (n : nat) : env := Env
  (env_clock (env_at t)) (env_random (env_at t)) (env_uniform (env_at t))
  (λ k, (k =? n)%nat).

Definition disk0 : disk := Disk ∅ (DatabaseFile [] (Catalogue [] (λ _, []) (λ _, [])) false).

(** A process that has opened a freshly created database. *)
Definition world0 : world :=
  World (Some (Connection empty_database empty_database false)) None false disk0 0 0 0.

Lemma env_at_healthy t : healthy (env_at t).
Proof. done. Qed.

End Sample.
