(* ===== verification/Files.v ===== *)
(** Files as the program uses them: the calls of POSIX and stdio, the path and
    file helpers of src/src/backup.c, and what each of them may change.

    A directory entry is known by its resolved path. [realpath] of a directory
    and the umask belong to the system; the program makes and removes no
    directories, so they do not change while it runs. *)

From S2P Require Import Prelude Status State.

Class Posix := {
  realpath : bytes → option bytes;      (* of a directory *)
  umask : Z;
}.

(** A resolved path is absolute text that resolves to itself. *)
Class PosixLaws (P : Posix) : Prop := {
  realpath_resolved d r : realpath d = Some r → realpath r = Some r;
  realpath_text d r : realpath d = Some r → r ≠ [] ∧ Byte.x00 ∉ r;
}.

Definition slash : byte := Byte.x2f.
Definition dot : byte := Byte.x2e.
Definition newline : byte := Byte.x0a.

Definition S_IRUSR_IWUSR : Z := 384.
Definition S_PUBLIC_KEY_MODE : Z := 420.
Definition S_IRWXG_IRWXO : Z := 63.
Definition S_IRWXA : Z := 511.

(** * Paths *)

(** [strrchr(path, '/')]: the text before and after the last slash. *)
Fixpoint strrchr_slash (l : bytes) : option (bytes * bytes) :=
  match l with
  | [] => None
  | b :: l' =>
      match strrchr_slash l' with
      | Some (before, after) => Some (b :: before, after)
      | None => if decide (b = slash) then Some ([], l') else None
      end
  end.

(** The directory and the last component of a path. *)
Definition split_parent (path : bytes) : outcome (bytes * bytes) :=
  match strrchr_slash path with
  | None => Ok ([dot], path)
  | Some (before, basename) =>
      check (negb (bool_decide (basename = []))) SM_ERR_INVALID_ARGUMENT ;;
      Ok (match before with [] => [slash] | _ => before end, basename)
  end.

Definition is_dots (basename : bytes) : bool :=
  bool_decide (basename = [dot]) || bool_decide (basename = [dot; dot]).

Definition join_path (resolved_parent basename : bytes) : bytes :=
  resolved_parent ++ (if decide (resolved_parent = [slash]) then [] else [slash]) ++ basename.

(** The size checks of the code, and that [snprintf] can say the length. *)
Definition join_fits (resolved_parent basename : bytes) : bool :=
  let parent_path_len := Z.of_nat (length resolved_parent) in
  let separator_len := (if decide (resolved_parent = [slash]) then 0 else 1)%Z in
  let basename_len := Z.of_nat (length basename) in
  ((parent_path_len <=? SIZE_MAX - separator_len)
   && (parent_path_len + separator_len <=? SIZE_MAX - basename_len)
   && (parent_path_len + separator_len + basename_len <=? SIZE_MAX - 1)
   && (parent_path_len + separator_len + basename_len <=? INT_MAX))%Z.

Section Files.
Context {PX : Posix}.

Definition backup_resolve_parent_path (path : bytes) : M bytes :=
  guard_or (negb (bool_decide (c_str path = []))) SM_ERR_INVALID_ARGUMENT ;;
  '(parent, basename) ← lift (split_parent (c_str path));
  lib_call SM_ERR_STORAGE ;;
  guard_or (negb (is_dots basename)) SM_ERR_INVALID_ARGUMENT ;;
  lib_call SM_ERR_STORAGE ;;
  resolved_parent ← lift (from_option_or SM_ERR_STORAGE (realpath parent));
  guard_or (join_fits resolved_parent basename) SM_ERR_STORAGE ;;
  lib_call SM_ERR_STORAGE ;;
  mret (join_path resolved_parent basename).

(** The entry that a path names, its last component not followed: what the
    system resolves. *)
Definition path_entry (path : bytes) : option bytes :=
  match split_parent (c_str path) with
  | Ok (parent, basename) =>
      if is_dots basename || bool_decide (basename = []) then None
      else r ← realpath parent; Some (join_path r basename)
  | Err _ => None
  end.

(** * System calls

    The file descriptors and streams of the program are the entries they were
    opened at. *)

Definition get_files : M (gmap bytes file) := λ e w, (Ok (d_files (w_disk w)), w).
(** The file of the open connection. *)
Definition database_of : M database_file := λ e w, (Ok (d_database (w_disk w)), w).
Definition put_files (fs : gmap bytes file) : M unit := λ e w,
  (Ok (), set_disk (Disk fs (d_database (w_disk w))) w).
Definition alter_file (f : file → file) (entry : bytes) : M unit :=
  fs ← get_files; put_files (alter f entry fs).

Definition set_mode (mode : Z) (f : file) : file := File (f_kind f) (f_content f) (f_owned f) mode.
Definition set_content (content : bytes) (f : file) : file :=
  File (f_kind f) content (f_owned f) (f_mode f).

(** [open(path, ... | O_NOFOLLOW, mode)]; [None] is ENOENT. *)
Definition posix_open_errno (path : bytes) (o_creat o_excl : bool) (mode : Z) : M (option bytes) :=
  lib_call SM_ERR_STORAGE ;;
  fs ← get_files;
  match path_entry path with
  | None => throw SM_ERR_STORAGE
  | Some entry =>
      match fs !! entry with
      | None =>
          if o_creat then
            put_files (<[entry := File Regular [] true (Z.land mode (Z.lnot umask))]> fs) ;;
            mret (Some entry)
          else mret None
      | Some f =>
          if o_creat && o_excl then throw SM_ERR_STORAGE
          else match f_kind f with Symlink _ => throw SM_ERR_STORAGE | _ => mret (Some entry) end
      end
  end.

Definition posix_open (path : bytes) (o_creat o_excl : bool) (mode : Z) : M bytes :=
  r ← posix_open_errno path o_creat o_excl mode;
  lift (from_option_or SM_ERR_STORAGE r).

Definition fchmod (entry : bytes) (mode : Z) : M unit :=
  lib_call SM_ERR_STORAGE ;; alter_file (set_mode mode) entry.

Definition fstat (entry : bytes) : M file :=
  lib_call SM_ERR_STORAGE ;;
  fs ← get_files;
  lift (from_option_or SM_ERR_STORAGE (fs !! entry)).

(** The entry a chain of symbolic links ends at; the system follows 40. *)
Fixpoint follow_links (fuel : nat) (fs : gmap bytes file) (entry : bytes) : option bytes :=
  match fs !! entry with
  | None => None
  | Some f =>
      match f_kind f, fuel with
      | Symlink target, S n => follow_links n fs target
      | Symlink _, O => None
      | _, _ => Some entry
      end
  end.

Definition SYMLOOP_MAX : nat := 40.

Definition follow_path (fs : gmap bytes file) (path : bytes) : option bytes :=
  entry ← path_entry path; follow_links SYMLOOP_MAX fs entry.

(** [fopen(path, "rb")], and the bytes that a stream reads. *)
Definition fopen_rb (path : bytes) : M bytes :=
  lib_call SM_ERR_STORAGE ;;
  fs ← get_files;
  lift (from_option_or SM_ERR_STORAGE (follow_path fs path)).

Definition fcontent (entry : bytes) : M bytes :=
  fs ← get_files;
  mret (match fs !! entry with Some f => f_content f | None => [] end).

(** [fwrite]: a failing write leaves some first bytes of the data. *)
Definition fwrite (entry data : bytes) : M unit :=
  r ← try (lib_call SM_ERR_STORAGE);
  match r with
  | Ok _ => alter_file (λ f, set_content (f_content f ++ data) f) entry
  | Err s =>
      n ← randombytes_uniform (Z.of_nat (length data));
      alter_file (λ f, set_content (f_content f ++ take (Z.to_nat n) data) f) entry ;;
      throw s
  end.

(** [remove(path)]; no caller looks at its status. *)
Definition remove_path (path : bytes) : M unit :=
  r ← try (lib_call SM_ERR_STORAGE);
  match r, path_entry path with
  | Ok _, Some entry => fs ← get_files; put_files (delete entry fs)
  | _, _ => mret ()
  end.

(** [if (fclose(fp) != 0) status = SM_ERR_STORAGE;] after the work on it. *)
Definition and_close {A} (m : M A) : M A :=
  r ← try m;
  lib_call SM_ERR_STORAGE ;;
  lift r.

(** * Helpers of backup.c *)

(** A regular file of the user that no one else may access. *)
Definition owner_only (f : file) : bool :=
  match f_kind f with Regular => true | _ => false end && f_owned f
  && (Z.land (f_mode f) S_IRWXG_IRWXO =? 0)%Z.

Definition backup_fopen_owner_only_read (path : bytes) : M bytes :=
  guard_or (negb (bool_decide (c_str path = []))) SM_ERR_INVALID_ARGUMENT ;;
  resolved_path ← backup_resolve_parent_path path;
  entry ← posix_open resolved_path false false 0;
  st ← fstat entry;
  guard_or (owner_only st) SM_ERR_STORAGE ;;
  lib_call SM_ERR_STORAGE ;;
  mret entry.

Definition backup_fopen_exclusive (path : bytes) (mode : Z) : M bytes :=
  resolved_path ← as_status SM_ERR_STORAGE (backup_resolve_parent_path path);
  entry ← posix_open resolved_path true true mode;
  r ← try (lib_call SM_ERR_STORAGE);
  match r with
  | Ok _ => mret entry
  | Err s => remove_path resolved_path ;; throw s
  end.

Definition backup_write_all (path data : bytes) : M unit :=
  guard_or (negb (bool_decide (c_str path = []))) SM_ERR_INVALID_ARGUMENT ;;
  entry ← backup_fopen_exclusive path S_IRUSR_IWUSR;
  and_close (if bool_decide (data = []) then mret () else fwrite entry data).

Definition backup_read_all (path : bytes) (max_bytes : Z) : M bytes :=
  guard_or (negb (bool_decide (c_str path = [])) && (max_bytes <=? SIZE_MAX)%Z) SM_ERR_INVALID_ARGUMENT ;;
  entry ← fopen_rb path;
  and_close
    (lib_call SM_ERR_STORAGE ;;
     content ← fcontent entry;
     guard_or (Z.of_nat (length content) <=? max_bytes)%Z SM_ERR_INVALID_ARGUMENT ;;
     guard_or (negb (bool_decide (content = []))) SM_ERR_STORAGE ;;
     lib_call SM_ERR_STORAGE ;;
     mret content).

End Files.

(** * Paths resolve to entries *)

Lemma strrchr_slash_spec l :
  match strrchr_slash l with
  | Some (before, after) => l = before ++ slash :: after ∧ slash ∉ after
  | None => slash ∉ l
  end.
Proof.
  induction l as [|b l IH]; simpl; [apply not_elem_of_nil|].
  destruct (strrchr_slash l) as [[before after]|].
  - destruct IH as [-> H]. done.
  - case_decide as Hb; [subst; done|]. rewrite not_elem_of_cons. auto.
Qed.

Lemma strrchr_slash_app before after :
  slash ∉ after → strrchr_slash (before ++ slash :: after) = Some (before, after).
Proof.
  intros H. assert (strrchr_slash after = None) as Ha.
  { pose proof (strrchr_slash_spec after) as S. destruct (strrchr_slash after) as [[p q]|]; [|done].
    destruct S as [-> _]. exfalso. apply H, elem_of_app. right. by left. }
  induction before as [|b before IH]; simpl.
  - by rewrite Ha.
  - by rewrite IH.
Qed.

Lemma split_parent_slash path parent basename :
  split_parent path = Ok (parent, basename) → Byte.x00 ∉ path → slash ∉ basename ∧ Byte.x00 ∉ basename.
Proof.
  unfold split_parent. pose proof (strrchr_slash_spec path) as S.
  destruct (strrchr_slash path) as [[before after]|].
  - destruct S as [-> Ha]. intros H Hn. unfold check in H. case_bool_decide; [done|]. injection H as <- <-.
    split; [done|]. intros E. apply Hn, elem_of_app. right. by right.
  - intros [= <- <-] Hn. done.
Qed.

(** A path and the entry it leads to, as the code computes it. *)
Definition resolves `{Posix} (path entry : bytes) : Prop :=
  c_str path ≠ [] ∧ ∃ parent basename r,
    split_parent (c_str path) = Ok (parent, basename) ∧ basename ≠ [] ∧ is_dots basename = false ∧
    realpath parent = Some r ∧ join_fits r basename = true ∧ entry = join_path r basename.

Section Lemmas.
Context {PX : Posix}.

Lemma resolves_entry path entry : resolves path entry → path_entry path = Some entry.
Proof.
  intros (_ & parent & basename & r & Hs & Hb & Hd & Hr & _ & ->). unfold path_entry.
  rewrite Hs, Hd, bool_decide_false by done. cbn. by rewrite Hr.
Qed.

Lemma resolves_unique path p q : resolves path p → resolves path q → p = q.
Proof. intros Hp%resolves_entry Hq%resolves_entry. congruence. Qed.

(** A name in a resolved directory is its own entry. *)
Lemma joined_entry `{!PosixLaws PX} d r b :
  realpath d = Some r → slash ∉ b → Byte.x00 ∉ b → b ≠ [] → is_dots b = false →
  path_entry (join_path r b) = Some (join_path r b) ∧ Byte.x00 ∉ join_path r b.
Proof.
  intros Hr Hns Hnn Hb Hd. pose proof (realpath_resolved _ _ Hr) as Hrr. destruct (realpath_text _ _ Hr) as [Hre Hrn].
  assert (Byte.x00 ∉ join_path r b) as Hj.
  { unfold join_path. case_decide; rewrite !not_elem_of_app; split_and!; try done;
      first [apply not_elem_of_nil|by intros ?%list_elem_of_singleton]. }
  split; [|done]. unfold path_entry. rewrite c_str_no_nul by done.
  assert (split_parent (join_path r b) = Ok (r, b)) as ->.
  { unfold split_parent, join_path. case_decide as E.
    - subst. cbn [app]. change (slash :: b) with ([] ++ slash :: b). rewrite strrchr_slash_app by done.
      unfold check. by rewrite bool_decide_false.
    - cbn [app]. rewrite strrchr_slash_app by done.
      unfold check. rewrite bool_decide_false by done. by destruct r. }
  rewrite Hd, bool_decide_false by done. cbn. by rewrite Hrr.
Qed.

(** The resolved path leads to its own entry, and so do its sidecars. *)
Lemma resolved_entry `{!PosixLaws PX} path entry : resolves path entry → path_entry entry = Some entry.
Proof.
  intros (_ & parent & b & r & Hs & Hb & Hd & Hr & _ & ->).
  destruct (split_parent_slash _ _ _ Hs (c_str_nul_free _)) as [Hns Hnn].
  by apply (joined_entry parent).
Qed.

Lemma resolved_text `{!PosixLaws PX} path entry : resolves path entry → c_str entry = entry ∧ entry ≠ [].
Proof.
  intros (_ & parent & b & r & Hs & Hb & Hd & Hr & _ & ->).
  destruct (split_parent_slash _ _ _ Hs (c_str_nul_free _)) as [Hns Hnn].
  destruct (joined_entry parent r b) as [_ Hj]; [done..|]. split; [by apply c_str_no_nul|].
  unfold join_path. intros [E _]%app_eq_nil. exact (proj1 (realpath_text _ _ Hr) E).
Qed.

Lemma resolved_length path entry : resolves path entry → (Z.of_nat (length entry) ≤ INT_MAX)%Z.
Proof.
  intros (_ & parent & b & r & _ & _ & _ & _ & Hf & ->). unfold join_fits in Hf. unfold join_path.
  rewrite !andb_true_iff, !Z.leb_le in Hf. rewrite !length_app. case_decide; cbn [length]; lia.
Qed.

Lemma sidecar_entry `{!PosixLaws PX} path entry suffix :
  resolves path entry → slash ∉ suffix → Byte.x00 ∉ suffix → (2 < length suffix)%nat →
  path_entry (entry ++ suffix) = Some (entry ++ suffix).
Proof.
  intros (_ & parent & b & r & Hs & Hb & Hd & Hr & _ & ->) Hsl Hnul Hlen.
  destruct (split_parent_slash _ _ _ Hs (c_str_nul_free _)) as [Hns Hnn].
  assert (join_path r b ++ suffix = join_path r (b ++ suffix)) as -> by (unfold join_path; by rewrite <- !app_assoc).
  apply (joined_entry parent); [done|apply not_elem_of_app; done..| |].
  - intros [_ ->]%app_eq_nil. cbn in Hlen. lia.
  - unfold is_dots. apply orb_false_iff. rewrite !bool_decide_eq_false.
    split; intros E%(f_equal length); rewrite length_app in E; cbn in E; lia.
Qed.

#[export] Instance keeps_resolve path : Keeps same_state (backup_resolve_parent_path path).
Proof. unfold backup_resolve_parent_path. keeps_tac. Qed.

Lemma resolve_ok path e w p w' :
  backup_resolve_parent_path path e w = (Ok p, w') → resolves path p.
Proof.
  intros H. unfold backup_resolve_parent_path in H.
  apply bind_ok in H as (? & ? & H1%guard_ok & H). destruct H1 as [Hne ->].
  apply bind_ok in H as ([parent basename] & w1 & H2 & H). inv_m.
  repeat match goal with H : from_option_or _ _ = Ok _ |- _ => apply from_option_or_ok in H end.
  split; [by apply negb_true_iff, bool_decide_eq_false in Hne|].
  eexists _, _, _. split_and!; try done; [|by apply negb_true_iff].
  match goal with H : split_parent _ = _ |- _ => unfold split_parent in H; rename H into Hs end.
  pose proof (strrchr_slash_spec (c_str path)). destruct (strrchr_slash _) as [[before after]|].
  - unfold check in Hs. case_bool_decide; [done|]. by injection Hs as <- <-.
  - injection Hs as <- <-. by apply negb_true_iff, bool_decide_eq_false in Hne.
Qed.

Lemma wp_resolve path p (Q : bytes → world → Prop) e w :
  healthy e → resolves path p → (∀ w', same_state w w' → Q p w') → wp (backup_resolve_parent_path path) Q e w.
Proof.
  intros He (Hne & parent & basename & r & Hs & Hb & Hd & Hr & Hf & ->) HQ.
  apply (wp_mono _ (λ a w', same_state w w' ∧ a = join_path r basename)); [|intros a w' [S ->]; by apply HQ].
  apply (wp_keeps same_state (backup_resolve_parent_path path) (λ a _, a = join_path r basename)). unfold backup_resolve_parent_path. wp_run.
  apply wp_guard; [by rewrite bool_decide_false|]. wp_run. eapply wp_lift; [done|]. cbv beta iota. wp_run.
  apply wp_guard; [by rewrite Hd|]. wp_run. eapply wp_lift; [by rewrite Hr|]. wp_run.
  apply wp_guard; [done|]. wp_run. done.
Qed.

(** * What the helpers change *)

(** No entry that existed is changed; nothing else of the state is. *)
Definition new_files (w w' : world) : Prop :=
  w_conn w' = w_conn w ∧ w_subkeys w' = w_subkeys w ∧ w_unlocked w' = w_unlocked w ∧
  d_database (w_disk w') = d_database (w_disk w) ∧
  d_files (w_disk w) ⊆ d_files (w_disk w').

#[export] Instance new_files_preorder : PreOrder new_files.
Proof.
  split; [intros w; by unfold new_files|]. intros a b c (?&?&?&?&F1) (?&?&?&?&F2). unfold new_files.
  split_and!; try congruence. by etrans.
Qed.

Lemma same_state_new_files w w' : same_state w w' → new_files w w'.
Proof. intros (?&?&?&E). unfold new_files. rewrite E. by split_and!. Qed.
#[export] Instance keeps_new_files {A} (m : M A) : Keeps same_state m → Keeps new_files m | 10.
Proof. intros H e w. by apply same_state_new_files. Qed.

(** Only the entry [p] may differ. *)
Definition only_entry (p : bytes) (w w' : world) : Prop :=
  w_conn w' = w_conn w ∧ w_subkeys w' = w_subkeys w ∧ w_unlocked w' = w_unlocked w ∧
  d_database (w_disk w') = d_database (w_disk w) ∧
  delete p (d_files (w_disk w')) = delete p (d_files (w_disk w)).

#[export] Instance only_entry_preorder p : PreOrder (only_entry p).
Proof.
  split; [intros w; by unfold only_entry|]. intros a b c. unfold only_entry. intuition congruence.
Qed.
#[export] Instance keeps_only_entry {A} p (m : M A) : Keeps same_state m → Keeps (only_entry p) m | 10.
Proof. intros H e w. destruct (H e w) as (?&?&?&E). unfold only_entry. by rewrite E. Qed.

Lemma only_new_entry p w w' :
  d_files (w_disk w) !! p = None → only_entry p w w' → new_files w w'.
Proof.
  intros Hp (?&?&?&?&E). unfold new_files. split_and!; try done. apply map_subseteq_spec. intros q f Hq.
  assert (q ≠ p) as Hne by congruence. rewrite <- (lookup_delete_ne _ p q), E, lookup_delete_ne by done. done.
Qed.

#[export] Instance keeps_get_files R `{!PreOrder R} : Keeps R get_files.
Proof. intros e w. cbn. reflexivity. Qed.

Lemma alter_file_run f p e w :
  alter_file f p e w = (Ok (), set_disk (Disk (alter f p (d_files (w_disk w))) (d_database (w_disk w))) w).
Proof. done. Qed.

#[export] Instance keeps_alter f p : Keeps (only_entry p) (alter_file f p).
Proof.
  intros e w. rewrite alter_file_run. unfold only_entry.
  cbn [snd set_disk w_disk w_conn w_subkeys w_unlocked d_files d_database].
  split_and!; try done. apply map_eq. intros q.
  destruct (decide (q = p)) as [->|]; [by rewrite !lookup_delete_eq|].
  by rewrite !lookup_delete_ne, lookup_alter_ne by done.
Qed.

#[export] Instance keeps_fwrite p data : Keeps (only_entry p) (fwrite p data).
Proof. unfold fwrite. apply _. Qed.

#[export] Instance keeps_and_close {A} R `{!PreOrder R} (m : M A) :
  Keeps R m → Keeps R (lib_call SM_ERR_STORAGE) → Keeps R (and_close m).
Proof. intros. unfold and_close. apply _. Qed.

#[export] Instance keeps_database_of : Keeps same_state database_of.
Proof. by intros e w. Qed.
#[export] Instance keeps_fopen_rb path : Keeps same_state (fopen_rb path).
Proof. unfold fopen_rb. apply _. Qed.
#[export] Instance keeps_fcontent entry : Keeps same_state (fcontent entry).
Proof. unfold fcontent. apply _. Qed.
#[export] Instance keeps_fstat entry : Keeps same_state (fstat entry).
Proof. unfold fstat. apply _. Qed.
#[export] Instance keeps_read_all path n : Keeps same_state (backup_read_all path n).
Proof. unfold backup_read_all. apply _. Qed.

#[export] Instance keeps_open_read path mode excl : Keeps same_state (posix_open path false excl mode).
Proof. unfold posix_open, posix_open_errno. cbn. keeps_tac. Qed.
#[export] Instance keeps_owner_only path : Keeps same_state (backup_fopen_owner_only_read path).
Proof. unfold backup_fopen_owner_only_read. apply _. Qed.

(** The file that an exclusive creation makes. *)
Definition created (mode : Z) (content : bytes) : file :=
  File Regular content true (Z.land mode (Z.lnot umask)).

Lemma open_exclusive_cases path mode e w r w' :
  posix_open path true true mode e w = (r, w') →
  match r with
  | Ok entry => path_entry path = Some entry ∧ d_files (w_disk w) !! entry = None ∧
      w' = set_disk (Disk (<[entry := created mode []]> (d_files (w_disk w))) (d_database (w_disk w))) (called w)
  | Err s => s = SM_ERR_STORAGE ∧ w' = called w
  end.
Proof.
  unfold posix_open, posix_open_errno, mbind, M_bind, lib_call, get_files, put_files, throw. cbn.
  destruct (env_fault _ _); [by intros [= <- <-]|]. destruct (path_entry path) as [entry|]; [|by intros [= <- <-]].
  destruct (_ !! entry) eqn:E; intros [= <- <-]; [done|]. by split_and!.
Qed.

(** An exclusive creation makes a new entry or leaves the files as they were. *)
Lemma fopen_exclusive_cases path mode e w r w' :
  backup_fopen_exclusive path mode e w = (r, w') →
  match r with
  | Ok entry => ∃ p, resolves path p ∧ path_entry p = Some entry ∧ d_files (w_disk w) !! entry = None ∧
      only_entry entry w w' ∧ d_files (w_disk w') = <[entry := created mode []]> (d_files (w_disk w))
  | Err s => s = SM_ERR_STORAGE ∧ new_files w w'
  end.
Proof.
  unfold backup_fopen_exclusive. intros H.
  destruct (as_status SM_ERR_STORAGE (backup_resolve_parent_path path) e w) as [r1 w1] eqn:E1.
  pose proof (keeps_run same_state _ _ _ _ _ E1) as S1.
  destruct r1 as [p|s].
  2:{ rewrite (bind_run_err _ _ _ _ _ _ E1) in H. injection H as <- <-.
      split; [|by apply same_state_new_files]. unfold as_status in E1.
      destruct (backup_resolve_parent_path path e w) as [[]]; by injection E1. }
  rewrite (bind_run _ _ _ _ _ _ E1) in H. apply as_status_ok, resolve_ok in E1.
  destruct (posix_open p true true mode e w1) as [r2 w2] eqn:E2.
  pose proof (open_exclusive_cases _ _ _ _ _ _ E2) as C2. pose proof S1 as (A1 & A2 & A3 & A4).
  destruct r2 as [entry|s].
  2:{ rewrite (bind_run_err _ _ _ _ _ _ E2) in H. destruct C2 as [-> ->]. injection H as <- <-.
      split; [done|]. apply same_state_new_files. etrans; [done|]. by unfold same_state. }
  rewrite (bind_run _ _ _ _ _ _ E2) in H. destruct C2 as (Hp & Hn & ->). rewrite A4 in Hn.
  unfold mbind, M_bind, try, lib_call in H. cbn in H. destruct (env_fault e (S (w_calls w1))); cbn in H.
  - unfold remove_path, mbind, M_bind, try, lib_call, get_files, put_files in H. rewrite Hp in H.
    cbn in H. destruct (env_fault _ _); injection H as <- <-; (split; [done|]); unfold new_files; cbn;
      rewrite A4; split_and!; try done.
    + by apply insert_subseteq.
    + by rewrite delete_insert_id.
  - injection H as <- <-. exists p. unfold only_entry. cbn. rewrite A4. split_and!; try done.
    by rewrite delete_insert_eq, delete_id.
Qed.

#[export] Instance keeps_fopen_exclusive path mode : Keeps new_files (backup_fopen_exclusive path mode).
Proof.
  intros e w. destruct (backup_fopen_exclusive path mode e w) as [r w'] eqn:E.
  apply fopen_exclusive_cases in E. destruct r as [entry|s].
  - destruct E as (p & _ & _ & Hn & H & _). by eapply only_new_entry.
  - by destruct E.
Qed.

(** [backup_write_all] never changes a file that exists. *)
#[export] Instance keeps_write_all path data : Keeps new_files (backup_write_all path data).
Proof.
  unfold backup_write_all. apply keeps_bind; [apply _..|]. intros [] e w.
  unfold mbind, M_bind. destruct (backup_fopen_exclusive path S_IRUSR_IWUSR e w) as [r w1] eqn:E.
  apply fopen_exclusive_cases in E. destruct r as [entry|s]; [|by destruct E].
  destruct E as (p & _ & _ & Hn & H1 & _). apply (only_new_entry entry); [done|]. etrans; [exact H1|].
  apply (keeps (R := only_entry entry)
    (m := and_close (if bool_decide (data = []) then mret () else fwrite entry data))).
Qed.

(** * Runs that succeed *)

(** Only the file at [p] is written, to [f]. *)
Definition wrote (p : bytes) (f : file) (w w' : world) : Prop :=
  w_conn w' = w_conn w ∧ w_subkeys w' = w_subkeys w ∧ w_unlocked w' = w_unlocked w ∧
  d_database (w_disk w') = d_database (w_disk w) ∧ d_files (w_disk w') = <[p := f]> (d_files (w_disk w)).

Lemma wrote_again p f g w1 w2 w3 : wrote p f w1 w2 → wrote p g w2 w3 → wrote p g w1 w3.
Proof.
  intros (?&?&?&?&E1) (?&?&?&?&E2). unfold wrote. rewrite E2, E1, insert_insert_eq. split_and!; congruence.
Qed.
Lemma wrote_then_same p f w1 w2 w3 : wrote p f w1 w2 → same_state w2 w3 → wrote p f w1 w3.
Proof. intros (?&?&?&?&E1) (?&?&?&E2). unfold wrote. rewrite E2. split_and!; congruence. Qed.
Lemma same_then_wrote p f w1 w2 w3 : same_state w1 w2 → wrote p f w2 w3 → wrote p f w1 w3.
Proof. intros (?&?&?&E1) (?&?&?&?&E2). unfold wrote. rewrite <- E1. split_and!; congruence. Qed.
Lemma wrote_file p f w w' : wrote p f w w' → d_files (w_disk w') !! p = Some f.
Proof. intros (_&_&_&_&->). apply lookup_insert_eq. Qed.

Lemma open_exclusive_run path mode p e w :
  healthy e → path_entry path = Some p → d_files (w_disk w) !! p = None →
  posix_open path true true mode e w
  = (Ok p, set_disk (Disk (<[p := created mode []]> (d_files (w_disk w))) (d_database (w_disk w))) (called w)).
Proof.
  intros He Hp Hn. unfold posix_open, posix_open_errno, mbind, M_bind, lib_call, get_files, put_files. cbn.
  by rewrite He, Hp, Hn.
Qed.

Lemma open_existing_run path p f e w :
  healthy e → path_entry path = Some p → d_files (w_disk w) !! p = Some f →
  (∀ t, f_kind f ≠ Symlink t) → posix_open path false false 0 e w = (Ok p, called w).
Proof.
  intros He Hp Hf Hk. unfold posix_open, posix_open_errno, mbind, M_bind, lib_call, get_files. cbn.
  rewrite He, Hp. cbn. rewrite Hf. destruct (f_kind f) eqn:E; try done. by destruct (Hk target).
Qed.

Lemma wp_fopen_exclusive `{!PosixLaws PX} path mode p (Q : bytes → world → Prop) e w :
  healthy e → resolves path p → d_files (w_disk w) !! p = None →
  (∀ w', wrote p (created mode []) w w' → Q p w') → wp (backup_fopen_exclusive path mode) Q e w.
Proof.
  intros He Hp Hn HQ. unfold backup_fopen_exclusive. wp_run.
  apply (wp_resolve path p); [done..|]. intros w1 S1. wp_run.
  pose proof S1 as (A1 & A2 & A3 & A4).
  eexists _, _. split.
  { apply (open_exclusive_run _ _ p); [done|by eapply resolved_entry|by rewrite A4]. }
  wp_run. apply wp_try_ok. wp_run. apply HQ. unfold wrote. cbn. by rewrite A4.
Qed.

Lemma wp_fwrite p data content mode (Q : unit → world → Prop) e w :
  healthy e → d_files (w_disk w) !! p = Some (created mode content) →
  (∀ w', wrote p (created mode (content ++ data)) w w' → Q () w') → wp (fwrite p data) Q e w.
Proof.
  intros He Hp HQ. unfold fwrite. wp_run. eexists (Ok ()), _.
  split; [unfold try; by rewrite lib_call_healthy|]. eexists (), _. split; [apply alter_file_run|].
  apply HQ. unfold wrote. cbn [called set_disk w_disk w_conn w_subkeys w_unlocked d_files d_database].
  split_and!; try done. rewrite <- (insert_id _ _ _ Hp) at 1. by rewrite alter_insert_eq.
Qed.

Lemma wp_and_close {A} (m : M A) (Q : A → world → Prop) e w :
  healthy e → wp m (λ a w', Q a (called w')) e w → wp (and_close m) Q e w.
Proof.
  intros He H. unfold and_close. wp_run. apply wp_try_ok. destruct H as (a & w' & E & H).
  exists a, w'. split; [done|]. wp_run. by apply (wp_lift _ a).
Qed.

Lemma wp_write_all `{!PosixLaws PX} path data p (Q : unit → world → Prop) e w :
  healthy e → resolves path p → d_files (w_disk w) !! p = None →
  (∀ w', wrote p (created S_IRUSR_IWUSR data) w w' → Q () w') → wp (backup_write_all path data) Q e w.
Proof.
  intros He Hp Hn HQ. unfold backup_write_all. wp_run.
  apply wp_guard; [destruct Hp as [? _]; by rewrite bool_decide_false|]. wp_run.
  apply (wp_fopen_exclusive path _ p); [done..|]. intros w1 W1. apply wp_and_close; [done|].
  case_bool_decide as Ed.
  - subst data. apply wp_ret, HQ. by eapply wrote_then_same.
  - apply (wp_fwrite p data [] S_IRUSR_IWUSR); [done|by apply (wrote_file _ _ _ _ W1)|].
    intros w2 W2. apply HQ. eapply wrote_then_same; [by eapply wrote_again|by unfold same_state].
Qed.

Lemma follow_resolved fs path p f :
  resolves path p → fs !! p = Some f → f_kind f = Regular → follow_path fs path = Some p.
Proof.
  intros Hp Hf Hk. unfold follow_path. rewrite (resolves_entry _ _ Hp). cbn. by rewrite Hf, Hk.
Qed.

Lemma wp_fopen_rb path p f (Q : bytes → world → Prop) e w :
  healthy e → resolves path p → d_files (w_disk w) !! p = Some f → f_kind f = Regular →
  Q p (called w) → wp (fopen_rb path) Q e w.
Proof.
  intros He Hp Hf Hk HQ. unfold fopen_rb. wp_run. eexists _, _. split; [reflexivity|].
  eapply wp_lift; [|exact HQ]. change (w_disk (called w)) with (w_disk w). by erewrite follow_resolved.
Qed.

Lemma wp_fcontent p f (Q : bytes → world → Prop) e w :
  d_files (w_disk w) !! p = Some f → Q (f_content f) w → wp (fcontent p) Q e w.
Proof.
  intros Hf HQ. exists (f_content f), w. split; [|done].
  unfold fcontent, mbind, M_bind, get_files. by rewrite Hf.
Qed.

Lemma wp_read_all path n p f (Q : bytes → world → Prop) e w :
  healthy e → resolves path p → d_files (w_disk w) !! p = Some f → f_kind f = Regular →
  (Z.of_nat (length (f_content f)) ≤ n ≤ SIZE_MAX)%Z → f_content f ≠ [] →
  (∀ w', same_state w w' → Q (f_content f) w') → wp (backup_read_all path n) Q e w.
Proof.
  intros He Hp Hf Hk [Hn1 Hn2] Hne HQ.
  apply (wp_mono _ (λ a w', same_state w w' ∧ a = f_content f)); [|intros a w' [S ->]; by apply HQ].
  apply (wp_keeps same_state (backup_read_all path n) (λ a _, a = f_content f)). unfold backup_read_all. wp_run.
  apply wp_guard.
  { destruct Hp as [? _]. rewrite bool_decide_false by done. by apply Z.leb_le. }
  wp_run. apply (wp_fopen_rb path p f); [done..|]. apply wp_and_close; [done|]. wp_run.
  apply (wp_fcontent p f); [done|]. wp_run. apply wp_guard; [by apply Z.leb_le|].
  wp_run. apply wp_guard; [by rewrite bool_decide_false|]. wp_run. done.
Qed.

Lemma wp_owner_only `{!PosixLaws PX} path p f (Q : bytes → world → Prop) e w :
  healthy e → resolves path p → d_files (w_disk w) !! p = Some f → owner_only f = true →
  (∀ w', same_state w w' → Q p w') → wp (backup_fopen_owner_only_read path) Q e w.
Proof.
  intros He Hp Hf Ho HQ.
  apply (wp_mono _ (λ a w', same_state w w' ∧ a = p)); [|intros a w' [S ->]; by apply HQ].
  apply (wp_keeps same_state (backup_fopen_owner_only_read path) (λ a _, a = p)).
  unfold backup_fopen_owner_only_read. wp_run.
  apply wp_guard; [destruct Hp as [? _]; by rewrite bool_decide_false|]. wp_run.
  apply (wp_resolve path p); [done..|]. intros w1 (_ & _ & _ & A4). wp_run.
  eexists _, _. split.
  { apply (open_existing_run _ p f); [done|by eapply resolved_entry|by rewrite A4|].
    intros t E. unfold owner_only in Ho. by rewrite E in Ho. }
  unfold fstat. wp_run. eexists _, _. split; [reflexivity|].
  apply (wp_lift _ f); [cbn; by rewrite A4, Hf|]. wp_run. apply wp_guard; [done|]. wp_run. done.
Qed.

(** A file made with mode 0600 is for its owner only, whatever the umask. *)
Lemma created_owner_only content : owner_only (created S_IRUSR_IWUSR content) = true.
Proof.
  unfold owner_only, created. cbn [f_kind f_owned f_mode andb]. apply Z.eqb_eq.
  rewrite <- Z.land_assoc, (Z.land_comm _ S_IRWXG_IRWXO), Z.land_assoc. done.
Qed.

(** * What a successful run wrote *)

Lemma fopen_exclusive_ok `{!PosixLaws PX} path mode e w p w' :
  backup_fopen_exclusive path mode e w = (Ok p, w') →
  resolves path p ∧ d_files (w_disk w) !! p = None ∧ wrote p (created mode []) w w'.
Proof.
  intros (q & Hq & Hp & Hn & (A1 & A2 & A3 & A4 & _) & Hf)%fopen_exclusive_cases.
  assert (p = q) as -> by (rewrite (resolved_entry path q Hq) in Hp; congruence).
  by split_and!.
Qed.

Lemma fwrite_ok p data content mode e w u w' :
  fwrite p data e w = (Ok u, w') → d_files (w_disk w) !! p = Some (created mode content) →
  wrote p (created mode (content ++ data)) w w'.
Proof.
  unfold fwrite. intros H Hf. unfold mbind, M_bind at 1, try, lib_call in H.
  destruct (env_fault e (w_calls w)).
  - apply bind_ok in H as (n & w1 & _ & H). apply bind_ok in H as (? & w2 & _ & H). discriminate H.
  - rewrite alter_file_run in H. injection H as <- <-. unfold wrote.
    cbn [called set_disk w_disk w_conn w_subkeys w_unlocked d_files d_database]. split_and!; try done.
    rewrite <- (insert_id _ _ _ Hf) at 1. by rewrite alter_insert_eq.
Qed.

Lemma try_ok {A} (m : M A) e w r w' : try m e w = (Ok r, w') → m e w = (r, w').
Proof. unfold try. destruct (m e w) as [r0 w0]. by intros [= -> ->]. Qed.

Lemma and_close_ok {A} (m : M A) e w a w' :
  and_close m e w = (Ok a, w') → ∃ w1, m e w = (Ok a, w1) ∧ same_state w1 w'.
Proof.
  unfold and_close. intros H0. apply bind_ok in H0 as (r & w1 & E%try_ok & H).
  inv_m. subst. by exists w1.
Qed.

Lemma write_all_ok `{!PosixLaws PX} path data e w u w' :
  backup_write_all path data e w = (Ok u, w') →
  ∃ p, resolves path p ∧ d_files (w_disk w) !! p = None ∧ wrote p (created S_IRUSR_IWUSR data) w w'.
Proof.
  unfold backup_write_all. intros H0. apply bind_ok in H0 as (? & ? & H1 & H). apply guard_ok in H1 as [_ ->].
  apply bind_ok in H as (p & w1 & H2 & H). apply fopen_exclusive_ok in H2 as (Hp & Hn & W1).
  exists p. split_and!; [done|done|]. apply and_close_ok in H as (w2 & H & S2).
  eapply wrote_then_same; [|exact S2]. case_bool_decide as Ed; [by inv_m; subst|].
  eapply wrote_again; [exact W1|]. apply (fwrite_ok _ _ [] S_IRUSR_IWUSR) in H; [exact H|by eapply wrote_file].
Qed.

End Lemmas.

(** * A toy system

    Every directory is the root directory. *)

Module ToyPosix.

#[export] Instance posix : Posix := { realpath _ := Some [slash]; umask := 18 }.

#[export] Instance laws : PosixLaws posix.
Proof.
  split; intros d r [= <-]; [done|]. split; [done|]. by intros E%list_elem_of_singleton.
Qed.

End ToyPosix.
