(* ===== verification/Utils.v ===== *)
(** src/utils.c: serialization of integers, UTC timestamps, base64 (through
    libsodium), version 4 UUIDs, generated passwords, base32 seeds and TOTP
    codes. [gmtime_r] and [snprintf] are the C library's and are written out;
    HMAC-SHA1 and base64 are the libraries'. *)

From S2P Require Import Prelude Status Sodium Schema State.

Definition UTILS_UUID_V4_LEN : nat := 36.
Definition UTILS_UUID_V4_BUFFER_LEN : nat := UTILS_UUID_V4_LEN + 1.
Definition UTILS_ISO8601_UTC_LEN : nat := 20.
Definition UTILS_ISO8601_UTC_BUFFER_LEN : nat := UTILS_ISO8601_UTC_LEN + 1.

Definition utils_init_sodium : M unit := lib_call SM_ERR_CRYPTO.

Definition utils_write_u64_le (value : Z) : bytes := write_le 8 value.

(** * Calendar: the proleptic Gregorian [struct tm] of [gmtime_r] *)

Record tm := Tm {
  tm_year : Z; tm_mon : Z; tm_mday : Z; tm_hour : Z; tm_min : Z; tm_sec : Z;
}.

Definition is_leap (y : Z) : bool :=
  ((y mod 4 =? 0) && (negb (y mod 100 =? 0) || (y mod 400 =? 0)))%Z.

Definition year_len (y : Z) : Z := if is_leap y then 366 else 365.

Definition month_lens (leap : bool) : list Z :=
  [31; (if leap then 29 else 28); 31; 30; 31; 30; 31; 31; 30; 31; 30; 31]%Z.

(** The year that holds day [d] counted from the first day of year [y]. *)
Fixpoint find_year (fuel : nat) (y d : Z) : Z * Z :=
  match fuel with
  | O => (y, d)
  | S f => if (d <? year_len y)%Z then (y, d) else find_year f (y + 1) (d - year_len y)
  end.

Fixpoint find_month (lens : list Z) (m d : Z) : Z * Z :=
  match lens with
  | [] => (m, d)
  | len :: rest => if (d <? len)%Z then (m, d) else find_month rest (m + 1) (d - len)
  end.

(** Year and day of the year of a day number: 400 years are 146097 days, so
    400 steps from the first year of the cycle are enough. *)
Definition year_of_day (days : Z) : Z * Z :=
  find_year 400 (1970 + 400 * (days / 146097)) (days mod 146097).

(** [None] is the overflow of [tm_year]. *)
Definition gmtime (t : Z) : option tm :=
  let days := (t / 86400)%Z in
  let secs := (t mod 86400)%Z in
  let '(y, yday) := year_of_day days in
  let '(mon, mday) := find_month (month_lens (is_leap y)) 0 yday in
  if ((INT_MIN <=? y - 1900) && (y - 1900 <=? INT_MAX))%Z
  then Some (Tm (y - 1900) mon (mday + 1) (secs / 3600) (secs / 60 mod 60) (secs mod 60))
  else None.

Definition print_tm (t : tm) : bytes :=
  print_pad_signed 4 (tm_year t + 1900) ++ str "-" ++ print_pad_signed 2 (tm_mon t + 1)
  ++ str "-" ++ print_pad_signed 2 (tm_mday t) ++ str "T" ++ print_pad_signed 2 (tm_hour t)
  ++ str ":" ++ print_pad_signed 2 (tm_min t) ++ str ":" ++ print_pad_signed 2 (tm_sec t)
  ++ str "Z".

Definition utils_format_iso8601 (timestamp : Z) (buffer_len : nat) : outcome bytes :=
  if (buffer_len <? UTILS_ISO8601_UTC_BUFFER_LEN)%nat then Err SM_ERR_INVALID_ARGUMENT
  else match gmtime timestamp with
       | None => Err SM_ERR_STORAGE
       | Some utc_time =>
           let s := print_tm utc_time in
           if (buffer_len <=? length s)%nat then Err SM_ERR_INVALID_ARGUMENT else Ok s
       end.

Definition utils_now_iso8601 (buffer_len : nat) : M bytes :=
  guard_or (UTILS_ISO8601_UTC_BUFFER_LEN <=? buffer_len)%nat SM_ERR_INVALID_ARGUMENT ;;
  now ← time_null;
  guard_or (negb (now =? -1)%Z) SM_ERR_STORAGE ;;
  lift (utils_format_iso8601 now buffer_len).

(** [now + offset] on a 64-bit [time_t]; the wrap-around is what the test
    [expires < now] looks for. *)
Definition utils_now_plus_seconds_iso8601 (seconds : Z) (buffer_len : nat) : M bytes :=
  guard_or (UTILS_ISO8601_UTC_BUFFER_LEN <=? buffer_len)%nat SM_ERR_INVALID_ARGUMENT ;;
  guard_or (seconds <=? LONG_MAX)%Z SM_ERR_INVALID_ARGUMENT ;;
  now ← time_null;
  guard_or (negb (now =? -1)%Z) SM_ERR_STORAGE ;;
  let offset := wrap_s 64 seconds in
  guard_or (0 <=? offset)%Z SM_ERR_INVALID_ARGUMENT ;;
  let expires := wrap_s 64 (now + offset) in
  guard_or (now <=? expires)%Z SM_ERR_INVALID_ARGUMENT ;;
  lift (utils_format_iso8601 expires buffer_len).

(** * Base64 *)

Definition utils_base64_encode `{Crypto} (input : bytes) (output_len : nat) : M bytes :=
  utils_init_sodium ;;
  guard_or (sodium_base64_ENCODED_LEN (length input) <=? output_len)%nat
    SM_ERR_INVALID_ARGUMENT ;;
  mret (base64_encode input).

Definition utils_base64_decode `{Crypto} (input : bytes) (output_len : nat) : M bytes :=
  utils_init_sodium ;;
  match base64_decode (c_str input) with
  | Some decoded =>
      if (length decoded <=? output_len)%nat then mret decoded
      else throw SM_ERR_INVALID_ARGUMENT
  | None => throw SM_ERR_INVALID_ARGUMENT
  end.

(** * UUIDs and passwords *)

Definition print_uuid (u : bytes) : bytes :=
  let x i := print_x2 (nth i u Byte.x00) in
  x 0 ++ x 1 ++ x 2 ++ x 3 ++ str "-" ++ x 4 ++ x 5 ++ str "-" ++ x 6 ++ x 7 ++ str "-"
  ++ x 8 ++ x 9 ++ str "-" ++ x 10 ++ x 11 ++ x 12 ++ x 13 ++ x 14 ++ x 15.

(** [uuid[6] = (uuid[6] & 0x0F) | 0x40; uuid[8] = (uuid[8] & 0x3F) | 0x80;] *)
Definition uuid_set_version (u : bytes) : bytes :=
  <[8%nat := z_byte (Z.lor (Z.land (byte_z (nth 8 u Byte.x00)) 63) 128)]>
  (<[6%nat := z_byte (Z.lor (Z.land (byte_z (nth 6 u Byte.x00)) 15) 64)]> u).

Definition utils_generate_uuid_v4 (buffer_len : nat) : M bytes :=
  guard_or (UTILS_UUID_V4_BUFFER_LEN <=? buffer_len)%nat SM_ERR_INVALID_ARGUMENT ;;
  utils_init_sodium ;;
  uuid ← randombytes_buf 16;
  mret (print_uuid (uuid_set_version uuid)).

Definition password_alnum : bytes :=
  str "ABCDEFGHIJKLMNOPQRSTUVWXYZabcdefghijklmnopqrstuvwxyz0123456789".
Definition password_symbols : bytes := str "!@#$%^&*()-_=+[]{}:;,.?".

Fixpoint password_chars (charset : bytes) (n : nat) : M bytes :=
  match n with
  | O => mret []
  | S n' =>
      i ← randombytes_uniform (Z.of_nat (length charset));
      rest ← password_chars charset n';
      mret (nth (Z.to_nat i) charset Byte.x00 :: rest)
  end.

Definition utils_generate_password (buffer_len password_len : nat) (include_symbols : bool)
  : M bytes :=
  guard_or (negb (password_len =? 0)%nat && negb (buffer_len <=? password_len)%nat)
    SM_ERR_INVALID_ARGUMENT ;;
  utils_init_sodium ;;
  password_chars (if include_symbols then password_alnum ++ password_symbols
                  else password_alnum) password_len.

(** * Base32 *)

Record base32_state := Base32State {
  b32_accumulator : Z;     (* uint32_t *)
  b32_bits : Z;
  b32_out : bytes;         (* output[0 .. out_pos) *)
  b32_padding : bool;
}.

Definition base32_value (c : Z) : option Z :=
  if ((65 <=? c) && (c <=? 90))%Z then Some (c - 65)%Z
  else if ((97 <=? c) && (c <=? 122))%Z then Some (c - 97)%Z
  else if ((50 <=? c) && (c <=? 55))%Z then Some (c - 50 + 26)%Z
  else None.

Definition base32_space (c : Z) : bool :=
  ((c =? 32) || (c =? 10) || (c =? 13) || (c =? 9))%Z.

(** One iteration of the loop. *)
Definition base32_step (output_len : nat) (s : base32_state) (ch : byte)
  : outcome base32_state :=
  let c := byte_z ch in
  if base32_space c then Ok s
  else if (c =? 61)%Z then
    Ok (Base32State (b32_accumulator s) (b32_bits s) (b32_out s) true)
  else if b32_padding s then Err SM_ERR_INVALID_ARGUMENT
  else match base32_value c with
       | None => Err SM_ERR_INVALID_ARGUMENT
       | Some value =>
           let accumulator := wrap_u 32 (Z.lor (Z.shiftl (b32_accumulator s) 5) value) in
           let bits := (b32_bits s + 5)%Z in
           if (8 <=? bits)%Z then
             if (output_len <=? length (b32_out s))%nat then Err SM_ERR_INVALID_ARGUMENT
             else Ok (Base32State accumulator (bits - 8)
                        (b32_out s ++ [z_byte (Z.land (Z.shiftr accumulator (bits - 8)) 255)])
                        (b32_padding s))
           else Ok (Base32State accumulator bits (b32_out s) (b32_padding s))
       end.

Fixpoint base32_loop (output_len : nat) (s : base32_state) (input : bytes)
  : outcome base32_state :=
  match input with
  | [] => Ok s
  | ch :: input' => s' ← base32_step output_len s ch; base32_loop output_len s' input'
  end.

Definition utils_base32_decode (input : bytes) (output_len : nat) : outcome bytes :=
  s ← base32_loop output_len (Base32State 0 0 [] false) input;
  if (length (b32_out s) =? 0)%nat then Err SM_ERR_INVALID_ARGUMENT else Ok (b32_out s).

(** * TOTP *)

Definition totp_binary_code (mac : bytes) : Z :=
  let at_ i := byte_z (nth i mac Byte.x00) in
  let offset := Z.to_nat (Z.land (at_ (length mac - 1)%nat) 15) in
  Z.lor (Z.lor (Z.lor (Z.shiftl (Z.land (at_ offset) 127) 24)
                      (Z.shiftl (at_ (offset + 1)%nat) 16))
               (Z.shiftl (at_ (offset + 2)%nat) 8))
        (at_ (offset + 3)%nat).

(** [for (i = 7; i >= 0; i--) { bytes[i] = counter & 0xFF; counter >>= 8; }] *)
Definition totp_counter_bytes (counter : Z) : bytes := rev (write_le 8 counter).

(** [for (i = 0; i < digits; i++) modulus *= 10;] on a [uint32_t]. *)
Fixpoint totp_modulus (digits : nat) : Z :=
  match digits with O => 1 | S d => wrap_u 32 (totp_modulus d * 10) end.

Definition utils_totp_code `{Crypto} (seed : bytes) (unix_time period_seconds digits : Z)
    (output_len : nat) : M bytes :=
  guard_or (negb (length seed =? 0)%nat && negb (period_seconds =? 0)%Z
            && (6 <=? digits)%Z && (digits <=? 8)%Z
            && (digits <? Z.of_nat output_len)%Z) SM_ERR_INVALID_ARGUMENT ;;
  let counter := (unix_time / period_seconds)%Z in
  lib_call SM_ERR_CRYPTO ;;
  let mac := hmac_sha1 seed (totp_counter_bytes counter) in
  guard_or (20 <=? length mac)%nat SM_ERR_CRYPTO ;;
  let s := print_pad (Z.to_nat digits)
             (totp_binary_code mac mod totp_modulus (Z.to_nat digits)) in
  if (output_len <=? length s)%nat then throw SM_ERR_INVALID_ARGUMENT else mret s.

(** * Calendar lemmas *)

Fixpoint years_span (n : nat) (y : Z) : Z :=
  match n with O => 0 | S n' => year_len y + years_span n' (y + 1) end.

Lemma is_leap_400 y k : is_leap (y + 400 * k) = is_leap y.
Proof.
  unfold is_leap.
  replace (y + 400 * k)%Z with (y + (100 * k) * 4)%Z at 1 by lia.
  replace (y + 400 * k)%Z with (y + (4 * k) * 100)%Z at 1 by lia.
  replace (y + 400 * k)%Z with (y + k * 400)%Z by lia.
  by rewrite !Z.mod_add by lia.
Qed.

Lemma year_len_400 y k : year_len (y + 400 * k) = year_len y.
Proof. unfold year_len. by rewrite is_leap_400. Qed.

Lemma year_len_pos y : (365 ≤ year_len y ≤ 366)%Z.
Proof. unfold year_len. destruct (is_leap y); lia. Qed.

Lemma years_span_400 n y k : years_span n (y + 400 * k) = years_span n y.
Proof.
  revert y. induction n as [|n IH]; intros y; simpl; [done|].
  rewrite year_len_400. replace (y + 400 * k + 1)%Z with (y + 1 + 400 * k)%Z by lia.
  by rewrite IH.
Qed.

Lemma years_span_cycle k : years_span 400 (1970 + 400 * k) = 146097%Z.
Proof. rewrite years_span_400. reflexivity. Qed.

Lemma find_year_range n y d :
  (0 ≤ d < years_span n y)%Z →
  let '(y', d') := find_year n y d in
  (y ≤ y' < y + Z.of_nat n)%Z ∧ (0 ≤ d' < year_len y')%Z.
Proof.
  revert y d. induction n as [|n IH]; intros y d Hd; simpl in *; [lia|].
  destruct (Z.ltb_spec d (year_len y)); [lia|].
  specialize (IH (y + 1)%Z (d - year_len y)%Z ltac:(lia)).
  destruct (find_year n (y + 1) (d - year_len y)). lia.
Qed.

Lemma find_year_ge n y d : (y ≤ (find_year n y d).1)%Z.
Proof.
  revert y d. induction n as [|n IH]; intros y d; simpl; [lia|].
  destruct (d <? year_len y)%Z; simpl; [lia|].
  specialize (IH (y + 1)%Z (d - year_len y)%Z). lia.
Qed.

Lemma find_year_lt n y d1 d2 :
  (d1 < d2)%Z →
  let '(y1, r1) := find_year n y d1 in
  let '(y2, r2) := find_year n y d2 in
  (y1 < y2 ∨ y1 = y2 ∧ r1 < r2)%Z.
Proof.
  revert y d1 d2. induction n as [|n IH]; intros y d1 d2 Hd; simpl; [lia|].
  destruct (Z.ltb_spec d1 (year_len y)), (Z.ltb_spec d2 (year_len y)); try lia.
  - pose proof (find_year_ge n (y + 1) (d2 - year_len y)).
    destruct (find_year n (y + 1) (d2 - year_len y)). simpl in *. lia.
  - apply (IH (y + 1)%Z). lia.
Qed.

Lemma find_month_range lens m d :
  (0 ≤ d < foldr Z.add 0 lens)%Z → Forall (λ l, l ≤ 31)%Z lens →
  let '(m', d') := find_month lens m d in
  (m ≤ m' < m + Z.of_nat (length lens))%Z ∧ (0 ≤ d' < 31)%Z.
Proof.
  revert m d. induction lens as [|l lens IH]; intros m d Hd Hl; simpl in *; [lia|].
  apply Forall_cons in Hl as [Hl Hls].
  destruct (Z.ltb_spec d l); [lia|].
  specialize (IH (m + 1)%Z (d - l)%Z ltac:(lia) Hls).
  destruct (find_month lens (m + 1) (d - l)). lia.
Qed.

Lemma find_month_ge lens m d : (m ≤ (find_month lens m d).1)%Z.
Proof.
  revert m d. induction lens as [|l lens IH]; intros m d; simpl; [lia|].
  destruct (d <? l)%Z; simpl; [lia|]. specialize (IH (m + 1)%Z (d - l)%Z). lia.
Qed.

Lemma find_month_lt lens m d1 d2 :
  (d1 < d2)%Z →
  let '(m1, r1) := find_month lens m d1 in
  let '(m2, r2) := find_month lens m d2 in
  (m1 < m2 ∨ m1 = m2 ∧ r1 < r2)%Z.
Proof.
  revert m d1 d2. induction lens as [|l lens IH]; intros m d1 d2 Hd; simpl; [lia|].
  destruct (Z.ltb_spec d1 l), (Z.ltb_spec d2 l); try lia.
  - pose proof (find_month_ge lens (m + 1) (d2 - l)).
    destruct (find_month lens (m + 1) (d2 - l)). simpl in *. lia.
  - apply (IH (m + 1)%Z). lia.
Qed.

Lemma month_lens_sum leap :
  foldr Z.add 0%Z (month_lens leap) = (if leap then 366 else 365)%Z.
Proof. by destruct leap. Qed.

(** 23:59:59 of 31 December 9999, the last second of a four-digit year. *)
Definition MAX_ISO8601 : Z := 253402300799.

Definition tm_valid (t : tm) : Prop :=
  (-1900 ≤ tm_year t < 8100 ∧ 0 ≤ tm_mon t < 12 ∧ 0 < tm_mday t ≤ 31 ∧
   0 ≤ tm_hour t < 24 ∧ 0 ≤ tm_min t < 60 ∧ 0 ≤ tm_sec t < 60)%Z.

Definition tm_lt (a b : tm) : Prop :=
  (tm_year a < tm_year b ∨ tm_year a = tm_year b ∧
  (tm_mon a < tm_mon b ∨ tm_mon a = tm_mon b ∧
  (tm_mday a < tm_mday b ∨ tm_mday a = tm_mday b ∧
  (tm_hour a < tm_hour b ∨ tm_hour a = tm_hour b ∧
  (tm_min a < tm_min b ∨ tm_min a = tm_min b ∧ tm_sec a < tm_sec b)))))%Z.

Lemma year_of_day_range days :
  let '(y, r) := year_of_day days in
  (1970 + 400 * (days / 146097) ≤ y < 2370 + 400 * (days / 146097))%Z ∧
  (0 ≤ r < year_len y)%Z.
Proof.
  unfold year_of_day.
  pose proof (find_year_range 400 (1970 + 400 * (days / 146097)) (days mod 146097)) as H.
  rewrite years_span_cycle in H. specialize (H (Z.mod_pos_bound days 146097 ltac:(lia))).
  destruct (find_year _ _ _). lia.
Qed.

Lemma year_of_day_lt d1 d2 :
  (d1 < d2)%Z →
  let '(y1, r1) := year_of_day d1 in
  let '(y2, r2) := year_of_day d2 in
  (y1 < y2 ∨ y1 = y2 ∧ r1 < r2)%Z.
Proof.
  intros Hd. pose proof (year_of_day_range d1) as R1. pose proof (year_of_day_range d2) as R2.
  pose proof (Z.div_le_mono d1 d2 146097 ltac:(lia) ltac:(lia)) as Hq.
  destruct (decide (d1 / 146097 = d2 / 146097)%Z) as [E|Hne].
  - unfold year_of_day. rewrite E. apply find_year_lt.
    pose proof (Z.div_mod d1 146097). pose proof (Z.div_mod d2 146097). lia.
  - destruct (year_of_day d1), (year_of_day d2). lia.
Qed.

Lemma year_of_day_9999 days : (days ≤ 2932896)%Z → ((year_of_day days).1 ≤ 9999)%Z.
Proof.
  intros H. destruct (decide (days = 2932896%Z)) as [->|Hne].
  - apply (bool_decide_unpack _). vm_compute. exact I.
  - pose proof (year_of_day_lt days 2932896 ltac:(lia)) as L.
    assert ((year_of_day 2932896).1 = 9999%Z) as E by (vm_compute; reflexivity).
    destruct (year_of_day days), (year_of_day 2932896). simpl in *. lia.
Qed.

Lemma gmtime_valid t :
  (0 ≤ t ≤ MAX_ISO8601)%Z → ∃ u, gmtime t = Some u ∧ tm_valid u.
Proof.
  intros [H0 H1]. unfold gmtime, MAX_ISO8601 in *.
  pose proof (year_of_day_range (t / 86400)) as R.
  pose proof (year_of_day_9999 (t / 86400)) as R9.
  destruct (year_of_day (t / 86400)) as [y r]. simpl in R9.
  pose proof (Z.div_le_mono t 253402300799 86400 ltac:(lia) H1) as Hdm.
  change (253402300799 / 86400)%Z with 2932896%Z in Hdm. specialize (R9 Hdm).
  pose proof (Z.div_pos t 86400 H0 ltac:(lia)).
  pose proof (Z.div_pos (t / 86400) 146097 ltac:(lia) ltac:(lia)).
  pose proof (find_month_range (month_lens (is_leap y)) 0 r) as RM.
  rewrite month_lens_sum in RM. unfold year_len in R.
  specialize (RM (proj2 R) ltac:(destruct (is_leap y); repeat constructor; lia)).
  destruct (find_month _ _ _) as [mon mday]. simpl in RM.
  rewrite (proj2 (Z.leb_le _ _)) by (unfold INT_MIN; lia).
  rewrite (proj2 (Z.leb_le _ _)) by (unfold INT_MAX; lia).
  eexists. split; [reflexivity|]. unfold tm_valid. simpl.
  pose proof (Z.mod_pos_bound t 86400 ltac:(lia)).
  Z.div_mod_to_equations; lia.
Qed.

Lemma gmtime_lt t1 t2 u1 u2 :
  (t1 < t2)%Z → gmtime t1 = Some u1 → gmtime t2 = Some u2 → tm_lt u1 u2.
Proof.
  intros Ht. unfold gmtime.
  pose proof (Z.div_le_mono t1 t2 86400 ltac:(lia) ltac:(lia)) as Hq.
  pose proof (Z.mod_pos_bound t1 86400 ltac:(lia)) as B1.
  pose proof (Z.mod_pos_bound t2 86400 ltac:(lia)) as B2.
  destruct (decide (t1 / 86400 = t2 / 86400)%Z) as [E|Hne].
  - rewrite E. destruct (year_of_day _) as [y r], (find_month _ _ _) as [m d].
    destruct (_ && _); [|done]. intros [= <-] [= <-]. unfold tm_lt. simpl.
    pose proof (Z.div_mod t1 86400). pose proof (Z.div_mod t2 86400).
    assert (t1 mod 86400 < t2 mod 86400)%Z by lia.
    right; split; [done|]. right; split; [done|]. right; split; [done|].
    Z.div_mod_to_equations; lia.
  - pose proof (year_of_day_lt (t1 / 86400) (t2 / 86400) ltac:(lia)) as L.
    destruct (year_of_day (t1 / 86400)) as [y1 r1], (year_of_day (t2 / 86400)) as [y2 r2].
    pose proof (find_month_lt (month_lens (is_leap y2)) 0 r1 r2) as LM.
    destruct L as [L|[-> L]].
    + clear LM. intros H1 H2. unfold tm_lt. left.
      destruct (find_month _ _ r1), (find_month _ _ r2).
      repeat (case_match; try done). simplify_eq. simpl. lia.
    + specialize (LM L).
      destruct (find_month _ _ r1), (find_month _ _ r2).
      destruct (_ && _); [|done]. intros [= <-] [= <-]. unfold tm_lt. simpl. lia.
Qed.

(** * Timestamps *)

Lemma print_pad_signed_fixed w z :
  (0 < w)%nat → (0 ≤ z < 10 ^ Z.of_nat w)%Z → print_pad_signed w z = dec_fixed w z.
Proof.
  intros Hw Hz. unfold print_pad_signed. rewrite (proj2 (Z.ltb_ge _ _)) by lia.
  by apply print_pad_fixed.
Qed.

Lemma print_tm_fixed u :
  tm_valid u →
  print_tm u = dec_fixed 4 (tm_year u + 1900) ++ str "-" ++ dec_fixed 2 (tm_mon u + 1)
  ++ str "-" ++ dec_fixed 2 (tm_mday u) ++ str "T" ++ dec_fixed 2 (tm_hour u)
  ++ str ":" ++ dec_fixed 2 (tm_min u) ++ str ":" ++ dec_fixed 2 (tm_sec u) ++ str "Z".
Proof.
  intros (H1 & H2 & H3 & H4 & H5 & H6). unfold print_tm.
  rewrite !print_pad_signed_fixed by (simpl; lia). done.
Qed.

Lemma strcmp_print_tm u v :
  tm_valid u → tm_valid v → tm_lt u v → strcmp (print_tm u) (print_tm v) = Lt.
Proof.
  intros Hu Hv Hlt. rewrite !print_tm_fixed by done.
  destruct Hu as (Hu1 & Hu2 & Hu3 & Hu4 & Hu5 & Hu6).
  destruct Hv as (Hv1 & Hv2 & Hv3 & Hv4 & Hv5 & Hv6). unfold tm_lt in Hlt.
  repeat (apply strcmp_field; [lia|simpl; lia|intros ?; rewrite strcmp_app_same]).
  apply strcmp_field; [lia|simpl; lia|intros ?; exfalso; lia].
Qed.

Lemma utils_format_iso8601_run t n :
  (0 ≤ t ≤ MAX_ISO8601)%Z → (UTILS_ISO8601_UTC_BUFFER_LEN ≤ n)%nat →
  ∃ u, gmtime t = Some u ∧ tm_valid u ∧
       utils_format_iso8601 t n = Ok (print_tm u) ∧ length (print_tm u) = UTILS_ISO8601_UTC_LEN.
Proof.
  intros Ht Hn. destruct (gmtime_valid t Ht) as (u & Hu & Hval).
  assert (length (print_tm u) = UTILS_ISO8601_UTC_LEN) as Hl.
  { rewrite print_tm_fixed by done. rewrite !length_app, !length_dec_fixed. done. }
  exists u. split_and!; [done..| |done].
  unfold utils_format_iso8601. rewrite (proj2 (Nat.ltb_ge _ _)) by done. rewrite Hu.
  rewrite (proj2 (Nat.leb_gt _ _)); [done|].
  rewrite Hl. unfold UTILS_ISO8601_UTC_BUFFER_LEN, UTILS_ISO8601_UTC_LEN in *. lia.
Qed.

(** A timestamp is a C string that is not empty. *)
Lemma digit_not_nul b : is_digit b → b ≠ Byte.x00.
Proof. unfold is_digit. intros H ->. change (byte_z Byte.x00) with 0%Z in H. lia. Qed.

Lemma print_pad_signed_text w z : (Byte.x00 ∉ print_pad_signed w z) ∧ print_pad_signed w z ≠ [].
Proof.
  assert (∀ w z, (0 ≤ z)%Z → (Byte.x00 ∉ print_pad w z) ∧ print_pad w z ≠ []) as H.
  { clear. intros w z Hz. unfold print_pad. split.
    - intros [H|H]%elem_of_app.
      + apply elem_of_replicate in H as [H _]. done.
      + pose proof (print_dec_digits z Hz) as F. rewrite Forall_forall in F.
        by apply F, digit_not_nul in H.
    - intros [_ E]%app_eq_nil. rewrite print_dec_eq in E by done. by apply app_eq_nil in E as [_ ?]. }
  unfold print_pad_signed. destruct (Z.ltb_spec z 0) as [Hz|Hz]; [|by apply H].
  destruct (H (w - 1)%nat (- z)%Z) as [Hn _]; [lia|]. split; [|done].
  simpl. intros [?|?]%elem_of_cons; done.
Qed.

Lemma utils_format_iso8601_text t n s :
  utils_format_iso8601 t n = Ok s → (Byte.x00 ∉ s) ∧ s ≠ [].
Proof.
  unfold utils_format_iso8601. destruct (_ <? _)%nat; [done|].
  destruct (gmtime t) as [u|]; [|done]. destruct (_ <=? _)%nat; [done|]. intros [= <-].
  unfold print_tm. split.
  - rewrite !not_elem_of_app. split_and!; try apply print_pad_signed_text.
    all: intros [?|?]%elem_of_cons; [done|by apply not_elem_of_nil in H || done].
  - intros [E _]%app_eq_nil. by apply print_pad_signed_text in E.
Qed.

Lemma utils_format_iso8601_fits t n s : utils_format_iso8601 t n = Ok s → (length s < n)%nat.
Proof.
  unfold utils_format_iso8601. destruct (_ <? _)%nat; [done|]. destruct (gmtime t) as [u|]; [|done].
  destruct (Nat.leb_spec n (length (print_tm u))); [done|]. by intros [= <-].
Qed.

Lemma length_print_pad w z : (w ≤ length (print_pad w z))%nat.
Proof. unfold print_pad. rewrite length_app, length_replicate. lia. Qed.
Lemma length_print_pad_signed w z : (w ≤ length (print_pad_signed w z))%nat.
Proof.
  unfold print_pad_signed. destruct (z <? 0)%Z; [|apply length_print_pad].
  rewrite length_app. pose proof (length_print_pad (w - 1) (- z)). simpl. lia.
Qed.
Lemma length_print_dec_10000 z : (10000 ≤ z)%Z → (5 ≤ length (print_dec z))%nat.
Proof.
  intros Hz. assert (∀ x, (10 ≤ x)%Z → length (print_dec x) = S (length (print_dec (x / 10)))) as Hstep.
  { intros x Hx. rewrite print_dec_eq by lia. rewrite (proj2 (Z.ltb_ge _ _)) by lia.
    rewrite length_app. simpl. lia. }
  do 4 (rewrite Hstep by (Z.div_mod_to_equations; lia)).
  rewrite print_dec_eq by (Z.div_mod_to_equations; lia). rewrite length_app. simpl. lia.
Qed.
Lemma year_of_day_10000 days : (2932896 < days)%Z → (9999 < (year_of_day days).1)%Z.
Proof.
  intros H. pose proof (year_of_day_lt 2932896 days H) as L.
  assert (year_of_day 2932896 = (9999, 364)%Z) as E by (vm_compute; reflexivity).
  pose proof (year_of_day_range days) as R. rewrite E in L.
  destruct (year_of_day days) as [y r]. simpl. destruct L as [L|[<- L]]; [lia|].
  assert (year_len 9999 = 365%Z) as E' by (vm_compute; reflexivity). lia.
Qed.
Lemma length_print_tm_10000 u : (10000 ≤ tm_year u + 1900)%Z → (21 ≤ length (print_tm u))%nat.
Proof.
  intros Hy. assert (5 ≤ length (print_pad_signed 4 (tm_year u + 1900)))%nat as H1.
  { unfold print_pad_signed. rewrite (proj2 (Z.ltb_ge _ _)) by lia. unfold print_pad. rewrite length_app.
    pose proof (length_print_dec_10000 _ Hy). lia. }
  unfold print_tm. rewrite !length_app.
  pose proof (length_print_pad_signed 2 (tm_mon u + 1)). pose proof (length_print_pad_signed 2 (tm_mday u)).
  pose proof (length_print_pad_signed 2 (tm_hour u)). pose proof (length_print_pad_signed 2 (tm_min u)).
  pose proof (length_print_pad_signed 2 (tm_sec u)).
  change (length (str "-")) with 1%nat. change (length (str "T")) with 1%nat.
  change (length (str ":")) with 1%nat. change (length (str "Z")) with 1%nat. lia.
Qed.

Lemma gmtime_year t u : gmtime t = Some u → (tm_year u + 1900)%Z = (year_of_day (t / 86400)).1.
Proof.
  unfold gmtime. destruct (year_of_day (t / 86400)) as [y r]. destruct (find_month _ _ _) as [mon md].
  destruct (_ && _); [|done]. intros [= <-]. cbn [tm_year fst]. lia.
Qed.

Lemma format_ok_inv t n s :
  utils_format_iso8601 t n = Ok s → ∃ u, gmtime t = Some u ∧ s = print_tm u.
Proof.
  unfold utils_format_iso8601. destruct (n <? _)%nat; [done|]. destruct (gmtime t) as [u|]; [|done].
  destruct (_ <=? _)%nat; [done|]. intros [= <-]. by exists u.
Qed.

(** A time that fits the buffer is of a year up to 9999. *)
Lemma utils_format_iso8601_max t s :
  utils_format_iso8601 t UTILS_ISO8601_UTC_BUFFER_LEN = Ok s → (t ≤ MAX_ISO8601)%Z.
Proof.
  intros H. destruct (Z.le_gt_cases t MAX_ISO8601) as [|Hgt]; [done|exfalso].
  pose proof (utils_format_iso8601_fits _ _ _ H) as Hl. apply format_ok_inv in H as (u & Hu & ->).
  assert (9999 < (year_of_day (t / 86400)).1)%Z as Hy.
  { apply year_of_day_10000. unfold MAX_ISO8601 in Hgt. Z.div_mod_to_equations; lia. }
  rewrite <- (gmtime_year _ _ Hu) in Hy. pose proof (length_print_tm_10000 u ltac:(lia)) as Hl'.
  exact (Nat.lt_irrefl _ (Nat.lt_le_trans _ _ _ Hl Hl')).
Qed.

Lemma format_order t1 t2 n :
  (0 ≤ t1 ≤ MAX_ISO8601)%Z → (0 ≤ t2 ≤ MAX_ISO8601)%Z →
  (UTILS_ISO8601_UTC_BUFFER_LEN ≤ n)%nat →
  ∃ s1 s2, utils_format_iso8601 t1 n = Ok s1 ∧ utils_format_iso8601 t2 n = Ok s2 ∧
           length s1 = UTILS_ISO8601_UTC_LEN ∧ strcmp s1 s2 = Z.compare t1 t2.
Proof.
  intros H1 H2 Hn.
  destruct (utils_format_iso8601_run t1 n H1 Hn) as (u1 & E1 & V1 & -> & L1).
  destruct (utils_format_iso8601_run t2 n H2 Hn) as (u2 & E2 & V2 & -> & L2).
  exists (print_tm u1), (print_tm u2). split_and!; [done..|].
  destruct (Z.compare_spec t1 t2) as [->|Hlt|Hgt].
  - rewrite E1 in E2. injection E2 as ->. apply strcmp_refl.
  - eapply strcmp_print_tm, gmtime_lt; eauto.
  - rewrite strcmp_antisym, (strcmp_print_tm u2 u1); [done..|].
    by eapply (gmtime_lt t2 t1).
Qed.

(** Timestamps of the years 1970 to 9999 always fit the 21-byte buffers of the
    callers, and comparing two of them as strings (as the expiry scans of
    vault.c and the SQL [<=] on [expires_at] do) compares the instants. *)
Theorem utils_format_iso8601_order t1 t2 n :
  (0 ≤ t1 ≤ MAX_ISO8601)%Z → (0 ≤ t2 ≤ MAX_ISO8601)%Z →
  (UTILS_ISO8601_UTC_BUFFER_LEN ≤ n)%nat →
  ∃ s1 s2, utils_format_iso8601 t1 n = Ok s1 ∧ utils_format_iso8601 t2 n = Ok s2 ∧
           length s1 = UTILS_ISO8601_UTC_LEN ∧ strcmp s1 s2 = Z.compare t1 t2.
Proof. apply format_order. Qed.

(** * Base32 against its bit-string definition *)

(** The number written by a list of 5-bit digits. *)
Definition base32_number (vs : list Z) : Z := foldl (λ acc v, acc * 32 + v)%Z 0%Z vs.

(** Its bits, five per digit, cut into whole bytes from the left. *)
Definition base32_bytes (vs : list Z) : bytes :=
  (λ i, z_byte (Z.shiftr (base32_number vs)
                  (Z.of_nat (5 * length vs) - 8 * Z.of_nat (S i))))
    <$> seq 0 (5 * length vs / 8).

(** What is left of the input without its white space. *)
Definition base32_text (input : bytes) : bytes :=
  filter (λ b, base32_space (byte_z b) = false) input.

Definition pad_char : byte := z_byte 61.

Record base32_inv (vs : list Z) (s : base32_state) : Prop := {
  inv_accumulator : b32_accumulator s = (base32_number vs mod 2 ^ 32)%Z;
  inv_bits : b32_bits s = Z.of_nat (5 * length vs mod 8);
  inv_out : b32_out s = base32_bytes vs;
}.

Lemma base32_value_bound c v : base32_value c = Some v → (0 ≤ v < 32)%Z.
Proof.
  unfold base32_value. intros H.
  repeat case_match; simplify_eq;
    repeat match goal with E : andb _ _ = true |- _ => apply andb_true_iff in E as [? ?] end;
    lia.
Qed.

Lemma base32_value_not_special c v :
  base32_value c = Some v → base32_space c = false ∧ (c =? 61)%Z = false.
Proof.
  unfold base32_value, base32_space. intros H.
  repeat case_match; simplify_eq;
    repeat match goal with E : andb _ _ = true |- _ => apply andb_true_iff in E as [? ?] end;
    split; lia.
Qed.

Lemma length_base32_bytes vs : length (base32_bytes vs) = (5 * length vs / 8)%nat.
Proof. unfold base32_bytes. by rewrite length_fmap, length_seq. Qed.

Lemma base32_number_snoc vs v : base32_number (vs ++ [v]) = (base32_number vs * 32 + v)%Z.
Proof. unfold base32_number. by rewrite foldl_app. Qed.

Lemma z_byte_land255 x : z_byte (Z.land x 255) = z_byte x.
Proof.
  apply byte_z_inj. rewrite !byte_z_z_byte. change 255%Z with (Z.ones 8).
  rewrite Z.land_ones by lia. change (2 ^ 8)%Z with 256%Z. by rewrite Z.mod_mod by lia.
Qed.

Lemma land255_mod32 x j :
  (0 ≤ j ≤ 24)%Z → Z.land (Z.shiftr (x mod 2 ^ 32) j) 255 = Z.land (Z.shiftr x j) 255.
Proof.
  intros Hj. apply Z.bits_inj'. intros i Hi. rewrite !Z.land_spec, !Z.shiftr_spec by done.
  change 255%Z with (Z.ones 8). destruct (decide (i < 8)%Z).
  - by rewrite Z.mod_pow2_bits_low by lia.
  - rewrite (Z.ones_spec_high 8 i) by lia. by rewrite !andb_false_r.
Qed.

(** Appending a digit adds the byte it completes, if any. *)
Lemma base32_bytes_snoc vs v :
  (0 ≤ v < 32)%Z →
  base32_bytes (vs ++ [v]) =
    base32_bytes vs ++
    (if (8 <=? Z.of_nat (5 * length vs mod 8) + 5)%Z
     then [z_byte (Z.shiftr (base32_number vs * 32 + v) (Z.of_nat (5 * length vs mod 8) + 5 - 8))]
     else []).
Proof.
  intros Hv. unfold base32_bytes. rewrite base32_number_snoc, length_app. cbn [length].
  set (n := length vs) in *.
  pose proof (Nat.div_mod_eq (5 * n) 8) as Hdm.
  pose proof (Nat.mod_upper_bound (5 * n) 8 ltac:(lia)) as Hmb.
  assert (∀ k, (k ≤ 5 * n / 8)%nat →
    ((λ i, z_byte (Z.shiftr (base32_number vs * 32 + v)
       (Z.of_nat (5 * (n + 1)) - 8 * Z.of_nat (S i)))) <$> seq 0 k) =
    ((λ i, z_byte (Z.shiftr (base32_number vs)
       (Z.of_nat (5 * n) - 8 * Z.of_nat (S i)))) <$> seq 0 k)) as Hold.
  { intros k Hk. apply list_fmap_ext. intros i x Hx. f_equal.
    apply lookup_seq in Hx as [-> Hi].
    replace (Z.of_nat (5 * (n + 1)) - 8 * Z.of_nat (S (0 + i)))%Z
      with (5 + (Z.of_nat (5 * n) - 8 * Z.of_nat (S (0 + i))))%Z by lia.
    rewrite <- Z.shiftr_shiftr by lia. f_equal.
    rewrite Z.shiftr_div_pow2 by lia. change (2 ^ 5)%Z with 32%Z.
    rewrite Z.div_add_l by lia. rewrite Z.div_small by lia. lia. }
  destruct (Z.leb_spec 8 (Z.of_nat (5 * n mod 8) + 5)) as [Hc|Hc].
  - replace (5 * (n + 1) / 8)%nat with (S (5 * n / 8))%nat
      by (apply Nat.div_unique with (5 * n mod 8 + 5 - 8)%nat; lia).
    rewrite seq_S, fmap_app, Hold by lia. cbn [fmap list_fmap]. do 4 f_equal. lia.
  - replace (5 * (n + 1) / 8)%nat with (5 * n / 8)%nat
      by (apply Nat.div_unique with (5 * n mod 8 + 5)%nat; lia).
    rewrite Hold by lia. by rewrite app_nil_r.
Qed.

Lemma base32_step_inv n vs s ch v :
  base32_inv vs s → b32_padding s = false → base32_value (byte_z ch) = Some v →
  (length (base32_bytes (vs ++ [v])) ≤ n)%nat →
  ∃ s', base32_step n s ch = Ok s' ∧ base32_inv (vs ++ [v]) s' ∧ b32_padding s' = false.
Proof.
  intros [Ha Hb Ho] Hp Hv Hn. pose proof (base32_value_bound _ _ Hv) as Hvb.
  destruct (base32_value_not_special _ _ Hv) as [Hs He].
  unfold base32_step. rewrite Hs, He, Hp, Hv.
  pose proof (base32_bytes_snoc vs v Hvb) as Hsnoc. rewrite <- Hb in Hsnoc.
  assert (wrap_u 32 (Z.lor (Z.shiftl (b32_accumulator s) 5) v)
          = (base32_number (vs ++ [v]) mod 2 ^ 32)%Z) as Hacc.
  { rewrite Z.lor_comm, lor_low_high by (simpl; lia). change (2 ^ 5)%Z with 32%Z.
    unfold wrap_u. rewrite base32_number_snoc, Ha.
    rewrite Z.add_mod, Z.mul_mod_idemp_l, <- Z.add_mod by done. f_equal. lia. }
  assert (Z.of_nat (5 * length (vs ++ [v]) mod 8) =
          if (8 <=? b32_bits s + 5)%Z then (b32_bits s + 5 - 8)%Z else (b32_bits s + 5)%Z) as Hbits.
  { rewrite length_app. cbn [length]. rewrite Hb.
    pose proof (Nat.div_mod_eq (5 * length vs) 8). pose proof (Nat.mod_upper_bound (5 * length vs) 8).
    destruct (Z.leb_spec 8 (Z.of_nat (5 * length vs mod 8) + 5)).
    - rewrite <- (Nat.mod_unique (5 * (length vs + 1)) 8 (S (5 * length vs / 8))
        (5 * length vs mod 8 + 5 - 8)); lia.
    - rewrite <- (Nat.mod_unique (5 * (length vs + 1)) 8 (5 * length vs / 8)
        (5 * length vs mod 8 + 5)); lia. }
  rewrite Hacc.
  pose proof (Nat.mod_upper_bound (5 * length vs) 8 ltac:(lia)) as Hmb.
  revert Hbits Hsnoc.
  destruct (Z.leb_spec 8 (b32_bits s + 5)) as [Hc|Hc]; intros Hbits Hsnoc.
  - rewrite Hsnoc in Hn. rewrite length_app in Hn. simpl in Hn.
    rewrite (proj2 (Nat.leb_gt _ _)) by (rewrite Ho; lia).
    eexists. split; [done|]. split; [|done].
    split; cbn [b32_accumulator b32_bits b32_out]; [done|by rewrite Hbits|].
    rewrite Hsnoc, Ho. rewrite land255_mod32 by (rewrite Hb in *; lia).
    rewrite z_byte_land255. by rewrite base32_number_snoc.
  - eexists. split; [done|]. split; [|done].
    split; cbn [b32_accumulator b32_bits b32_out]; [done|by rewrite Hbits|].
    by rewrite Hsnoc, Ho, app_nil_r.
Qed.

Lemma base32_step_too_long n vs s ch v :
  base32_inv vs s → b32_padding s = false → base32_value (byte_z ch) = Some v →
  (length (base32_bytes vs) ≤ n < length (base32_bytes (vs ++ [v])))%nat →
  base32_step n s ch = Err SM_ERR_INVALID_ARGUMENT.
Proof.
  intros [Ha Hb Ho] Hp Hv Hn. pose proof (base32_value_bound _ _ Hv) as Hvb.
  destruct (base32_value_not_special _ _ Hv) as [Hs He].
  unfold base32_step. rewrite Hs, He, Hp, Hv. rewrite base32_bytes_snoc in Hn by done.
  rewrite <- Hb in Hn. destruct (8 <=? b32_bits s + 5)%Z.
  - rewrite length_app in Hn. simpl in Hn. rewrite (proj2 (Nat.leb_le _ _)); [done|].
    rewrite Ho. lia.
  - rewrite app_nil_r in Hn. lia.
Qed.

Lemma base32_bytes_prefix vs ws :
  Forall (λ v, 0 ≤ v < 32)%Z ws →
  (length (base32_bytes vs) ≤ length (base32_bytes (vs ++ ws)))%nat.
Proof.
  intros _. rewrite !length_base32_bytes, length_app.
  apply Nat.Div0.div_le_mono; lia.
Qed.

(** Only padding and white space may follow padding. *)
Lemma base32_loop_padded n s input :
  b32_padding s = true →
  base32_loop n s input =
    if decide (Forall (λ b, b = pad_char) (base32_text input)) then Ok s
    else Err SM_ERR_INVALID_ARGUMENT.
Proof.
  intros Hp. induction input as [|ch input IH]; simpl; [done|].
  unfold base32_text. unfold base32_step at 1. rewrite Hp.
  destruct (base32_space (byte_z ch)) eqn:Es.
  - rewrite filter_cons_False by congruence. simpl. apply IH.
  - rewrite filter_cons_True by done.
    destruct (Z.eqb_spec (byte_z ch) 61) as [E|E].
    + assert (ch = pad_char) as -> by (apply byte_z_inj; rewrite E; done).
      assert (Base32State (b32_accumulator s) (b32_bits s) (b32_out s) true = s) as Hs
        by (destruct s; simpl in *; congruence).
      simpl. rewrite Hs, IH. unfold base32_text.
      destruct (decide (Forall _ (filter _ input))) as [H|H];
        [rewrite decide_True; [done|by constructor]|].
      rewrite decide_False; [done|]. intros H'. by apply Forall_cons in H' as [_ ?].
    + rewrite decide_False; [done|]. intros H'. apply Forall_cons in H' as [-> _].
      by apply E.
Qed.

(** The loop on the rest of an input, from a state that has read [vs]. *)
Definition base32_accepts (input : bytes) (ws : list Z) : Prop :=
  ∃ data k, base32_text input = data ++ replicate k pad_char ∧
            mapM (λ b, base32_value (byte_z b)) data = Some ws.

Lemma base32_loop_spec n s vs input :
  base32_inv vs s → b32_padding s = false → (length (base32_bytes vs) ≤ n)%nat →
  (∃ s' ws, base32_loop n s input = Ok s' ∧ b32_out s' = base32_bytes (vs ++ ws) ∧
            base32_accepts input ws ∧ (length (base32_bytes (vs ++ ws)) ≤ n)%nat) ∨
  (base32_loop n s input = Err SM_ERR_INVALID_ARGUMENT ∧
   ∀ ws, base32_accepts input ws → (n < length (base32_bytes (vs ++ ws)))%nat).
Proof.
  revert s vs. induction input as [|ch input IH]; intros s vs Hi Hp Hn.
  { left. exists s, []. rewrite app_nil_r. split_and!; [done|apply Hi| |done].
    by exists [], 0%nat. }
  destruct (base32_space (byte_z ch)) eqn:Es.
  { simpl. unfold base32_step. rewrite Es. simpl.
    unfold base32_accepts, base32_text in *.
    rewrite filter_cons_False by congruence. by apply IH. }
  unfold base32_accepts, base32_text. rewrite filter_cons_True by done.
  fold (base32_text input). destruct (decide (ch = pad_char)) as [->|Hne].
  { simpl. set (s1 := Base32State _ _ _ true).
    rewrite (base32_loop_padded n s1) by done. destruct (decide _) as [Hf|Hf].
    - left. exists s1, []. rewrite app_nil_r. split_and!; [done|apply Hi| |done].
      exists [], (S (length (base32_text input))). split; [|done]. simpl. f_equal.
      symmetry. apply replicate_as_Forall. split; [done|].
      eapply Forall_impl; [exact Hf|]. by intros ? ->.
    - right. split; [done|]. intros ws (data & k & E & Hm). exfalso. apply Hf.
      destruct data as [|d data].
      + destruct k; [done|]. simpl in E. injection E as E. rewrite E.
        by apply Forall_replicate.
      + simpl in E, Hm. injection E as <- E. by vm_compute in Hm. }
  destruct (base32_value (byte_z ch)) as [v|] eqn:Ev.
  - pose proof (base32_value_bound _ _ Ev) as Hvb.
    assert (∀ ws', (∃ data k, ch :: base32_text input = data ++ replicate k pad_char ∧
        mapM (λ b, base32_value (byte_z b)) data = Some ws') ↔
        ∃ ws, ws' = v :: ws ∧ base32_accepts input ws) as Hacc.
    { intros ws'. split.
      - intros ([|d data] & k & E & Hm).
        + destruct k; simplify_eq/=.
        + simplify_eq/=. apply bind_Some in Hm as (v' & Hv' & Hm).
          apply bind_Some in Hm as (ws & Hm & [= <-]). rewrite Ev in Hv'.
          injection Hv' as <-. exists ws. split; [done|]. by exists data, k.
      - intros (ws & -> & data & k & E & Hm). exists (ch :: data), k.
        simpl. by rewrite E, Ev, Hm. }
    setoid_rewrite Hacc. clear Hacc.
    destruct (decide (length (base32_bytes (vs ++ [v])) ≤ n)%nat) as [Hl|Hl].
    + destruct (base32_step_inv n vs s ch v Hi Hp Ev Hl) as (s1 & Hs1 & Hi1 & Hp1).
      simpl. rewrite Hs1. cbn [mbind outcome_bind].
      destruct (IH s1 (vs ++ [v]) Hi1 Hp1 Hl) as [(s' & ws & H1 & H2 & H3 & H4)|[H1 H2]].
      * left. exists s', (v :: ws). rewrite <- app_assoc in *. simpl in *.
        split_and!; eauto.
      * right. split; [done|]. intros ? (ws & -> & Ha). specialize (H2 ws Ha).
        rewrite <- app_assoc in H2. done.
    + right. simpl. rewrite (base32_step_too_long n vs s ch v) by (done || lia).
      split; [done|]. intros ? (ws & -> & Ha).
      pose proof (base32_bytes_prefix (vs ++ [v]) ws) as Hle.
      rewrite <- app_assoc in Hle. simpl in Hle.
      enough (length (base32_bytes (vs ++ [v])) ≤ length (base32_bytes (vs ++ v :: ws)))%nat by lia.
      rewrite !length_base32_bytes, !length_app. apply Nat.Div0.div_le_mono; simpl; lia.
  - right. simpl. unfold base32_step. rewrite Es, Hp, Ev.
    destruct (Z.eqb_spec (byte_z ch) 61) as [E|E]; [exfalso; apply Hne, byte_z_inj, E|].
    split; [done|]. intros ws ([|d data] & k & E' & Hm).
    + destruct k; simplify_eq/=.
    + simplify_eq/=. by rewrite Ev in Hm.
Qed.

Lemma base32_data_le d us k d' k' :
  mapM (λ b, base32_value (byte_z b)) d = Some us →
  d ++ replicate k pad_char = d' ++ replicate k' pad_char → (length d ≤ length d')%nat.
Proof.
  intros Hm E. destruct (decide (length d ≤ length d')%nat) as [|Hgt]; [done|].
  exfalso. apply (f_equal (lookup (length d'))) in E.
  rewrite lookup_app_l in E by lia. rewrite lookup_app_r, Nat.sub_diag in E by lia.
  destruct (lookup_lt_is_Some_2 d (length d')) as [x Hx]; [lia|].
  rewrite Hx in E. apply mapM_Some_1 in Hm.
  destruct (Forall2_lookup_l _ _ _ _ _ Hm Hx) as (u & _ & Hu).
  destruct k'; simpl in E; [done|]. injection E as ->. by vm_compute in Hu.
Qed.

Lemma base32_accepts_unique input vs ws :
  base32_accepts input vs → base32_accepts input ws → vs = ws.
Proof.
  intros (d1 & k1 & E1 & M1) (d2 & k2 & E2 & M2). rewrite E1 in E2.
  assert (length d1 = length d2) as El.
  { apply Nat.le_antisymm; [by eapply (base32_data_le d1)|by eapply (base32_data_le d2)]. }
  apply app_inj_1 in E2 as [-> _]; [|done]. congruence.
Qed.

(** [utils_base32_decode] computes the base32 decoding: ignoring spaces, tabs
    and line ends, the input must be base32 digits of either case followed by
    nothing but '='; the output is the bit string of the digits cut into whole
    bytes, although the code only keeps the low 32 bits of what it has read.
    It fails, always with [SM_ERR_INVALID_ARGUMENT], exactly when the input is
    not of that form, yields no byte or does not fit the output. *)
Theorem utils_base32_decode_spec input n :
  (∀ out, utils_base32_decode input n = Ok out ↔
     out ≠ [] ∧ (length out ≤ n)%nat ∧
     ∃ vs, base32_accepts input vs ∧ out = base32_bytes vs) ∧
  (∀ s, utils_base32_decode input n = Err s → s = SM_ERR_INVALID_ARGUMENT).
Proof.
  pose proof (base32_loop_spec n (Base32State 0 0 [] false) [] input) as H.
  specialize (H ltac:(by split) eq_refl ltac:(simpl; lia)). simpl in H.
  unfold utils_base32_decode.
  destruct H as [(s' & ws & H1 & H2 & H3 & H4)|[H1 H2]]; rewrite H1; simpl.
  - assert (∀ vs, base32_accepts input vs → vs = ws) as Huniq
      by (intros vs Hvs; by apply (base32_accepts_unique input)).
    destruct (Nat.eqb_spec (length (b32_out s')) 0) as [E0|E0].
    + split; [|by intros s [= <-]]. intros out. split; [done|].
      intros (Hne & _ & vs & Ha & ->). apply Huniq in Ha as ->.
      rewrite <- H2 in Hne. by apply length_zero_iff_nil in E0.
    + split; [|done]. intros out. rewrite H2. split.
      * intros [= <-]. split_and!; [|done|eauto]. intros E. rewrite H2, E in E0. done.
      * intros (_ & _ & vs & Ha & ->). by apply Huniq in Ha as ->.
  - split; [|by intros s [= <-]]. intros out. split; [done|].
    intros (_ & Hl & vs & Ha & ->). specialize (H2 vs Ha). lia.
Qed.

(** * TOTP *)

(** Dynamic truncation of RFC 4226: the 31 low bits of the big-endian word at
    the offset in the low nibble of the last byte. *)
Definition rfc4226_truncate (mac : bytes) : Z :=
  let offset := Z.to_nat (byte_z (nth (length mac - 1) mac Byte.x00) mod 16) in
  (read_be (take 4 (drop offset mac)) mod 2 ^ 31)%Z.

Lemma totp_offset_bound mac :
  (Z.to_nat (Z.land (byte_z (nth (length mac - 1) mac Byte.x00)) 15) < 16)%nat.
Proof.
  change 15%Z with (Z.ones 4). rewrite Z.land_ones by lia.
  pose proof (Z.mod_pos_bound (byte_z (nth (length mac - 1) mac Byte.x00)) (2 ^ 4)). lia.
Qed.

Lemma take_drop_4 (l : bytes) o :
  (o + 3 < length l)%nat →
  take 4 (drop o l) = [nth o l Byte.x00; nth (o + 1) l Byte.x00;
                       nth (o + 2) l Byte.x00; nth (o + 3) l Byte.x00].
Proof.
  revert o. induction l as [|b l IH]; intros o H; simpl in H; [lia|].
  destruct o as [|o].
  - destruct l as [|b1 [|b2 [|b3 l]]]; simpl in *; try lia. by rewrite take_0.
  - simpl. rewrite IH by lia. done.
Qed.

Lemma totp_binary_code_rfc mac :
  (20 ≤ length mac)%nat → totp_binary_code mac = rfc4226_truncate mac.
Proof.
  intros Hl. unfold totp_binary_code, rfc4226_truncate.
  pose proof (totp_offset_bound mac) as Ho.
  change 15%Z with (Z.ones 4) in *. rewrite Z.land_ones in * by lia.
  change (2 ^ 4)%Z with 16%Z in *.
  set (o := Z.to_nat (_ mod 16)) in *. rewrite take_drop_4 by lia. unfold read_be. simpl.
  set (a := byte_z (nth o mac _)). set (b := byte_z (nth (o + 1) mac _)).
  set (c := byte_z (nth (o + 2) mac _)). set (d := byte_z (nth (o + 3) mac _)).
  assert (0 ≤ a < 256)%Z as Ha by apply byte_z_bound.
  assert (0 ≤ b < 256)%Z as Hb by apply byte_z_bound.
  assert (0 ≤ c < 256)%Z as Hc by apply byte_z_bound.
  assert (0 ≤ d < 256)%Z as Hd by apply byte_z_bound.
  change 127%Z with (Z.ones 7). rewrite Z.land_ones by lia. change (2 ^ 7)%Z with 128%Z.
  pose proof (Z.mod_pos_bound a 128 ltac:(lia)) as Hm.
  rewrite (Z.lor_comm _ d), (Z.lor_comm _ (Z.shiftl c 8)), (Z.lor_comm _ (Z.shiftl b 16)).
  replace (Z.shiftl (a mod 128) 24) with (Z.shiftl (Z.shiftl (a mod 128) 8) 16)
    by (rewrite Z.shiftl_shiftl by lia; f_equal; lia).
  rewrite <- Z.shiftl_lor, (lor_low_high b) by (simpl; lia).
  replace (Z.shiftl (b + a mod 128 * 2 ^ 8) 16)
    with (Z.shiftl (Z.shiftl (b + a mod 128 * 2 ^ 8) 8) 8)
    by (rewrite Z.shiftl_shiftl by lia; f_equal; lia).
  rewrite <- Z.shiftl_lor, (lor_low_high c) by (simpl; lia).
  rewrite (lor_low_high d) by (simpl; lia).
  change (2 ^ 8)%Z with 256%Z. change (2 ^ 31)%Z with 2147483648%Z.
  Z.div_mod_to_equations; lia.
Qed.

Lemma totp_modulus_pow d : (d ≤ 9)%nat → totp_modulus d = (10 ^ Z.of_nat d)%Z.
Proof.
  induction d as [|d IH]; intros Hd; [done|]. simpl totp_modulus. rewrite IH by lia.
  rewrite Nat2Z.inj_succ, Z.pow_succ_r by lia. unfold wrap_u.
  rewrite Z.mod_small; [lia|].
  assert (10 ^ Z.of_nat d ≤ 10 ^ 8)%Z by (apply Z.pow_le_mono_r; lia).
  change (10 ^ 8)%Z with 100000000%Z in *.
  pose proof (Z.pow_pos_nonneg 10 (Z.of_nat d)). lia.
Qed.

(** C39: [utils_totp_code] is RFC 6238: for 6 to 8 digits it prints exactly that
    many decimal digits, whose value is the dynamic truncation of the
    HMAC-SHA1 of the big-endian time step, modulo the power of ten; the four
    bytes it reads lie inside the MAC, and it succeeds whenever the libraries
    do. *)
Theorem utils_totp_code_rfc6238 `{CryptoLaws} e w seed t period digits n :
  healthy e → seed ≠ [] → (0 < period)%Z → (6 ≤ digits ≤ 8)%Z → (digits < Z.of_nat n)%Z →
  ∃ s, utils_totp_code seed t period digits n e w = (Ok s, called w) ∧
       length s = Z.to_nat digits ∧ Forall is_digit s ∧
       read_dec s = (rfc4226_truncate (hmac_sha1 seed (rev (write_le 8 (t / period))))
                     mod 10 ^ digits)%Z.
Proof.
  intros He Hs Hp Hd Hn. unfold utils_totp_code.
  rewrite guard_run by (rewrite !andb_true_iff; split_and!; [by destruct seed|lia..]).
  rewrite lib_call_run by done. cbv zeta.
  set (mac := hmac_sha1 _ _).
  assert (length mac = 20%nat) as Hm by apply length_hmac_sha1.
  rewrite guard_run by (by rewrite Hm).
  rewrite totp_binary_code_rfc by lia. rewrite totp_modulus_pow by lia.
  rewrite Z2Nat.id by lia.
  pose proof (Z.pow_pos_nonneg 10 digits ltac:(lia) ltac:(lia)) as Hpow.
  pose proof (Z.mod_pos_bound (rfc4226_truncate mac) (10 ^ digits) ltac:(lia)) as Hb.
  rewrite print_pad_fixed by (rewrite ?Z2Nat.id by lia; lia).
  rewrite (proj2 (Nat.leb_gt _ _)) by (rewrite length_dec_fixed; lia).
  eexists. split_and!; [reflexivity|apply length_dec_fixed|apply dec_fixed_digits|].
  rewrite read_dec_fixed by (rewrite Z2Nat.id by lia; lia). done.
Qed.

(** * UUIDs *)

Definition is_lower_hex (b : byte) : Prop :=
  (48 ≤ byte_z b ≤ 57 ∨ 97 ≤ byte_z b ≤ 102)%Z.

Lemma hex_digit_lower z : (0 ≤ z < 16)%Z → is_lower_hex (hex_digit z).
Proof.
  intros Hz. unfold is_lower_hex, hex_digit.
  destruct (Z.ltb_spec z 10); rewrite byte_z_z_byte, Z.mod_small; lia.
Qed.

Lemma land15_lor64_div b : (byte_z (z_byte (Z.lor (Z.land (byte_z b) 15) 64)) / 16 = 4)%Z.
Proof. by destruct b. Qed.

Lemma land63_lor128_div b :
  (8 ≤ byte_z (z_byte (Z.lor (Z.land (byte_z b) 63) 128)) / 16 ≤ 11)%Z.
Proof. destruct b; vm_compute; split; discriminate. Qed.

(** A generated id is a version 4, variant 1 UUID in lower-case text form: 36
    characters, dashes at 8, 13, 18 and 23, the version digit '4' at 14, one
    of '8', '9', 'a', 'b' at 19, hexadecimal digits elsewhere. *)
Definition uuid_v4_text (s : bytes) : Prop :=
  length s = UTILS_UUID_V4_LEN ∧
  (∀ i b, s !! i = Some b →
     if decide (i ∈ [8; 13; 18; 23]%nat) then b = z_byte 45 else is_lower_hex b) ∧
  s !! 14%nat = Some (hex_digit 4) ∧
  (∃ v, (8 ≤ v ≤ 11)%Z ∧ s !! 19%nat = Some (hex_digit v)).

Lemma uuid_text_cons_check (l : list (bool * byte)) i b :
  Forall (λ p, if (p.1 : bool) then p.2 = z_byte 45 else is_lower_hex p.2) l →
  l.*2 !! i = Some b →
  ∃ d, l.*1 !! i = Some d ∧ if (d : bool) then b = z_byte 45 else is_lower_hex b.
Proof.
  intros Hl Hi. rewrite list_lookup_fmap in Hi. apply fmap_Some in Hi as ([d c] & Hi & ->).
  rewrite Forall_forall in Hl. exists d. rewrite list_lookup_fmap, Hi. split; [done|].
  apply (Hl (d, c)). by eapply list_elem_of_lookup_2.
Qed.

Lemma uuid_set_version_text u :
  length u = 16%nat → uuid_v4_text (print_uuid (uuid_set_version u)).
Proof.
  intros Hu.
  do 16 (destruct u as [|? u]; [discriminate|]). destruct u; [|discriminate]. clear Hu.
  unfold uuid_v4_text. split_and!; [done| | |].
  - intros i c Hi.
    match type of Hi with ?l !! _ = _ =>
      set (s := l) in Hi;
      pose (t := zip ((λ j, bool_decide (j ∈ [8; 13; 18; 23]%nat)) <$> seq 0 36) l)
    end.
    assert (t.*2 = s) as Es by done. rewrite <- Es in Hi.
    destruct (uuid_text_cons_check t i c) as (d & Hd & Hc); [|done|].
    + unfold t. cbn -[print_x2 is_lower_hex byte_z z_byte Z.lor Z.land].
      repeat (constructor; [first [reflexivity | apply hex_digit_lower;
        match goal with |- context [byte_z ?x] => pose proof (byte_z_bound x) end;
        Z.div_mod_to_equations; lia]|]). done.
    + assert (d = bool_decide (i ∈ [8; 13; 18; 23]%nat)) as ->.
      { unfold t in Hd. assert (i < 36)%nat as Hi36.
        { apply lookup_lt_Some in Hd. exact Hd. }
        do 36 (destruct i as [|i]; [by injection Hd as <-|]). lia. }
      case_bool_decide; [rewrite decide_True by done|rewrite decide_False by done]; done.
  - cbn -[byte_z z_byte Z.lor Z.land hex_digit]. by rewrite land15_lor64_div.
  - eexists. split; [|reflexivity]. apply land63_lor128_div.
Qed.

(** C40: [utils_generate_uuid_v4] fails on a short buffer, and otherwise produces
    a version 4 UUID whatever the random bytes are. *)
Theorem utils_generate_uuid_v4_text e w n :
  healthy e → (UTILS_UUID_V4_BUFFER_LEN ≤ n)%nat →
  ∃ s, utils_generate_uuid_v4 n e w = (Ok s, draw (called w)) ∧ uuid_v4_text s.
Proof.
  intros He Hn. unfold utils_generate_uuid_v4.
  rewrite guard_run by (by apply Nat.leb_le). unfold utils_init_sodium.
  rewrite lib_call_run by done. eexists. split; [reflexivity|].
  apply uuid_set_version_text. by rewrite length_fmap, length_seq.
Qed.

#[export] Instance keeps_utils_now n : Keeps same_state (utils_now_iso8601 n).
Proof. unfold utils_now_iso8601. apply _. Qed.
#[export] Instance keeps_utils_now_plus s n :
  Keeps same_state (utils_now_plus_seconds_iso8601 s n).
Proof. unfold utils_now_plus_seconds_iso8601. apply _. Qed.
#[export] Instance keeps_utils_uuid n : Keeps same_state (utils_generate_uuid_v4 n).
Proof. unfold utils_generate_uuid_v4, utils_init_sodium. apply _. Qed.
#[export] Instance keeps_base64_encode `{Crypto} i n : Keeps same_state (utils_base64_encode i n).
Proof. unfold utils_base64_encode, utils_init_sodium. apply _. Qed.
#[export] Instance keeps_base64_decode `{Crypto} i n : Keeps same_state (utils_base64_decode i n).
Proof. unfold utils_base64_decode, utils_init_sodium. apply _. Qed.

Lemma utils_now_ok n e w ts w' :
  utils_now_iso8601 n e w = (Ok ts, w') → ∃ t, utils_format_iso8601 t n = Ok ts.
Proof. unfold utils_now_iso8601, time_null. intros H. inv_m. eauto. Qed.

(** The clock shows a time of the years 1970 to 9999. *)
Definition clock_ok (e : env) : Prop := ∀ n, (0 ≤ env_clock e n ≤ MAX_ISO8601)%Z.

Lemma wp_utils_now n (Q : bytes → world → Prop) e w :
  clock_ok e → (UTILS_ISO8601_UTC_BUFFER_LEN ≤ n)%nat →
  (∀ ts t w', utils_format_iso8601 t n = Ok ts → same_state w w' → Q ts w') →
  wp (utils_now_iso8601 n) Q e w.
Proof.
  intros Hc Hn HQ. unfold utils_now_iso8601. wp_run. apply wp_guard; [by apply Nat.leb_le|]. wp_run.
  specialize (Hc (w_ticks w)).
  apply wp_guard; [apply negb_true_iff, Z.eqb_neq; lia|]. wp_run.
  destruct (utils_format_iso8601_run _ n Hc Hn) as (u & _ & _ & E & _).
  eapply wp_lift; [exact E|]. eapply HQ; [exact E|by unfold same_state].
Qed.

(** * Witnesses *)

Lemma utils_format_iso8601_order_witness :
  ∃ s1 s2, utils_format_iso8601 0 21 = Ok s1 ∧ utils_format_iso8601 951782400 21 = Ok s2 ∧
           length s1 = UTILS_ISO8601_UTC_LEN ∧ strcmp s1 s2 = Z.compare 0 951782400.
Proof.
  apply utils_format_iso8601_order; [unfold MAX_ISO8601; lia|unfold MAX_ISO8601; lia|].
  apply Nat.leb_le. reflexivity.
Defined.

(** 29 February 2000 and the last second of 1999. *)
Example iso8601_leap : utils_format_iso8601 951782400 21 = Ok (str "2000-02-29T00:00:00Z").
Proof. vm_compute. reflexivity. Qed.
Example iso8601_1999 : utils_format_iso8601 946684799 21 = Ok (str "1999-12-31T23:59:59Z").
Proof. vm_compute. reflexivity. Qed.
Example iso8601_10000 :
  utils_format_iso8601 (MAX_ISO8601 + 1) 21 = Err SM_ERR_INVALID_ARGUMENT.
Proof. vm_compute. reflexivity. Qed.
Example base32_hello : utils_base32_decode (str "jbsw y3dp EB3W64TMMQ======") 64 = Ok (str "Hello world").
Proof. vm_compute. reflexivity. Qed.

Lemma utils_totp_code_rfc6238_witness :
  ∃ s, @utils_totp_code Toy.crypto (str "12345678901234567890") 59 30 8 9
         (Sample.env_at 59) Sample.world0 = (Ok s, called Sample.world0) ∧
       length s = 8%nat ∧ Forall is_digit s ∧
       read_dec s = (rfc4226_truncate (@hmac_sha1 Toy.crypto (str "12345678901234567890")
                       (rev (write_le 8 (59 / 30)))) mod 10 ^ 8)%Z.
Proof.
  apply (@utils_totp_code_rfc6238 Toy.crypto Toy.laws); try lia; try discriminate.
  apply Sample.env_at_healthy.
Defined.

Lemma utils_generate_uuid_v4_text_witness :
  ∃ s, utils_generate_uuid_v4 37 (Sample.env_at 0) Sample.world0
         = (Ok s, draw (called Sample.world0)) ∧ uuid_v4_text s.
Proof.
  apply utils_generate_uuid_v4_text; [apply Sample.env_at_healthy|].
  apply Nat.leb_le. reflexivity.
Defined.
