(* ===== verification/Kdf.v ===== *)
(** Key derivation (src/src/kdf.c): the salt, the master key from the
    password by Argon2id, and the four subkeys of a session. Each function
    clears its input key; the buffers' contents after a call are not part of
    the model, a key is a value that the caller drops. *)

From S2P Require Import Prelude Status Sodium State.

Section Kdf.
Context {CR : Crypto}.

Definition KDF_MASTER_KEY_BYTES : nat := crypto_kdf_KEYBYTES.
Definition KDF_SALT_BYTES : nat := crypto_pwhash_SALTBYTES.

Definition kdf_context : bytes := str "FuinSeal".

(** Subkeys are 32 bytes each. *)
Definition SUBKEY_BYTES : nat := 32.

Definition kdf_init_sodium : M unit := lib_call SM_ERR_CRYPTO.

Definition kdf_derive_subkey (subkey_len : nat) (subkey_id : Z) (master_key : bytes) : M bytes :=
  lib_call SM_ERR_CRYPTO ;;
  mret (kdf_derive_from_key subkey_len subkey_id kdf_context master_key).

Definition kdf_generate_salt : M bytes :=
  kdf_init_sodium ;;
  randombytes_buf KDF_SALT_BYTES.

(** The password is a C string. *)
Definition kdf_derive_master_key (password salt : bytes) : M bytes :=
  kdf_init_sodium ;;
  lib_call SM_ERR_CRYPTO ;;
  mret (pwhash (c_str password) salt).

Definition kdf_derive_subkeys (master_key : bytes) : M kdf_subkeys_t :=
  kdf_init_sodium ;;
  kek_enc ← kdf_derive_subkey SUBKEY_BYTES 1 master_key;
  kek_audit ← kdf_derive_subkey SUBKEY_BYTES 2 master_key;
  kek_token ← kdf_derive_subkey SUBKEY_BYTES 3 master_key;
  kek_meta ← kdf_derive_subkey SUBKEY_BYTES 4 master_key;
  mret (Subkeys kek_enc kek_audit kek_token kek_meta).

(** What a session holds for a password and a salt. *)
Definition session_keys (password salt : bytes) : kdf_subkeys_t :=
  let master := pwhash (c_str password) salt in
  let sub i := kdf_derive_from_key SUBKEY_BYTES i kdf_context master in
  Subkeys (sub 1%Z) (sub 2%Z) (sub 3%Z) (sub 4%Z).

#[export] Instance keeps_generate_salt : Keeps same_state kdf_generate_salt.
Proof. unfold kdf_generate_salt, kdf_init_sodium. apply _. Qed.
#[export] Instance keeps_derive_master_key p s : Keeps same_state (kdf_derive_master_key p s).
Proof. unfold kdf_derive_master_key, kdf_init_sodium. apply _. Qed.
#[export] Instance keeps_derive_subkeys k : Keeps same_state (kdf_derive_subkeys k).
Proof. unfold kdf_derive_subkeys, kdf_derive_subkey, kdf_init_sodium. apply _. Qed.

(** The keys of a session depend on the password and the salt only. *)
Lemma kdf_session_keys password salt e w m w1 k w2 :
  kdf_derive_master_key password salt e w = (Ok m, w1) →
  kdf_derive_subkeys m e w1 = (Ok k, w2) →
  k = session_keys password salt.
Proof.
  unfold kdf_derive_master_key, kdf_derive_subkeys, kdf_derive_subkey, kdf_init_sodium.
  intros H1 H2. inv_m. done.
Qed.

Lemma wp_kdf_generate_salt (Q : bytes → world → Prop) e w :
  healthy e → (∀ s, length s = KDF_SALT_BYTES → Q s (draw (called w))) →
  wp kdf_generate_salt Q e w.
Proof. intros He H. unfold kdf_generate_salt, kdf_init_sodium. wp_run. auto. Qed.

Lemma wp_kdf_session_keys password salt (Q : kdf_subkeys_t → world → Prop) e w :
  healthy e → Q (session_keys password salt) (Nat.iter 7 called w) →
  wp (m ← kdf_derive_master_key password salt; kdf_derive_subkeys m) Q e w.
Proof.
  intros He H.
  unfold kdf_derive_master_key, kdf_derive_subkeys, kdf_derive_subkey, kdf_init_sodium.
  wp_run. done.
Qed.

End Kdf.
