(* ===== verification/CryptoEngine.v ===== *)
(** Envelope encryption (src/src/crypto_engine.c): a secret is encrypted with
    a fresh data key (DEK), the DEK with the key-encryption key (KEK), both
    under associated data made of a row identity and a version; a 64-byte
    commitment binds both keys. [crypto_engine_decrypt] is characterised by
    the pure function [open_envelope], which the clients' theorems use. *)

From S2P Require Import Prelude Status Sodium State Utils.

(** * Data *)

Definition CRYPTO_ENGINE_AAD_MAX : nat := 256.
Definition CRYPTO_ENGINE_ALGORITHM_MAX : nat := 32.
Definition CRYPTO_ENGINE_ALGORITHM_AES_256_GCM : bytes := str "AES-256-GCM".
Definition CRYPTO_ENGINE_ALGORITHM_XCHACHA20_POLY1305 : bytes := str "XChaCha20-Poly1305".
Definition CRYPTO_ENGINE_ALGORITHM_CHACHA20_POLY1305 : bytes := str "ChaCha20-Poly1305".
Definition CRYPTO_ENGINE_ALGORITHM_AEGIS_256 : bytes := str "AEGIS-256".
Definition CRYPTO_ENGINE_DEK_BYTES : nat := crypto_aead_KEYBYTES.
Definition CRYPTO_ENGINE_MAX_NONCE_BYTES : nat := 32.
Definition CRYPTO_ENGINE_ROW_IDENTITY_HEX_LEN : nat := crypto_hash_sha256_BYTES * 2 + 1.
Definition CRYPTO_ENGINE_COMMITMENT_HALF_BYTES : nat := 32.
Definition CRYPTO_ENGINE_COMMITMENT_BYTES : nat := 2 * CRYPTO_ENGINE_COMMITMENT_HALF_BYTES.
Definition CRYPTO_ENGINE_COMMIT_DOMAIN_KEK : bytes := str "Fuin-kek-commit-v1".
Definition CRYPTO_ENGINE_COMMIT_DOMAIN_DEK : bytes := str "Fuin-dek-commit-v1".
Definition row_identity_domain : bytes := str "Fuin secret row identity v1".

(** [encrypted_secret_t]: each array with its used length. *)
Record encrypted_secret_t := EncryptedSecret {
  es_algorithm : bytes;
  es_ciphertext : bytes;
  es_encrypted_dek : bytes;
  es_nonce : bytes;
  es_dek_nonce : bytes;
  es_key_commitment : bytes;
}.

(** * Operations *)

(** [snprintf(buf, len, "%s:%u", id, version)]: refused when it truncates. *)
Definition crypto_engine_build_aad (aad_len : nat) (secret_id : bytes) (version : Z) : outcome bytes :=
  let s := c_str secret_id ++ str ":" ++ print_dec version in
  if (aad_len <=? length s)%nat then Err SM_ERR_INVALID_ARGUMENT else Ok s.

Definition crypto_engine_init_sodium : M unit := lib_call SM_ERR_CRYPTO.

(** The loop over [i < CRYPTO_ENGINE_ALGORITHM_MAX]; [left] is an array of at
    least as many characters as the loop reads, the NUL included. *)
Fixpoint algorithm_equals_loop (fuel i : nat) (left right : bytes) : bool :=
  match fuel with
  | O => false
  | S fuel' =>
      let left_ch := nth i left Byte.x00 in
      if (i =? length right)%nat then bool_decide (left_ch = Byte.x00)
      else if bool_decide (left_ch = Byte.x00) || negb (bool_decide (left_ch = nth i right Byte.x00))
           then false
           else algorithm_equals_loop fuel' (S i) left right
  end.

Definition crypto_engine_algorithm_equals_literal (left right : bytes) : bool :=
  if (CRYPTO_ENGINE_ALGORITHM_MAX <=? length right)%nat then false
  else algorithm_equals_loop CRYPTO_ENGINE_ALGORITHM_MAX 0 left right.

Section CryptoEngine.
Context {CR : Crypto}.

Definition crypto_engine_select_default_algorithm : aead_alg :=
  if has_aegis then AEGIS_256 else XCHACHA20_POLY1305.

Definition crypto_engine_algorithm_from_name (name : bytes) : outcome aead_alg :=
  if crypto_engine_algorithm_equals_literal name CRYPTO_ENGINE_ALGORITHM_AES_256_GCM then
    Ok AES_256_GCM
  else if crypto_engine_algorithm_equals_literal name CRYPTO_ENGINE_ALGORITHM_XCHACHA20_POLY1305
       || crypto_engine_algorithm_equals_literal name CRYPTO_ENGINE_ALGORITHM_CHACHA20_POLY1305 then
    Ok XCHACHA20_POLY1305
  else if has_aegis
       && crypto_engine_algorithm_equals_literal name CRYPTO_ENGINE_ALGORITHM_AEGIS_256 then
    Ok AEGIS_256
  else Err SM_ERR_INVALID_ARGUMENT.

Definition crypto_engine_algorithm_is_available (algorithm : aead_alg) : outcome unit :=
  if bool_decide (algorithm = AES_256_GCM) && negb aes256gcm_is_available
  then Err SM_ERR_CRYPTO else Ok ().

(** [None] is the NULL name, which selects the default. *)
Definition crypto_engine_select_algorithm (name : option bytes) : outcome aead_alg :=
  match name with
  | None => Ok crypto_engine_select_default_algorithm
  | Some n =>
      if bool_decide (c_str n = []) then Err SM_ERR_INVALID_ARGUMENT
      else
        algorithm ← crypto_engine_algorithm_from_name n;
        crypto_engine_algorithm_is_available algorithm ;;
        mret algorithm
  end.

Definition crypto_engine_set_algorithm_name (algorithm : aead_alg) : outcome bytes :=
  let name :=
    match algorithm with
    | AES_256_GCM => CRYPTO_ENGINE_ALGORITHM_AES_256_GCM
    | AEGIS_256 => if has_aegis then CRYPTO_ENGINE_ALGORITHM_AEGIS_256
                   else CRYPTO_ENGINE_ALGORITHM_XCHACHA20_POLY1305
    | XCHACHA20_POLY1305 => CRYPTO_ENGINE_ALGORITHM_XCHACHA20_POLY1305
    end in
  if (CRYPTO_ENGINE_ALGORITHM_MAX <=? length name)%nat
  then Err SM_ERR_INVALID_ARGUMENT else Ok name.

(** The bytes that are hashed for a row identity. *)
Definition row_identity_preimage (id name : bytes) : bytes :=
  row_identity_domain
  ++ utils_write_u64_le (Z.of_nat (length id)) ++ id
  ++ utils_write_u64_le (Z.of_nat (length name)) ++ name.

Definition crypto_engine_build_row_identity (id name : bytes) (identity_len : nat) : M bytes :=
  guard_or (negb (bool_decide (c_str id = [])) && negb (bool_decide (c_str name = []))
            && (CRYPTO_ENGINE_ROW_IDENTITY_HEX_LEN <=? identity_len)%nat)
    SM_ERR_INVALID_ARGUMENT ;;
  lib_call SM_ERR_CRYPTO ;;
  let digest := sha256 (row_identity_preimage (c_str id) (c_str name)) in
  lib_call SM_ERR_STORAGE ;;
  mret (bin2hex digest).

Definition crypto_engine_nonce_bytes (algorithm : aead_alg) : nat :=
  match algorithm with
  | AES_256_GCM => aead_NPUBBYTES AES_256_GCM
  | AEGIS_256 => if has_aegis then aead_NPUBBYTES AEGIS_256
                 else aead_NPUBBYTES XCHACHA20_POLY1305
  | XCHACHA20_POLY1305 => aead_NPUBBYTES XCHACHA20_POLY1305
  end.

(** The AES-GCM nonce: four bytes of the hash of the identity, then the
    counter. *)
Definition aes_nonce (secret_id : bytes) (nonce_counter : Z) : bytes :=
  take 4 (sha256 (c_str secret_id)) ++ utils_write_u64_le nonce_counter.

Definition crypto_engine_build_nonce (algorithm : aead_alg) (secret_id : bytes)
    (nonce_counter : Z) : M bytes :=
  if bool_decide (algorithm = AES_256_GCM) then
    lib_call SM_ERR_CRYPTO ;;
    mret (aes_nonce secret_id nonce_counter)
  else randombytes_buf (crypto_engine_nonce_bytes algorithm).

Definition crypto_engine_tag_bytes (algorithm : aead_alg) : nat :=
  match algorithm with
  | AES_256_GCM => aead_ABYTES AES_256_GCM
  | AEGIS_256 => if has_aegis then aead_ABYTES AEGIS_256 else aead_ABYTES XCHACHA20_POLY1305
  | XCHACHA20_POLY1305 => aead_ABYTES XCHACHA20_POLY1305
  end.

Definition commitment (key domain nonce : bytes) : bytes :=
  generichash key (domain ++ nonce) CRYPTO_ENGINE_COMMITMENT_HALF_BYTES.

Definition crypto_engine_commitment (key domain nonce : bytes) : M bytes :=
  lib_call SM_ERR_CRYPTO ;;
  mret (commitment key domain nonce).

(** [sodium_malloc] and [sodium_mlock]. *)
Definition crypto_engine_alloc_key : M unit := lib_call SM_ERR_STORAGE.

(** The cipher behind a value of [crypto_engine_algorithm_t]. *)
Definition payload_cipher (algorithm : aead_alg) : aead_alg :=
  match algorithm with
  | AES_256_GCM => AES_256_GCM
  | AEGIS_256 => if has_aegis then AEGIS_256 else XCHACHA20_POLY1305
  | XCHACHA20_POLY1305 => XCHACHA20_POLY1305
  end.

Definition crypto_engine_encrypt_payload (algorithm : aead_alg)
    (plaintext aad nonce key : bytes) : M bytes :=
  lib_call SM_ERR_CRYPTO ;;
  mret (aead_encrypt (payload_cipher algorithm) key nonce aad plaintext).

Definition crypto_engine_decrypt_payload (algorithm : aead_alg)
    (ciphertext aad nonce key : bytes) : M bytes :=
  lift (from_option_or SM_ERR_CRYPTO
          (aead_decrypt (payload_cipher algorithm) key nonce aad ciphertext)).

Definition crypto_engine_init : M unit := crypto_engine_init_sodium.

Definition crypto_engine_algorithm_available (algorithm : option bytes) : M unit :=
  crypto_engine_init_sodium ;;
  lift (crypto_engine_select_algorithm algorithm) ;;
  mret ().

Definition crypto_engine_encrypt_with_algorithm (plaintext kek_enc secret_id : bytes)
    (version nonce_counter : Z) (algorithm_name : option bytes) : M encrypted_secret_t :=
  guard_or (negb (bool_decide (c_str secret_id = []))) SM_ERR_INVALID_ARGUMENT ;;
  crypto_engine_init_sodium ;;
  aad ← lift (crypto_engine_build_aad CRYPTO_ENGINE_AAD_MAX secret_id version);
  algorithm ← lift (crypto_engine_select_algorithm algorithm_name);
  let tag_len := crypto_engine_tag_bytes algorithm in
  guard_or (Z.of_nat (length plaintext) <=? SIZE_MAX - Z.of_nat tag_len)%Z
    SM_ERR_INVALID_ARGUMENT ;;
  name ← lift (crypto_engine_set_algorithm_name algorithm);
  nonce ← crypto_engine_build_nonce algorithm secret_id nonce_counter;
  lib_call SM_ERR_STORAGE ;;
  crypto_engine_alloc_key ;;
  dek ← randombytes_buf CRYPTO_ENGINE_DEK_BYTES;
  ciphertext ← crypto_engine_encrypt_payload algorithm plaintext aad nonce dek;
  dek_nonce ← randombytes_buf (crypto_engine_nonce_bytes algorithm);
  encrypted_dek ← crypto_engine_encrypt_payload algorithm dek aad dek_nonce kek_enc;
  kek_half ← crypto_engine_commitment kek_enc CRYPTO_ENGINE_COMMIT_DOMAIN_KEK dek_nonce;
  dek_half ← crypto_engine_commitment dek CRYPTO_ENGINE_COMMIT_DOMAIN_DEK nonce;
  mret (EncryptedSecret name ciphertext encrypted_dek nonce dek_nonce (kek_half ++ dek_half)).

Definition crypto_engine_encrypt (plaintext kek_enc secret_id : bytes)
    (version nonce_counter : Z) : M encrypted_secret_t :=
  crypto_engine_encrypt_with_algorithm plaintext kek_enc secret_id version nonce_counter None.

Definition crypto_engine_decrypt (input : encrypted_secret_t) (kek_enc secret_id : bytes)
    (version : Z) (plaintext_capacity : nat) : M bytes :=
  guard_or (negb (bool_decide (c_str secret_id = []))) SM_ERR_INVALID_ARGUMENT ;;
  crypto_engine_init_sodium ;;
  algorithm ← lift (crypto_engine_algorithm_from_name (es_algorithm input));
  lift (crypto_engine_algorithm_is_available algorithm) ;;
  aad ← lift (crypto_engine_build_aad CRYPTO_ENGINE_AAD_MAX secret_id version);
  let tag_len := crypto_engine_tag_bytes algorithm in
  guard_or ((tag_len <=? length (es_ciphertext input))
            && (length (es_encrypted_dek input) =? CRYPTO_ENGINE_DEK_BYTES + tag_len)
            && (length (es_nonce input) =? crypto_engine_nonce_bytes algorithm)
            && (length (es_dek_nonce input) =? length (es_nonce input))
            && (length (es_key_commitment input) =? CRYPTO_ENGINE_COMMITMENT_BYTES)
            && (length (es_ciphertext input) - tag_len <=? plaintext_capacity))%nat
    SM_ERR_INVALID_ARGUMENT ;;
  kek_half ← crypto_engine_commitment kek_enc CRYPTO_ENGINE_COMMIT_DOMAIN_KEK (es_dek_nonce input);
  guard_or (bool_decide (kek_half = take CRYPTO_ENGINE_COMMITMENT_HALF_BYTES
                                         (es_key_commitment input))) SM_ERR_CRYPTO ;;
  crypto_engine_alloc_key ;;
  dek ← crypto_engine_decrypt_payload algorithm (es_encrypted_dek input) aad
          (es_dek_nonce input) kek_enc;
  guard_or (length dek =? CRYPTO_ENGINE_DEK_BYTES)%nat SM_ERR_CRYPTO ;;
  dek_half ← crypto_engine_commitment dek CRYPTO_ENGINE_COMMIT_DOMAIN_DEK (es_nonce input);
  guard_or (bool_decide (dek_half = take CRYPTO_ENGINE_COMMITMENT_HALF_BYTES
              (drop CRYPTO_ENGINE_COMMITMENT_HALF_BYTES (es_key_commitment input))))
    SM_ERR_CRYPTO ;;
  crypto_engine_decrypt_payload algorithm (es_ciphertext input) aad (es_nonce input) dek.

Definition crypto_engine_compute_key_commitment (key domain nonce : bytes) (out_len : nat) : M bytes :=
  crypto_engine_init_sodium ;;
  guard_or (out_len =? CRYPTO_ENGINE_COMMITMENT_HALF_BYTES)%nat SM_ERR_INVALID_ARGUMENT ;;
  crypto_engine_commitment key domain nonce.

(** * Specification of decryption

    What the stored envelope opens to: no library call, no state. *)

Definition envelope_shape (algorithm : aead_alg) (es : encrypted_secret_t) : bool :=
  ((crypto_engine_tag_bytes algorithm <=? length (es_ciphertext es))
   && (length (es_encrypted_dek es) =? CRYPTO_ENGINE_DEK_BYTES + crypto_engine_tag_bytes algorithm)
   && (length (es_nonce es) =? crypto_engine_nonce_bytes algorithm)
   && (length (es_dek_nonce es) =? length (es_nonce es))
   && (length (es_key_commitment es) =? CRYPTO_ENGINE_COMMITMENT_BYTES))%nat.

(** The DEK inside an envelope, once the KEK commitment is verified. *)
Definition open_dek (algorithm : aead_alg) (es : encrypted_secret_t) (kek aad : bytes) : option bytes :=
  if bool_decide (commitment kek CRYPTO_ENGINE_COMMIT_DOMAIN_KEK (es_dek_nonce es)
                  = take CRYPTO_ENGINE_COMMITMENT_HALF_BYTES (es_key_commitment es))
  then aead_decrypt (payload_cipher algorithm) kek (es_dek_nonce es) aad (es_encrypted_dek es)
  else None.

Definition dek_committed (es : encrypted_secret_t) (dek : bytes) : bool :=
  (length dek =? CRYPTO_ENGINE_DEK_BYTES)%nat &&
  bool_decide (commitment dek CRYPTO_ENGINE_COMMIT_DOMAIN_DEK (es_nonce es)
               = take CRYPTO_ENGINE_COMMITMENT_HALF_BYTES
                   (drop CRYPTO_ENGINE_COMMITMENT_HALF_BYTES (es_key_commitment es))).

(** The plaintext of an envelope under a KEK, an identity and a version. *)
Definition open_envelope (kek secret_id : bytes) (version : Z) (es : encrypted_secret_t)
  : outcome bytes :=
  check (negb (bool_decide (c_str secret_id = []))) SM_ERR_INVALID_ARGUMENT ;;
  algorithm ← crypto_engine_algorithm_from_name (es_algorithm es);
  crypto_engine_algorithm_is_available algorithm ;;
  aad ← crypto_engine_build_aad CRYPTO_ENGINE_AAD_MAX secret_id version;
  check (envelope_shape algorithm es) SM_ERR_INVALID_ARGUMENT ;;
  dek ← from_option_or SM_ERR_CRYPTO (open_dek algorithm es kek aad);
  check (dek_committed es dek) SM_ERR_CRYPTO ;;
  from_option_or SM_ERR_CRYPTO
    (aead_decrypt (payload_cipher algorithm) dek (es_nonce es) aad (es_ciphertext es)).

End CryptoEngine.

(** * Names of algorithms *)

Lemma algorithm_equals_loop_spec fuel i left right :
  Byte.x00 ∉ right → (i ≤ length right)%nat → (length right < i + fuel)%nat →
  algorithm_equals_loop fuel i left right = bool_decide (c_str (drop i left) = drop i right).
Proof.
  intros Hr. revert i. induction fuel as [|fuel IH]; intros i Hi Hf; [lia|].
  cbn [algorithm_equals_loop].
  assert (c_str (drop i left) =
          if decide (nth i left Byte.x00 = Byte.x00) then []
          else nth i left Byte.x00 :: c_str (drop (S i) left)) as Ec.
  { destruct (left !! i) as [b|] eqn:E.
    - rewrite (drop_S _ _ _ E). simpl. by rewrite (nth_lookup_Some _ _ _ _ E).
    - apply lookup_ge_None in E. rewrite drop_ge by done.
      rewrite nth_overflow by done. done. }
  rewrite Ec. destruct (Nat.eqb_spec i (length right)) as [->|Hne].
  - rewrite drop_all. case_decide as E; rewrite ?E; [by rewrite !bool_decide_true|].
    by rewrite !bool_decide_false.
  - destruct (lookup_lt_is_Some_2 right i) as [x Hx]; [lia|].
    rewrite (drop_S _ _ _ Hx), (nth_lookup_Some right _ _ _ Hx).
    assert (x ≠ Byte.x00) as Hx0.
    { intros ->. apply Hr. by eapply list_elem_of_lookup_2. }
    case_decide as E.
    { rewrite (bool_decide_true _ E). done. }
    rewrite (bool_decide_false _ E). cbn [orb].
    destruct (decide (nth i left Byte.x00 = x)) as [Ex|Ex].
    + rewrite (bool_decide_true _ Ex). cbn [negb]. rewrite IH by lia.
      rewrite Ex. apply bool_decide_ext. split; congruence.
    + rewrite (bool_decide_false _ Ex). simpl. symmetry. apply bool_decide_false. congruence.
Qed.

(** The comparison is equality of C strings. *)
Lemma algorithm_equals_spec left right :
  Byte.x00 ∉ right → (length right < CRYPTO_ENGINE_ALGORITHM_MAX)%nat →
  crypto_engine_algorithm_equals_literal left right = bool_decide (c_str left = right).
Proof.
  intros Hr Hl. unfold crypto_engine_algorithm_equals_literal.
  rewrite (proj2 (Nat.leb_gt _ _)) by done.
  rewrite algorithm_equals_loop_spec by (done || lia). done.
Qed.

(** * Associated data *)

Lemma print_dec_no_colon z : (0 ≤ z)%Z → Byte.x3a ∉ print_dec z.
Proof.
  intros Hz Hin. pose proof (print_dec_digits z Hz) as H. rewrite Forall_forall in H.
  specialize (H _ Hin). unfold is_digit in H. vm_compute in H. by destruct H as [_ []].
Qed.

(** The last occurrence of a separator splits a string in one way. *)
Lemma app_sep_inj {A} (x : A) a b a' b' :
  x ∉ b → x ∉ b' → a ++ x :: b = a' ++ x :: b' → a = a' ∧ b = b'.
Proof.
  revert a'. induction a as [|y a IH]; intros [|y' a'] Hb Hb' E; simpl in *.
  - split; congruence.
  - injection E as -> E. exfalso. apply Hb. rewrite E. apply elem_of_app. right.
    apply elem_of_cons. by left.
  - injection E as -> E. exfalso. apply Hb'. rewrite <- E. apply elem_of_app. right.
    apply elem_of_cons. by left.
  - injection E as -> E. destruct (IH a' Hb Hb' E) as [-> ->]. done.
Qed.

(** The associated data determines the identity and the version. *)
Lemma build_aad_inj n id v id' v' aad :
  (0 ≤ v)%Z → (0 ≤ v')%Z →
  crypto_engine_build_aad n id v = Ok aad → crypto_engine_build_aad n id' v' = Ok aad →
  c_str id = c_str id' ∧ v = v'.
Proof.
  intros Hv Hv'. unfold crypto_engine_build_aad.
  destruct (_ <=? _)%nat; [done|]. destruct (_ <=? _)%nat; [done|].
  intros [= <-] [= E]. change (str ":") with [Byte.x3a] in E. simpl in E.
  apply app_sep_inj in E as [E1 E2]; [|by apply print_dec_no_colon..].
  split; [done|]. by apply print_dec_inj in E2.
Qed.

Section CryptoEngineLemmas.
Context {CR : Crypto} {CL : CryptoLaws CR}.

Lemma set_algorithm_name_ok algorithm :
  crypto_engine_set_algorithm_name algorithm =
  Ok (match payload_cipher algorithm with
      | AES_256_GCM => CRYPTO_ENGINE_ALGORITHM_AES_256_GCM
      | XCHACHA20_POLY1305 => CRYPTO_ENGINE_ALGORITHM_XCHACHA20_POLY1305
      | AEGIS_256 => CRYPTO_ENGINE_ALGORITHM_AEGIS_256 end).
Proof. unfold crypto_engine_set_algorithm_name, payload_cipher. by destruct algorithm, has_aegis. Qed.

Lemma algorithm_from_name_spec name alg :
  crypto_engine_algorithm_from_name name = Ok alg ↔
  (c_str name = CRYPTO_ENGINE_ALGORITHM_AES_256_GCM ∧ alg = AES_256_GCM) ∨
  (c_str name = CRYPTO_ENGINE_ALGORITHM_XCHACHA20_POLY1305 ∧ alg = XCHACHA20_POLY1305) ∨
  (c_str name = CRYPTO_ENGINE_ALGORITHM_CHACHA20_POLY1305 ∧ alg = XCHACHA20_POLY1305) ∨
  (has_aegis = true ∧ c_str name = CRYPTO_ENGINE_ALGORITHM_AEGIS_256 ∧ alg = AEGIS_256).
Proof.
  unfold crypto_engine_algorithm_from_name.
  assert (∀ r, r ∈ [CRYPTO_ENGINE_ALGORITHM_AES_256_GCM; CRYPTO_ENGINE_ALGORITHM_XCHACHA20_POLY1305;
                    CRYPTO_ENGINE_ALGORITHM_CHACHA20_POLY1305; CRYPTO_ENGINE_ALGORITHM_AEGIS_256] →
          crypto_engine_algorithm_equals_literal name r = bool_decide (c_str name = r)) as Heq.
  { intros r Hr. apply algorithm_equals_spec.
    - apply (bool_decide_unpack _). rewrite !elem_of_cons, elem_of_nil in Hr.
      destruct Hr as [->|[->|[->|[->|[]]]]]; vm_compute; exact I.
    - apply Nat.ltb_lt. rewrite !elem_of_cons, elem_of_nil in Hr.
      destruct Hr as [->|[->|[->|[->|[]]]]]; reflexivity. }
  rewrite !Heq by (rewrite !elem_of_cons; tauto). clear Heq.
  repeat case_bool_decide; destruct has_aegis; simpl; split; intros E;
    repeat match goal with
    | E : Ok _ = Ok _ |- _ => injection E as <-
    | E : Err _ = Ok _ |- _ => discriminate E
    end; try tauto;
    destruct E as [[E ->]|[[E ->]|[[E ->]|(E' & E & ->)]]]; try done;
    try congruence; rewrite E in *; try done; try discriminate.
Qed.

#[export] Instance keeps_build_row_identity id name n :
  Keeps same_state (crypto_engine_build_row_identity id name n).
Proof. unfold crypto_engine_build_row_identity. apply _. Qed.
#[export] Instance keeps_build_nonce a id c : Keeps same_state (crypto_engine_build_nonce a id c).
Proof. unfold crypto_engine_build_nonce. apply _. Qed.
#[export] Instance keeps_commitment k d n : Keeps same_state (crypto_engine_commitment k d n).
Proof. unfold crypto_engine_commitment. apply _. Qed.
#[export] Instance keeps_compute_key_commitment k d n l :
  Keeps same_state (crypto_engine_compute_key_commitment k d n l).
Proof. unfold crypto_engine_compute_key_commitment, crypto_engine_init_sodium. apply _. Qed.
#[export] Instance keeps_encrypt_with_algorithm pt k id v c a :
  Keeps same_state (crypto_engine_encrypt_with_algorithm pt k id v c a).
Proof.
  unfold crypto_engine_encrypt_with_algorithm, crypto_engine_encrypt_payload,
    crypto_engine_init_sodium, crypto_engine_alloc_key. apply _.
Qed.
#[export] Instance keeps_decrypt es k id v n : Keeps same_state (crypto_engine_decrypt es k id v n).
Proof.
  unfold crypto_engine_decrypt, crypto_engine_decrypt_payload,
    crypto_engine_init_sodium, crypto_engine_alloc_key. apply _.
Qed.
#[export] Instance keeps_algorithm_available a : Keeps same_state (crypto_engine_algorithm_available a).
Proof. unfold crypto_engine_algorithm_available, crypto_engine_init_sodium. apply _. Qed.

(** * Sizes *)

Lemma tag_bytes_cipher a : crypto_engine_tag_bytes a = aead_ABYTES (payload_cipher a).
Proof. unfold crypto_engine_tag_bytes, payload_cipher. by destruct a, has_aegis. Qed.

Lemma nonce_bytes_cipher a : crypto_engine_nonce_bytes a = aead_NPUBBYTES (payload_cipher a).
Proof. unfold crypto_engine_nonce_bytes, payload_cipher. by destruct a, has_aegis. Qed.

Lemma length_aes_nonce id c : length (aes_nonce id c) = 12%nat.
Proof.
  unfold aes_nonce, utils_write_u64_le. rewrite length_app, length_take, length_sha256, length_write_le.
  done.
Qed.

Lemma build_nonce_length a id c e w n w' :
  crypto_engine_build_nonce a id c e w = (Ok n, w') → length n = crypto_engine_nonce_bytes a.
Proof.
  unfold crypto_engine_build_nonce. case_bool_decide as Ea.
  - intros H. inv_m. subst a. apply length_aes_nonce.
  - unfold randombytes_buf. intros [= <- <-]. len.
Qed.

(** The name written in an envelope reads back as the same cipher. *)
Lemma set_algorithm_name_read algorithm name :
  crypto_engine_set_algorithm_name algorithm = Ok name →
  crypto_engine_algorithm_from_name name = Ok (payload_cipher algorithm).
Proof.
  rewrite set_algorithm_name_ok. intros [= <-]. apply algorithm_from_name_spec.
  unfold payload_cipher. destruct algorithm; [by left|by right; left|].
  destruct has_aegis eqn:E; [|by right; left]. right; right; right. by split_and!.
Qed.

Lemma payload_cipher_idemp a : payload_cipher (payload_cipher a) = payload_cipher a.
Proof. unfold payload_cipher. by destruct a, has_aegis. Qed.

Lemma select_algorithm_available name algorithm :
  crypto_engine_select_algorithm name = Ok algorithm →
  crypto_engine_algorithm_is_available (payload_cipher algorithm) = Ok ().
Proof.
  unfold crypto_engine_select_algorithm, crypto_engine_algorithm_is_available.
  destruct name as [n|].
  - destruct (bool_decide (c_str n = [])); [done|]. intros H.
    apply outcome_bind_ok in H as (a & _ & H). apply outcome_bind_ok in H as ([] & Ha & H).
    injection H as ->.
    unfold payload_cipher. destruct algorithm, has_aegis; done.
  - intros [= <-]. unfold crypto_engine_select_default_algorithm, payload_cipher.
    by destruct has_aegis.
Qed.

Lemma length_commitment k d n : length (commitment k d n) = CRYPTO_ENGINE_COMMITMENT_HALF_BYTES.
Proof. apply length_generichash. Qed.

(** * Encryption and decryption *)

(** What encryption stores opens to what was encrypted. *)
Lemma encrypt_opens pt kek id v c alg e w es w' :
  crypto_engine_encrypt_with_algorithm pt kek id v c alg e w = (Ok es, w') →
  open_envelope kek id v es = Ok pt.
Proof.
  unfold crypto_engine_encrypt_with_algorithm, crypto_engine_encrypt_payload,
    crypto_engine_commitment, crypto_engine_init_sodium, crypto_engine_alloc_key.
  intros H. inv_m.
  match goal with H : crypto_engine_build_nonce _ _ _ _ _ = _ |- _ =>
    apply build_nonce_length in H as Hn end.
  match goal with H : crypto_engine_set_algorithm_name _ = _ |- _ =>
    apply set_algorithm_name_read in H as Hname end.
  match goal with H : crypto_engine_select_algorithm _ = _ |- _ =>
    apply select_algorithm_available in H as Hav end.
  unfold open_envelope. cbn [es_algorithm].
  rewrite check_run, Hname, ok_run, Hav, ok_run by done.
  match goal with H : crypto_engine_build_aad _ _ _ = _ |- _ => rewrite H, ok_run end.
  unfold envelope_shape, open_dek, dek_committed.
  cbn [es_ciphertext es_encrypted_dek es_nonce es_dek_nonce es_key_commitment].
  rewrite !tag_bytes_cipher, !nonce_bytes_cipher, !payload_cipher_idemp in *.
  rewrite !length_aead_encrypt, !length_app, !length_commitment, Hn.
  rewrite check_run.
  2:{ rewrite !andb_true_iff, !Nat.leb_le, !Nat.eqb_eq. split_and!; first [lia|done]. }
  rewrite (take_app_length' (commitment _ _ _)), bool_decide_true by (done || by rewrite length_commitment).
  rewrite aead_decrypt_encrypt. cbn [from_option_or]. rewrite ok_run.
  rewrite (drop_app_length' (commitment _ _ _)) by (by rewrite length_commitment).
  rewrite take_ge by (by rewrite length_commitment). rewrite bool_decide_true by done.
  rewrite check_run by (rewrite andb_true_r; apply Nat.eqb_eq; lia).
  by rewrite aead_decrypt_encrypt.
Qed.

Lemma decrypt_opens es kek id v n e w pt w' :
  crypto_engine_decrypt es kek id v n e w = (Ok pt, w') →
  open_envelope kek id v es = Ok pt ∧ (length pt ≤ n)%nat.
Proof.
  unfold crypto_engine_decrypt, crypto_engine_decrypt_payload,
    crypto_engine_commitment, crypto_engine_init_sodium, crypto_engine_alloc_key.
  intros H. inv_m. 
  unfold open_envelope.
  repeat match goal with
  | H : from_option_or _ _ = Ok _ |- _ => apply from_option_or_ok in H
  end.
  rewrite check_run by done.
  match goal with H : crypto_engine_algorithm_from_name _ = _ |- _ => rewrite H, ok_run end.
  match goal with H : crypto_engine_algorithm_is_available _ = Ok ?u |- _ =>
    destruct u; rewrite H, ok_run end.
  match goal with H : crypto_engine_build_aad _ _ _ = _ |- _ => rewrite H, ok_run end.
  match goal with H : _ && (_ <=? n)%nat = true |- _ =>
    apply andb_true_iff in H as [Hshape Hcap] end.
  unfold open_dek, dek_committed, envelope_shape. rewrite check_run by done.
  match goal with H : bool_decide (commitment kek _ _ = _) = true |- _ => rewrite H end.
  match goal with H : aead_decrypt _ kek _ _ _ = _ |- _ => rewrite H end.
  cbn [from_option_or]. rewrite ok_run.
  rewrite check_run by (apply andb_true_iff; by split).
  match goal with H : aead_decrypt _ _ _ _ (es_ciphertext es) = _ |- _ =>
    rewrite H; apply length_aead_decrypt in H as Hpt end.
  rewrite tag_bytes_cipher in Hcap. apply Nat.leb_le in Hcap. split; [done|lia].
Qed.

Ltac wp_known :=
  repeat first
    [ wp_step
    | eapply wp_lift; [eassumption|]
    | eapply wp_lift; [apply from_option_or_ok; eassumption|]
    | apply wp_guard; [assumption|] ].

Lemma wp_decrypt es kek id v n pt (Q : bytes → world → Prop) e w :
  healthy e → open_envelope kek id v es = Ok pt → (length pt ≤ n)%nat →
  (∀ w', same_state w w' → Q pt w') → wp (crypto_engine_decrypt es kek id v n) Q e w.
Proof.
  intros He Ho Hn HQ. unfold open_envelope in Ho. inv_outcome.
  match goal with H : aead_decrypt _ _ _ _ (es_ciphertext es) = _ |- _ =>
    apply length_aead_decrypt in H as Hpt end.
  match goal with H : open_dek _ _ _ _ = _ |- _ => unfold open_dek in H end.
  case_match; [|done].
  match goal with H : dek_committed _ _ = true |- _ =>
    apply andb_true_iff in H as [Hlen Hcom] end.
  match goal with H : crypto_engine_algorithm_is_available _ = Ok ?u |- _ => destruct u end.
  apply (wp_mono _ (λ a w', same_state w w' ∧ a = pt)); [apply wp_keeps; [apply _|]|].
  2:{ intros a w' [Hs ->]. auto. }
  unfold crypto_engine_decrypt, crypto_engine_decrypt_payload,
    crypto_engine_commitment, crypto_engine_init_sodium, crypto_engine_alloc_key.
  wp_known. apply wp_guard.
  { unfold envelope_shape in *. apply andb_true_iff. split; [done|].
    rewrite tag_bytes_cipher. apply Nat.leb_le. lia. }
  wp_known. done.
Qed.

(** A row identity is 64 hexadecimal characters, never empty, with no NUL. *)
Lemma row_identity_shape id name n e w s w' :
  crypto_engine_build_row_identity id name n e w = (Ok s, w') →
  s = bin2hex (sha256 (row_identity_preimage (c_str id) (c_str name))) ∧
  c_str s = s ∧ length s = 64%nat ∧ c_str id ≠ [] ∧ c_str name ≠ [].
Proof.
  unfold crypto_engine_build_row_identity. intros H. inv_m.
  match goal with H : _ && _ = true |- _ => rewrite !andb_true_iff in H; destruct H as [[Hid Hnm] _] end.
  apply negb_true_iff, bool_decide_eq_false in Hid, Hnm.
  split_and!; try done.
  - apply c_str_no_nul, bin2hex_no_nul.
  - by rewrite length_bin2hex, length_sha256.
Qed.

Lemma length_prefixed_inj a b a' b' :
  (Z.of_nat (length a) < 2 ^ 64)%Z → (Z.of_nat (length a') < 2 ^ 64)%Z →
  utils_write_u64_le (Z.of_nat (length a)) ++ a ++ b =
  utils_write_u64_le (Z.of_nat (length a')) ++ a' ++ b' → a = a' ∧ b = b'.
Proof.
  intros Ha Ha' E. unfold utils_write_u64_le in E.
  apply app_inj_1 in E as [E1 E2]; [|by rewrite !length_write_le].
  apply write_le_inj in E1; [|change (8 * Z.of_nat 8)%Z with 64%Z; lia..].
  apply app_inj_1 in E2; [done|lia].
Qed.

(** The hashed bytes determine the row id and the name. *)
Lemma row_identity_preimage_inj id name id' name' :
  (Z.of_nat (length id) < 2 ^ 64)%Z → (Z.of_nat (length id') < 2 ^ 64)%Z →
  row_identity_preimage id name = row_identity_preimage id' name' → id = id' ∧ name = name'.
Proof.
  intros Hi Hi' E. unfold row_identity_preimage in E. apply app_inv_head in E.
  apply length_prefixed_inj in E as [-> E]; [|done..]. apply app_inj_1 in E as [_ ->]; [done|].
  by unfold utils_write_u64_le; rewrite !length_write_le.
Qed.

Lemma aes_nonce_inj id c c' :
  (0 ≤ c < 2 ^ 64)%Z → (0 ≤ c' < 2 ^ 64)%Z → aes_nonce id c = aes_nonce id c' → c = c'.
Proof.
  intros Hc Hc' E. unfold aes_nonce in E. apply app_inv_head in E.
  by apply write_le_inj in E.
Qed.

Lemma open_envelope_inv kek id v es pt :
  open_envelope kek id v es = Ok pt → ∃ alg aad dek,
  crypto_engine_algorithm_from_name (es_algorithm es) = Ok alg ∧
  crypto_engine_build_aad CRYPTO_ENGINE_AAD_MAX id v = Ok aad ∧
  commitment kek CRYPTO_ENGINE_COMMIT_DOMAIN_KEK (es_dek_nonce es)
    = take CRYPTO_ENGINE_COMMITMENT_HALF_BYTES (es_key_commitment es) ∧
  aead_decrypt (payload_cipher alg) kek (es_dek_nonce es) aad (es_encrypted_dek es) = Some dek ∧
  dek_committed es dek = true ∧
  aead_decrypt (payload_cipher alg) dek (es_nonce es) aad (es_ciphertext es) = Some pt.
Proof.
  unfold open_envelope, open_dek. intros H. inv_outcome. case_match; [|done].
  match goal with H : bool_decide _ = true |- _ => apply bool_decide_eq_true in H end.
  eauto 12.
Qed.

Lemma select_aes a :
  crypto_engine_select_algorithm (Some CRYPTO_ENGINE_ALGORITHM_AES_256_GCM) = Ok a →
  a = AES_256_GCM.
Proof.
  change (crypto_engine_select_algorithm _) with
    (crypto_engine_algorithm_is_available AES_256_GCM ;; mret AES_256_GCM : outcome aead_alg).
  intros H. apply outcome_bind_ok in H as (? & _ & H). by injection H.
Qed.

(** The algorithm recorded in an envelope is one of the three canonical names. *)
Lemma encrypt_algorithm pt kek id v c alg e w es w' :
  crypto_engine_encrypt_with_algorithm pt kek id v c alg e w = (Ok es, w') →
  ∃ a, crypto_engine_select_algorithm alg = Ok a ∧
       crypto_engine_set_algorithm_name a = Ok (es_algorithm es).
Proof.
  unfold crypto_engine_encrypt_with_algorithm. intros H. inv_m. eauto.
Qed.

Lemma encrypt_algorithm_canonical pt kek id v c alg e w es w' :
  crypto_engine_encrypt_with_algorithm pt kek id v c alg e w = (Ok es, w') →
  es_algorithm es = CRYPTO_ENGINE_ALGORITHM_AES_256_GCM ∨
  es_algorithm es = CRYPTO_ENGINE_ALGORITHM_XCHACHA20_POLY1305 ∨
  es_algorithm es = CRYPTO_ENGINE_ALGORITHM_AEGIS_256.
Proof.
  intros (a & _ & Ha)%encrypt_algorithm. rewrite set_algorithm_name_ok in Ha. injection Ha as <-.
  destruct (payload_cipher a); auto.
Qed.

(** * Theorems *)

(** What [crypto_engine_encrypt_with_algorithm] produces, in whatever
    environment it ran, [crypto_engine_decrypt] turns back into the plaintext
    under the same key, identity and version, for every algorithm, as long as
    no library call fails and the buffer is large enough. *)
Theorem encrypt_decrypt_roundtrip pt kek id v counter alg es e w w' e' w1 n :
  crypto_engine_encrypt_with_algorithm pt kek id v counter alg e w = (Ok es, w') →
  healthy e' → (length pt ≤ n)%nat →
  ∃ w2, crypto_engine_decrypt es kek id v n e' w1 = (Ok pt, w2) ∧ same_state w1 w2.
Proof.
  intros H He Hn. apply encrypt_opens in H.
  destruct (wp_decrypt es kek id v n pt (λ a w2, a = pt ∧ same_state w1 w2) e' w1)
    as (a & w2 & Hr & -> & Hs); eauto.
Qed.

(** C28: Decryption is key-committing: if one stored envelope decrypts under two
    keys, then the keys are equal or their commitments over the same nonce
    collide; likewise the two data keys it unwraps to. The ciphertexts are
    arbitrary. *)
Theorem decrypt_commits_keys es kek1 id1 v1 n1 kek2 id2 v2 n2 e1 w1 e2 w2 pt1 pt2 w1' w2' :
  crypto_engine_decrypt es kek1 id1 v1 n1 e1 w1 = (Ok pt1, w1') →
  crypto_engine_decrypt es kek2 id2 v2 n2 e2 w2 = (Ok pt2, w2') →
  commitment kek1 CRYPTO_ENGINE_COMMIT_DOMAIN_KEK (es_dek_nonce es)
    = commitment kek2 CRYPTO_ENGINE_COMMIT_DOMAIN_KEK (es_dek_nonce es) ∧
  ∃ alg aad1 aad2 dek1 dek2,
    crypto_engine_algorithm_from_name (es_algorithm es) = Ok alg ∧
    aead_decrypt (payload_cipher alg) kek1 (es_dek_nonce es) aad1 (es_encrypted_dek es) = Some dek1 ∧
    aead_decrypt (payload_cipher alg) kek2 (es_dek_nonce es) aad2 (es_encrypted_dek es) = Some dek2 ∧
    aead_decrypt (payload_cipher alg) dek1 (es_nonce es) aad1 (es_ciphertext es) = Some pt1 ∧
    aead_decrypt (payload_cipher alg) dek2 (es_nonce es) aad2 (es_ciphertext es) = Some pt2 ∧
    commitment dek1 CRYPTO_ENGINE_COMMIT_DOMAIN_DEK (es_nonce es)
      = commitment dek2 CRYPTO_ENGINE_COMMIT_DOMAIN_DEK (es_nonce es).
Proof.
  intros [H1 _]%decrypt_opens [H2 _]%decrypt_opens.
  apply open_envelope_inv in H1 as (alg & aad1 & dek1 & Ha1 & _ & Hk1 & Hd1 & Hc1 & Hp1).
  apply open_envelope_inv in H2 as (alg' & aad2 & dek2 & Ha2 & _ & Hk2 & Hd2 & Hc2 & Hp2).
  rewrite Ha1 in Ha2. injection Ha2 as <-. unfold dek_committed in *.
  apply andb_true_iff in Hc1 as [_ Hc1%bool_decide_eq_true], Hc2 as [_ Hc2%bool_decide_eq_true].
  split; [congruence|]. exists alg, aad1, aad2, dek1, dek2. split_and!; congruence.
Qed.

(** An envelope belongs to one row and one version: if it decrypts, under one
    key, for two different triples (row id, name, version), then two different
    rows have the same identity through a SHA-256 collision, which is given,
    or the AEAD accepts the wrapped key under two different associated
    data. *)
Theorem envelope_bound_to_row es kek id1 name1 v1 id2 name2 v2 s1 s2 n1 n2
    ea eb e1 e2 wa wb wa' wb' w1 w2 w1' w2' pt1 pt2 :
  (Z.of_nat (length id1) < 2 ^ 64)%Z → (Z.of_nat (length id2) < 2 ^ 64)%Z →
  (0 ≤ v1)%Z → (0 ≤ v2)%Z →
  crypto_engine_build_row_identity id1 name1 65 ea wa = (Ok s1, wa') →
  crypto_engine_build_row_identity id2 name2 65 eb wb = (Ok s2, wb') →
  crypto_engine_decrypt es kek s1 v1 n1 e1 w1 = (Ok pt1, w1') →
  crypto_engine_decrypt es kek s2 v2 n2 e2 w2 = (Ok pt2, w2') →
  (c_str id1 = c_str id2 ∧ c_str name1 = c_str name2 ∧ v1 = v2) ∨
  sha256_collision (row_identity_preimage (c_str id1) (c_str name1),
                    row_identity_preimage (c_str id2) (c_str name2)) ∨
  ∃ alg aad1 aad2 dek1 dek2, aad1 ≠ aad2 ∧
    aead_decrypt alg kek (es_dek_nonce es) aad1 (es_encrypted_dek es) = Some dek1 ∧
    aead_decrypt alg kek (es_dek_nonce es) aad2 (es_encrypted_dek es) = Some dek2.
Proof.
  intros Hi1 Hi2 Hv1 Hv2 R1 R2 [H1 _]%decrypt_opens [H2 _]%decrypt_opens.
  apply open_envelope_inv in H1 as (alg & aad1 & dek1 & Ha1 & Hb1 & _ & Hd1 & _).
  apply open_envelope_inv in H2 as (alg' & aad2 & dek2 & Ha2 & Hb2 & _ & Hd2 & _).
  rewrite Ha1 in Ha2. injection Ha2 as <-.
  destruct (decide (aad1 = aad2)) as [<-|Hne].
  2:{ do 2 right. exists (payload_cipher alg), aad1, aad2, dek1, dek2. done. }
  destruct (build_aad_inj _ _ _ _ _ _ Hv1 Hv2 Hb1 Hb2) as [Es ->].
  apply row_identity_shape in R1 as (R1 & C1 & _), R2 as (R2 & C2 & _).
  rewrite C1, C2, R1, R2 in Es. apply bin2hex_inj in Es.
  assert (∀ l, (Z.of_nat (length (c_str l)) ≤ Z.of_nat (length l))%Z) as Hc.
  { intros l. induction l as [|b l IH]; simpl; [lia|]. case_decide; simpl; lia. }
  destruct (decide (row_identity_preimage (c_str id1) (c_str name1)
                    = row_identity_preimage (c_str id2) (c_str name2))) as [Ep|Ep].
  - left. apply row_identity_preimage_inj in Ep as [-> ->]; [done|..].
    + pose proof (Hc id1). lia.
    + pose proof (Hc id2). lia.
  - right. left. split; [exact Ep|exact Es].
Qed.

(** Nonces of AES-256-GCM never repeat for one row: two encryptions under the
    same identity with different 64-bit counters have different nonces, and
    the first four bytes tie the nonce to the identity. *)
Theorem aes_nonces_distinct pt1 pt2 kek id v1 v2 c1 c2 e1 e2 w1 w2 es1 es2 w1' w2' :
  (0 ≤ c1 < 2 ^ 64)%Z → (0 ≤ c2 < 2 ^ 64)%Z → c1 ≠ c2 →
  crypto_engine_encrypt_with_algorithm pt1 kek id v1 c1
    (Some CRYPTO_ENGINE_ALGORITHM_AES_256_GCM) e1 w1 = (Ok es1, w1') →
  crypto_engine_encrypt_with_algorithm pt2 kek id v2 c2
    (Some CRYPTO_ENGINE_ALGORITHM_AES_256_GCM) e2 w2 = (Ok es2, w2') →
  es_nonce es1 ≠ es_nonce es2 ∧ take 4 (es_nonce es1) = take 4 (es_nonce es2) ∧
  length (es_nonce es1) = 12%nat.
Proof.
  intros Hc1 Hc2 Hne H1 H2.
  assert (∀ pt v c e w es w',
    crypto_engine_encrypt_with_algorithm pt kek id v c
      (Some CRYPTO_ENGINE_ALGORITHM_AES_256_GCM) e w = (Ok es, w') →
    es_nonce es = aes_nonce id c) as Hn.
  { clear. intros pt v c e w es w'. unfold crypto_engine_encrypt_with_algorithm,
      crypto_engine_encrypt_payload, crypto_engine_commitment,
      crypto_engine_init_sodium, crypto_engine_alloc_key.
    intros H. inv_m. cbn [es_nonce].
    apply select_aes in H3 as ->.
    unfold crypto_engine_build_nonce in *. simpl in *. inv_m. done. }
  apply Hn in H1, H2. rewrite H1, H2. split_and!.
  - intros E. by apply aes_nonce_inj in E.
  - unfold aes_nonce. rewrite !take_app_length' by (by rewrite length_take, length_sha256). done.
  - apply length_aes_nonce.
Qed.

End CryptoEngineLemmas.

(** * Witnesses *)

Module Examples.

Definition kek : bytes := replicate 32 (z_byte 7).
Definition pt : bytes := str "hunter2".
Definition e0 : env := Sample.env_at 1700000000.

Definition row_name : bytes := str "db/password".

Definition seal (id : bytes) (alg : option bytes) (c : Z) : M encrypted_secret_t :=
  @crypto_engine_encrypt_with_algorithm Toy.crypto pt kek id 3 c alg.

(** Seal a secret in a row and open it again. *)
Abbreviation seal_open :=
  (id ← @crypto_engine_build_row_identity Toy.crypto (str "row") row_name 65;
   es ← seal id None 0;
   p ← @crypto_engine_decrypt Toy.crypto es kek id 3 7;
   mret (id, es, p)).

Lemma seal_open_ok : is_ok (seal_open e0 Sample.world0).1 = true.
Proof. vm_compute. reflexivity. Qed.

Lemma encrypt_decrypt_roundtrip_witness :
  ∃ id w es w' w2, seal id None 0 e0 w = (Ok es, w') ∧
    @crypto_engine_decrypt Toy.crypto es kek id 3 7 e0 w' = (Ok pt, w2).
Proof.
  destruct (run_ok _ seal_open_ok) as (r & w & H). apply bind_ok in H as (id & w1 & _ & H).
  apply bind_ok in H as (es & w2 & E & _).
  destruct (@encrypt_decrypt_roundtrip Toy.crypto Toy.laws _ _ _ _ _ _ _ _ _ _ e0 w2 7 E)
    as (w3 & D & _); [apply Sample.env_at_healthy|apply Nat.leb_le; reflexivity|].
  by exists id, w1, es, w2, w3.
Defined.

(** A library without commitment, where one ciphertext opens under every key:
    the hash of a commitment is constant, and a cipher turns the text round
    for half of the keys. *)
Definition turn (k l : bytes) : bytes := if Z.even (byte_z (nth 0 k Byte.x00)) then rev l else l.

Definition uncommitted : Crypto := {|
  sha256 := @sha256 Toy.crypto;
  crypto_auth := @crypto_auth Toy.crypto;
  generichash _ _ n := replicate n Byte.x00;
  aead_encrypt a k n ad pt := Toy.encrypt a [] n ad (turn k pt);
  aead_decrypt a k n ad ct := turn k <$> Toy.decrypt a [] n ad ct;
  pwhash := @pwhash Toy.crypto;
  kdf_derive_from_key := @kdf_derive_from_key Toy.crypto;
  hmac_sha1 := @hmac_sha1 Toy.crypto;
  base64_encode := @base64_encode Toy.crypto;
  base64_decode := @base64_decode Toy.crypto;
  bin2hex := @bin2hex Toy.crypto;
  aes256gcm_is_available := true;
  has_aegis := true;
|}.

Lemma turn_turn k l : turn k (turn k l) = l.
Proof. unfold turn. destruct (Z.even _); [apply rev_involutive|done]. Qed.
Lemma length_turn k l : length (turn k l) = length l.
Proof. unfold turn. destruct (Z.even _); [apply length_rev|done]. Qed.

Lemma uncommitted_laws : CryptoLaws uncommitted.
Proof.
  destruct Toy.laws. split; try assumption; cbn [generichash aead_encrypt aead_decrypt uncommitted].
  - intros _ _ n. apply length_replicate.
  - intros a k n ad pt. rewrite Toy.decrypt_encrypt. cbn. by rewrite turn_turn.
  - intros a k n ad pt. unfold Toy.encrypt. by rewrite length_app, Toy.length_tag, length_turn.
  - intros a k n ad ct pt H. apply fmap_Some in H as (pt' & H%Toy.decrypt_length & ->). by rewrite length_turn.
Qed.

Definition other_kek : bytes := replicate 32 (z_byte 6).

(** One envelope that opens under two keys, to two texts. *)
Abbreviation seal_open_twice :=
  (es ← @crypto_engine_encrypt_with_algorithm uncommitted pt kek (str "row") 3 0 None;
   p1 ← @crypto_engine_decrypt uncommitted es kek (str "row") 3 7;
   p2 ← @crypto_engine_decrypt uncommitted es other_kek (str "row") 3 7;
   mret (p1, p2)).

Lemma seal_open_twice_ok : (seal_open_twice e0 Sample.world0).1 = Ok (pt, str "2retnuh").
Proof. vm_compute. reflexivity. Qed.

Lemma decrypt_commits_keys_witness :
  ∃ es w1 w2 w3, kek ≠ other_kek ∧
    @crypto_engine_decrypt uncommitted es kek (str "row") 3 7 e0 w1 = (Ok pt, w2) ∧
    @crypto_engine_decrypt uncommitted es other_kek (str "row") 3 7 e0 w2 = (Ok (str "2retnuh"), w3) ∧
    @commitment uncommitted kek CRYPTO_ENGINE_COMMIT_DOMAIN_KEK (es_dek_nonce es)
      = @commitment uncommitted other_kek CRYPTO_ENGINE_COMMIT_DOMAIN_KEK (es_dek_nonce es).
Proof.
  pose proof (run_split _ _ _ _ seal_open_twice_ok) as H.
  apply bind_ok in H as (es & w1 & _ & H). apply bind_ok in H as (p1 & w2 & D1 & H).
  apply bind_ok in H as (p2 & w3 & D2 & H). apply ret_ok in H as [E _]. injection E as <- <-.
  exists es, w1, w2, w3. edestruct (@decrypt_commits_keys uncommitted uncommitted_laws) as [C _]; [exact D1|exact D2|].
  split; [discriminate|]. split; [exact D1|]. split; [exact D2|exact C].
Defined.

Lemma envelope_bound_to_row_witness :
  ∃ es, (c_str (str "row") = c_str (str "row") ∧ c_str row_name = c_str row_name ∧ 3%Z = 3%Z) ∨
    @sha256_collision Toy.crypto
      (row_identity_preimage (c_str (str "row")) (c_str row_name),
       row_identity_preimage (c_str (str "row")) (c_str row_name)) ∨
    ∃ alg aad1 aad2 dek1 dek2, aad1 ≠ aad2 ∧
      @aead_decrypt Toy.crypto alg kek (es_dek_nonce es) aad1 (es_encrypted_dek es) = Some dek1 ∧
      @aead_decrypt Toy.crypto alg kek (es_dek_nonce es) aad2 (es_encrypted_dek es) = Some dek2.
Proof.
  destruct (run_ok _ seal_open_ok) as (r & w & H). apply bind_ok in H as (id & w1 & R & H).
  apply bind_ok in H as (es & w2 & _ & H). apply bind_ok in H as (p & w3 & D & _).
  exists es. eapply (@envelope_bound_to_row Toy.crypto Toy.laws);
    [reflexivity|reflexivity|lia|lia|exact R|exact R|exact D|exact D].
Defined.

Abbreviation seal_aes_twice :=
  (es1 ← seal (str "row") (Some CRYPTO_ENGINE_ALGORITHM_AES_256_GCM) 0;
   es2 ← seal (str "row") (Some CRYPTO_ENGINE_ALGORITHM_AES_256_GCM) 1;
   mret (es1, es2)).

Lemma aes_nonces_distinct_witness :
  ∃ es1 es2, is_ok (seal_aes_twice e0 Sample.world0).1 = true ∧ es_nonce es1 ≠ es_nonce es2.
Proof.
  assert (is_ok (seal_aes_twice e0 Sample.world0).1 = true) as Hok by (vm_compute; reflexivity).
  destruct (run_ok _ Hok) as (r & w & H). apply bind_ok in H as (es1 & w1 & E1 & H).
  apply bind_ok in H as (es2 & w2 & E2 & _).
  exists es1, es2. split; [done|].
  eapply (@aes_nonces_distinct Toy.crypto Toy.laws); [| | |exact E1|exact E2]; lia.
Defined.

End Examples.
