(* ===== verification/Storage.v ===== *)
(** The database handle and its transactions (src/src/storage.c), and the
    check of the schema on opening.

    A transaction is [BEGIN IMMEDIATE], statements, then [COMMIT] or
    [ROLLBACK]; the callers in vault.c all have the shape
    [finish_transaction]. The lemmas say that such a block is atomic whatever
    calls fail in it: this is what the theorems of the vault use. *)

From S2P Require Import Prelude Status Schema State.

(** * Transactions *)

(** A transaction statement: refused by SQLite unless [ready]. *)
Definition tx_statement (ready : connection → bool) (f : connection → connection) : M unit := λ e w,
  match w_conn w with
  | None => (Err SM_ERR_INVALID_ARGUMENT, w)
  | Some c =>
      if env_fault e (w_calls w) then (Err SM_ERR_STORAGE, called w)
      else if ready c then (Ok (), set_conn (Some (f c)) (called w))
      else (Err SM_ERR_STORAGE, called w)
  end.

(** "BEGIN IMMEDIATE;", refused inside a transaction. *)
Definition storage_begin_transaction : M unit :=
  tx_statement (λ c, negb (conn_in_tx c))
    (λ c, Connection (conn_cur c) (conn_committed c) true).

(** "COMMIT;" *)
Definition storage_commit_transaction : M unit :=
  tx_statement conn_in_tx (λ c, Connection (conn_cur c) (conn_cur c) false).

(** "ROLLBACK;" *)
Definition storage_rollback_transaction : M unit :=
  tx_statement conn_in_tx (λ c, Connection (conn_committed c) (conn_committed c) false).

(** The end of every transaction of vault.c: commit when the statements
    succeeded, roll back when they or the commit failed; the status of the
    rollback is ignored. *)
Definition finish_transaction (statements : M unit) : M unit :=
  r ← try statements;
  match r with
  | Ok _ =>
      c ← try storage_commit_transaction;
      match c with
      | Ok _ => mret ()
      | Err s => try storage_rollback_transaction ;; throw s
      end
  | Err s => try storage_rollback_transaction ;; throw s
  end.

(** No transaction is open, what the connection sees is durable. *)
Definition quiescent (w : world) : Prop :=
  ∃ c, w_conn w = Some c ∧ conn_in_tx c = false ∧ conn_committed c = conn_cur c.

(** The database a world holds durably, and the one its statements see. *)
Definition durable (w : world) : option database := conn_committed <$> w_conn w.
Definition visible (w : world) : option database := conn_cur <$> w_conn w.

(** A failed transaction: nothing became durable, and unless its rollback
    failed too the connection is as before. *)
Definition aborted (w w' : world) : Prop :=
  w_subkeys w' = w_subkeys w ∧ w_unlocked w' = w_unlocked w ∧ w_disk w' = w_disk w ∧
  durable w' = durable w ∧ (quiescent w' ∨ ∃ c, w_conn w' = Some c ∧ conn_in_tx c = true).

#[export] Instance keeps_tx_statement ready f : Keeps same_session (tx_statement ready f).
Proof.
  intros e w. unfold tx_statement, same_session. destruct (w_conn w) eqn:E; [|by split_and!].
  destruct (env_fault _ _); [simpl; by rewrite E|]. destruct (ready _); simpl; [|by rewrite E].
  by split_and!.
Qed.
#[export] Instance keeps_begin : Keeps same_session storage_begin_transaction.
Proof. apply _. Qed.
#[export] Instance keeps_commit : Keeps same_session storage_commit_transaction.
Proof. apply _. Qed.
#[export] Instance keeps_rollback : Keeps same_session storage_rollback_transaction.
Proof. apply _. Qed.
#[export] Instance keeps_finish m : Keeps same_session m → Keeps same_session (finish_transaction m).
Proof. intros Hm. unfold finish_transaction. apply _. Qed.

Lemma in_transaction_durable w w' c :
  in_transaction w w' → w_conn w = Some c → conn_in_tx c = true →
  ∃ c', w_conn w' = Some c' ∧ conn_in_tx c' = true ∧ conn_committed c' = conn_committed c.
Proof.
  intros (_ & _ & _ & H) E Htx. rewrite E in H. destruct H as (c' & E' & Htx' & Hc).
  exists c'. split_and!; [done|congruence|auto].
Qed.

(** A rollback, failing or not, of an open transaction. *)
Lemma rollback_aborts e w c :
  w_conn w = Some c → conn_in_tx c = true →
  ∃ w', try storage_rollback_transaction e w = (Ok (storage_rollback_transaction e w).1, w') ∧
        durable w' = Some (conn_committed c) ∧ same_session w w' ∧
        (quiescent w' ∨ ∃ c, w_conn w' = Some c ∧ conn_in_tx c = true).
Proof.
  intros E Htx. unfold try. pose proof (keeps (m := storage_rollback_transaction) e w) as Hk.
  destruct (storage_rollback_transaction e w) as [r w'] eqn:R. exists w'. simpl in *.
  split; [done|]. unfold storage_rollback_transaction, tx_statement in R. rewrite E, Htx in R.
  destruct (env_fault e (w_calls w)); injection R as <- <-; unfold durable, quiescent; simpl.
  - rewrite E. split_and!; [done|done|]. right. eauto.
  - split_and!; [done|done|]. left. eauto.
Qed.

(** An open transaction that is finished is either committed or aborted. *)
Lemma finish_open e w c (statements : M unit) r w' `{!Keeps in_transaction statements} :
  w_conn w = Some c → conn_in_tx c = true →
  finish_transaction statements e w = (r, w') →
  match r with
  | Ok _ => quiescent w' ∧
      ∃ w1, statements e w = (Ok (), w1) ∧ durable w' = visible w1 ∧ visible w' = visible w1 ∧
            same_session w w'
  | Err s =>
      durable w' = Some (conn_committed c) ∧ same_session w w' ∧
      (quiescent w' ∨ ∃ c, w_conn w' = Some c ∧ conn_in_tx c = true)
  end.
Proof.
  intros E Htx R. unfold finish_transaction in R.
  assert (same_session w w') as Hss.
  { eapply (keeps_run same_session (finish_transaction statements)). exact R. }
  pose proof (keeps (m := statements) e w) as Hk.
  destruct (statements e w) as [r1 w1] eqn:Es. simpl in Hk.
  destruct (in_transaction_durable _ _ _ Hk E Htx) as (c1 & E1 & Htx1 & Hc1).
  assert (∀ s, (try storage_rollback_transaction ;; throw s : M unit) e w1 = (r, w') →
    r = Err s ∧ durable w' = Some (conn_committed c) ∧
    (quiescent w' ∨ ∃ c, w_conn w' = Some c ∧ conn_in_tx c = true)) as Hrb.
  { intros s H. destruct (rollback_aborts e w1 c1 E1 Htx1) as (w2 & Hr & Hd & _ & Hq).
    rewrite (bind_run _ _ _ _ _ _ Hr) in H. injection H as <- <-. rewrite <- Hc1. auto. }
  assert (try statements e w = (Ok r1, w1)) as Et by (unfold try; by rewrite Es).
  rewrite (bind_run _ _ _ _ _ _ Et) in R.
  destruct r1 as [[]|s].
  - destruct (storage_commit_transaction e w1) as [r2 w2] eqn:Ec.
    assert (try storage_commit_transaction e w1 = (Ok r2, w2)) as Et2 by (unfold try; by rewrite Ec).
    rewrite (bind_run _ _ _ _ _ _ Et2) in R.
    unfold storage_commit_transaction, tx_statement in Ec. rewrite E1, Htx1 in Ec.
    destruct (env_fault e (w_calls w1)).
    + injection Ec as <- <-.
      assert (in_transaction w (called w1)) as Hk' by (destruct Hk as (?&?&?&?); split_and!; auto).
      destruct (in_transaction_durable _ _ _ Hk' E Htx) as (c2 & E2 & Htx2 & Hc2).
      destruct (rollback_aborts e (called w1) c2 E2 Htx2) as (w3 & Hr & Hd & _ & Hq).
      rewrite (bind_run _ _ _ _ _ _ Hr) in R. injection R as <- <-. rewrite <- Hc2. auto.
    + injection Ec as <- <-. injection R as <- <-. split.
      * eexists. unfold set_conn. simpl. split_and!; done.
      * exists w1. unfold durable, visible. simpl. by rewrite E1.
  - destruct (Hrb s R) as (-> & ? & ?). auto.
Qed.

(** [begin; statements; commit or rollback] is atomic: an error leaves the
    durable database as it was, success makes the effect of all statements
    durable at once. [begin] may be inside or outside the part that is rolled
    back. *)
Lemma transaction_atomic e w (statements : M unit) r w' `{!Keeps in_transaction statements} :
  quiescent w →
  finish_transaction (storage_begin_transaction ;; statements) e w = (r, w') ∨
  (storage_begin_transaction ;; finish_transaction statements) e w = (r, w') →
  match r with
  | Ok _ => quiescent w' ∧ same_session w w' ∧
      ∃ w0 w1, storage_begin_transaction e w = (Ok (), w0) ∧
        w_conn w0 = (λ c, Connection (conn_cur c) (conn_committed c) true) <$> w_conn w ∧
        statements e w0 = (Ok (), w1) ∧ durable w' = visible w1 ∧ visible w' = visible w1
  | Err s => aborted w w'
  end.
Proof.
  intros (c & E & Htx & Hq) R.
  destruct (storage_begin_transaction e w) as [[[]|s] w0] eqn:Eb.
  - set (c0 := Connection (conn_cur c) (conn_committed c) true).
    assert (w0 = set_conn (Some c0) (called w)) as ->.
    { unfold storage_begin_transaction, tx_statement in Eb. rewrite E, Htx in Eb.
      destruct (env_fault _ _); [discriminate|]. simpl in Eb. by injection Eb as <-. }
    assert (finish_transaction statements e (set_conn (Some c0) (called w)) = (r, w')) as R'.
    { destruct R as [R|R].
      - rewrite <- R. unfold finish_transaction, mbind, M_bind, try. by rewrite Eb.
      - by rewrite (bind_run _ _ _ _ _ _ Eb) in R. }
    apply (finish_open e _ c0) in R'; [|done|done|done].
    destruct r as [u|s].
    + destruct R' as (Hq' & w1 & Hs & Hd & Hv & Hss). split_and!; [done| |].
      * destruct Hss as (?&?&?&Hcn). unfold same_session. simpl in *. split_and!; try done.
        rewrite E. rewrite Hcn. split; discriminate.
      * eexists _, w1. split_and!; [done| |done..]. simpl. by rewrite E.
    + destruct R' as (Hd & (H1 & H2 & H3 & _) & Hor). unfold aborted, durable. rewrite E.
      split_and!; try done.
  - assert (w0 = called w) as ->.
    { unfold storage_begin_transaction, tx_statement in Eb. rewrite E, Htx in Eb.
      destruct (env_fault _ _); [by injection Eb as _ <-|discriminate]. }
    assert (r = Err s ∧ (w' = called w ∨ w' = called (called w))) as [-> Hw'].
    { destruct R as [R|R].
      - unfold finish_transaction, mbind, M_bind, try in R. rewrite Eb in R.
        unfold storage_rollback_transaction, tx_statement in R. simpl in R. rewrite E, Htx in R.
        destruct (env_fault _ _); injection R as <- <-; auto.
      - rewrite (bind_run_err _ _ _ _ _ _ Eb) in R. injection R as <- <-. auto. }
    unfold aborted, durable. destruct Hw' as [-> | ->]; simpl; split_and!; try done;
      left; exists c; done.
Qed.

(** What a committed transaction did is what its statements did. *)
Lemma transaction_ok e w c (statements : M unit) u w' `{!Keeps in_transaction statements} :
  quiescent w → w_conn w = Some c →
  finish_transaction (storage_begin_transaction ;; statements) e w = (Ok u, w') ∨
  (storage_begin_transaction ;; finish_transaction statements) e w = (Ok u, w') →
  ∃ w0 w1 c0 c1 c', w_conn w0 = Some c0 ∧ conn_cur c0 = conn_cur c ∧ w_subkeys w0 = w_subkeys w ∧
    statements e w0 = (Ok (), w1) ∧ w_conn w1 = Some c1 ∧
    quiescent w' ∧ w_conn w' = Some c' ∧ conn_cur c' = conn_cur c1 ∧
    w_subkeys w' = w_subkeys w ∧ w_unlocked w' = w_unlocked w.
Proof.
  intros Hq Hc H. apply (transaction_atomic e w statements (Ok u) w' Hq) in H
    as (Hq' & (S1 & S2 & _) & w0 & w1 & Hb & Hc0 & Hs & _ & Hv).
  rewrite Hc in Hc0. cbn in Hc0.
  destruct (keeps_run same_session _ _ _ _ _ Hb) as (B1 & _).
  pose proof Hq' as (c' & Hc' & _). unfold visible in Hv. rewrite Hc' in Hv.
  destruct (w_conn w1) as [c1|] eqn:Hc1; [|done]. injection Hv as Hv.
  exists w0, w1, (Connection (conn_cur c) (conn_committed c) true), c1, c'. split_and!; done.
Qed.

(** ** Atomic operations

    [settled]: no statement is under way outside a transaction, which is
    every state between two operations. An operation is [Atomic] when what is
    durable changes only if it succeeds, and success leaves no transaction
    open. *)

Definition settled (w : world) : Prop :=
  ∃ c, w_conn w = Some c ∧ (conn_in_tx c = false → conn_committed c = conn_cur c).

Class Atomic {A} (m : M A) : Prop :=
  atomic : ∀ e w r w', settled w → m e w = (r, w') →
    settled w' ∧ (is_ok r = true → quiescent w → quiescent w') ∧
    (is_ok r = false ∨ ¬ quiescent w → durable w' = durable w).

Lemma settled_cases w : settled w ↔ quiescent w ∨ ∃ c, w_conn w = Some c ∧ conn_in_tx c = true.
Proof.
  split.
  - intros (c & E & H). destruct (conn_in_tx c) eqn:Htx; [right; eauto|left; exists c; auto].
  - intros [(c & E & Htx & H)|(c & E & Htx)]; exists c; split; congruence.
Qed.

Lemma same_state_conn w w' : same_state w w' →
  (settled w → settled w') ∧ (quiescent w → quiescent w') ∧ (quiescent w' → quiescent w) ∧
  durable w' = durable w ∧ visible w' = visible w.
Proof.
  intros (E & _). unfold settled, quiescent, durable, visible. rewrite E. split_and!; done.
Qed.

#[export] Instance atomic_keeps {A} (m : M A) : Keeps same_state m → Atomic m | 10.
Proof.
  intros K e w r w' Hw H. pose proof (keeps_run same_state _ _ _ _ _ H) as Hs.
  apply same_state_conn in Hs as (H1 & H2 & _ & H3 & _). auto.
Qed.

#[export] Instance atomic_bind {A B} (m : M A) (f : A → M B) :
  Keeps same_state m → (∀ a, Atomic (f a)) → Atomic (m ≫= f) | 5.
Proof.
  intros K Hf e w r w' Hw H. unfold mbind, M_bind in H. pose proof (keeps (m := m) e w) as Hs.
  destruct (m e w) as [[a|s] w1]; simpl in Hs; apply same_state_conn in Hs as (H1 & H2 & H2' & H3 & _).
  - destruct (Hf a e w1 r w' (H1 Hw) H) as (S & Hq & Hd). split_and!; [done|auto|].
    intros Hr. rewrite <- H3. apply Hd. destruct Hr as [Hr|Hr]; auto.
  - injection H as <- <-. auto.
Qed.

(** A last step that cannot fail. *)
#[export] Instance atomic_bind_ret {A B} (m : M A) (g : A → B) :
  Atomic m → Atomic (m ≫= λ a, mret (g a)) | 6.
Proof.
  intros Hm e w r w' Hw H. unfold mbind, M_bind in H.
  destruct (m e w) as [[a|s] w1] eqn:E; injection H as <- <-; by apply (Hm e w _ w1 Hw) in E.
Qed.

#[export] Instance atomic_if {A} (b : bool) (m n : M A) : Atomic m → Atomic n → Atomic (if b then m else n).
Proof. by destruct b. Qed.
#[export] Instance atomic_option {A B} (o : option B) (f : B → M A) (n : M A) :
  (∀ b, Atomic (f b)) → Atomic n → Atomic (match o with Some b => f b | None => n end).
Proof. by destruct o. Qed.
#[export] Instance atomic_pair {A B C} (p : B * C) (f : B → C → M A) :
  (∀ b c, Atomic (f b c)) → Atomic (let '(b, c) := p in f b c).
Proof. by destruct p. Qed.

(** One statement outside a transaction. *)
#[export] Instance atomic_sql_exec {A} (u : database → option (database * A)) : Atomic (sql_exec u).
Proof.
  intros e w r w' (c & E & Hc) H. unfold sql_exec in H. rewrite E in H.
  unfold settled, quiescent, durable.
  destruct (env_fault _ _); [|destruct (u _) as [[db a]|]]; injection H as <- <-; simpl; rewrite ?E.
  - split_and!; eauto.
  - split_and!; [eexists; split; [done|]; simpl; by intros ->| |].
    + intros _ (c' & [= <-] & Htx & _). eexists. split_and!; [done|done|]. by rewrite Htx.
    + intros [|Hn]; [done|]. f_equal. simpl. destruct (conn_in_tx c) eqn:Htx; [done|].
      destruct Hn. eauto.
  - split_and!; eauto.
Qed.

(** A transaction, however it begins. *)
Lemma atomic_transaction (m statements : M unit) `{!Keeps in_transaction statements} :
  (∀ e w r w', m e w = (r, w') →
     finish_transaction (storage_begin_transaction ;; statements) e w = (r, w') ∨
     (storage_begin_transaction ;; finish_transaction statements) e w = (r, w')) →
  Atomic m.
Proof.
  intros Hm e w r w' Hw H. apply Hm in H.
  destruct (proj1 (settled_cases w) Hw) as [Hq|(c & E & Htx)].
  - apply (transaction_atomic e w statements r w' Hq) in H. destruct r as [u|s].
    + destruct H as (Hq' & _). split_and!; [|auto|].
      * apply settled_cases. by left.
      * by intros [|[]].
    + destruct H as (_ & _ & _ & Hd & Hor). split_and!; [by apply settled_cases|done|done].
  - assert (storage_begin_transaction e w = (Err SM_ERR_STORAGE, called w)) as Eb.
    { unfold storage_begin_transaction, tx_statement. rewrite E, Htx. by destruct (env_fault _ _). }
    assert (∃ s, r = Err s ∧ durable w' = durable w ∧ settled w') as (s & -> & Hd & Hs).
    { destruct H as [H|H].
      - assert (try (storage_begin_transaction ;; statements) e w = (Ok (Err SM_ERR_STORAGE), called w)) as Et.
        { unfold try. by rewrite (bind_run_err _ _ _ _ _ _ Eb). }
        unfold finish_transaction in H. rewrite (bind_run _ _ _ _ _ _ Et) in H.
        destruct (rollback_aborts e (called w) c E Htx) as (w2 & Hr & Hd & _ & Hq).
        rewrite (bind_run _ _ _ _ _ _ Hr) in H. injection H as <- <-. eexists. split; [done|].
        unfold durable at 2. rewrite E. split; [done|by apply settled_cases].
      - rewrite (bind_run_err _ _ _ _ _ _ Eb) in H. injection H as <- <-. eexists. split; [done|].
        split; [done|]. exists c. split; [done|congruence]. }
    split_and!; done.
Qed.

#[export] Instance atomic_begin_finish (statements : M unit) :
  Keeps in_transaction statements →
  Atomic (storage_begin_transaction ;; finish_transaction statements) | 1.
Proof. intros K. apply (atomic_transaction _ statements). auto. Qed.
#[export] Instance atomic_finish_begin (statements : M unit) :
  Keeps in_transaction statements →
  Atomic (finish_transaction (storage_begin_transaction ;; statements)) | 1.
Proof. intros K. apply (atomic_transaction _ statements). auto. Qed.

(** In a healthy environment a transaction runs its statements. *)
Lemma wp_transaction (statements : M unit) c (Q : unit → world → Prop) e w :
  healthy e → w_conn w = Some c → conn_in_tx c = false →
  wp statements (λ _ w1, ∃ c1, w_conn w1 = Some c1 ∧ conn_in_tx c1 = true ∧
       Q () (set_conn (Some (Connection (conn_cur c1) (conn_cur c1) false)) (called w1)))
    e (set_conn (Some (Connection (conn_cur c) (conn_committed c) true)) (called w)) →
  wp (finish_transaction (storage_begin_transaction ;; statements)) Q e w ∧
  wp (storage_begin_transaction ;; finish_transaction statements) Q e w.
Proof.
  intros He E Htx ([] & w1 & Es & c1 & E1 & Htx1 & HQ).
  assert (storage_begin_transaction e w
          = (Ok (), set_conn (Some (Connection (conn_cur c) (conn_committed c) true)) (called w))) as Eb.
  { unfold storage_begin_transaction, tx_statement. by rewrite E, He, Htx. }
  assert (storage_commit_transaction e w1 =
          (Ok (), set_conn (Some (Connection (conn_cur c1) (conn_cur c1) false)) (called w1))) as Ec.
  { unfold storage_commit_transaction, tx_statement. by rewrite E1, He, Htx1. }
  split; eexists (), _; (split; [|exact HQ]).
  - unfold finish_transaction, mbind, M_bind, try. rewrite Eb, Es, Ec. done.
  - rewrite (bind_run _ _ _ _ _ _ Eb). unfold finish_transaction, mbind, M_bind, try.
    rewrite Es, Ec. done.
Qed.

(** * The schema check of [storage_init] and [storage_open]

    On what SQLite reports of the file, its [catalogue]. *)

(** [storage_required_column_t]. *)
Record storage_required_column_t := RequiredColumn {
  rc_name : bytes;
  rc_type : bytes;
  rc_not_null : bool;
  rc_primary_key : bool;
}.

(** [sqlite3_stricmp(a, b) == 0]: equal up to the case of ASCII letters. *)
Definition ascii_lower (b : byte) : byte :=
  if ((65 <=? byte_z b) && (byte_z b <=? 90))%Z then z_byte (byte_z b + 32) else b.
Definition stricmp_eq (a b : bytes) : bool :=
  bool_decide (ascii_lower <$> c_str a = ascii_lower <$> c_str b).

Definition storage_require_table (cat : catalogue) (table_name : bytes) : outcome unit :=
  check (bool_decide (table_name ∈ cat_tables cat)) SM_ERR_STORAGE.

(** The scan stops at the first column of that name. *)
Fixpoint require_column_loop (required : storage_required_column_t) (l : list column_info)
  : outcome unit :=
  match l with
  | [] => Err SM_ERR_STORAGE
  | c :: l' =>
      if bool_decide (strcmp (ci_name c) (rc_name required) = Eq) then
        if negb (stricmp_eq (ci_type c) (rc_type required))
           || (rc_not_null required && negb (ci_not_null c))
           || (rc_primary_key required && negb (ci_primary_key c))
        then Err SM_ERR_STORAGE else Ok ()
      else require_column_loop required l'
  end.

Definition storage_require_column (cat : catalogue) (table_name : bytes)
    (required : storage_required_column_t) : outcome unit :=
  require_column_loop required (cat_columns cat table_name).

Fixpoint storage_require_columns (cat : catalogue) (table_name : bytes)
    (columns : list storage_required_column_t) : outcome unit :=
  match columns with
  | [] => Ok ()
  | c :: cs => storage_require_column cat table_name c ;; storage_require_columns cat table_name cs
  end.

Fixpoint require_index_loop (index_name : bytes) (unique partial : bool) (l : list index_info)
  : outcome unit :=
  match l with
  | [] => Err SM_ERR_STORAGE
  | i :: l' =>
      if bool_decide (strcmp (ix_name i) index_name = Eq) then
        check (eqb (ix_unique i) unique && eqb (ix_partial i) partial) SM_ERR_STORAGE
      else require_index_loop index_name unique partial l'
  end.

Definition storage_require_index (cat : catalogue) (table_name index_name : bytes)
    (unique partial : bool) : outcome unit :=
  require_index_loop index_name unique partial (cat_indexes cat table_name).

Definition required_tables : list bytes :=
  [str "secrets"; str "audit_log"; str "metadata"; str "auth_failures"].

Definition col (name type : string) (not_null primary_key : bool) : storage_required_column_t :=
  RequiredColumn (str name) (str type) not_null primary_key.

Definition secrets_columns : list storage_required_column_t :=
  [col "id" "TEXT" false true; col "name" "TEXT" true false;
   col "name_nonce" "BLOB" true false; col "encrypted_name" "BLOB" true false;
   col "version" "INTEGER" true false; col "algorithm" "TEXT" true false;
   col "ciphertext" "BLOB" true false; col "encrypted_dek" "BLOB" true false;
   col "nonce" "BLOB" true false; col "dek_nonce" "BLOB" true false;
   col "key_commitment" "BLOB" true false; col "nonce_counter" "INTEGER" true false;
   col "created_at" "TEXT" true false; col "updated_at" "TEXT" true false;
   col "expires_at" "TEXT" false false;
   col "rotation_interval_seconds" "INTEGER" false false;
   col "tags" "TEXT" false false; col "is_archived" "INTEGER" true false].

Definition audit_columns : list storage_required_column_t :=
  [col "entry_id" "INTEGER" false true; col "timestamp" "TEXT" true false;
   col "action" "TEXT" true false; col "actor" "TEXT" true false;
   col "target" "TEXT" true false; col "target_version" "INTEGER" false false;
   col "result" "TEXT" true false; col "prev_hash" "BLOB" true false;
   col "entry_hash" "BLOB" true false; col "hmac_signature" "BLOB" true false].

Definition metadata_columns : list storage_required_column_t :=
  [col "key" "TEXT" false true; col "value" "BLOB" true false].

Definition auth_failure_columns : list storage_required_column_t :=
  [col "event_id" "INTEGER" false true; col "timestamp" "TEXT" true false;
   col "result" "TEXT" true false].

Fixpoint require_tables (cat : catalogue) (l : list bytes) : outcome unit :=
  match l with
  | [] => Ok ()
  | t :: l' => storage_require_table cat t ;; require_tables cat l'
  end.

Definition storage_verify_schema (cat : catalogue) : outcome unit :=
  require_tables cat required_tables ;;
  storage_require_columns cat (str "secrets") secrets_columns ;;
  storage_require_columns cat (str "audit_log") audit_columns ;;
  storage_require_columns cat (str "metadata") metadata_columns ;;
  storage_require_columns cat (str "auth_failures") auth_failure_columns ;;
  storage_require_index cat (str "secrets") (str "idx_secrets_name_active") true true.

(** ** Specification of the check *)

Definition column_satisfies (required : storage_required_column_t) (c : column_info) : Prop :=
  stricmp_eq (ci_type c) (rc_type required) = true ∧
  (rc_not_null required = true → ci_not_null c = true) ∧
  (rc_primary_key required = true → ci_primary_key c = true).

(** The first element of a given name. *)
Definition first_named {A} (name : A → bytes) (n : bytes) (l : list A) (x : A) : Prop :=
  ∃ l1 l2, l = l1 ++ x :: l2 ∧ name x = n ∧ Forall (λ y, name y ≠ n) l1.

Lemma first_named_cons {A} (name : A → bytes) n y l x :
  first_named name n (y :: l) x ↔ (name y = n ∧ x = y) ∨ (name y ≠ n ∧ first_named name n l x).
Proof.
  split.
  - intros ([|z l1] & l2 & [= -> ->] & Hx & H1); [by left|]. right.
    apply Forall_cons in H1 as [Hz H1]. split; [done|]. by exists l1, l2.
  - intros [[Hy ->]|[Hy (l1 & l2 & -> & Hx & H1)]]; [by exists [], l|].
    exists (y :: l1), l2. split_and!; [done..|by constructor].
Qed.

Lemma first_named_nil {A} (name : A → bytes) n x : ¬ first_named name n [] x.
Proof. intros ([|z l1] & l2 & E & _); discriminate E. Qed.

Lemma strcmp_eq_iff a b : strcmp a b = Eq ↔ a = b.
Proof. split; [apply strcmp_eq|intros ->; apply strcmp_refl]. Qed.

Lemma require_column_spec cat t required :
  storage_require_column cat t required = Ok () ↔
  ∃ c, first_named ci_name (rc_name required) (cat_columns cat t) c ∧ column_satisfies required c.
Proof.
  unfold storage_require_column. induction (cat_columns cat t) as [|c l IH]; simpl.
  - split; [done|]. intros (c & H & _). by apply first_named_nil in H.
  - setoid_rewrite first_named_cons. case_bool_decide as E; rewrite strcmp_eq_iff in E.
    + transitivity (column_satisfies required c).
      * unfold column_satisfies.
        destruct (stricmp_eq _ _), (rc_not_null required), (ci_not_null c),
          (rc_primary_key required), (ci_primary_key c); simpl; intuition congruence.
      * split; [eauto|]. intros (c' & [[_ ->]|[Hn _]] & Hc); done.
    + rewrite IH. split; [intros (c' & H1 & H2); eauto|].
      intros (c' & [[Hn _]|[_ Hf]] & Hc); [done|eauto].
Qed.

Lemma require_columns_spec cat t l :
  storage_require_columns cat t l = Ok () ↔
  Forall (λ required, ∃ c, first_named ci_name (rc_name required) (cat_columns cat t) c ∧
                           column_satisfies required c) l.
Proof.
  induction l as [|c l IH]; simpl; [split; auto|].
  rewrite outcome_bind_ok, Forall_cons, <- IH, <- require_column_spec.
  split; [intros ([] & H1 & H2); tauto|]. intros [H1 H2]. exists (). tauto.
Qed.

Lemma require_index_spec cat t n u p :
  storage_require_index cat t n u p = Ok () ↔
  ∃ i, first_named ix_name n (cat_indexes cat t) i ∧ ix_unique i = u ∧ ix_partial i = p.
Proof.
  unfold storage_require_index. induction (cat_indexes cat t) as [|i l IH]; simpl.
  - split; [done|]. intros (c & H & _). by apply first_named_nil in H.
  - setoid_rewrite first_named_cons. case_bool_decide as E; rewrite strcmp_eq_iff in E.
    + rewrite check_ok, andb_true_iff, !eqb_true_iff. split; [eauto 8|].
      intros (c' & [[_ ->]|[Hn _]] & Hc); done.
    + rewrite IH. split; [intros (c' & H1 & H2); eauto|].
      intros (c' & [[Hn _]|[_ Hf]] & Hc); [done|eauto].
Qed.

Lemma require_tables_spec cat l :
  require_tables cat l = Ok () ↔ Forall (λ t, t ∈ cat_tables cat) l.
Proof.
  induction l as [|t l IH]; simpl; [split; auto|].
  rewrite outcome_bind_ok, Forall_cons, <- IH. unfold storage_require_table.
  split; [intros ([] & H1%check_ok%bool_decide_eq_true & H2); tauto|].
  intros [H1 H2]. exists (). rewrite check_ok, bool_decide_eq_true. tauto.
Qed.

Lemma verify_schema_error cat st : storage_verify_schema cat = Err st → st = SM_ERR_STORAGE.
Proof.
  assert (∀ t r s, storage_require_column cat t r = Err s → s = SM_ERR_STORAGE) as Hc.
  { intros t r s. unfold storage_require_column.
    induction (cat_columns cat t) as [|c l IH]; simpl; [congruence|].
    repeat case_match; first [exact IH|congruence]. }
  assert (∀ t l s, storage_require_columns cat t l = Err s → s = SM_ERR_STORAGE) as Hcs.
  { intros t l s. induction l as [|r l IH]; simpl; [done|].
    destruct (storage_require_column cat t r) eqn:E; simpl; [done|].
    intros [= <-]. by eapply Hc. }
  assert (∀ l s, require_tables cat l = Err s → s = SM_ERR_STORAGE) as Ht.
  { intros l s. induction l as [|t l IH]; simpl; [done|]. unfold storage_require_table, check.
    case_bool_decide; simpl; [done|congruence]. }
  assert (∀ t n u p s, storage_require_index cat t n u p = Err s → s = SM_ERR_STORAGE) as Hi.
  { intros t n u p s. unfold storage_require_index.
    induction (cat_indexes cat t) as [|i l IH]; simpl; [congruence|]. unfold check.
    repeat case_match; first [exact IH|congruence]. }
  unfold storage_verify_schema.
  destruct (require_tables cat required_tables) eqn:E; cbn [mbind outcome_bind];
    [|intros [= <-]; by eapply Ht].
  repeat (match goal with |- context [storage_require_columns cat ?t ?l] =>
    destruct (storage_require_columns cat t l) eqn:?; cbn [mbind outcome_bind];
    [|intros [= <-]; by eapply Hcs] end).
  apply Hi.
Qed.

(** [storage_verify_schema] accepts a file exactly when the four tables exist,
    each required column has the declared type and at least the declared
    constraints, and the partial unique index on the active rows is there;
    every refusal is [SM_ERR_STORAGE]. *)
Theorem storage_verify_schema_spec cat :
  (storage_verify_schema cat = Ok () ↔
     Forall (λ t, t ∈ cat_tables cat) required_tables ∧
     Forall (λ '(t, cs), Forall (λ required,
         ∃ c, first_named ci_name (rc_name required) (cat_columns cat t) c ∧
              column_satisfies required c) cs)
       [(str "secrets", secrets_columns); (str "audit_log", audit_columns);
        (str "metadata", metadata_columns); (str "auth_failures", auth_failure_columns)] ∧
     ∃ i, first_named ix_name (str "idx_secrets_name_active") (cat_indexes cat (str "secrets")) i ∧
          ix_unique i = true ∧ ix_partial i = true) ∧
  (∀ s, storage_verify_schema cat = Err s → s = SM_ERR_STORAGE).
Proof.
  split.
  - unfold storage_verify_schema.
    rewrite (outcome_seq_ok (require_tables _ _)).
    do 4 rewrite (outcome_seq_ok (storage_require_columns _ _ _)).
    rewrite !Forall_cons, Forall_nil.
    do 4 rewrite <- require_columns_spec. rewrite <- require_tables_spec, <- require_index_spec.
    tauto.
  - apply verify_schema_error.
Qed.

(** What SQLite reports for the tables of sql/schema.sql. *)
Definition schema_catalogue : catalogue :=
  let info r := ColumnInfo (rc_name r) (rc_type r) (rc_not_null r) (rc_primary_key r) in
  Catalogue required_tables
    (λ t, info <$> (if decide (t = str "secrets") then secrets_columns
                    else if decide (t = str "audit_log") then audit_columns
                    else if decide (t = str "metadata") then metadata_columns
                    else if decide (t = str "auth_failures") then auth_failure_columns
                    else []))
    (λ t, if decide (t = str "secrets")
          then [IndexInfo (str "idx_secrets_name_active") true true;
                IndexInfo (str "idx_secrets_name") false false]
          else []).

Example schema_accepted : storage_verify_schema schema_catalogue = Ok ().
Proof. vm_compute. reflexivity. Qed.
