(* ===== verification/Sqlite.v ===== *)
(** Database files. SQLite is not part of the repository: the content of a
    database file as SQLite reads and writes it is the class [Sqlite], with the
    laws the code relies on; a toy instance runs the examples.

    A database is in its file and in the files that SQLite keeps next to it: the
    rollback journal ([-journal]), and the write-ahead log with its index
    ([-wal], [-shm]). *)

From S2P Require Import Prelude Status Schema Storage.

Definition empty_catalogue : catalogue := Catalogue [] (λ _, []) (λ _, []).

(** One of these files as SQLite finds it or leaves it: not there, a regular
    file with some content, or something it refuses to open (a symbolic link, a
    directory). *)
Inductive sidecar := Absent | Held (content : bytes) | Refused.

Record file_group := FileGroup {
  fg_main : bytes;
  fg_journal : sidecar;
  fg_wal : sidecar;
  fg_shm : sidecar;
}.

Class Sqlite := {
  (** the file of a database with this schema *)
  sqlite3_serialize : catalogue → database → bytes;
  (** what a file with this content holds, [None] if it is no database *)
  sqlite3_image : bytes → option (catalogue * database);
  (** "PRAGMA journal_mode = WAL;": what it leaves in the files, and the database
      that is then open, [None] if it fails. It may write the first page of an
      empty file, mark the file as one with a write-ahead log, play back a
      journal, and make, change or remove each of the other files. *)
  sqlite3_journal_wal : file_group → file_group * option (catalogue * database);
  (** what is left when an error of the system interrupts it *)
  sqlite3_interrupted : Z → file_group → file_group;
}.

(** A new file is an empty database; what was serialised is read as the same
    database with a schema that the check judges the same. A database with no
    journal and no log next to it is opened as what it is, and the file still
    holds it afterwards; no rollback journal remains. *)
Class SqliteLaws (S : Sqlite) : Prop := {
  image_empty : sqlite3_image [] = Some (empty_catalogue, empty_database);
  image_serialize cat db : ∃ cat', sqlite3_image (sqlite3_serialize cat db) = Some (cat', db) ∧
    storage_verify_schema cat' = storage_verify_schema cat;
  serialize_nonempty cat db : sqlite3_serialize cat db ≠ [];
  wal_image content cat db : sqlite3_image content = Some (cat, db) →
    ∃ content' wal shm,
      sqlite3_journal_wal (FileGroup content Absent Absent Absent)
      = (FileGroup content' Absent wal shm, Some (cat, db)) ∧
      sqlite3_image content' = Some (cat, db);
}.

(** * A toy instance

    Self-delimiting encodings of the values a row holds, composed along its
    type. *)

Module ToySqlite.

Class Serial (A : Type) := {
  encode : A → bytes;
  decode : bytes → option (A * bytes);
  decode_encode a rest : decode (encode a ++ rest) = Some (a, rest);
}.

#[export] Program Instance serial_byte : Serial byte := {
  encode b := [b];
  decode l := match l with b :: rest => Some (b, rest) | [] => None end;
}.
Next Obligation. done. Qed.

#[export] Program Instance serial_pair {A B} `{Serial A, Serial B} : Serial (A * B) := {
  encode p := encode p.1 ++ encode p.2;
  decode l := '(a, l) ← decode l; '(b, l) ← decode l; Some ((a, b), l);
}.
Next Obligation.
  intros A B SA SB [a b] rest. cbn. rewrite <- app_assoc, decode_encode. cbn. by rewrite decode_encode.
Qed.

(** A value through another type. *)
Program Definition serial_via {A B} `{Serial B} (f : A → B) (g : B → A) (Hgf : ∀ a, g (f a) = a) : Serial A := {|
  encode a := encode (f a);
  decode l := '(b, l) ← decode l; Some (g b, l);
|}.
Next Obligation. intros A B SB f g Hgf a rest. cbn. rewrite decode_encode. cbn. by rewrite Hgf. Qed.

Fixpoint encode_pos (p : positive) : bytes :=
  match p with xH => [z_byte 2] | xO p => z_byte 0 :: encode_pos p | xI p => z_byte 1 :: encode_pos p end.
Fixpoint decode_pos (l : bytes) : option (positive * bytes) :=
  match l with
  | [] => None
  | b :: l =>
      if (byte_z b =? 2)%Z then Some (xH, l)
      else '(p, l) ← decode_pos l; Some (if (byte_z b =? 0)%Z then xO p else xI p, l)
  end.

#[export] Program Instance serial_pos : Serial positive := { encode := encode_pos; decode := decode_pos }.
Next Obligation.
  intros p rest. cbn. induction p as [p IH|p IH|]; cbn -[z_byte byte_z]; [rewrite IH|rewrite IH|]; done.
Qed.

Definition z_code (z : Z) : positive * positive :=
  match z with Z0 => (1, 1) | Zpos p => (2, p) | Zneg p => (3, p) end%positive.
Definition code_z (c : positive * positive) : Z :=
  match c.1 with xH => Z0 | xO _ => Zpos c.2 | xI _ => Zneg c.2 end.
#[export] Instance serial_z : Serial Z.
Proof. apply (serial_via z_code code_z). by intros []. Defined.

Fixpoint decode_n {A} `{Serial A} (n : nat) (l : bytes) : option (list A * bytes) :=
  match n with
  | O => Some ([], l)
  | S n => '(a, l) ← decode l; '(r, l) ← decode_n n l; Some (a :: r, l)
  end.

#[export] Program Instance serial_list {A} `{Serial A} : Serial (list A) := {
  encode l := encode (Z.of_nat (length l)) ++ concat (encode <$> l);
  decode l := '(n, l) ← decode l; decode_n (Z.to_nat n) l;
}.
Next Obligation.
  intros A SA l rest. cbn -[serial_z]. rewrite <- app_assoc, decode_encode. cbn -[serial_z]. rewrite Nat2Z.id.
  induction l as [|a l IH]; [done|]. cbn -[serial_z]. rewrite <- app_assoc, decode_encode. cbn -[serial_z].
  by rewrite IH.
Qed.

#[export] Instance serial_option {A} `{Serial A} : Serial (option A).
Proof.
  apply (serial_via (λ o : option A, match o with Some a => [a] | None => [] end)
           (λ l, match l with a :: _ => Some a | [] => None end)). by intros [].
Defined.

#[export] Instance serial_map : Serial (gmap bytes bytes).
Proof. exact (serial_via (A := gmap bytes bytes) (B := list (bytes * bytes)) map_to_list list_to_map (list_to_map_to_list (M := gmap bytes))). Defined.

#[export] Instance serial_secret_row : Serial secret_row.
Proof.
  refine (serial_via
    (λ r, ((sr_id r, sr_name r, sr_name_nonce r, sr_encrypted_name r, sr_version r, sr_algorithm r,
            sr_ciphertext r, sr_encrypted_dek r), (sr_nonce r, sr_dek_nonce r, sr_key_commitment r,
            sr_nonce_counter r, sr_created_at r, sr_updated_at r), sr_expires_at r, sr_rotation_interval r,
            sr_is_archived r))
    (λ '((a, b, c, d, e, f, g, h), (i, j, k, l, m, n), o, p, q),
       SecretRow a b c d e f g h i j k l m n o p q) _).
  by intros [].
Defined.

#[export] Instance serial_audit_row : Serial audit_row.
Proof.
  refine (serial_via
    (λ r, (ar_entry_id r, ar_timestamp r, ar_action r, ar_actor r, ar_target r, ar_target_version r,
           ar_result r, ar_prev_hash r, ar_entry_hash r, ar_hmac_signature r))
    (λ '(a, b, c, d, e, f, g, h, i, j), AuditRow a b c d e f g h i j) _).
  by intros [].
Defined.

#[export] Instance serial_database : Serial database.
Proof.
  refine (serial_via (λ d, (t_secrets d, t_audit_log d, t_metadata d, t_auth_failures d))
    (λ '(a, b, c, d), Database a b c d) _).
  by intros [].
Defined.

(** The first byte says whether the schema is that of the vault. *)
Definition toy_serialize (cat : catalogue) (db : database) : bytes :=
  (if is_ok (storage_verify_schema cat) then z_byte 1 else z_byte 0) :: encode db.

Definition toy_image (l : bytes) : option (catalogue * database) :=
  match l with
  | [] => Some (empty_catalogue, empty_database)
  | b :: l' =>
      match decode l' with
      | Some (db, []) => Some (if (byte_z b =? 1)%Z then schema_catalogue else empty_catalogue, db)
      | _ => None
      end
  end.

(** An empty file is written, and an empty log and index are made, unless a
    file that cannot be opened is in the way. *)
Definition toy_journal_wal (g : file_group) : file_group * option (catalogue * database) :=
  match g with
  | FileGroup main (Absent | Held _) (Absent | Held _) (Absent | Held _) =>
      match toy_image main with
      | Some image =>
          (FileGroup (match main with [] => toy_serialize empty_catalogue empty_database | _ => main end)
             Absent (Held []) (Held []), Some image)
      | None => (g, None)
      end
  | _ => (g, None)
  end.

#[export] Instance sqlite : Sqlite := {|
  sqlite3_serialize := toy_serialize;
  sqlite3_image := toy_image;
  sqlite3_journal_wal := toy_journal_wal;
  sqlite3_interrupted _ g := g;
|}.

Lemma toy_serialized cat db :
  toy_image (toy_serialize cat db)
  = Some (if is_ok (storage_verify_schema cat) then schema_catalogue else empty_catalogue, db).
Proof.
  unfold toy_image, toy_serialize. rewrite <- (app_nil_r (encode db)), decode_encode.
  by destruct (is_ok (storage_verify_schema cat)).
Qed.

#[export] Instance laws : SqliteLaws sqlite.
Proof.
  split; [done| |done|].
  - intros cat db. cbn [sqlite3_image sqlite sqlite3_serialize]. rewrite toy_serialized.
    eexists. split; [reflexivity|].
    destruct (storage_verify_schema cat) as [[]|s] eqn:E; cbn [is_ok].
    + exact schema_accepted.
    + apply verify_schema_error in E as ->. reflexivity.
  - intros content cat db H. cbn [sqlite3_image sqlite3_journal_wal sqlite toy_journal_wal] in *. rewrite H.
    eexists _, _, _. split; [reflexivity|]. destruct content as [|b content]; [|exact H].
    rewrite toy_serialized. injection H as <- <-. by destruct (is_ok _) eqn:E.
Qed.

End ToySqlite.
