(* ===== verification/StorageFile.v ===== *)
(** Opening and closing the vault file (src/src/storage.c): the creation and
    the permissions of the file and its sidecars, the schema, and what a
    session leaves in the file.

    A connection appears in the model with the first statement run on it,
    "PRAGMA journal_mode = WAL;": a handle on a file that SQLite cannot read as
    a database is never used by the code but to close it. What this statement
    does to the vault file and its three sidecars is [sqlite3_journal_wal] of
    [Sqlite]. What later statements write into the log is not followed: the
    file has its new content when the connection is closed, which also removes
    the log and its index. *)

From S2P Require Import Prelude Status Schema State Files Storage Sqlite.

(** * The schema of sql/schema.sql

    The statements of [STORAGE_EMBEDDED_SCHEMA]. *)

Inductive ddl :=
  | Pragma
  | CreateTable (name : bytes) (columns : list storage_required_column_t)
  | CreateIndex (name table : bytes) (columns : list bytes) (active_unique : bool).

Definition STORAGE_EMBEDDED_SCHEMA : list ddl :=
  [Pragma; Pragma;
   CreateTable (str "secrets") secrets_columns;
   CreateTable (str "audit_log") audit_columns;
   CreateTable (str "metadata") metadata_columns;
   CreateTable (str "auth_failures") auth_failure_columns;
   CreateIndex (str "idx_secrets_name") (str "secrets") [str "name"] false;
   CreateIndex (str "idx_secrets_name_active") (str "secrets") [str "name"; str "is_archived"] true;
   CreateIndex (str "idx_audit_log_timestamp") (str "audit_log") [str "timestamp"] false;
   CreateIndex (str "idx_audit_log_target") (str "audit_log") [str "target"; str "target_version"] false;
   CreateIndex (str "idx_auth_failures_timestamp") (str "auth_failures") [str "timestamp"] false].

(** Names of tables, indexes and columns are compared without case. *)
Definition name_in (n : bytes) (l : list bytes) : bool := existsb (stricmp_eq n) l.

Definition index_names (cat : catalogue) : list bytes :=
  cat_tables cat ≫= λ t, ix_name <$> cat_indexes cat t.

Definition add_table (name : bytes) (columns : list storage_required_column_t) (cat : catalogue) : catalogue :=
  Catalogue (cat_tables cat ++ [name])
    (λ t, if stricmp_eq t name
          then (λ r, ColumnInfo (rc_name r) (rc_type r) (rc_not_null r) (rc_primary_key r)) <$> columns
          else cat_columns cat t)
    (λ t, if stricmp_eq t name then [] else cat_indexes cat t).

Definition add_index (i : index_info) (table : bytes) (cat : catalogue) : catalogue :=
  Catalogue (cat_tables cat) (cat_columns cat)
    (λ t, if stricmp_eq t table then i :: cat_indexes cat t else cat_indexes cat t).

(** Two rows that the index of the active rows would not take. *)
Fixpoint active_duplicates (t : list secret_row) : bool :=
  match t with
  | [] => false
  | r :: t' =>
      existsb (λ q, bool_decide (sr_name r = sr_name q ∧ sr_is_archived r = 0%Z ∧ sr_is_archived q = 0%Z)) t'
      || active_duplicates t'
  end.

(** [CREATE ... IF NOT EXISTS]: nothing when the name is there. A table may
    not have the name of an index, nor an index that of a table. *)
Definition run_ddl (s : ddl) (db : database) (cat : catalogue) : outcome catalogue :=
  match s with
  | Pragma => Ok cat
  | CreateTable name columns =>
      if name_in name (cat_tables cat) then Ok cat
      else check (negb (name_in name (index_names cat))) SM_ERR_STORAGE ;; Ok (add_table name columns cat)
  | CreateIndex name table columns active_unique =>
      if name_in name (index_names cat) then Ok cat
      else
        check (negb (name_in name (cat_tables cat)) && name_in table (cat_tables cat)
               && forallb (λ c, name_in c (ci_name <$> cat_columns cat table)) columns
               && negb (active_unique && active_duplicates (t_secrets db))) SM_ERR_STORAGE ;;
        Ok (add_index (IndexInfo name active_unique active_unique) table cat)
  end.

Definition set_database (df : database_file) : M unit := λ e w,
  (Ok (), set_disk (Disk (d_files (w_disk w)) df) w).

(** [storage_execute_sql] of such a statement. *)
Definition execute_ddl (s : ddl) : M unit :=
  db ← sql_query (λ db, db);
  df ← database_of;
  cat ← lift (run_ddl s db (df_catalogue df));
  set_database (DatabaseFile (df_entry df) cat true).

Definition execute_schema : M unit := for_each execute_ddl STORAGE_EMBEDDED_SCHEMA.

(** * The vault file and its sidecars *)

Definition journal (p : bytes) : bytes := p ++ str "-journal".
Definition wal (p : bytes) : bytes := p ++ str "-wal".
Definition shm (p : bytes) : bytes := p ++ str "-shm".
Definition sidecars (p : bytes) : list bytes := [journal p; wal p; shm p].
Definition vault_files (p : bytes) : list bytes := p :: sidecars p.

(** SQLite opens all of them with O_NOFOLLOW. *)
Definition sidecar_of (o : option file) : sidecar :=
  match o with
  | None => Absent
  | Some (File Regular content _ _) => Held content
  | Some _ => Refused
  end.

(** What SQLite leaves at the name of a sidecar: one that it makes takes the
    permissions of the database file, and so does an empty one of the same
    owner; what it cannot open stays. *)
Definition sidecar_after (mode : Z) (s : sidecar) (o : option file) : option file :=
  match o, s with
  | None, Held content => Some (File Regular content true mode)
  | Some (File Regular old owned m), Held content =>
      Some (File Regular content owned (if bool_decide (old = []) && owned then mode else m))
  | Some (File Regular _ _ _), Absent => None
  | _, _ => o
  end.

Definition put_sidecar (mode : Z) (q : bytes) (s : sidecar) : gmap bytes file → gmap bytes file :=
  partial_alter (sidecar_after mode s) q.

Definition group_of (fs : gmap bytes file) (p content : bytes) : file_group :=
  FileGroup content (sidecar_of (fs !! journal p)) (sidecar_of (fs !! wal p)) (sidecar_of (fs !! shm p)).

Definition put_group (p : bytes) (mode : Z) (g : file_group) (fs : gmap bytes file) : gmap bytes file :=
  put_sidecar mode (shm p) (fg_shm g)
    (put_sidecar mode (wal p) (fg_wal g)
      (put_sidecar mode (journal p) (fg_journal g)
        (alter (set_content (fg_main g)) p fs))).

(** There were sidecars, so the file alone may not be the database. *)
Definition has_leftovers (g : file_group) : bool :=
  match g with FileGroup _ Absent Absent Absent => false | _ => true end.

Section StorageFile.
Context {PX : Posix} {SQ : Sqlite}.

(** What a session leaves in the file: its bytes when it changed nothing. *)
Definition stored_content (content : bytes) (df : database_file) (db : database) : bytes :=
  let written := sqlite3_serialize (df_catalogue df) db in
  match sqlite3_image content with
  | Some (_, db0) => if df_changed df || negb (bool_decide (db = db0)) then written else content
  | None => written
  end.

Definition storage_close : M unit :=
  w ← get_world;
  match w_conn w with
  | None => mret ()
  | Some c =>
      lib_call SM_ERR_STORAGE ;;
      df ← database_of;
      alter_file (λ f, set_content (stored_content (f_content f) df (conn_committed c)) f) (df_entry df) ;;
      fs ← get_files;
      put_files (put_sidecar 0 (shm (df_entry df)) Absent (put_sidecar 0 (wal (df_entry df)) Absent fs)) ;;
      w ← get_world;
      put_world (set_conn None w)
  end.

Definition storage_chmod_owner_only (path : bytes) (allow_missing : bool) : M unit :=
  guard_or (negb (bool_decide (c_str path = []))) SM_ERR_INVALID_ARGUMENT ;;
  fd ← posix_open_errno path false false 0;
  match fd with
  | None => guard_or allow_missing SM_ERR_STORAGE
  | Some entry => and_close (fchmod entry S_IRUSR_IWUSR)
  end.

Definition storage_chmod_sidecar (db_path suffix : bytes) : M unit :=
  guard_or (Z.of_nat (length (c_str db_path)) <=? SIZE_MAX - Z.of_nat (length suffix) - 1)%Z
    SM_ERR_INVALID_ARGUMENT ;;
  lib_call SM_ERR_STORAGE ;;
  storage_chmod_owner_only (c_str db_path ++ suffix) true.

Definition storage_chmod_wal_sidecars (db_path : bytes) : M unit :=
  storage_chmod_sidecar db_path (str "-wal") ;;
  storage_chmod_sidecar db_path (str "-shm").

(** [open(path, O_RDWR | O_NOFOLLOW ...)] also refuses a directory. *)
Definition posix_open_rdwr (path : bytes) (o_creat : bool) (mode : Z) : M bytes :=
  entry ← posix_open path o_creat false mode;
  fs ← get_files;
  guard_or (match f_kind <$> fs !! entry with Some Directory => false | _ => true end) SM_ERR_STORAGE ;;
  mret entry.

Definition storage_open_owner_only_fd (db_path : bytes) (create : bool) : M unit :=
  guard_or (negb (bool_decide (c_str db_path = []))) SM_ERR_INVALID_ARGUMENT ;;
  entry ← posix_open_rdwr db_path create S_IRUSR_IWUSR;
  and_close (fchmod entry S_IRUSR_IWUSR).

Definition storage_resolve_db_path (db_path : bytes) : M bytes :=
  guard_or (negb (bool_decide (c_str db_path = []))) SM_ERR_INVALID_ARGUMENT ;;
  lib_call SM_ERR_STORAGE ;;
  fs ← get_files;
  lift (from_option_or SM_ERR_STORAGE (follow_path fs db_path)).

(** [sqlite3_open_v2(..., SQLITE_OPEN_NOFOLLOW)]: a handle, and the file with
    mode 0644 if it may make one. *)
Definition sqlite3_open_v2 (resolved : bytes) (create : bool) : M unit :=
  lib_call SM_ERR_STORAGE ;;
  fs ← get_files;
  match fs !! resolved with
  | Some f => guard_or (match f_kind f with Regular => true | _ => false end) SM_ERR_STORAGE
  | None =>
      guard_or create SM_ERR_STORAGE ;;
      put_files (<[resolved := File Regular [] true (Z.land S_PUBLIC_KEY_MODE (Z.lnot umask))]> fs)
  end.

(** "PRAGMA journal_mode = WAL;", the first statement, which reads the file. *)
Definition journal_mode_wal (resolved : bytes) : M unit :=
  fs ← get_files;
  match fs !! resolved with
  | Some (File Regular content _ mode) =>
      let group := group_of fs resolved content in
      let mode := Z.land mode S_IRWXA in
      r ← try (lib_call SM_ERR_STORAGE);
      match r with
      | Err s =>
          n ← randombytes_uniform SIZE_MAX;
          put_files (put_group resolved mode (sqlite3_interrupted n group) fs) ;;
          throw s
      | Ok _ =>
          let '(group', opened) := sqlite3_journal_wal group in
          put_files (put_group resolved mode group' fs) ;;
          '(cat, db) ← lift (from_option_or SM_ERR_STORAGE opened);
          set_database (DatabaseFile resolved cat (has_leftovers group)) ;;
          w ← get_world;
          put_world (set_conn (Some (Connection db db false)) w)
      end
  | _ => throw SM_ERR_STORAGE
  end.

Definition verify_schema : M unit :=
  lib_call SM_ERR_STORAGE ;;
  df ← database_of;
  lift (storage_verify_schema (df_catalogue df)).

(** Any failure closes the handle. *)
Definition or_close (m : M unit) : M unit :=
  r ← try m;
  match r with
  | Ok _ => mret ()
  | Err s => try storage_close ;; throw s
  end.

Definition no_handle : M unit :=
  w ← get_world; guard_or (bool_decide (w_conn w = None)) SM_ERR_STORAGE.

Definition storage_init (db_path : bytes) : M unit :=
  guard_or (negb (bool_decide (c_str db_path = []))) SM_ERR_INVALID_ARGUMENT ;;
  no_handle ;;
  storage_open_owner_only_fd db_path true ;;
  resolved_path ← storage_resolve_db_path db_path;
  or_close
    (sqlite3_open_v2 resolved_path true ;;
     journal_mode_wal resolved_path ;;
     storage_chmod_wal_sidecars resolved_path ;;
     execute_schema ;;
     storage_chmod_wal_sidecars resolved_path ;;
     execute_schema ;;
     verify_schema).

Definition storage_open (db_path : bytes) : M unit :=
  guard_or (negb (bool_decide (c_str db_path = []))) SM_ERR_INVALID_ARGUMENT ;;
  no_handle ;;
  storage_open_owner_only_fd db_path false ;;
  resolved_path ← storage_resolve_db_path db_path;
  or_close
    (sqlite3_open_v2 resolved_path false ;;
     journal_mode_wal resolved_path ;;
     storage_chmod_wal_sidecars resolved_path ;;
     verify_schema).

Definition storage_read_file (path : bytes) : M bytes :=
  fp ← fopen_rb path;
  and_close
    (lib_call SM_ERR_STORAGE ;;
     lib_call SM_ERR_STORAGE ;;
     lib_call SM_ERR_STORAGE ;;
     lib_call SM_ERR_STORAGE ;;
     content ← fcontent fp;
     lib_call SM_ERR_STORAGE ;;
     mret content).

(** Running the text of a file: what SQLite makes of its statements, up to the
    first that fails, is the argument [run_text]. *)
Definition storage_init_schema (run_text : bytes → catalogue → database → outcome unit * (catalogue * database))
    (schema_path : bytes) : M unit :=
  schema ← storage_read_file schema_path;
  require_db ;;
  lib_call SM_ERR_STORAGE ;;
  df ← database_of;
  w ← get_world;
  match w_conn w with
  | None => mret ()
  | Some c =>
      let '(r, (cat, db)) := run_text (c_str schema) (df_catalogue df) (conn_cur c) in
      set_database (DatabaseFile (df_entry df) cat true) ;;
      w ← get_world;
      put_world (set_conn (Some (Connection db (if conn_in_tx c then conn_committed c else db) (conn_in_tx c))) w) ;;
      lift r
  end.

End StorageFile.

(** * Sessions on a file *)

(** Nothing is next to the file at [p]. *)
Definition no_sidecars (p : bytes) (fs : gmap bytes file) : Prop :=
  fs !! journal p = None ∧ fs !! wal p = None ∧ fs !! shm p = None.

(** What is next to it while it is open: a log and its index. *)
Definition plain (o : option file) : Prop := match o with Some f => f_kind f = Regular | None => True end.
Definition log_only (p : bytes) (fs : gmap bytes file) : Prop :=
  fs !! journal p = None ∧ plain (fs !! wal p) ∧ plain (fs !! shm p).

(** Two of the files of a vault are not the same. *)
Ltac files_ne :=
  unfold journal, wal, shm;
  first [by intros ?%app_inv_head|intros E%(f_equal length); rewrite ?length_app in E; cbn in E; lia].

Section Lemmas.
Context {PX : Posix} {PL : PosixLaws PX} {SQ : Sqlite} {SL : SqliteLaws SQ}.

(** A world whose connection works on the file of entry [p], which has the
    schema of the vault. *)
Definition database_open (p : bytes) (w : world) : Prop :=
  ∃ f cat ch, d_files (w_disk w) !! p = Some f ∧ f_kind f = Regular ∧
    d_database (w_disk w) = DatabaseFile p cat ch ∧ storage_verify_schema cat = Ok () ∧
    (ch = false → ∃ cat0 db0, sqlite3_image (f_content f) = Some (cat0, db0) ∧ storage_verify_schema cat0 = Ok ()).

(** The file at [p] is a database of the vault with this content. *)
Definition holds_database (p : bytes) (db : database) (fs : gmap bytes file) : Prop :=
  ∃ f cat, fs !! p = Some f ∧ f_kind f = Regular ∧ sqlite3_image (f_content f) = Some (cat, db) ∧
    storage_verify_schema cat = Ok ().

(** ** The entries of the vault file *)

Lemma lookup_sidecar mode q s fs : put_sidecar mode q s fs !! q = sidecar_after mode s (fs !! q).
Proof. apply lookup_partial_alter_eq. Qed.
Lemma lookup_sidecar_ne mode q s fs q' : q' ≠ q → put_sidecar mode q s fs !! q' = fs !! q'.
Proof. intros H. by apply lookup_partial_alter_ne. Qed.

(** The entry of each of the files after a group is put. *)
Lemma lookup_group p mode g fs :
  put_group p mode g fs !! p = set_content (fg_main g) <$> fs !! p ∧
  put_group p mode g fs !! journal p = sidecar_after mode (fg_journal g) (fs !! journal p) ∧
  put_group p mode g fs !! wal p = sidecar_after mode (fg_wal g) (fs !! wal p) ∧
  put_group p mode g fs !! shm p = sidecar_after mode (fg_shm g) (fs !! shm p) ∧
  ∀ q, q ∉ vault_files p → put_group p mode g fs !! q = fs !! q.
Proof.
  unfold put_group. split_and!.
  - rewrite !lookup_sidecar_ne by files_ne. apply lookup_alter_eq.
  - rewrite !lookup_sidecar_ne by files_ne. rewrite lookup_sidecar. by rewrite lookup_alter_ne by files_ne.
  - rewrite lookup_sidecar_ne by files_ne. rewrite lookup_sidecar. rewrite lookup_sidecar_ne by files_ne.
    by rewrite lookup_alter_ne by files_ne.
  - rewrite lookup_sidecar. rewrite !lookup_sidecar_ne by files_ne. by rewrite lookup_alter_ne by files_ne.
  - intros q Hq. unfold vault_files, sidecars in Hq. rewrite !not_elem_of_cons in Hq.
    destruct Hq as (H1 & H2 & H3 & H4 & _). rewrite !lookup_sidecar_ne by done. by rewrite lookup_alter_ne.
Qed.

Lemma group_alone fs p content : no_sidecars p fs → group_of fs p content = FileGroup content Absent Absent Absent.
Proof. intros (Hj & Hw & Hs). unfold group_of. by rewrite Hj, Hw, Hs. Qed.

Lemma no_sidecars_insert p f fs : no_sidecars p fs → no_sidecars p (<[p := f]> fs).
Proof. intros (Hj & Hw & Hs). unfold no_sidecars. by rewrite !lookup_insert_ne by files_ne. Qed.

Lemma removed_plain mode o : plain o → sidecar_after mode Absent o = None.
Proof. destruct o as [[k content owned m]|]; [|done]. cbn. by intros ->. Qed.
Lemma made_plain mode s : plain (sidecar_after mode s None).
Proof. by destruct s. Qed.

(** Closing leaves what was committed, and no connection. *)
Lemma close_ok p c e w u w' :
  storage_close e w = (Ok u, w') → database_open p w → w_conn w = Some c →
  holds_database p (conn_committed c) (d_files (w_disk w')) ∧ w_conn w' = None ∧
  w_subkeys w' = w_subkeys w ∧ w_unlocked w' = w_unlocked w ∧
  (log_only p (d_files (w_disk w)) → no_sidecars p (d_files (w_disk w'))) ∧
  (∀ q, q ∉ vault_files p → d_files (w_disk w') !! q = d_files (w_disk w) !! q).
Proof.
  intros H (f & cat & ch & Hf & Hk & Hd & Hv & Hch) Hc. unfold storage_close, mbind at 1, M_bind at 1, get_world at 1 in H.
  rewrite Hc in H. apply bind_ok in H as (? & ? & [_ ->]%lib_call_ok & H).
  unfold mbind, M_bind, database_of, get_world, get_files, put_files, put_world in H. rewrite alter_file_run in H.
  cbn [called set_disk set_conn w_disk w_conn w_subkeys w_unlocked d_files d_database] in H. rewrite Hd in H.
  injection H as _ <-. cbn [set_conn set_disk called w_disk w_conn w_subkeys w_unlocked d_files df_entry].
  split_and!; [|done..| |].
  - destruct (image_serialize cat (conn_committed c)) as (cat' & E' & Ev). rewrite Hv in Ev.
    assert (∃ cat1, sqlite3_image (stored_content (f_content f) (DatabaseFile p cat ch) (conn_committed c))
              = Some (cat1, conn_committed c) ∧ storage_verify_schema cat1 = Ok ()) as (cat1 & E1 & V1).
    { unfold stored_content. cbn [df_catalogue df_changed].
      destruct (sqlite3_image (f_content f)) as [[cat0 db0]|] eqn:E0; [|by exists cat'].
      destruct ch; cbn [orb]; [by exists cat'|]. destruct (Hch eq_refl) as (? & ? & E & V0). injection E as <- <-.
      case_bool_decide as Edb; cbn [negb]; [subst; by exists cat0|by exists cat']. }
    eexists _, cat1. rewrite !lookup_sidecar_ne by files_ne. rewrite lookup_alter_eq, Hf. by split_and!.
  - intros (Hj & Hw & Hs). split_and!.
    + rewrite !lookup_sidecar_ne by files_ne. by rewrite lookup_alter_ne by files_ne.
    + rewrite lookup_sidecar_ne by files_ne. rewrite lookup_sidecar, lookup_alter_ne by files_ne. by apply removed_plain.
    + rewrite lookup_sidecar, lookup_sidecar_ne by files_ne. rewrite lookup_alter_ne by files_ne. by apply removed_plain.
  - intros q Hq. unfold vault_files, sidecars in Hq. rewrite !not_elem_of_cons in Hq.
    destruct Hq as (H1 & H2 & H3 & H4 & _). rewrite !lookup_sidecar_ne by done. by rewrite lookup_alter_ne.
Qed.

(** ** Making files private *)

Definition symlink (f : file) : bool := match f_kind f with Symlink _ => true | _ => false end.

(** What may have happened to an entry: it is as before, or it is one of [ps],
    no symbolic link, and was made private. *)
Definition entry_tightened (ps : list bytes) (q : bytes) (before after : option file) : Prop :=
  match before, after with
  | None, None => True
  | Some f, Some f' => f' = f ∨ (q ∈ ps ∧ symlink f = false ∧ f' = set_mode S_IRUSR_IWUSR f)
  | _, _ => False
  end.

(** Nothing changed but that some of [ps] were made private. *)
Definition tightened (ps : list bytes) (w w' : world) : Prop :=
  w_conn w' = w_conn w ∧ w_subkeys w' = w_subkeys w ∧ w_unlocked w' = w_unlocked w ∧
  d_database (w_disk w') = d_database (w_disk w) ∧
  ∀ q, entry_tightened ps q (d_files (w_disk w) !! q) (d_files (w_disk w') !! q).

Lemma entry_tightened_refl ps q o : entry_tightened ps q o o.
Proof. destruct o; [by left|done]. Qed.

#[export] Instance tightened_preorder ps : PreOrder (tightened ps).
Proof.
  split; [intros w; split_and!; try done; intros q; apply entry_tightened_refl|].
  intros a b c (A1 & A2 & A3 & A4 & H1) (B1 & B2 & B3 & B4 & H2). split_and!; [congruence..|].
  intros q. specialize (H1 q). specialize (H2 q).
  destruct (_ !! q) as [f|], (_ !! q) as [f'|], (_ !! q) as [f''|]; try done. cbn in *.
  destruct H1 as [->|(Hq & Hs & ->)]; [exact H2|]. destruct H2 as [->|(_ & _ & ->)]; right; by split_and!.
Qed.

Lemma same_state_tightened ps w w' : same_state w w' → tightened ps w w'.
Proof. intros (?&?&?&E). split_and!; try congruence. intros q. rewrite E. apply entry_tightened_refl. Qed.
#[export] Instance keeps_tightened {A} ps (m : M A) : Keeps same_state m → Keeps (tightened ps) m | 10.
Proof. intros H e w. by apply same_state_tightened. Qed.

Lemma wrote_tightened ps p f w w' :
  wrote p (set_mode S_IRUSR_IWUSR f) w w' → d_files (w_disk w) !! p = Some f → p ∈ ps → symlink f = false →
  tightened ps w w'.
Proof.
  intros (?&?&?&?&E) Hf Hp Hs. split_and!; [done..|]. intros q. rewrite E. destruct (decide (q = p)) as [->|Hq].
  - rewrite lookup_insert_eq, Hf. right. by split_and!.
  - rewrite lookup_insert_ne by done. apply entry_tightened_refl.
Qed.

Lemma tightened_entry ps w w' q f :
  tightened ps w w' → d_files (w_disk w) !! q = Some f →
  ∃ f', d_files (w_disk w') !! q = Some f' ∧ (f' = f ∨ f' = set_mode S_IRUSR_IWUSR f).
Proof.
  intros (_ & _ & _ & _ & V) Hf. specialize (V q). rewrite Hf in V.
  destruct (d_files (w_disk w') !! q) as [f'|]; [|done]. exists f'. split; [done|]. cbn in V. tauto.
Qed.
Lemma tightened_same ps w w' q f :
  tightened ps w w' → d_files (w_disk w) !! q = Some f →
  ∃ f', d_files (w_disk w') !! q = Some f' ∧ f_kind f' = f_kind f ∧ f_content f' = f_content f.
Proof. intros V Hf. destruct (tightened_entry _ _ _ _ _ V Hf) as (f' & Hf' & [-> | ->]); by eexists. Qed.
Lemma tightened_absent ps w w' q :
  tightened ps w w' → d_files (w_disk w) !! q = None → d_files (w_disk w') !! q = None.
Proof.
  intros (_ & _ & _ & _ & V) Hn. specialize (V q). rewrite Hn in V. by destruct (d_files (w_disk w') !! q).
Qed.
Lemma tightened_other ps w w' q :
  tightened ps w w' → q ∉ ps → d_files (w_disk w') !! q = d_files (w_disk w) !! q.
Proof.
  intros (_ & _ & _ & _ & V) Hq. specialize (V q).
  destruct (d_files (w_disk w) !! q) as [f|], (d_files (w_disk w') !! q) as [f'|]; try done.
  destruct V as [->|[? _]]; done.
Qed.
Lemma tightened_plain ps w w' q :
  tightened ps w w' → plain (d_files (w_disk w) !! q) → plain (d_files (w_disk w') !! q).
Proof.
  intros V. destruct (d_files (w_disk w) !! q) as [f|] eqn:Hf.
  - destruct (tightened_same _ _ _ _ _ V Hf) as (f' & -> & E & _). cbn. by rewrite E.
  - by rewrite (tightened_absent _ _ _ _ V Hf).
Qed.
Lemma tightened_log ps p w w' : tightened ps w w' → log_only p (d_files (w_disk w)) → log_only p (d_files (w_disk w')).
Proof. intros V (Hj & Hw & Hs). split_and!; [by eapply tightened_absent|by eapply tightened_plain..]. Qed.
Lemma tightened_no_sidecars ps p w w' :
  tightened ps w w' → no_sidecars p (d_files (w_disk w)) → no_sidecars p (d_files (w_disk w')).
Proof. intros V (Hj & Hw & Hs). by split_and!; eapply tightened_absent. Qed.
Lemma tightened_holds ps p db w w' :
  tightened ps w w' → holds_database p db (d_files (w_disk w)) → holds_database p db (d_files (w_disk w')).
Proof.
  intros V (f & cat & Hf & Hk & Hi & Hv). destruct (tightened_same _ _ _ _ _ V Hf) as (f' & Hf' & Ek & Ec).
  exists f', cat. split_and!; congruence.
Qed.
Lemma tightened_open ps p w w' : tightened ps w w' → database_open p w → database_open p w'.
Proof.
  intros V (f & cat & ch & Hf & Hk & Hd & Hv & Hch). destruct (tightened_same _ _ _ _ _ V Hf) as (f' & Hf' & Ek & Ec).
  exists f', cat, ch. destruct V as (_ & _ & _ & E & _). rewrite Ec, E. split_and!; try done. congruence.
Qed.

(** ** The calls that make them private *)

Lemma open_errno_cases path mode e w r w' :
  posix_open_errno path false false mode e w = (r, w') →
  w' = called w ∧ match r with
    | Ok (Some p) => path_entry path = Some p ∧ ∃ f, d_files (w_disk w) !! p = Some f ∧ symlink f = false
    | Ok None => ∀ p, path_entry path = Some p → d_files (w_disk w) !! p = None
    | Err _ => True end.
Proof.
  unfold posix_open_errno, mbind, M_bind, lib_call, get_files. destruct (env_fault _ _); [by intros [= <- <-]|].
  cbn [andb]. destruct (path_entry path) as [p|]; [|by intros [= <- <-]].
  change (w_disk (called w)) with (w_disk w). destruct (_ !! p) as [f|] eqn:Hf.
  - destruct (f_kind f) eqn:Hk; intros [= <- <-]; (split; [done|]); try done; (split; [done|]); exists f;
      unfold symlink; by rewrite Hk.
  - intros [= <- <-]. split; [done|]. by intros q [= <-].
Qed.

(** The entry at [p] is private, whatever it is, and no symbolic link. *)
Definition private (p : bytes) (w : world) : Prop :=
  ∃ f, d_files (w_disk w) !! p = Some f ∧ symlink f = false ∧ f_mode f = S_IRUSR_IWUSR.

Lemma tightened_private ps p w w' : tightened ps w w' → private p w → private p w'.
Proof.
  intros V (f & Hf & Hs & Hm). destruct (tightened_entry _ _ _ _ _ V Hf) as (f' & Hf' & [-> | ->]); by eexists.
Qed.

Lemma fchmod_cases ps p f e w r w' :
  and_close (fchmod p S_IRUSR_IWUSR) e w = (r, w') →
  d_files (w_disk w) !! p = Some f → p ∈ ps → symlink f = false →
  tightened ps w w' ∧ (r = Ok () → private p w').
Proof.
  intros H Hf Hp Hs. unfold and_close, mbind at 1, M_bind at 1, try in H.
  destruct (fchmod p S_IRUSR_IWUSR e w) as [r1 w1] eqn:E.
  assert (same_state w1 w' ∧ (r = Ok () → r1 = Ok ())) as [S Hr].
  { split; [exact (keeps_run same_state (lib_call SM_ERR_STORAGE ;; lift r1) _ _ _ _ H)|].
    intros ->. by apply bind_ok in H as (? & ? & _ & [= ->]). }
  unfold fchmod, mbind, M_bind, lib_call in E. destruct (env_fault _ _).
  - injection E as <- <-. split; [apply same_state_tightened; by etrans; [|exact S]|]. intros E. by specialize (Hr E).
  - rewrite alter_file_run in E. injection E as <- <-.
    set (w1 := set_disk _ _) in S. assert (wrote p (set_mode S_IRUSR_IWUSR f) w w1) as W.
    { unfold wrote, w1. cbn [called set_disk w_disk w_conn w_subkeys w_unlocked d_files d_database]. split_and!; try done.
      rewrite <- (insert_id _ _ _ Hf) at 1. by rewrite alter_insert_eq. }
    split; [etrans; [by eapply wrote_tightened|by apply same_state_tightened]|]. intros _.
    destruct S as (_ & _ & _ & D). exists (set_mode S_IRUSR_IWUSR f). rewrite D. by rewrite (wrote_file _ _ _ _ W).
Qed.

(** [storage_chmod_owner_only] on a sidecar: it is not there, or private. *)
Lemma chmod_cases ps path q allow e w r w' :
  storage_chmod_owner_only path allow e w = (r, w') → path_entry path = Some q → q ∈ ps →
  tightened ps w w' ∧ (r = Ok () → d_files (w_disk w') !! q = None ∨ private q w').
Proof.
  intros H Hq Hin. unfold storage_chmod_owner_only in H. destruct (negb (bool_decide (c_str path = []))) eqn:Hne.
  2:{ rewrite guard_fail in H by done. by injection H as <- <-. }
  rewrite guard_run in H by done. unfold mbind, M_bind in H.
  destruct (posix_open_errno path false false 0 e w) as [r1 w1] eqn:E.
  destruct (open_errno_cases _ _ _ _ _ _ E) as [-> H1].
  assert (tightened ps w (called w)) as T by by apply same_state_tightened.
  destruct r1 as [[p|]|s]; [| |by injection H as <- <-].
  - destruct H1 as (Hp & f & Hf & Hs). assert (p = q) as -> by congruence.
    destruct (fchmod_cases ps q f e (called w) r w' H Hf Hin Hs) as [T' Hpr].
    split; [by etrans|]. intros Hr. right. by apply Hpr.
  - destruct allow; injection H as <- <-; (split; [exact T|]); [|done]. intros _. left. by apply H1.
Qed.

Lemma sidecar_cases ps path p suffix e w r w' :
  storage_chmod_sidecar p suffix e w = (r, w') → resolves path p →
  path_entry (p ++ suffix) = Some (p ++ suffix) → (p ++ suffix) ∈ ps →
  tightened ps w w' ∧ (r = Ok () → d_files (w_disk w') !! (p ++ suffix) = None ∨ private (p ++ suffix) w').
Proof.
  intros H Hp Hentry Hin. unfold storage_chmod_sidecar in H. destruct (resolved_text _ _ Hp) as [Et _]. rewrite Et in H.
  unfold guard_or, lift, mbind, M_bind, lib_call in H. destruct (check _ _) as [[]|s]; [|by injection H as <- <-].
  assert (tightened ps w (called w)) as T by by apply same_state_tightened.
  destruct (env_fault _ _); [by injection H as <- <-|].
  destruct (chmod_cases ps _ _ _ _ _ _ _ H Hentry Hin) as [T' Hpr]. split; [by etrans|exact Hpr].
Qed.

Lemma wal_shm_entries path p : resolves path p → path_entry (wal p) = Some (wal p) ∧ path_entry (shm p) = Some (shm p).
Proof.
  intros Hp. split; apply (sidecar_entry path); try done; try (cbn; lia); by apply (bool_decide_unpack _).
Qed.

Lemma in_vault_files p : p ∈ vault_files p ∧ journal p ∈ vault_files p ∧ wal p ∈ vault_files p ∧ shm p ∈ vault_files p.
Proof. unfold vault_files, sidecars. rewrite !elem_of_cons. tauto. Qed.

(** After [storage_chmod_wal_sidecars] the log and its index are private. *)
Lemma sidecars_cases path p e w r w' :
  storage_chmod_wal_sidecars p e w = (r, w') → resolves path p →
  tightened (vault_files p) w w' ∧
  (r = Ok () → ∀ q, q ∈ [wal p; shm p] → d_files (w_disk w') !! q = None ∨ private q w').
Proof.
  intros H Hp. destruct (wal_shm_entries _ _ Hp) as [Ew Es]. destruct (in_vault_files p) as (_ & _ & Iw & Is).
  unfold storage_chmod_wal_sidecars in H.
  destruct (storage_chmod_sidecar p (str "-wal") e w) as [r1 w1] eqn:E1.
  destruct (sidecar_cases (vault_files p) path p _ _ _ _ _ E1 Hp Ew Iw) as [T1 H1]. fold (wal p) in H1.
  destruct r1 as [[]|s]; [|rewrite (bind_run_err _ _ _ _ _ _ E1) in H; by injection H as <- <-].
  rewrite (bind_run _ _ _ _ _ _ E1) in H.
  destruct (sidecar_cases (vault_files p) path p _ _ _ _ _ H Hp Es Is) as [T2 H2]. fold (shm p) in H2.
  split; [by etrans|]. intros Hr q Hq.
  apply elem_of_cons in Hq as [->|[->|[]%not_elem_of_nil]%elem_of_cons]; [|by apply H2].
  destruct (H1 eq_refl) as [Hn|Hpr]; [left; by eapply tightened_absent|right; by eapply tightened_private].
Qed.

Lemma open_rdwr_cases path p mode e w r w' :
  posix_open_rdwr path false mode e w = (r, w') → path_entry path = Some p →
  w' = called w ∧ match r with
    | Ok q => q = p ∧ ∃ f, d_files (w_disk w) !! p = Some f ∧ symlink f = false
    | Err _ => True end.
Proof.
  intros H Hp. unfold posix_open_rdwr, posix_open, mbind, M_bind in H.
  destruct (posix_open_errno path false false mode e w) as [r1 w1] eqn:E.
  destruct (open_errno_cases _ _ _ _ _ _ E) as [-> H1]. destruct r1 as [[q|]|s]; try by injection H as <- <-.
  unfold lift in H. cbn [from_option_or] in H. unfold get_files, guard_or, lift in H.
  destruct (check _ _); injection H as <- <-; [|done]. destruct H1 as (Hq & f & Hf & Hs).
  assert (q = p) as -> by congruence. split_and!; [done..|by exists f].
Qed.

(** The vault file is made private when it is there and is no link. *)
Lemma open_owner_only_cases path p e w r w' :
  storage_open_owner_only_fd path false e w = (r, w') → resolves path p →
  tightened (vault_files p) w w' ∧ (r = Ok () → private p w').
Proof.
  intros H Hp. unfold storage_open_owner_only_fd in H.
  rewrite guard_run in H by (destruct Hp as [? _]; by rewrite bool_decide_false).
  destruct (posix_open_rdwr path false S_IRUSR_IWUSR e w) as [r1 w1] eqn:E.
  destruct (open_rdwr_cases _ _ _ _ _ _ _ E (resolves_entry _ _ Hp)) as [-> H1].
  assert (tightened (vault_files p) w (called w)) as T by by apply same_state_tightened.
  destruct r1 as [q|s]; [|rewrite (bind_run_err _ _ _ _ _ _ E) in H; by injection H as <- <-].
  rewrite (bind_run _ _ _ _ _ _ E) in H. destruct H1 as (-> & f & Hf & Hs).
  destruct (fchmod_cases (vault_files p) p f e (called w) r w' H Hf (proj1 (in_vault_files p)) Hs) as [T' Hpr].
  split; [by etrans|exact Hpr].
Qed.

(** ** Opening *)

Lemma open_errno_run path mode e w :
  healthy e → posix_open_errno path false false mode e w
  = match path_entry path with
    | None => (Err SM_ERR_STORAGE, called w)
    | Some p => match d_files (w_disk w) !! p with
        | None => (Ok None, called w)
        | Some f => match f_kind f with Symlink _ => (Err SM_ERR_STORAGE, called w) | _ => (Ok (Some p), called w) end
        end
    end.
Proof.
  intros He. unfold posix_open_errno, mbind, M_bind, lib_call, get_files. rewrite He. cbn [andb].
  destruct (path_entry path); [|done]. change (w_disk (called w)) with (w_disk w). destruct (_ !! _) as [f|]; [|done].
  by destruct (f_kind f).
Qed.

Lemma wp_fchmod p f mode (Q : unit → world → Prop) e w :
  healthy e → d_files (w_disk w) !! p = Some f → (∀ w', wrote p (set_mode mode f) w w' → Q () w') →
  wp (fchmod p mode) Q e w.
Proof.
  intros He Hf HQ. unfold fchmod. wp_run. eexists (), _. split; [apply alter_file_run|]. apply HQ. unfold wrote.
  cbn [called set_disk w_disk w_conn w_subkeys w_unlocked d_files d_database]. split_and!; try done.
  rewrite <- (insert_id _ _ _ Hf) at 1. by rewrite alter_insert_eq.
Qed.

(** A sidecar that is not there or a regular file can be made private. *)
Lemma wp_plain_sidecar path suffix q (Q : unit → world → Prop) e w :
  healthy e → resolves path q → slash ∉ suffix → Byte.x00 ∉ suffix → (2 < length suffix < 10)%nat →
  plain (d_files (w_disk w) !! (q ++ suffix)) → (∀ w', Q () w') → wp (storage_chmod_sidecar q suffix) Q e w.
Proof.
  intros He Hq Hs Hn Hl Hplain HQ. unfold storage_chmod_sidecar. destruct (resolved_text _ _ Hq) as [Eq Hne].
  pose proof (resolved_length _ _ Hq) as Hlen. rewrite Eq. wp_run.
  apply wp_guard; [apply Z.leb_le; unfold SIZE_MAX, UINT64_MAX, INT_MAX in *; lia|]. wp_run.
  unfold storage_chmod_owner_only. wp_run. apply wp_guard.
  { rewrite bool_decide_false; [done|]. destruct q; [done|]. cbn. case_decide as E; [|done]. subst. cbn in Eq. done. }
  wp_run. destruct (d_files (w_disk w) !! (q ++ suffix)) as [f|] eqn:Hf; eexists _, _; split.
  - rewrite open_errno_run by done. rewrite (sidecar_entry path) by (done || lia).
    change (w_disk (called w)) with (w_disk w). cbn in Hplain. rewrite Hf, Hplain. reflexivity.
  - cbv beta iota. apply wp_and_close; [done|]. apply (wp_fchmod _ f); [done|exact Hf|]. auto.
  - rewrite open_errno_run by done. rewrite (sidecar_entry path) by (done || lia).
    change (w_disk (called w)) with (w_disk w). rewrite Hf. reflexivity.
  - cbv beta iota. by apply wp_guard.
Qed.

Lemma wp_plain_sidecars path p (Q : unit → world → Prop) e w :
  healthy e → resolves path p → log_only p (d_files (w_disk w)) →
  (∀ w', tightened (vault_files p) w w' → (∀ q, q ∈ [wal p; shm p] → d_files (w_disk w') !! q = None ∨ private q w') →
     Q () w') →
  wp (storage_chmod_wal_sidecars p) Q e w.
Proof.
  intros He Hp (_ & Hw & Hs) HQ. cut (wp (storage_chmod_wal_sidecars p) (λ _ _, True) e w).
  { intros ([] & w' & E & _). destruct (sidecars_cases _ _ _ _ _ _ E Hp) as [T Hpr]. exists (), w'. auto. }
  destruct (wal_shm_entries _ _ Hp) as [Ew _]. destruct (in_vault_files p) as (_ & _ & Iw & _).
  assert (wp (storage_chmod_sidecar p (str "-wal")) (λ _ _, True) e w) as ([] & w1 & E1 & _).
  { apply (wp_plain_sidecar path); try done; [by apply (bool_decide_unpack _)..|cbn; lia]. }
  destruct (sidecar_cases (vault_files p) path p _ _ _ _ _ E1 Hp Ew Iw) as [T1 _].
  unfold storage_chmod_wal_sidecars. wp_run. exists (), w1. split; [done|].
  apply (wp_plain_sidecar path); try done; [by apply (bool_decide_unpack _)..|cbn; lia|]. exact (tightened_plain _ _ _ _ T1 Hs).
Qed.

(** An existing vault file is made private. *)
Lemma wp_open_owner_only path p f create (Q : unit → world → Prop) e w :
  healthy e → resolves path p → d_files (w_disk w) !! p = Some f → f_kind f = Regular →
  (∀ w', wrote p (set_mode S_IRUSR_IWUSR f) w w' → Q () w') → wp (storage_open_owner_only_fd path create) Q e w.
Proof.
  intros He Hp Hf Hk HQ. unfold storage_open_owner_only_fd. wp_run.
  apply wp_guard; [destruct Hp as [? _]; by rewrite bool_decide_false|]. wp_run.
  eexists p, (called w). split.
  { unfold posix_open_rdwr, posix_open, mbind, M_bind.
    assert (posix_open_errno path create false S_IRUSR_IWUSR e w = (Ok (Some p), called w)) as ->.
    { unfold posix_open_errno, mbind, M_bind, lib_call, get_files. rewrite He, (resolves_entry _ _ Hp).
      change (w_disk (called w)) with (w_disk w). rewrite Hf, andb_false_r, Hk. done. }
    cbn [lift from_option_or]. unfold lift, get_files. cbn [from_option_or].
    change (w_disk (called w)) with (w_disk w). rewrite Hf. cbn. by rewrite Hk. }
  apply wp_and_close; [done|]. apply (wp_fchmod p f); [done..|]. intros w1 W. apply HQ.
  by eapply wrote_then_same.
Qed.

(** A new vault file is private. *)
Lemma wp_create_owner_only path p (Q : unit → world → Prop) e w :
  healthy e → resolves path p → d_files (w_disk w) !! p = None →
  (∀ w', wrote p (File Regular [] true S_IRUSR_IWUSR) w w' → Q () w') → wp (storage_open_owner_only_fd path true) Q e w.
Proof.
  intros He Hp Hn HQ. unfold storage_open_owner_only_fd. wp_run.
  apply wp_guard; [destruct Hp as [? _]; by rewrite bool_decide_false|]. wp_run.
  set (w1 := set_disk (Disk (<[p := created S_IRUSR_IWUSR []]> (d_files (w_disk w))) (d_database (w_disk w))) (called w)).
  eexists p, w1. split.
  { unfold posix_open_rdwr, posix_open, mbind, M_bind.
    assert (posix_open_errno path true false S_IRUSR_IWUSR e w = (Ok (Some p), w1)) as ->.
    { unfold posix_open_errno, mbind, M_bind, lib_call, get_files, put_files. rewrite He, (resolves_entry _ _ Hp).
      change (w_disk (called w)) with (w_disk w). by rewrite Hn. }
    cbn [lift from_option_or]. unfold lift, get_files. cbn [from_option_or].
    change (d_files (w_disk w1)) with (<[p := created S_IRUSR_IWUSR []]> (d_files (w_disk w))).
    by rewrite lookup_insert_eq. }
  assert (wrote p (created S_IRUSR_IWUSR []) w w1) as W1 by by unfold wrote, w1.
  apply wp_and_close; [done|]. apply (wp_fchmod p (created S_IRUSR_IWUSR [])); [done|by eapply wrote_file|].
  intros w2 W2. apply HQ. eapply wrote_then_same; [|unfold same_state; by split_and!]. by eapply wrote_again.
Qed.

Lemma wp_resolve_db path p f (Q : bytes → world → Prop) e w :
  healthy e → resolves path p → d_files (w_disk w) !! p = Some f → f_kind f = Regular →
  Q p (called w) → wp (storage_resolve_db_path path) Q e w.
Proof.
  intros He Hp Hf Hk HQ. unfold storage_resolve_db_path. wp_run.
  apply wp_guard; [destruct Hp as [? _]; by rewrite bool_decide_false|]. wp_run.
  eexists _, _. split; [reflexivity|]. eapply wp_lift; [|exact HQ]. change (w_disk (called w)) with (w_disk w).
  by erewrite follow_resolved.
Qed.

(** The sidecars have a mode that is that of the vault file. *)
Definition sidecar_modes (p : bytes) (mode : Z) (fs : gmap bytes file) : Prop :=
  ∀ q f, q ∈ sidecars p → fs !! q = Some f → f_mode f = mode.

(** What "PRAGMA journal_mode = WAL;" makes of the state: a connection on the
    file [f], which holds the same database. *)
Definition opened_on (p : bytes) (f : file) (cat : catalogue) (db : database) (w w' : world) : Prop :=
  w_conn w' = Some (Connection db db false) ∧ w_subkeys w' = w_subkeys w ∧ w_unlocked w' = w_unlocked w ∧
  d_database (w_disk w') = DatabaseFile p cat false ∧
  (∃ content, d_files (w_disk w') !! p = Some (set_content content f) ∧ sqlite3_image content = Some (cat, db)) ∧
  log_only p (d_files (w_disk w')) ∧ sidecar_modes p (Z.land (f_mode f) S_IRWXA) (d_files (w_disk w')) ∧
  (∀ q, q ∉ vault_files p → d_files (w_disk w') !! q = d_files (w_disk w) !! q).

Lemma made_mode mode s f : sidecar_after mode s None = Some f → f_mode f = mode.
Proof. destruct s; [done| |done]. by intros [= <-]. Qed.

Lemma journal_wal_run p f cat db e w :
  env_fault e (w_calls w) = false → d_files (w_disk w) !! p = Some f → f_kind f = Regular →
  sqlite3_image (f_content f) = Some (cat, db) → no_sidecars p (d_files (w_disk w)) →
  ∃ w', journal_mode_wal p e w = (Ok (), w') ∧ opened_on p f cat db w w'.
Proof.
  intros He Hf Hk Hi Hn. destruct f as [k content owned mode]. cbn [f_kind f_content] in *. subst k.
  destruct (wal_image _ _ _ Hi) as (content' & wl & sh & E & Hi').
  unfold journal_mode_wal, mbind, M_bind, get_files, try, lib_call, put_files, set_database, get_world, put_world, lift.
  rewrite Hf, He, (group_alone _ _ _ Hn), E. cbn [from_option_or has_leftovers].
  eexists. split; [reflexivity|]. cbn [set_conn set_disk called w_disk w_conn w_subkeys w_unlocked d_files d_database].
  set (g := FileGroup content' Absent wl sh).
  destruct (lookup_group p (Z.land mode S_IRWXA) g (d_files (w_disk w))) as (Gp & Gj & Gw & Gs & Go).
  destruct Hn as (Hj & Hw & Hs). rewrite Hf in Gp. rewrite Hj in Gj. rewrite Hw in Gw. rewrite Hs in Gs.
  unfold opened_on. cbn [set_conn set_disk called w_disk w_conn w_subkeys w_unlocked d_files d_database f_mode].
  split_and!; [done..| | | |done].
  - exists content'. by rewrite Gp.
  - split_and!; [by rewrite Gj|rewrite Gw; apply made_plain|rewrite Gs; apply made_plain].
  - intros q f Hq Hqf. unfold sidecars in Hq. rewrite !elem_of_cons in Hq.
    destruct Hq as [->|[->|[->|[]%not_elem_of_nil]]]; [rewrite Gj in Hqf|rewrite Gw in Hqf|rewrite Gs in Hqf];
      by eapply made_mode.
Qed.

Lemma wp_journal_wal p f cat db (Q : unit → world → Prop) e w :
  healthy e → d_files (w_disk w) !! p = Some f → f_kind f = Regular →
  sqlite3_image (f_content f) = Some (cat, db) → no_sidecars p (d_files (w_disk w)) →
  (∀ w', opened_on p f cat db w w' → Q () w') → wp (journal_mode_wal p) Q e w.
Proof.
  intros He Hf Hk Hi Hn HQ. destruct (journal_wal_run p f cat db e w) as (w' & E & O); [done..|].
  exists (), w'. split; [done|by apply HQ].
Qed.

Lemma wp_sqlite_open p f create (Q : unit → world → Prop) e w :
  healthy e → d_files (w_disk w) !! p = Some f → f_kind f = Regular →
  Q () (called w) → wp (sqlite3_open_v2 p create) Q e w.
Proof.
  intros He Hf Hk HQ. unfold sqlite3_open_v2. wp_run. eexists _, _. split; [reflexivity|].
  change (w_disk (called w)) with (w_disk w). rewrite Hf. apply wp_guard; [by rewrite Hk|done].
Qed.

(** A connection on a file with the schema of the vault. *)
Lemma opened_database p f cat db w w' :
  opened_on p f cat db w w' → f_kind f = Regular → storage_verify_schema cat = Ok () → database_open p w'.
Proof.
  intros (_ & _ & _ & D & (content & Hf & Hi) & _) Hk Hv.
  exists (set_content content f), cat, false. split_and!; try done. intros _. by exists cat, db.
Qed.

Lemma wp_verify_schema cat (Q : unit → world → Prop) e w :
  healthy e → df_catalogue (d_database (w_disk w)) = cat → storage_verify_schema cat = Ok () →
  Q () (called w) → wp verify_schema Q e w.
Proof.
  intros He Hc Hv HQ. unfold verify_schema. wp_run. eexists _, _. split; [reflexivity|].
  change (w_disk (called w)) with (w_disk w). apply (wp_lift _ ()); [by rewrite Hc|done].
Qed.

Lemma wp_or_close m (Q : unit → world → Prop) e w : wp m Q e w → wp (or_close m) Q e w.
Proof.
  intros ([] & w' & E & H). unfold or_close. wp_run. apply wp_try_ok. exists (), w'. split; [done|]. by apply wp_ret.
Qed.

Lemma wp_no_handle (Q : unit → world → Prop) e w : w_conn w = None → Q () w → wp no_handle Q e w.
Proof. intros E HQ. unfold no_handle. wp_run. by apply wp_guard; [rewrite bool_decide_true|]. Qed.

(** Opening the file of a vault gives its database. *)
Lemma wp_storage_open path p db (Q : unit → world → Prop) e w :
  healthy e → resolves path p → w_conn w = None → holds_database p db (d_files (w_disk w)) →
  no_sidecars p (d_files (w_disk w)) →
  (∀ w', w_conn w' = Some (Connection db db false) → w_subkeys w' = w_subkeys w → w_unlocked w' = w_unlocked w →
     database_open p w' → log_only p (d_files (w_disk w')) → Q () w') →
  wp (storage_open path) Q e w.
Proof.
  intros He Hp Hc (f & cat & Hf & Hk & Hi & Hv) Hn HQ. unfold storage_open. wp_run.
  apply wp_guard; [destruct Hp as [? _]; by rewrite bool_decide_false|]. wp_run. apply wp_no_handle; [done|]. wp_run.
  apply (wp_open_owner_only path p f); [done..|]. intros w1 W1. wp_run.
  pose proof (wrote_file _ _ _ _ W1) as F1. pose proof W1 as (A1 & A2 & A3 & _ & A5).
  apply (wp_resolve_db path p (set_mode S_IRUSR_IWUSR f)); [done..|]. apply wp_or_close. wp_run.
  apply (wp_sqlite_open p (set_mode S_IRUSR_IWUSR f)); [done..|]. wp_run.
  apply (wp_journal_wal p (set_mode S_IRUSR_IWUSR f) cat db); [done..| |].
  { cbn [called w_disk]. rewrite A5. by apply no_sidecars_insert. }
  intros w2 O2. wp_run. pose proof O2 as (B1 & B2 & B3 & D2 & _ & L2 & _).
  apply (wp_plain_sidecars path p); [done..|]. intros w3 V3 _. pose proof V3 as (C1 & C2 & C3 & D3 & _).
  apply (wp_verify_schema cat); [done|by rewrite D3, D2|done|].
  apply HQ; cbn [called w_conn w_subkeys w_unlocked w_disk] in *; [congruence..| |].
  - apply (tightened_open [] p w3 (called w3)); [by apply same_state_tightened|].
    apply (tightened_open _ _ _ _ V3). by eapply opened_database.
  - exact (tightened_log _ _ _ _ V3 L2).
Qed.

(** ** Creating *)

(** The schema that [STORAGE_EMBEDDED_SCHEMA] makes in a file. *)
Definition run_schema (statements : list ddl) (db : database) (cat : catalogue) : outcome catalogue :=
  foldl (λ acc s, cat ← acc; run_ddl s db cat) (Ok cat) statements.

Lemma run_schema_err statements db s :
  foldl (λ acc st, cat ← acc; run_ddl st db cat) (Err s) statements = Err s.
Proof. by induction statements. Qed.

Lemma wp_ddls statements c cat (Q : unit → world → Prop) e w :
  healthy e → w_conn w = Some c →
  run_schema statements (conn_cur c) (df_catalogue (d_database (w_disk w))) = Ok cat →
  (∀ w', w_conn w' = Some c → w_subkeys w' = w_subkeys w → w_unlocked w' = w_unlocked w →
     d_files (w_disk w') = d_files (w_disk w) → df_entry (d_database (w_disk w')) = df_entry (d_database (w_disk w)) →
     df_catalogue (d_database (w_disk w')) = cat →
     df_changed (d_database (w_disk w')) = match statements with [] => df_changed (d_database (w_disk w)) | _ => true end → Q () w') →
  wp (for_each execute_ddl statements) Q e w.
Proof.
  intros He Hc. revert w Hc. induction statements as [|s statements IH]; intros w Hc Hr HQ.
  - apply wp_ret. injection Hr as <-. by apply HQ.
  - cbn [for_each]. unfold run_schema in Hr. cbn [foldl mbind outcome_bind] in Hr.
    destruct (run_ddl s (conn_cur c) (df_catalogue (d_database (w_disk w)))) as [cat1|] eqn:E1;
      [|by rewrite run_schema_err in Hr].
    wp_run. unfold execute_ddl. wp_run. eapply wp_sql_query; [done|exact Hc|]. wp_run.
    eexists _, _. split; [reflexivity|]. wp_run. eapply wp_lift; [exact E1|]. wp_run.
    eexists _, _. split; [reflexivity|]. apply IH; [exact Hc|exact Hr|].
    cbn [set_disk called w_disk w_conn w_subkeys w_unlocked d_files d_database df_entry df_catalogue df_changed].
    intros w' G1 G2 G3 G4 G5 G6 G7. apply HQ; try done. rewrite G7. by destruct statements.
Qed.
Definition index (name : string) (active_unique : bool) : index_info := IndexInfo (str name) active_unique active_unique.

Definition vault_schema : catalogue :=
  add_index (index "idx_auth_failures_timestamp" false) (str "auth_failures")
    (add_index (index "idx_audit_log_target" false) (str "audit_log")
    (add_index (index "idx_audit_log_timestamp" false) (str "audit_log")
    (add_index (index "idx_secrets_name_active" true) (str "secrets")
    (add_index (index "idx_secrets_name" false) (str "secrets")
    (add_table (str "auth_failures") auth_failure_columns
    (add_table (str "metadata") metadata_columns
    (add_table (str "audit_log") audit_columns
    (add_table (str "secrets") secrets_columns empty_catalogue)))))))).

Lemma run_schema_cons s statements db cat cat1 r :
  run_ddl s db cat = Ok cat1 → run_schema statements db cat1 = r → run_schema (s :: statements) db cat = r.
Proof. intros E1 E2. unfold run_schema. cbn [foldl mbind outcome_bind]. by rewrite E1. Qed.

Lemma run_table name columns db cat :
  negb (name_in name (cat_tables cat)) && negb (name_in name (index_names cat)) = true →
  run_ddl (CreateTable name columns) db cat = Ok (add_table name columns cat).
Proof. intros [H1%negb_true_iff H2]%andb_true_iff. cbn [run_ddl]. by rewrite H1, H2. Qed.

Lemma run_index name table columns u db cat :
  negb (name_in name (index_names cat))
  && (negb (name_in name (cat_tables cat)) && name_in table (cat_tables cat)
      && forallb (λ c, name_in c (ci_name <$> cat_columns cat table)) columns
      && negb (u && active_duplicates (t_secrets db))) = true →
  run_ddl (CreateIndex name table columns u) db cat = Ok (add_index (IndexInfo name u u) table cat).
Proof. intros [H1%negb_true_iff H2]%andb_true_iff. cbn [run_ddl]. by rewrite H1, H2. Qed.

Lemma run_existing_table name columns db cat :
  name_in name (cat_tables cat) = true → run_ddl (CreateTable name columns) db cat = Ok cat.
Proof. intros H. cbn [run_ddl]. by rewrite H. Qed.
Lemma run_existing_index name table columns u db cat :
  name_in name (index_names cat) = true → run_ddl (CreateIndex name table columns u) db cat = Ok cat.
Proof. intros H. cbn [run_ddl]. by rewrite H. Qed.

(** Run on an empty file it makes all that is checked, and run again it changes
    nothing. *)
Lemma schema_built : run_schema STORAGE_EMBEDDED_SCHEMA empty_database empty_catalogue = Ok vault_schema.
Proof.
  do 2 (eapply run_schema_cons; [reflexivity|]).
  do 4 (eapply run_schema_cons; [apply run_table; vm_compute; reflexivity|]).
  do 5 (eapply run_schema_cons; [apply run_index; vm_compute; reflexivity|]). reflexivity.
Qed.
Lemma schema_stable : run_schema STORAGE_EMBEDDED_SCHEMA empty_database vault_schema = Ok vault_schema.
Proof.
  do 2 (eapply run_schema_cons; [reflexivity|]).
  do 4 (eapply run_schema_cons; [apply run_existing_table; vm_compute; reflexivity|]).
  do 5 (eapply run_schema_cons; [apply run_existing_index; vm_compute; reflexivity|]). reflexivity.
Qed.
Lemma schema_verified : storage_verify_schema vault_schema = Ok ().
Proof. vm_compute. reflexivity. Qed.

(** The files of a vault are private. *)
Definition private_vault (p : bytes) (w : world) : Prop :=
  private p w ∧ ∀ q, q ∈ sidecars p → d_files (w_disk w) !! q = None ∨ private q w.

Lemma wp_storage_init path p (Q : unit → world → Prop) e w :
  healthy e → resolves path p → w_conn w = None → d_files (w_disk w) !! p = None → no_sidecars p (d_files (w_disk w)) →
  (∀ w', w_conn w' = Some (Connection empty_database empty_database false) → w_subkeys w' = w_subkeys w →
     w_unlocked w' = w_unlocked w → database_open p w' → log_only p (d_files (w_disk w')) → private_vault p w' →
     (∀ q, q ∉ vault_files p → d_files (w_disk w') !! q = d_files (w_disk w) !! q) → Q () w') →
  wp (storage_init path) Q e w.
Proof.
  intros He Hp Hc Hn Hside HQ. unfold storage_init. wp_run.
  apply wp_guard; [destruct Hp as [? _]; by rewrite bool_decide_false|]. wp_run. apply wp_no_handle; [done|]. wp_run.
  apply (wp_create_owner_only path p); [done..|]. intros w1 W1. wp_run.
  pose proof (wrote_file _ _ _ _ W1) as F1. pose proof W1 as (A1 & A2 & A3 & _ & A5). set (f := File Regular [] true S_IRUSR_IWUSR) in *.
  apply (wp_resolve_db path p f); [done..|]. apply wp_or_close. wp_run.
  apply (wp_sqlite_open p f); [done..|]. wp_run.
  apply (wp_journal_wal p f empty_catalogue empty_database); [done|done|done|apply image_empty| |].
  { cbn [called w_disk]. rewrite A5. by apply no_sidecars_insert. }
  intros w2 (B1 & B2 & B3 & D2 & (content & Hf & _) & L2 & _ & O2). cbn [called w_conn w_subkeys w_unlocked w_disk] in *. wp_run.
  apply (wp_plain_sidecars path p); [done..|]. intros w3 V3 _. pose proof V3 as (C1 & C2 & C3 & D3 & _). rewrite B1 in C1. wp_run.
  apply (wp_ddls _ _ vault_schema _ _ _ He C1); [rewrite D3, D2; exact schema_built|].
  intros w4 G1 G2 G3 G4 G5 G6 _. rewrite D3, D2 in G5. wp_run.
  assert (log_only p (d_files (w_disk w4))) as L4 by (rewrite G4; exact (tightened_log _ _ _ _ V3 L2)).
  apply (wp_plain_sidecars path p); [done..|]. intros w5 V5 Hpr5. pose proof V5 as (I1 & I2 & I3 & I4 & _). wp_run.
  rewrite G1 in I1. apply (wp_ddls _ _ vault_schema _ _ _ He I1); [rewrite I4, G6; exact schema_stable|].
  intros w6 J1 J2 J3 J4 J5 J6 J7. apply (wp_verify_schema vault_schema); [done|done|exact schema_verified|].
  destruct (tightened_entry _ _ _ _ _ V3 Hf) as (f3 & Hf3 & E3). rewrite <- G4 in Hf3.
  destruct (tightened_entry _ _ _ _ _ V5 Hf3) as (f5 & Hf5 & E5).
  assert (f_kind f5 = Regular ∧ f_mode f5 = S_IRUSR_IWUSR) as [K5 M5] by (by destruct E3 as [-> | ->], E5 as [-> | ->]).
  pose proof (tightened_log _ _ _ _ V5 L4) as L5.
  apply HQ; cbn [called w_conn w_subkeys w_unlocked w_disk]; [done|congruence|congruence| | | |].
  - exists f5, vault_schema, true. cbn [called w_disk].
    split_and!; [by rewrite J4|done| |exact schema_verified|done].
    destruct (d_database (w_disk w6)) as [p6 cat6 ch6]. cbn [df_entry df_catalogue df_changed] in *.
    rewrite I4, G5 in J5. by subst.
  - by rewrite J4.
  - split.
    + exists f5. cbn [called w_disk]. rewrite J4. by unfold symlink; rewrite K5.
    + intros q Hq. cbn [called w_disk]. unfold private. cbn [called w_disk]. rewrite J4. unfold sidecars in Hq.
      apply elem_of_cons in Hq as [->|Hq]; [left; apply L5|by apply Hpr5].
  - intros q Hq. rewrite J4, (tightened_other _ _ _ _ V5 Hq), G4, (tightened_other _ _ _ _ V3 Hq), (O2 q Hq), A5.
    apply lookup_insert_ne. intros ->. apply Hq. by left.
Qed.

(** ** Reading *)

(** [storage_init] on a path where there is nothing makes an empty vault
    file, which with its log is for the owner only, whatever the umask, and
    connects to it: the embedded schema passes the check, running it twice does
    no harm, and no other file is touched; in a healthy environment it
    succeeds. *)
Theorem storage_init_new path p e w :
  healthy e → resolves path p → w_conn w = None → d_files (w_disk w) !! p = None → no_sidecars p (d_files (w_disk w)) →
  ∃ w', storage_init path e w = (Ok (), w') ∧
    w_conn w' = Some (Connection empty_database empty_database false) ∧ database_open p w' ∧
    log_only p (d_files (w_disk w')) ∧ private_vault p w' ∧
    ∀ q, q ∉ vault_files p → d_files (w_disk w') !! q = d_files (w_disk w) !! q.
Proof.
  intros He Hp Hc Hn Hs.
  destruct (wp_storage_init path p (λ _ w', w_conn w' = Some (Connection empty_database empty_database false) ∧
    database_open p w' ∧ log_only p (d_files (w_disk w')) ∧ private_vault p w' ∧
    ∀ q, q ∉ vault_files p → d_files (w_disk w') !! q = d_files (w_disk w) !! q) e w)
    as ([] & w' & R & H); [done..|by auto|]. by exists w'.
Qed.

(** what was committed is there after the vault file is closed and opened
    again, and nothing else: a transaction that was open is lost. Closing may
    have run in any environment, opening runs in a healthy one. *)
Theorem storage_close_open path p c e1 w w1 e2 :
  database_open p w → w_conn w = Some c → resolves path p → log_only p (d_files (w_disk w)) →
  storage_close e1 w = (Ok (), w1) → healthy e2 →
  ∃ w2, storage_open path e2 w1 = (Ok (), w2) ∧ database_open p w2 ∧
    w_conn w2 = Some (Connection (conn_committed c) (conn_committed c) false).
Proof.
  intros Hd Hc Hp Hl H He. destruct (close_ok _ _ _ _ _ _ H Hd Hc) as (Hh & Hc1 & _ & _ & Hn & _).
  destruct (wp_storage_open path p (conn_committed c)
    (λ _ w', database_open p w' ∧ w_conn w' = Some (Connection (conn_committed c) (conn_committed c) false)) e2 w1)
    as ([] & w2 & R & D2 & C2); [done|done|done|done|by apply Hn|by auto|by exists w2].
Qed.

(** ** What opening may do to the files *)

(** What may have happened to the entry [q] when the vault at [p] was opened,
    in whatever way this ended. An entry is as before, or it is one of the
    files of the vault; then it is no symbolic link and of the same kind, only
    the content of a regular file differs, and its mode is as before or 0600.
    What is new is a regular file next to the vault file, for its owner only;
    what is gone was a regular file there. *)
Definition entry_safe (p q : bytes) (before after : option file) : Prop :=
  match before, after with
  | None, None => True
  | None, Some f' => q ∈ sidecars p ∧ f_kind f' = Regular ∧ f_owned f' = true ∧ f_mode f' = S_IRUSR_IWUSR
  | Some f, None => q ∈ sidecars p ∧ f_kind f = Regular
  | Some f, Some f' =>
      f' = f ∨
      q ∈ vault_files p ∧ symlink f = false ∧ f_kind f' = f_kind f ∧
      (f_kind f = Regular ∨ f_content f' = f_content f) ∧
      (f_owned f = true → f_owned f' = true) ∧ (f_mode f' = f_mode f ∨ f_mode f' = S_IRUSR_IWUSR)
  end.

Lemma entry_safe_refl p q o : entry_safe p q o o.
Proof. destruct o; [by left|done]. Qed.

Lemma sidecar_in_vault p q : q ∈ sidecars p → q ∈ vault_files p.
Proof. intros H. by apply elem_of_cons; right. Qed.

Lemma regular_no_link f : f_kind f = Regular → symlink f = false.
Proof. unfold symlink. by intros ->. Qed.

Lemma entry_safe_trans p q a b c : entry_safe p q a b → entry_safe p q b c → entry_safe p q a c.
Proof.
  destruct a as [f|], b as [f'|], c as [f''|]; cbn; try done.
  - intros [->|(Hq & Hs & Hk & Hc & Ho & Hm)]; [done|]. intros [->|(_ & _ & Hk' & Hc' & Ho' & Hm')]; [by right; split_and!|].
    right. rewrite Hk in *. split_and!; try done; [|by auto|].
    + destruct Hc as [Hc|Hc]; [by left|]. destruct Hc' as [Hc'|Hc']; [by left|right; congruence].
    + destruct Hm' as [-> | ->]; [done|by right].
  - intros [->|(Hq & _ & Hk & _)] [Hin Hr]; (split; [done|congruence]).
  - intros [Hin Hr] (_ & Hk & Ho & Hm). right. split_and!; try done; [by apply sidecar_in_vault|by apply regular_no_link|congruence|by left|by right].
  - intros (Hin & Hk & Ho & Hm) [->|(_ & _ & Hk' & _ & Ho' & Hm')]; [done|].
    split_and!; [done|congruence|by apply Ho'|]. destruct Hm' as [-> | ->]; done.
Qed.

Lemma tightened_safe p w w' q :
  tightened (vault_files p) w w' → entry_safe p q (d_files (w_disk w) !! q) (d_files (w_disk w') !! q).
Proof.
  intros (_ & _ & _ & _ & V). specialize (V q).
  destruct (d_files (w_disk w) !! q) as [f|], (d_files (w_disk w') !! q) as [f'|]; try done.
  destruct V as [->|(Hq & Hs & ->)]; [by left|]. right. split_and!; try done; by right.
Qed.

Lemma sidecar_safe p q s o : q ∈ sidecars p → entry_safe p q o (sidecar_after S_IRUSR_IWUSR s o).
Proof.
  intros Hq. destruct o as [[k content owned mode]|]; [destruct k|];
    try (destruct s; by first [apply entry_safe_refl|split_and!]).
  destruct s; cbn [sidecar_after]; try apply entry_safe_refl; [by split|]. right.
  split_and!; try done; [by apply sidecar_in_vault|by left|cbn [f_mode]]. case_match; auto.
Qed.

Lemma group_safe p content owned g fs q :
  fs !! p = Some (File Regular content owned S_IRUSR_IWUSR) →
  entry_safe p q (fs !! q) (put_group p (Z.land S_IRUSR_IWUSR S_IRWXA) g fs !! q).
Proof.
  intros Hp. change (Z.land S_IRUSR_IWUSR S_IRWXA) with S_IRUSR_IWUSR.
  destruct (lookup_group p S_IRUSR_IWUSR g fs) as (Gp & Gj & Gw & Gs & Go).
  destruct (decide (q ∈ vault_files p)) as [Hq|Hq]; [|rewrite (Go q Hq); apply entry_safe_refl].
  unfold vault_files, sidecars in Hq. rewrite !elem_of_cons in Hq.
  destruct Hq as [->|[->|[->|[->|[]%not_elem_of_nil]]]].
  - rewrite Gp, Hp. right. split_and!; try done; [apply in_vault_files|by left|by left].
  - rewrite Gj. apply sidecar_safe. by left.
  - rewrite Gw. apply sidecar_safe. unfold sidecars. by rewrite !elem_of_cons; auto.
  - rewrite Gs. apply sidecar_safe. unfold sidecars. by rewrite !elem_of_cons; auto.
Qed.

(** The vault file is private, and the connection, if there is one, is on it. *)
Definition ours (p : bytes) (w : world) : Prop :=
  private p w ∧
  (w_conn w = None ∨
   df_entry (d_database (w_disk w)) = p ∧ ∃ f, d_files (w_disk w) !! p = Some f ∧ f_kind f = Regular).

(** A step from such a state leads to one and treats every entry as above. *)
Definition opens_safely (p : bytes) (w w' : world) : Prop :=
  ours p w → ours p w' ∧ ∀ q, entry_safe p q (d_files (w_disk w) !! q) (d_files (w_disk w') !! q).

#[export] Instance opens_safely_preorder p : PreOrder (opens_safely p).
Proof.
  split; [intros w Ho; split; [done|intros q; apply entry_safe_refl]|].
  intros a b c H1 H2 Ho. destruct (H1 Ho) as [Hb E1]. destruct (H2 Hb) as [Hc E2].
  split; [done|]. intros q. by eapply entry_safe_trans.
Qed.

Lemma tightened_ours p w w' : tightened (vault_files p) w w' → ours p w → ours p w'.
Proof.
  intros V [Hpr Hc]. pose proof V as (E1 & _ & _ & E4 & _). split; [by eapply tightened_private|].
  destruct Hc as [Hc|(He & f & Hf & Hk)]; [left; congruence|right].
  destruct (tightened_same _ _ _ _ _ V Hf) as (f' & Hf' & Ek & _). split; [congruence|]. exists f'. by rewrite Ek.
Qed.
Lemma tightened_opens_safely p w w' : tightened (vault_files p) w w' → opens_safely p w w'.
Proof. intros V Ho. split; [by eapply tightened_ours|]. intros q. by apply tightened_safe. Qed.

#[export] Instance same_opens_safely {A} p (m : M A) : Keeps same_state m → Keeps (opens_safely p) m | 10.
Proof. intros K e w. by apply tightened_opens_safely, same_state_tightened. Qed.

#[export] Instance sqlite_open_same p : Keeps same_state (sqlite3_open_v2 p false).
Proof. unfold sqlite3_open_v2. keeps_tac. Qed.

#[export] Instance journal_wal_safe p : Keeps (opens_safely p) (journal_mode_wal p).
Proof.
  intros e w Ho. pose proof Ho as [(f & Hf & Hs & Hm) Hc]. destruct (journal_mode_wal p e w) as [r w2] eqn:R. cbn [snd].
  unfold journal_mode_wal, mbind at 1, M_bind at 1, get_files in R.
  rewrite Hf in R. destruct f as [k content owned mode]. cbn [f_mode] in Hm. subst mode.
  destruct k; try (injection R as _ <-; split; [exact Ho|intros q; apply entry_safe_refl]). cbv zeta in R.
  set (fs := d_files (w_disk w)) in *. set (g := group_of fs p content).
  assert (∀ g', let w1 := set_disk (Disk (put_group p (Z.land S_IRUSR_IWUSR S_IRWXA) g' fs) (d_database (w_disk w))) w in
    (∃ f, d_files (w_disk w1) !! p = Some f ∧ f_kind f = Regular ∧ f_mode f = S_IRUSR_IWUSR) ∧
    ∀ q, entry_safe p q (fs !! q) (d_files (w_disk w1) !! q)) as Hput.
  { intros g'. split; [|intros q; by eapply group_safe].
    destruct (lookup_group p (Z.land S_IRUSR_IWUSR S_IRWXA) g' fs) as (Gp & _). cbn [set_disk w_disk d_files].
    rewrite Gp, Hf. by eexists. }
  assert (∀ g' w', d_files (w_disk w') = put_group p (Z.land S_IRUSR_IWUSR S_IRWXA) g' fs →
    (w_conn w' = w_conn w ∧ d_database (w_disk w') = d_database (w_disk w) ∨ df_entry (d_database (w_disk w')) = p) →
    ours p w' ∧ ∀ q, entry_safe p q (fs !! q) (d_files (w_disk w') !! q)) as Hend.
  { intros g' w' E Hw'. rewrite E. destruct (Hput g') as [(f' & Hf' & Hk' & Hm') He]. split; [|exact He].
    cbn [set_disk w_disk d_files] in Hf'. split; [exists f'; rewrite E; split_and!; [done|by apply regular_no_link|done]|].
    assert (∃ f, d_files (w_disk w') !! p = Some f ∧ f_kind f = Regular) as Hreg by (exists f'; by rewrite E).
    destruct Hw' as [[Ec Ed]|Hd]; [|by right]. rewrite Ec, Ed. destruct Hc as [Hc|[Hd _]]; [by left|by right]. }
  unfold mbind, M_bind, try, lib_call in R. destruct (env_fault e (w_calls w)).
  - injection R as _ <-. eapply Hend; [reflexivity|by left].
  - unfold put_files, lift, set_database, get_world, put_world in R. fold fs g in R.
    destruct (sqlite3_journal_wal g) as [g' [[cat db]|]];
      injection R as _ <-; (eapply Hend; [reflexivity|]); [by right|by left].
Qed.

Lemma chmod_sidecars_safe path p : resolves path p → Keeps (opens_safely p) (storage_chmod_wal_sidecars p).
Proof.
  intros Hp e w. apply tightened_opens_safely. destruct (storage_chmod_wal_sidecars p e w) as [r w'] eqn:E.
  by apply (sidecars_cases path p) in E as [T _].
Qed.

#[export] Instance verify_schema_same : Keeps same_state verify_schema.
Proof. unfold verify_schema. apply _. Qed.

#[export] Instance close_safe p : Keeps (opens_safely p) storage_close.
Proof.
  intros e w. destruct (storage_close e w) as [r w'] eqn:R. cbn [snd].
  unfold storage_close, mbind at 1, M_bind at 1, get_world at 1 in R.
  destruct (w_conn w) as [c|] eqn:Hc; [|by injection R as _ <-]. unfold mbind, M_bind, lib_call in R.
  destruct (env_fault _ _); [injection R as _ <-; by apply tightened_opens_safely, same_state_tightened|].
  intros [(f & Hf & Hs & Hm) Hd]. destruct Hd as [Hd|(Hd & f0 & Hf0 & Hk)]; [congruence|].
  assert (f0 = f) as -> by congruence.
  unfold database_of, get_files, put_files, get_world, put_world in R. rewrite alter_file_run in R.
  cbn [called set_disk set_conn w_disk w_conn w_subkeys w_unlocked d_files d_database] in R. rewrite Hd in R.
  injection R as _ <-. unfold ours, private. cbn [set_conn set_disk called w_disk w_conn d_files d_database].
  match goal with |- context [alter ?h p _] => set (write := h) end.
  assert (∃ text, write f = set_content text f) as [text Hw] by by eexists.
  set (fs := d_files (w_disk w)) in *.
  set (fs' := put_sidecar 0 (shm p) Absent (put_sidecar 0 (wal p) Absent (alter write p fs))).
  assert (fs' !! p = Some (set_content text f)) as Hp'.
  { unfold fs'. rewrite !lookup_sidecar_ne by files_ne. by rewrite lookup_alter_eq, Hf, <- Hw. }
  split; [split; [exists (set_content text f); by split_and!|by left]|]. intros q.
  assert (∀ o, q ∈ sidecars p → entry_safe p q o (sidecar_after 0 Absent o)) as Hgone.
  { intros [[[] ? ? ?]|] Hq; by first [apply entry_safe_refl|split]. }
  destruct (decide (q = p)) as [->|Hqp].
  { rewrite Hf, Hp'. right. split_and!; try done; [apply in_vault_files|by left|by left]. }
  unfold fs'. destruct (decide (q = shm p)) as [->|Hqs].
  { rewrite lookup_sidecar, lookup_sidecar_ne by files_ne. rewrite lookup_alter_ne by done.
    apply Hgone. unfold sidecars. rewrite !elem_of_cons. auto. }
  rewrite lookup_sidecar_ne by done. destruct (decide (q = wal p)) as [->|Hqw].
  { rewrite lookup_sidecar, lookup_alter_ne by done. apply Hgone. unfold sidecars. rewrite !elem_of_cons. auto. }
  rewrite lookup_sidecar_ne, lookup_alter_ne by done. apply entry_safe_refl.
Qed.

Lemma or_close_safe p m : Keeps (opens_safely p) m → Keeps (opens_safely p) (or_close m).
Proof. intros K. unfold or_close. apply _. Qed.

Lemma or_close_ok m e w u w' : or_close m e w = (Ok u, w') → m e w = (Ok (), w').
Proof.
  unfold or_close, mbind, M_bind, try. destruct (m e w) as [[[]|s] w1]; [by intros [= _ <-]|].
  by destruct (storage_close e w1).
Qed.

Lemma resolve_db_cases path p f e w r w' :
  storage_resolve_db_path path e w = (r, w') → resolves path p → d_files (w_disk w) !! p = Some f → symlink f = false →
  same_state w w' ∧ match r with Ok q => q = p | Err _ => True end.
Proof.
  intros H Hp Hf Hs. unfold storage_resolve_db_path in H.
  rewrite guard_run in H by (destruct Hp as [? _]; by rewrite bool_decide_false).
  unfold mbind, M_bind, lib_call, get_files, lift in H. destruct (env_fault _ _); injection H as <- <-; [done|].
  split; [done|]. unfold follow_path. rewrite (resolves_entry _ _ Hp). cbn [mbind option_bind].
  change (w_disk (called w)) with (w_disk w). unfold symlink in Hs.
  unfold SYMLOOP_MAX. cbn [follow_links]. rewrite Hf. destruct (f_kind f); done.
Qed.


End Lemmas.

(** * Witnesses *)

Module StorageExample.
#[local] Existing Instance ToyPosix.posix.
#[local] Existing Instance ToyPosix.laws.
#[local] Existing Instance ToySqlite.sqlite.
#[local] Existing Instance ToySqlite.laws.

Definition e0 : env := Sample.env_at 1700000000.
(** A process that has opened nothing, on an empty disk. *)
Definition w_start : world := World None None false Sample.disk0 0 0 0.
Definition path : bytes := str "vault.db".
Definition p : bytes := slash :: path.

Lemma path_resolves : resolves path p.
Proof. split; [done|]. exists [dot], path, [slash]. by split_and!. Qed.

Definition w_init : world := (storage_init path e0 w_start).2.

Lemma storage_init_new_witness :
  ∃ w, storage_init path e0 w_start = (Ok (), w) ∧
    w_conn w = Some (Connection empty_database empty_database false) ∧ database_open p w ∧ private_vault p w.
Proof.
  destruct (storage_init_new path p e0 w_start) as (w & R & Hc & Hd & _ & Hp & _);
    [exact (Sample.env_at_healthy _)|exact path_resolves|reflexivity|reflexivity|split_and!; reflexivity|].
  exists w. exact (conj R (conj Hc (conj Hd Hp))).
Defined.

Lemma init_open :
  database_open p w_init ∧ w_conn w_init = Some (Connection empty_database empty_database false) ∧
  log_only p (d_files (w_disk w_init)).
Proof.
  destruct (wp_storage_init path p (λ _ w, database_open p w ∧
    w_conn w = Some (Connection empty_database empty_database false) ∧ log_only p (d_files (w_disk w))) e0 w_start)
    as ([] & w & R & H);
    [exact (Sample.env_at_healthy _)|exact path_resolves|reflexivity|reflexivity|split_and!; reflexivity|auto|].
  unfold w_init. rewrite R. exact H.
Qed.

Lemma storage_close_open_witness :
  ∃ w, storage_open path e0 (storage_close e0 w_init).2 = (Ok (), w) ∧ database_open p w ∧
    w_conn w = Some (Connection empty_database empty_database false).
Proof.
  apply (storage_close_open path p (Connection empty_database empty_database false) e0 w_init);
    [exact (proj1 init_open)|exact (proj1 (proj2 init_open))|exact path_resolves|exact (proj2 (proj2 init_open))
    |runs storage_close e0 w_init|exact (Sample.env_at_healthy _)].
Defined.

(** Someone has put a symbolic link where the log would be; the vault file is an
    empty file that all may read. *)
Definition link : file := File (Symlink (str "/other")) [] true 511.
Definition w_link : world :=
  World None None false
    (Disk (<[wal p := link]> {[ p := File Regular [] true S_PUBLIC_KEY_MODE ]}) (d_database Sample.disk0)) 0 0 0.

(** The same without the link, and an old log that all may read. *)
Definition w_old_log : world :=
  World None None false
    (Disk (<[wal p := File Regular (str "x") true S_PUBLIC_KEY_MODE]> (d_files (w_disk (storage_close e0 w_init).2)))
       (d_database Sample.disk0)) 0 0 0.


(** Opening an empty file writes it and makes a log, though the file is then
    refused because it has no schema. *)
Example open_empty_file :
  let fs := <[wal p := File Regular [] true S_PUBLIC_KEY_MODE]> {[ p := File Regular [] true S_PUBLIC_KEY_MODE ]} in
  let '(r, w) := storage_open path e0 (World None None false (Disk fs (d_database Sample.disk0)) 0 0 0) in
  r = Err SM_ERR_STORAGE ∧ f_mode <$> d_files (w_disk w) !! p = Some S_IRUSR_IWUSR ∧
  bool_decide (f_content <$> d_files (w_disk w) !! p = Some []) = false ∧
  d_files (w_disk w) !! wal p = None ∧ d_files (w_disk w) !! shm p = None.
Proof. vm_compute. by split_and!. Qed.

End StorageExample.
