(* ===== verification/KeyManager.v ===== *)
(** Data-key wrapping and the rotation of the key-encryption key
    (src/src/key_manager.c). [key_manager_rotate_kek] re-wraps the DEK of
    every row under the new KEK; the theorems say that each row opens to the
    same plaintext under the new key, and nothing else of the row changes. *)

From S2P Require Import Prelude Status Sodium Schema State Utils CryptoEngine.

Definition KEY_MANAGER_AAD_MAX : nat := 256.
Definition KEY_MANAGER_ALGORITHM_MAX : nat := 32.
Definition KEY_MANAGER_AES_ALGORITHM : bytes := str "AES-256-GCM".
Definition KEY_MANAGER_XCHACHA_ALGORITHM : bytes := str "XChaCha20-Poly1305".
Definition KEY_MANAGER_AEGIS_ALGORITHM : bytes := str "AEGIS-256".
Definition KEY_MANAGER_DEK_BYTES : nat := crypto_aead_KEYBYTES.
Definition KEY_MANAGER_MAX_NONCE_BYTES : nat := 32.
Definition KEY_MANAGER_MAX_TAG_BYTES : nat := 32.
Definition KEY_MANAGER_WRAPPED_DEK_BYTES : nat := KEY_MANAGER_DEK_BYTES + KEY_MANAGER_MAX_TAG_BYTES.

Definition key_manager_init_sodium : M unit := lib_call SM_ERR_CRYPTO.

(** The same loop as in crypto_engine.c. *)
Definition key_manager_algorithm_equals_literal (left right : bytes) : bool :=
  if (KEY_MANAGER_ALGORITHM_MAX <=? length right)%nat then false
  else algorithm_equals_loop KEY_MANAGER_ALGORITHM_MAX 0 left right.

(** The version 0 is refused here, unlike in crypto_engine.c. *)
Definition key_manager_build_aad (aad_len : nat) (secret_id : bytes) (version : Z) : outcome bytes :=
  if bool_decide (c_str secret_id = []) || (version =? 0)%Z then Err SM_ERR_INVALID_ARGUMENT
  else
    let s := c_str secret_id ++ str ":" ++ print_dec version in
    if (aad_len <=? length s)%nat then Err SM_ERR_INVALID_ARGUMENT else Ok s.

Definition key_manager_validate_kek (kek : bytes) : outcome unit :=
  check (length kek =? KEY_MANAGER_DEK_BYTES)%nat SM_ERR_INVALID_ARGUMENT.

(** A text column as a C string in a buffer of [output_len] bytes. *)
Definition key_manager_copy_text_column (text : bytes) (output_len : nat) : outcome bytes :=
  if (output_len =? 0)%nat then Err SM_ERR_INVALID_ARGUMENT
  else if (output_len <=? length (c_str text))%nat then Err SM_ERR_STORAGE
  else Ok (c_str text).

Section KeyManager.
Context {CR : Crypto}.

Definition key_manager_algorithm_from_name (name : bytes) : outcome aead_alg :=
  if key_manager_algorithm_equals_literal name KEY_MANAGER_AES_ALGORITHM then
    if aes256gcm_is_available then Ok AES_256_GCM else Err SM_ERR_CRYPTO
  else if key_manager_algorithm_equals_literal name KEY_MANAGER_XCHACHA_ALGORITHM then
    Ok XCHACHA20_POLY1305
  else if has_aegis && key_manager_algorithm_equals_literal name KEY_MANAGER_AEGIS_ALGORITHM then
    Ok AEGIS_256
  else Err SM_ERR_INVALID_ARGUMENT.

Definition key_manager_nonce_bytes (algorithm : aead_alg) : nat :=
  match algorithm with
  | AES_256_GCM => aead_NPUBBYTES AES_256_GCM
  | AEGIS_256 => if has_aegis then aead_NPUBBYTES AEGIS_256
                 else aead_NPUBBYTES XCHACHA20_POLY1305
  | XCHACHA20_POLY1305 => aead_NPUBBYTES XCHACHA20_POLY1305
  end.

Definition key_manager_tag_bytes (algorithm : aead_alg) : nat :=
  match algorithm with
  | AES_256_GCM => aead_ABYTES AES_256_GCM
  | AEGIS_256 => if has_aegis then aead_ABYTES AEGIS_256 else aead_ABYTES XCHACHA20_POLY1305
  | XCHACHA20_POLY1305 => aead_ABYTES XCHACHA20_POLY1305
  end.

Definition key_manager_encrypt_dek (algorithm : aead_alg) (dek aad dek_nonce kek : bytes) : M bytes :=
  lib_call SM_ERR_CRYPTO ;;
  mret (aead_encrypt (payload_cipher algorithm) kek dek_nonce aad dek).

Definition key_manager_decrypt_dek (algorithm : aead_alg)
    (wrapped_dek aad dek_nonce kek : bytes) : M bytes :=
  lift (from_option_or SM_ERR_CRYPTO
          (aead_decrypt (payload_cipher algorithm) kek dek_nonce aad wrapped_dek)).

Definition key_manager_generate_dek (dek_len : nat) : M bytes :=
  guard_or (dek_len =? KEY_MANAGER_DEK_BYTES)%nat SM_ERR_INVALID_ARGUMENT ;;
  key_manager_init_sodium ;;
  randombytes_buf dek_len.

(** The wrapped key and its nonce; the capacities are those of the buffers. *)
Definition key_manager_wrap_dek (algorithm secret_id : bytes) (version : Z) (dek kek : bytes)
    (dek_nonce_len wrapped_dek_len : nat) : M (bytes * bytes) :=
  guard_or (length dek =? KEY_MANAGER_DEK_BYTES)%nat SM_ERR_INVALID_ARGUMENT ;;
  lift (key_manager_validate_kek kek) ;;
  key_manager_init_sodium ;;
  alg ← lift (key_manager_algorithm_from_name algorithm);
  aad ← lift (key_manager_build_aad KEY_MANAGER_AAD_MAX secret_id version);
  let nonce_len := key_manager_nonce_bytes alg in
  let expected_wrapped_len := (KEY_MANAGER_DEK_BYTES + key_manager_tag_bytes alg)%nat in
  guard_or ((nonce_len <=? dek_nonce_len) && (expected_wrapped_len <=? wrapped_dek_len))%nat
    SM_ERR_INVALID_ARGUMENT ;;
  dek_nonce ← randombytes_buf nonce_len;
  wrapped_dek ← key_manager_encrypt_dek alg dek aad dek_nonce kek;
  guard_or (length wrapped_dek =? expected_wrapped_len)%nat SM_ERR_CRYPTO ;;
  mret (wrapped_dek, dek_nonce).

Definition key_manager_unwrap_dek (algorithm secret_id : bytes) (version : Z)
    (wrapped_dek dek_nonce kek : bytes) (dek_len : nat) : M bytes :=
  guard_or (KEY_MANAGER_DEK_BYTES <=? dek_len)%nat SM_ERR_INVALID_ARGUMENT ;;
  lift (key_manager_validate_kek kek) ;;
  key_manager_init_sodium ;;
  alg ← lift (key_manager_algorithm_from_name algorithm);
  aad ← lift (key_manager_build_aad KEY_MANAGER_AAD_MAX secret_id version);
  guard_or ((length dek_nonce =? key_manager_nonce_bytes alg)
            && (length wrapped_dek =? KEY_MANAGER_DEK_BYTES + key_manager_tag_bytes alg))%nat
    SM_ERR_INVALID_ARGUMENT ;;
  dek ← key_manager_decrypt_dek alg wrapped_dek aad dek_nonce kek;
  guard_or (length dek =? KEY_MANAGER_DEK_BYTES)%nat SM_ERR_CRYPTO ;;
  mret dek.

Definition key_manager_rewrap_dek (algorithm secret_id : bytes) (version : Z)
    (old_wrapped_dek old_dek_nonce old_kek new_kek : bytes)
    (new_wrapped_dek_len new_dek_nonce_len : nat) : M (bytes * bytes) :=
  lib_call SM_ERR_STORAGE ;;
  dek ← key_manager_unwrap_dek algorithm secret_id version old_wrapped_dek old_dek_nonce
          old_kek KEY_MANAGER_DEK_BYTES;
  key_manager_wrap_dek algorithm secret_id version dek new_kek
    new_dek_nonce_len new_wrapped_dek_len.

(** [UPDATE secrets SET encrypted_dek, dek_nonce, key_commitment WHERE id]:
    exactly one row must change. *)
Definition key_manager_update_wrapped_dek
    (id wrapped_dek dek_nonce key_commitment : bytes) : M unit :=
  guard_or ((Z.of_nat (length wrapped_dek) <=? INT_MAX)%Z
            && (Z.of_nat (length dek_nonce) <=? INT_MAX)%Z
            && (length key_commitment =? CRYPTO_ENGINE_COMMITMENT_BYTES)%nat)
    SM_ERR_INVALID_ARGUMENT ;;
  changes ← sql_exec (λ db,
    let '(t, n) := update_where (λ r, bool_decide (sr_id r = c_str id))
                     (rewrap_row wrapped_dek dek_nonce key_commitment) (t_secrets db) in
    Some (with_secrets t db, n));
  guard_or (changes =? 1)%nat SM_ERR_STORAGE.

(** One turn of the loop of [key_manager_rotate_kek]. *)
Definition rotate_row (old_kek new_kek : bytes) (r : secret_row) : M unit :=
  lib_call SM_ERR_STORAGE ;;
  id ← lift (key_manager_copy_text_column (sr_id r) UTILS_UUID_V4_BUFFER_LEN);
  guard_or (negb (bool_decide (sr_name r = [])) && no_nul (sr_name r)) SM_ERR_STORAGE ;;
  let version := column_int (sr_version r) in
  guard_or (1 <=? version)%Z SM_ERR_STORAGE ;;
  algorithm ← lift (key_manager_copy_text_column (sr_algorithm r) KEY_MANAGER_ALGORITHM_MAX);
  guard_or ((0 <? length (sr_encrypted_dek r)) && (0 <? length (sr_dek_nonce r))
            && (length (sr_key_commitment r) =? CRYPTO_ENGINE_COMMITMENT_BYTES))%nat
    SM_ERR_STORAGE ;;
  identity ← crypto_engine_build_row_identity id (sr_name r) CRYPTO_ENGINE_ROW_IDENTITY_HEX_LEN;
  '(new_wrapped_dek, new_dek_nonce) ←
    key_manager_rewrap_dek algorithm identity version (sr_encrypted_dek r) (sr_dek_nonce r)
      old_kek new_kek KEY_MANAGER_WRAPPED_DEK_BYTES KEY_MANAGER_MAX_NONCE_BYTES;
  kek_half ← crypto_engine_compute_key_commitment new_kek CRYPTO_ENGINE_COMMIT_DOMAIN_KEK
               new_dek_nonce CRYPTO_ENGINE_COMMITMENT_HALF_BYTES;
  let dek_half := take CRYPTO_ENGINE_COMMITMENT_HALF_BYTES
                    (drop CRYPTO_ENGINE_COMMITMENT_HALF_BYTES (sr_key_commitment r)) in
  key_manager_update_wrapped_dek id new_wrapped_dek new_dek_nonce (kek_half ++ dek_half).

(** [ORDER BY id ASC]. *)
Definition by_id (a b : secret_row) : Prop := Is_true (str_leb (sr_id a) (sr_id b)).
#[export] Instance by_id_dec a b : Decision (by_id a b) := _.

Definition key_manager_rotate_kek (old_kek new_kek : bytes) : M unit :=
  require_db ;;
  lift (key_manager_validate_kek old_kek) ;;
  lift (key_manager_validate_kek new_kek) ;;
  key_manager_init_sodium ;;
  rows ← sql_query (λ db, merge_sort by_id (t_secrets db));
  for_each (rotate_row old_kek new_kek) rows ;;
  lib_call SM_ERR_STORAGE.

(** * Specification of a stored row *)

Definition row_envelope (r : secret_row) : encrypted_secret_t :=
  EncryptedSecret (c_str (sr_algorithm r)) (sr_ciphertext r) (sr_encrypted_dek r)
    (sr_nonce r) (sr_dek_nonce r) (sr_key_commitment r).

Definition row_identity (r : secret_row) : bytes :=
  bin2hex (sha256 (row_identity_preimage (c_str (sr_id r)) (c_str (sr_name r)))).

(** The plaintext of a row under a KEK. *)
Definition open_row (kek : bytes) (r : secret_row) : outcome bytes :=
  open_envelope kek (row_identity r) (column_int (sr_version r)) (row_envelope r).

(** [r'] is [r] under another KEK: the three columns of the wrapped key may
    differ, the DEK half of the commitment may not, and every plaintext [r]
    had under the old key [r'] has under the new one. *)
Definition rewrapped (old_kek new_kek : bytes) (r r' : secret_row) : Prop :=
  r' = rewrap_row (sr_encrypted_dek r') (sr_dek_nonce r') (sr_key_commitment r') r ∧
  drop CRYPTO_ENGINE_COMMITMENT_HALF_BYTES (sr_key_commitment r')
    = drop CRYPTO_ENGINE_COMMITMENT_HALF_BYTES (sr_key_commitment r) ∧
  ∀ pt, open_row old_kek r = Ok pt → open_row new_kek r' = Ok pt.

(** Ids are C strings and unique: the primary key of the table. *)
Definition ids_ok (t : list secret_row) : Prop :=
  NoDup (sr_id <$> t) ∧ Forall (λ r, Byte.x00 ∉ sr_id r) t.

(** * Lemmas *)

#[export] Instance keeps_wrap_dek a i v d k n m : Keeps same_state (key_manager_wrap_dek a i v d k n m).
Proof. unfold key_manager_wrap_dek, key_manager_init_sodium, key_manager_encrypt_dek. apply _. Qed.
#[export] Instance keeps_unwrap_dek a i v d n k m : Keeps same_state (key_manager_unwrap_dek a i v d n k m).
Proof. unfold key_manager_unwrap_dek, key_manager_init_sodium, key_manager_decrypt_dek. apply _. Qed.
#[export] Instance keeps_rewrap_dek a i v d n k k' m o :
  Keeps same_state (key_manager_rewrap_dek a i v d n k k' m o).
Proof. unfold key_manager_rewrap_dek. apply _. Qed.
#[export] Instance keeps_update_wrapped_dek i d n k :
  Keeps in_transaction (key_manager_update_wrapped_dek i d n k).
Proof. unfold key_manager_update_wrapped_dek. apply _. Qed.
#[export] Instance keeps_rotate_row k k' r : Keeps in_transaction (rotate_row k k' r).
Proof. unfold rotate_row. keeps_tac. Qed.
#[export] Instance keeps_rotate_kek k k' : Keeps in_transaction (key_manager_rotate_kek k k').
Proof. unfold key_manager_rotate_kek, key_manager_init_sodium. apply _. Qed.

Context {CL : CryptoLaws CR}.

Lemma km_equals_spec left right :
  Byte.x00 ∉ right → (length right < KEY_MANAGER_ALGORITHM_MAX)%nat →
  key_manager_algorithm_equals_literal left right = bool_decide (c_str left = right).
Proof. apply algorithm_equals_spec. Qed.

(** The names this module accepts mean the same in crypto_engine.c. *)
Lemma km_algorithm_from_name_spec name alg :
  key_manager_algorithm_from_name name = Ok alg →
  crypto_engine_algorithm_from_name name = Ok alg ∧
  crypto_engine_algorithm_is_available alg = Ok ().
Proof.
  unfold key_manager_algorithm_from_name, crypto_engine_algorithm_is_available.
  rewrite algorithm_from_name_spec.
  assert (∀ r, r ∈ [KEY_MANAGER_AES_ALGORITHM; KEY_MANAGER_XCHACHA_ALGORITHM;
                    KEY_MANAGER_AEGIS_ALGORITHM] →
          key_manager_algorithm_equals_literal name r = bool_decide (c_str name = r)) as Heq.
  { intros r Hr. apply km_equals_spec.
    - apply (bool_decide_unpack _). rewrite !elem_of_cons, elem_of_nil in Hr.
      destruct Hr as [->|[->|[->|[]]]]; vm_compute; exact I.
    - apply Nat.ltb_lt. rewrite !elem_of_cons, elem_of_nil in Hr.
      destruct Hr as [->|[->|[->|[]]]]; reflexivity. }
  rewrite !Heq by (rewrite !elem_of_cons; tauto). clear Heq.
  repeat case_bool_decide; destruct has_aegis, aes256gcm_is_available; simpl;
    intros [= <-]; simpl; split; try done; rewrite ?bool_decide_false by done; auto 6.
Qed.

Lemma km_build_aad_spec n id v aad :
  key_manager_build_aad n id v = Ok aad →
  crypto_engine_build_aad n id v = Ok aad ∧ c_str id ≠ [] ∧ v ≠ 0%Z.
Proof.
  unfold key_manager_build_aad, crypto_engine_build_aad.
  case_bool_decide; simpl; [done|]. destruct (Z.eqb_spec v 0); [done|].
  destruct (_ <=? _)%nat; [done|]. intros [= <-]. done.
Qed.

Lemma rewrap_dek_ok alg id v ow on ok nk n m e w nw nn w' :
  key_manager_rewrap_dek alg id v ow on ok nk n m e w = (Ok (nw, nn), w') →
  ∃ a aad dek,
    key_manager_algorithm_from_name alg = Ok a ∧
    key_manager_build_aad KEY_MANAGER_AAD_MAX id v = Ok aad ∧
    aead_decrypt (payload_cipher a) ok on aad ow = Some dek ∧
    length dek = KEY_MANAGER_DEK_BYTES ∧
    nw = aead_encrypt (payload_cipher a) nk nn aad dek ∧
    length nn = key_manager_nonce_bytes a.
Proof.
  unfold key_manager_rewrap_dek, key_manager_unwrap_dek, key_manager_wrap_dek,
    key_manager_decrypt_dek, key_manager_encrypt_dek, key_manager_init_sodium.
  intros H. inv_m. simplify_eq.
  match goal with H : from_option_or _ _ = Ok _ |- _ => apply from_option_or_ok in H end.
  match goal with H1 : key_manager_algorithm_from_name alg = Ok ?a,
                  H2 : key_manager_algorithm_from_name alg = Ok ?b |- _ =>
    assert (a = b) as -> by congruence end.
  match goal with H1 : key_manager_build_aad _ id v = Ok ?a,
                  H2 : key_manager_build_aad _ id v = Ok ?b |- _ =>
    assert (a = b) as -> by congruence end.
  do 3 eexists. split_and!; try done. by apply Nat.eqb_eq.
Qed.

Lemma km_nonce_bytes a : key_manager_nonce_bytes a = crypto_engine_nonce_bytes a.
Proof. done. Qed.
Lemma km_tag_bytes a : key_manager_tag_bytes a = crypto_engine_tag_bytes a.
Proof. done. Qed.

(** An envelope whose DEK is wrapped again opens under the new key. *)
Lemma open_rewrapped ok nk id v es pt a aad dek nn :
  crypto_engine_algorithm_from_name (es_algorithm es) = Ok a →
  crypto_engine_build_aad CRYPTO_ENGINE_AAD_MAX id v = Ok aad →
  aead_decrypt (payload_cipher a) ok (es_dek_nonce es) aad (es_encrypted_dek es) = Some dek →
  length nn = crypto_engine_nonce_bytes a →
  open_envelope ok id v es = Ok pt →
  open_envelope nk id v
    (EncryptedSecret (es_algorithm es) (es_ciphertext es)
       (aead_encrypt (payload_cipher a) nk nn aad dek) (es_nonce es) nn
       (commitment nk CRYPTO_ENGINE_COMMIT_DOMAIN_KEK nn ++
        take CRYPTO_ENGINE_COMMITMENT_HALF_BYTES
          (drop CRYPTO_ENGINE_COMMITMENT_HALF_BYTES (es_key_commitment es)))) = Ok pt.
Proof.
  intros Ha Haad Hdek Hnn H. unfold open_envelope in *. cbn [es_algorithm].
  inv_outcome. rewrite check_run by done. rewrite Ha in *. simplify_eq.
  match goal with H : crypto_engine_algorithm_is_available _ = Ok ?u |- _ =>
    destruct u; rewrite ok_run, H, ok_run end.
  rewrite Haad in *. simplify_eq. rewrite ok_run.
  match goal with H : open_dek _ _ _ _ = _ |- _ => unfold open_dek in H end.
  case_match; [|done]. simplify_eq.
  unfold dek_committed, envelope_shape, open_dek in *.
  cbn [es_ciphertext es_encrypted_dek es_nonce es_dek_nonce es_key_commitment].
  repeat match goal with H : _ && _ = true |- _ => apply andb_true_iff in H as [? ?] end.
  rewrite !Nat.eqb_eq, ?Nat.leb_le in *.
  rewrite (take_app_length' (commitment _ _ _)) by (by rewrite length_commitment).
  rewrite (drop_app_length' (commitment _ _ _)) by (by rewrite length_commitment).
  rewrite (bool_decide_true (commitment nk _ _ = _)) by done.
  rewrite aead_decrypt_encrypt. cbn [from_option_or]. rewrite take_take, Nat.min_id.
  rewrite length_aead_encrypt, length_app, length_take, length_drop, length_commitment.
  unfold CRYPTO_ENGINE_COMMITMENT_BYTES in *.
  rewrite check_run by (rewrite !andb_true_iff, !Nat.leb_le, !Nat.eqb_eq, <- tag_bytes_cipher;
    split_and!; lia).
  rewrite ok_run.
  rewrite check_run by (apply andb_true_iff; split; [by apply Nat.eqb_eq|done]).
  match goal with H : aead_decrypt _ dek _ _ _ = _ |- _ => by rewrite H end.
Qed.

Lemma copy_text_ok t n s : key_manager_copy_text_column t n = Ok s → s = c_str t.
Proof.
  unfold key_manager_copy_text_column. destruct (n =? 0)%nat; [done|].
  destruct (_ <=? _)%nat; [done|]. by intros [= <-].
Qed.

(** The update of one row of a table with unique ids. *)
Definition replace_row (r r' : secret_row) (q : secret_row) : secret_row :=
  if bool_decide (sr_id q = sr_id r)
  then rewrap_row (sr_encrypted_dek r') (sr_dek_nonce r') (sr_key_commitment r') q else q.

(** What one turn of the loop does, in whatever environment it succeeds. *)
Lemma rotate_row_ok ok nk r e w c u w' :
  Byte.x00 ∉ sr_id r → w_conn w = Some c →
  rotate_row ok nk r e w = (Ok u, w') →
  ∃ r' c', rewrapped ok nk r r' ∧ w_conn w' = Some c' ∧
    conn_in_tx c' = conn_in_tx c ∧
    conn_cur c' = with_secrets (replace_row r r' <$> t_secrets (conn_cur c)) (conn_cur c).
Proof.
  intros Hid Hc H. unfold rotate_row in H. inv_m.
  repeat match goal with
  | H : (let '(_, _) := ?p in _) _ _ = _ |- _ => destruct p as [nw nn]
  end. inv_m.
  match goal with H : key_manager_copy_text_column (sr_id r) _ = _ |- _ => apply copy_text_ok in H end.
  match goal with H : key_manager_copy_text_column (sr_algorithm r) _ = _ |- _ => apply copy_text_ok in H end.
  subst. rewrite (c_str_no_nul (sr_id r)) in * by done.
  match goal with H : crypto_engine_build_row_identity _ _ _ e ?w1 = (_, ?w2) |- _ =>
    pose proof (keeps_run same_state _ _ _ _ _ H) as (Hc1 & _);
    apply row_identity_shape in H as (-> & Hcid & _) end.
  match goal with H : key_manager_rewrap_dek _ _ _ _ _ _ _ _ _ e ?w1 = (_, ?w2) |- _ =>
    pose proof (keeps_run same_state _ _ _ _ _ H) as (Hc2 & _);
    apply rewrap_dek_ok in H as (a & aad & dek & Ha & Haad & Hdek & Hlen & -> & Hnn) end.
  match goal with H : crypto_engine_compute_key_commitment _ _ _ _ e ?w1 = (_, ?w2) |- _ =>
    pose proof (keeps_run same_state _ _ _ _ _ H) as (Hc3 & _);
    unfold crypto_engine_compute_key_commitment, crypto_engine_commitment,
      crypto_engine_init_sodium in H end.
  inv_m.
  match goal with H : key_manager_update_wrapped_dek _ _ _ _ _ _ = _ |- _ =>
    unfold key_manager_update_wrapped_dek in H end.
  inv_m.
  match goal with H : sql_exec _ _ _ = _ |- _ =>
    apply sql_exec_ok in H as (c1 & db & E1 & Hu & ->) end.
  assert (c1 = c) as -> by (cbn [w_conn called] in *; congruence).
  rewrite (c_str_no_nul (sr_id r)) in Hu by done.
  unfold update_where in Hu. injection Hu as <- <-.
  apply km_algorithm_from_name_spec in Ha as [Ha Hav]. apply km_build_aad_spec in Haad as (Haad & _).
  set (nw := aead_encrypt (payload_cipher a) nk nn aad dek) in *.
  set (kc := commitment nk _ nn ++ _) in *.
  exists (rewrap_row nw nn kc r). eexists. split_and!; [|done|done|].
  - unfold rewrapped. split_and!; [done| |].
    + cbn [sr_key_commitment rewrap_row]. unfold kc.
      rewrite (drop_app_length' (commitment _ _ _)) by (by rewrite length_commitment).
      match goal with H : (_ && (length (sr_key_commitment r) =? _)%nat = true) |- _ =>
        apply andb_true_iff in H as [_ H%Nat.eqb_eq] end.
      apply take_ge. rewrite length_drop. unfold CRYPTO_ENGINE_COMMITMENT_BYTES in *. lia.
    + intros pt Hpt. unfold open_row, row_envelope in *.
      eapply (open_rewrapped ok nk _ _ _ pt a aad dek nn) in Hpt; eassumption.
  - reflexivity.
Qed.

Lemma replace_row_id r r' q : sr_id (replace_row r r' q) = sr_id q.
Proof. unfold replace_row. by case_bool_decide. Qed.

Lemma replace_row_other r r' q : sr_id q ≠ sr_id r → replace_row r r' q = q.
Proof. intros H. unfold replace_row. by rewrite bool_decide_false. Qed.

Lemma ids_replace r r' (t : list secret_row) : sr_id <$> (replace_row r r' <$> t) = sr_id <$> t.
Proof. rewrite <- list_fmap_compose. apply list_fmap_ext. intros i q _. apply replace_row_id. Qed.

Lemma same_id (t : list secret_row) r q : NoDup (sr_id <$> t) → r ∈ t → q ∈ t → sr_id r = sr_id q → r = q.
Proof.
  intros Hnd (i & Hi)%list_elem_of_lookup (j & Hj)%list_elem_of_lookup E.
  assert (i = j) as ->; [|congruence].
  eapply (NoDup_lookup _ _ _ (sr_id r) Hnd); rewrite list_lookup_fmap.
  - by rewrite Hi.
  - rewrite Hj. simpl. congruence.
Qed.

Definition rewrapped_in (l : list secret_row) (ok nk : bytes) (r r' : secret_row) : Prop :=
  if decide (sr_id r ∈ sr_id <$> l) then rewrapped ok nk r r' else r' = r.

(** The loop re-wraps each of the rows it visits and no other. *)
Lemma rotate_rows_ok ok nk l e w c u w' :
  w_conn w = Some c → ids_ok (t_secrets (conn_cur c)) →
  NoDup (sr_id <$> l) → (∀ r, r ∈ l → r ∈ t_secrets (conn_cur c)) →
  for_each (rotate_row ok nk) l e w = (Ok u, w') →
  ∃ c' t', w_conn w' = Some c' ∧ conn_in_tx c' = conn_in_tx c ∧
    conn_cur c' = with_secrets t' (conn_cur c) ∧
    Forall2 (rewrapped_in l ok nk) (t_secrets (conn_cur c)) t'.
Proof.
  revert w c. induction l as [|x l IH]; intros w c Hc [Hnd Hnul] Hl Hin H; cbn [for_each] in H.
  - inv_m. exists c, (t_secrets (conn_cur c)). split_and!; try done.
    { by destruct (conn_cur c). }
    apply Forall2_same_length_lookup_2; [done|]. intros i r r' Hr Hr'.
    unfold rewrapped_in. rewrite decide_False by (apply not_elem_of_nil). congruence.
  - inv_m. rewrite fmap_cons in Hl. apply NoDup_cons in Hl as [Hx Hl].
    assert (x ∈ t_secrets (conn_cur c)) as Hxt by (apply Hin, elem_of_cons; by left).
    rewrite Forall_forall in Hnul.
    match goal with H : rotate_row _ _ _ _ _ = _ |- _ =>
      apply (rotate_row_ok ok nk x e w c) in H as (x' & c1 & Hrw & Hc1 & Htx1 & Hcur); [|auto|done] end.
    assert (t_secrets (conn_cur c1) = replace_row x x' <$> t_secrets (conn_cur c)) as Ht1
      by (by rewrite Hcur).
    destruct (IH _ c1 Hc1) as (c' & t' & Hc' & Htx' & Hcur' & HF); [|done| |exact H|].
    + rewrite Ht1. split; [by rewrite ids_replace|].
      apply Forall_fmap, Forall_forall. intros q Hq. simpl. rewrite replace_row_id. auto.
    + intros q Hq. rewrite Ht1. apply list_elem_of_fmap. exists q. split.
      * rewrite replace_row_other; [done|]. intros E. apply Hx. rewrite <- E.
        by apply list_elem_of_fmap_2.
      * apply Hin, elem_of_cons. by right.
    + exists c', t'. split_and!; [done|congruence|by rewrite Hcur', Hcur|].
      rewrite Ht1, Forall2_fmap_l in HF.
      eapply Forall2_impl_in; [exact HF|]. intros q q' Hq. simpl.
      unfold rewrapped_in. rewrite replace_row_id, fmap_cons.
      destruct (decide (sr_id q = sr_id x)) as [E|E].
      * assert (q = x) as -> by (by apply (same_id (t_secrets (conn_cur c)))).
        rewrite (decide_False (P := sr_id x ∈ sr_id <$> l)) by done. intros ->.
        rewrite decide_True by (apply elem_of_cons; by left).
        unfold replace_row. rewrite bool_decide_true by done.
        destruct Hrw as (E1 & ?). by rewrite <- E1.
      * rewrite (replace_row_other _ _ _ E).
        destruct (decide (sr_id q ∈ sr_id <$> l)) as [Hq'|Hq'].
        -- by rewrite decide_True by (apply elem_of_cons; by right).
        -- by rewrite decide_False by (rewrite not_elem_of_cons; done).
Qed.

(** Every row is re-wrapped, in place. *)
Lemma rotate_kek_rewraps ok nk e w c u w' :
  w_conn w = Some c → ids_ok (t_secrets (conn_cur c)) →
  key_manager_rotate_kek ok nk e w = (Ok u, w') →
  ∃ c' t', w_conn w' = Some c' ∧ conn_cur c' = with_secrets t' (conn_cur c) ∧
    Forall2 (rewrapped ok nk) (t_secrets (conn_cur c)) t'.
Proof.
  intros Hc Hids H. unfold key_manager_rotate_kek, key_manager_init_sodium in H. inv_m.
  match goal with H : sql_query _ _ _ = _ |- _ => apply sql_query_ok in H as (c0 & Hc0 & -> & ->) end.
  cbn [w_conn called] in Hc0. assert (c0 = c) as -> by congruence.
  match goal with H : for_each _ _ e _ = _ |- _ => rename H into Hloop end.
  apply (rotate_rows_ok ok nk _ e _ c) in Hloop; [|done|done| |].
  - destruct Hloop as (c' & t' & Hc' & _ & Hcur & HF). exists c', t'. split_and!; [done|done|].
    eapply Forall2_impl_in; [exact HF|]. intros r r' Hr. unfold rewrapped_in.
    rewrite decide_True; [done|]. apply list_elem_of_fmap_2.
    by rewrite merge_sort_Permutation.
  - rewrite merge_sort_Permutation. apply Hids.
  - intros r Hr. by rewrite merge_sort_Permutation in Hr.
Qed.

(** A successful rotation keeps the number and the order of the rows and
    changes of each row the wrapped key only; whatever
    [crypto_engine_decrypt] read of a row under the old key, it reads of the
    row's successor under the new key. *)
Theorem key_manager_rotate_kek_preserves ok nk e w c u w' :
  w_conn w = Some c → ids_ok (t_secrets (conn_cur c)) →
  key_manager_rotate_kek ok nk e w = (Ok u, w') →
  ∃ c' t', w_conn w' = Some c' ∧ conn_cur c' = with_secrets t' (conn_cur c) ∧
    Forall2 (λ r r',
      r' = rewrap_row (sr_encrypted_dek r') (sr_dek_nonce r') (sr_key_commitment r') r ∧
      ∀ n pt e1 w1 w1' e2 w2,
        crypto_engine_decrypt (row_envelope r) ok (row_identity r) (column_int (sr_version r)) n e1 w1
          = (Ok pt, w1') → healthy e2 →
        (crypto_engine_decrypt (row_envelope r') nk (row_identity r') (column_int (sr_version r')) n
           e2 w2).1 = Ok pt)
      (t_secrets (conn_cur c)) t'.
Proof.
  intros Hc Hids H. apply (rotate_kek_rewraps _ _ _ _ c) in H as (c' & t' & Hc' & Hcur & HF); [|done..].
  exists c', t'. split_and!; [done..|]. eapply Forall2_impl; [exact HF|].
  intros r r' (Hr & _ & Ho). split; [done|]. intros n pt e1 w1 w1' e2 w2 Hd He.
  apply decrypt_opens in Hd as [Hd Hn].
  destruct (wp_decrypt (row_envelope r') nk (row_identity r') (column_int (sr_version r')) n pt
    (λ a _, a = pt) e2 w2 He (Ho _ Hd) Hn) as (a & w3 & -> & ->); done.
Qed.

(** * Rotation succeeds *)

(** What the columns of a row written by the vault satisfy. *)
Definition storable (r : secret_row) : Prop :=
  no_nul (sr_id r) = true ∧ sr_id r ≠ [] ∧ (length (sr_id r) < UTILS_UUID_V4_BUFFER_LEN)%nat ∧
  sr_name r ≠ [] ∧ no_nul (sr_name r) = true ∧ (1 ≤ column_int (sr_version r))%Z ∧
  (sr_algorithm r = CRYPTO_ENGINE_ALGORITHM_AES_256_GCM ∨
   sr_algorithm r = CRYPTO_ENGINE_ALGORITHM_XCHACHA20_POLY1305 ∨
   sr_algorithm r = CRYPTO_ENGINE_ALGORITHM_AEGIS_256).

Lemma canonical_envelope es :
  es_algorithm es = CRYPTO_ENGINE_ALGORITHM_AES_256_GCM ∨
  es_algorithm es = CRYPTO_ENGINE_ALGORITHM_XCHACHA20_POLY1305 ∨
  es_algorithm es = CRYPTO_ENGINE_ALGORITHM_AEGIS_256 →
  EncryptedSecret (c_str (es_algorithm es)) (es_ciphertext es) (es_encrypted_dek es)
    (es_nonce es) (es_dek_nonce es) (es_key_commitment es) = es.
Proof.
  intros Ha. assert (c_str (es_algorithm es) = es_algorithm es) as ->; [|by destruct es].
  destruct Ha as [E | [E | E]]; rewrite E; vm_compute; reflexivity.
Qed.

Lemma km_algorithm_from_name_total name a :
  name = CRYPTO_ENGINE_ALGORITHM_AES_256_GCM ∨
  name = CRYPTO_ENGINE_ALGORITHM_XCHACHA20_POLY1305 ∨
  name = CRYPTO_ENGINE_ALGORITHM_AEGIS_256 →
  crypto_engine_algorithm_from_name name = Ok a →
  crypto_engine_algorithm_is_available a = Ok () →
  key_manager_algorithm_from_name name = Ok a ∧ c_str name = name ∧
  (length name < KEY_MANAGER_ALGORITHM_MAX)%nat.
Proof.
  intros [-> | [-> | ->]] H Hav; (split; [|split; [by vm_compute|apply Nat.ltb_lt; reflexivity]]).
  - change (Ok AES_256_GCM = Ok a) in H. injection H as <-. revert Hav.
    change (key_manager_algorithm_from_name _)
      with (if aes256gcm_is_available then Ok AES_256_GCM else Err SM_ERR_CRYPTO).
    unfold crypto_engine_algorithm_is_available. by destruct aes256gcm_is_available.
  - change (Ok XCHACHA20_POLY1305 = Ok a) in H. by injection H as <-.
  - change (crypto_engine_algorithm_from_name _)
      with (if has_aegis && true then Ok AEGIS_256 else Err SM_ERR_INVALID_ARGUMENT) in H.
    change (key_manager_algorithm_from_name _)
      with (if has_aegis && true then Ok AEGIS_256 else Err SM_ERR_INVALID_ARGUMENT).
    done.
Qed.

Lemma cipher_bounds a :
  (crypto_engine_nonce_bytes a ≤ 32)%nat ∧ (crypto_engine_tag_bytes a ≤ 32)%nat ∧
  (0 < crypto_engine_nonce_bytes a)%nat.
Proof.
  rewrite nonce_bytes_cipher, tag_bytes_cipher. destruct (payload_cipher a); simpl; lia.
Qed.

Lemma open_row_parts k r pt :
  open_row k r = Ok pt → ∃ a aad dek,
  crypto_engine_algorithm_from_name (c_str (sr_algorithm r)) = Ok a ∧
  crypto_engine_algorithm_is_available a = Ok () ∧
  crypto_engine_build_aad CRYPTO_ENGINE_AAD_MAX (row_identity r) (column_int (sr_version r)) = Ok aad ∧
  aead_decrypt (payload_cipher a) k (sr_dek_nonce r) aad (sr_encrypted_dek r) = Some dek ∧
  length dek = KEY_MANAGER_DEK_BYTES ∧
  length (sr_encrypted_dek r) = (KEY_MANAGER_DEK_BYTES + crypto_engine_tag_bytes a)%nat ∧
  length (sr_dek_nonce r) = crypto_engine_nonce_bytes a ∧
  length (sr_key_commitment r) = CRYPTO_ENGINE_COMMITMENT_BYTES.
Proof.
  unfold open_row, open_envelope, open_dek, dek_committed, envelope_shape.
  cbn [row_envelope es_algorithm es_ciphertext es_encrypted_dek es_nonce es_dek_nonce es_key_commitment].
  intros H. inv_outcome. case_match; [|done].
  match goal with H : crypto_engine_algorithm_is_available _ = Ok ?u |- _ => destruct u end.
  repeat match goal with H : _ && _ = true |- _ => apply andb_true_iff in H as [? ?] end.
  rewrite !Nat.eqb_eq in *. do 3 eexists. split_and!; try eassumption; unfold KEY_MANAGER_DEK_BYTES in *;
    unfold CRYPTO_ENGINE_DEK_BYTES in *; congruence.
Qed.

Lemma update_where_id (t : list secret_row) r f :
  NoDup (sr_id <$> t) → r ∈ t →
  (update_where (λ q, bool_decide (sr_id q = sr_id r)) f t).2 = 1%nat.
Proof.
  unfold update_where. simpl. intros Hnd Hr.
  induction t as [|q t IH]; [by apply not_elem_of_nil in Hr|].
  rewrite fmap_cons in Hnd. apply NoDup_cons in Hnd as [Hq Hnd].
  apply elem_of_cons in Hr as [->|Hr].
  - rewrite filter_cons_True by (by apply bool_decide_spec). simpl. f_equal.
    rewrite filter_none; [done|]. apply Forall_forall. intros x Hx Hd. apply Hq.
    apply bool_decide_spec in Hd. rewrite <- Hd. by apply list_elem_of_fmap_2.
  - rewrite filter_cons_False; [by apply IH|].
    intros Hd%bool_decide_spec. apply Hq. rewrite Hd. by apply list_elem_of_fmap_2.
Qed.

Lemma rotate_row_succeeds ok nk r pt e w c :
  healthy e → w_conn w = Some c → storable r → open_row ok r = Ok pt →
  length ok = KEY_MANAGER_DEK_BYTES → length nk = KEY_MANAGER_DEK_BYTES →
  NoDup (sr_id <$> t_secrets (conn_cur c)) → r ∈ t_secrets (conn_cur c) →
  ∃ w', rotate_row ok nk r e w = (Ok (), w').
Proof.
  intros He Hc (Hid%bool_decide_eq_true & Hidne & Hidl & Hnm & Hnul%bool_decide_eq_true & Hv & Halg)
    Hopen Hok Hnk Hnd Hr.
  apply open_row_parts in Hopen as (a & aad & dek & Ha & Hav & Haad & Hdek & Hdl & Hel & Hnl & Hkl).
  assert (c_str (sr_algorithm r) = sr_algorithm r) as Hca
    by (destruct Halg as [E|[E|E]]; rewrite E; vm_compute; reflexivity).
  rewrite Hca in Ha. destruct (km_algorithm_from_name_total _ _ Halg Ha Hav) as (Hkm & _ & Hal).
  destruct (cipher_bounds a) as (Hb1 & Hb2 & Hb3).
  enough (wp (rotate_row ok nk r) (λ _ _, True) e w) as ([] & w' & E & _) by eauto.
  assert (c_str (row_identity r) = row_identity r) as Hcri by apply c_str_no_nul, bin2hex_no_nul.
  assert (key_manager_build_aad KEY_MANAGER_AAD_MAX (row_identity r) (column_int (sr_version r)) = Ok aad)
    as Hkaad.
  { unfold key_manager_build_aad. rewrite Hcri, bool_decide_false.
    - rewrite (proj2 (Z.eqb_neq _ _)) by lia. cbn [orb].
      unfold crypto_engine_build_aad in Haad. by rewrite Hcri in Haad.
    - intros E. apply (f_equal length) in E. unfold row_identity in E.
      rewrite length_bin2hex, length_sha256 in E. discriminate E. }
  unfold rotate_row. wp_run.
  eapply wp_lift. { unfold key_manager_copy_text_column. rewrite c_str_no_nul by done.
    rewrite (proj2 (Nat.leb_gt _ _)) by done. reflexivity. }
  wp_run. apply wp_guard.
  { unfold no_nul. rewrite bool_decide_false by done. by rewrite bool_decide_true. }
  wp_run. apply wp_guard; [by apply Z.leb_le|]. wp_run.
  eapply wp_lift. { unfold key_manager_copy_text_column. rewrite Hca.
    rewrite (proj2 (Nat.leb_gt _ _)) by done. reflexivity. }
  wp_run. apply wp_guard.
  { rewrite !andb_true_iff, !Nat.ltb_lt, Nat.eqb_eq. split_and!; [|lia|done].
    rewrite Hel. apply Nat.add_pos_l, Nat.ltb_lt. reflexivity. }
  wp_run. unfold crypto_engine_build_row_identity. wp_run. apply wp_guard.
  { rewrite !c_str_no_nul, !bool_decide_false by done. reflexivity. }
  wp_run. fold (row_identity r).
  unfold key_manager_rewrap_dek, key_manager_unwrap_dek, key_manager_wrap_dek,
    key_manager_init_sodium, key_manager_decrypt_dek, key_manager_encrypt_dek.
  assert (∀ k, length k = KEY_MANAGER_DEK_BYTES → key_manager_validate_kek k = Ok ()) as Hval.
  { intros k E. unfold key_manager_validate_kek, check. by rewrite E, Nat.eqb_refl. }
  wp_run. apply wp_guard; [apply Nat.leb_le; lia|]. wp_run.
  eapply wp_lift; [by apply Hval|]. wp_run. eapply wp_lift; [exact Hkm|]. wp_run.
  eapply wp_lift; [exact Hkaad|]. wp_run. apply wp_guard.
  { rewrite km_nonce_bytes, km_tag_bytes. rewrite andb_true_iff, !Nat.eqb_eq. by split. }
  wp_run. eapply wp_lift; [by apply from_option_or_ok|]. wp_run.
  apply wp_guard; [by apply Nat.eqb_eq|]. wp_run. apply wp_guard; [by apply Nat.eqb_eq|]. wp_run.
  eapply wp_lift; [by apply Hval|]. wp_run. eapply wp_lift; [exact Hkm|]. wp_run.
  eapply wp_lift; [exact Hkaad|]. wp_run. apply wp_guard.
  { rewrite km_nonce_bytes, km_tag_bytes. rewrite andb_true_iff, !Nat.leb_le.
    unfold KEY_MANAGER_MAX_NONCE_BYTES, KEY_MANAGER_WRAPPED_DEK_BYTES, KEY_MANAGER_MAX_TAG_BYTES.
    split; lia. }
  wp_run. apply wp_guard.
  { apply Nat.eqb_eq. rewrite length_aead_encrypt, km_tag_bytes, tag_bytes_cipher. lia. }
  wp_run. unfold crypto_engine_compute_key_commitment, crypto_engine_commitment,
    crypto_engine_init_sodium. wp_run. apply wp_guard; [done|]. wp_run.
  unfold key_manager_update_wrapped_dek. wp_run. apply wp_guard.
  { rewrite !andb_true_iff, !Z.leb_le, Nat.eqb_eq, length_aead_encrypt, <- tag_bytes_cipher.
    rewrite length_app, length_commitment, length_take, length_drop, Hkl.
    unfold INT_MAX, KEY_MANAGER_DEK_BYTES, crypto_aead_KEYBYTES in *.
    rewrite Hlen, km_nonce_bytes. unfold CRYPTO_ENGINE_COMMITMENT_BYTES. split_and!; lia. }
  wp_run. rewrite (c_str_no_nul (sr_id r)) by done.
  eapply wp_sql_exec; [done|exact Hc|cbn beta; rewrite (surjective_pairing (update_where _ _ _)); reflexivity|].
  apply wp_guard; [|done]. apply Nat.eqb_eq. by apply update_where_id.
Qed.

Lemma rotate_rows_succeed ok nk l e w c :
  healthy e → w_conn w = Some c → ids_ok (t_secrets (conn_cur c)) → NoDup (sr_id <$> l) →
  length ok = KEY_MANAGER_DEK_BYTES → length nk = KEY_MANAGER_DEK_BYTES →
  (∀ r, r ∈ l → r ∈ t_secrets (conn_cur c) ∧ storable r ∧ ∃ pt, open_row ok r = Ok pt) →
  ∃ w', for_each (rotate_row ok nk) l e w = (Ok (), w').
Proof.
  intros He Hc Hids Hl Hok Hnk. revert w c Hc Hids.
  induction l as [|x l IH]; intros w c Hc [Hnd Hnul] Hin; cbn [for_each]; [by eexists|].
  rewrite fmap_cons in Hl. apply NoDup_cons in Hl as [Hx Hl].
  destruct (Hin x) as (Hxt & Hst & pt & Hpt); [apply elem_of_cons; by left|].
  destruct (rotate_row_succeeds ok nk x pt e w c) as (w1 & E1); [done..|].
  rewrite (bind_run _ _ _ _ _ _ E1). rewrite Forall_forall in Hnul.
  destruct (rotate_row_ok ok nk x e w c () w1 (Hnul x Hxt) Hc E1)
    as (x' & c1 & _ & Hc1 & _ & Hcur).
  assert (t_secrets (conn_cur c1) = replace_row x x' <$> t_secrets (conn_cur c)) as Ht1
    by (by rewrite Hcur).
  apply (IH Hl w1 c1 Hc1).
  - rewrite Ht1. split; [by rewrite ids_replace|].
    apply Forall_fmap, Forall_forall. intros q Hq. simpl. rewrite replace_row_id. auto.
  - intros q Hq. destruct (Hin q) as (Hqt & Hq'); [apply elem_of_cons; by right|].
    split; [|done]. rewrite Ht1. apply list_elem_of_fmap. exists q. split; [|done].
    rewrite replace_row_other; [done|]. intros E. apply Hx. rewrite <- E.
    by apply list_elem_of_fmap_2.
Qed.

(** The rotation succeeds whenever the libraries do, on every table whose
    rows are as the vault writes them and open under the old key. *)
Theorem key_manager_rotate_kek_succeeds ok nk e w c :
  healthy e → w_conn w = Some c → ids_ok (t_secrets (conn_cur c)) →
  length ok = KEY_MANAGER_DEK_BYTES → length nk = KEY_MANAGER_DEK_BYTES →
  (∀ r, r ∈ t_secrets (conn_cur c) → storable r ∧ ∃ pt, open_row ok r = Ok pt) →
  ∃ w', key_manager_rotate_kek ok nk e w = (Ok (), w').
Proof.
  intros He Hc Hids Hok Hnk Hrows.
  enough (wp (key_manager_rotate_kek ok nk) (λ _ _, True) e w) as ([] & w' & E & _) by eauto.
  assert (∀ k, length k = KEY_MANAGER_DEK_BYTES → key_manager_validate_kek k = Ok ()) as Hval.
  { intros k E. unfold key_manager_validate_kek, check. by rewrite E, Nat.eqb_refl. }
  unfold key_manager_rotate_kek, key_manager_init_sodium. wp_run.
  eapply wp_require_db; [exact Hc|]. wp_run. eapply wp_lift; [by apply Hval|]. wp_run.
  eapply wp_lift; [by apply Hval|]. wp_run.
  eapply wp_sql_query; [done|exact Hc|]. wp_run.
  destruct (rotate_rows_succeed ok nk (merge_sort by_id (t_secrets (conn_cur c))) e
    (called (called w)) c) as (w1 & E1); try done.
  - rewrite merge_sort_Permutation. apply Hids.
  - intros r Hr. rewrite merge_sort_Permutation in Hr. split; auto.
  - exists (), w1. split; [exact E1|]. by apply wp_lib_call.
Qed.

End KeyManager.

(** * Witnesses *)

Module RotateExample.
Import CryptoEngine.Examples.

Definition new_kek : bytes := replicate 32 (z_byte 9).
Definition name : bytes := row_name.
Definition identity : bytes :=
  @bin2hex Toy.crypto (@sha256 Toy.crypto
    (row_identity_preimage (c_str (str "row")) (c_str name))).

Definition stored (es : encrypted_secret_t) : secret_row :=
  SecretRow (str "row") name [] [] 3 (es_algorithm es) (es_ciphertext es) (es_encrypted_dek es)
    (es_nonce es) (es_dek_nonce es) (es_key_commitment es) 0 [] [] None None 0.

Definition world_of (es : encrypted_secret_t) : world :=
  let db := Database [stored es] [] ∅ [] in
  World (Some (Connection db db false)) None false Sample.disk0 0 0 0.

(** Seal a secret, put it in the table, rotate. *)
Abbreviation seal_rotate :=
  (es ← seal identity None 0;
   put_world (world_of es) ;;
   @key_manager_rotate_kek Toy.crypto kek new_kek).

Lemma seal_rotate_ok : is_ok (seal_rotate e0 Sample.world0).1 = true.
Proof. vm_compute. reflexivity. Qed.

Lemma world_of_ids es : ids_ok [stored es].
Proof.
  split; [apply NoDup_singleton|]. repeat constructor. apply (bool_decide_unpack _). vm_compute. exact I.
Qed.

Lemma key_manager_rotate_kek_preserves_witness :
  ∃ es c' t', conn_cur c' = with_secrets t' (Database [stored es] [] ∅ []) ∧
    Forall2 (λ r r',
      r' = rewrap_row (sr_encrypted_dek r') (sr_dek_nonce r') (sr_key_commitment r') r ∧
      ∀ n pt e1 w1 w1' e2 w2,
        @crypto_engine_decrypt Toy.crypto (row_envelope r) kek (@row_identity Toy.crypto r)
          (column_int (sr_version r)) n e1 w1 = (Ok pt, w1') → healthy e2 →
        (@crypto_engine_decrypt Toy.crypto (row_envelope r') new_kek (@row_identity Toy.crypto r')
          (column_int (sr_version r')) n e2 w2).1 = Ok pt) [stored es] t'.
Proof.
  destruct (run_ok _ seal_rotate_ok) as (r & w & H). apply bind_ok in H as (es & w1 & _ & H).
  apply bind_ok in H as (u & w2 & P & H). injection P as <- <-. exists es.
  pose (c := Connection (Database [stored es] [] ∅ []) (Database [stored es] [] ∅ []) false).
  assert (w_conn (world_of es) = Some c) as Hc by reflexivity.
  assert (ids_ok (t_secrets (conn_cur c))) as Hi by (apply world_of_ids).
  destruct (@key_manager_rotate_kek_preserves Toy.crypto Toy.laws kek new_kek e0
    (world_of es) c _ _ Hc Hi H) as (c' & t' & _ & Hcur & HF).
  exists c', t'. split; [exact Hcur|exact HF].
Defined.

Lemma seal_stored es w w' :
  seal identity None 0 e0 w = (Ok es, w') →
  @open_row Toy.crypto kek (stored es) = Ok pt ∧ storable (stored es).
Proof.
  intros H.
  unfold seal in H. pose proof (encrypt_algorithm_canonical _ _ _ _ _ _ _ _ _ _ H) as Ea.
  split.
  - apply (@encrypt_opens Toy.crypto Toy.laws) in H. unfold open_row.
    assert (@row_identity Toy.crypto (stored es) = identity) as -> by reflexivity.
    assert (row_envelope (stored es) = es) as ->; [|exact H].
    by apply canonical_envelope.
  - unfold storable. split_and!; [done|done| |done|done|done|exact Ea].
    apply Nat.ltb_lt; reflexivity.
Qed.

Lemma key_manager_rotate_kek_succeeds_witness :
  ∃ es w', @key_manager_rotate_kek Toy.crypto kek new_kek e0 (world_of es) = (Ok (), w').
Proof.
  destruct (run_ok _ seal_rotate_ok) as (r & w & H). apply bind_ok in H as (es & w1 & E & _).
  exists es. apply seal_stored in E as [Ho Hs].
  pose (c := Connection (Database [stored es] [] ∅ []) (Database [stored es] [] ∅ []) false).
  assert (w_conn (world_of es) = Some c) as Hc by reflexivity.
  assert (ids_ok (t_secrets (conn_cur c))) as Hi by (apply world_of_ids).
  apply (@key_manager_rotate_kek_succeeds Toy.crypto Toy.laws kek new_kek e0 (world_of es) c
    (Sample.env_at_healthy _) Hc Hi); [reflexivity|reflexivity|].
  intros q Hq. apply list_elem_of_singleton in Hq as ->. split; [exact Hs|by exists pt].
Defined.

(** A row whose KEK half of the commitment was overwritten does not open, but
    the rotation accepts it and writes a valid commitment: afterwards it
    opens. *)
Definition spoil (r : secret_row) : secret_row :=
  rewrap_row (sr_encrypted_dek r) (sr_dek_nonce r)
    (replicate 32 Byte.x00 ++ drop 32 (sr_key_commitment r)) r.

Abbreviation rotate_spoiled :=
  (es ← seal identity None 0;
   let t := [spoil (stored es)] in
   put_world (World (Some (Connection (Database t [] ∅ []) (Database t [] ∅ []) false))
                None false Sample.disk0 0 0 0) ;;
   @key_manager_rotate_kek Toy.crypto kek new_kek ;;
   t' ← sql_query t_secrets;
   mret (match t, t' with
         | [r], [r'] => (@open_row Toy.crypto kek r, @open_row Toy.crypto new_kek r')
         | _, _ => (Err SM_ERR_STORAGE, Err SM_ERR_STORAGE)
         end)).

Lemma rotate_repairs_commitment :
  (rotate_spoiled e0 Sample.world0).1 = Ok (Err SM_ERR_CRYPTO, Ok pt).
Proof. vm_compute. reflexivity. Qed.

End RotateExample.
