(* ===== verification/Merkle.v ===== *)
(** The Merkle tree over the audit log (the Merkle part of src/src/audit.c):
    its root, inclusion proofs and their verification. The leaves are the
    entry hashes in the order of [entry_id]; leaf and node hashes are
    separated by their first byte; the last hash of an odd level is paired
    with itself. Proved: proofs made by the code verify (completeness), a
    verified proof shows that the entry is in the log or exhibits a SHA-256
    collision (soundness), the size of proofs, and what the root alone does
    not determine. *)

From S2P Require Import Prelude Status Sodium Schema State.

Definition AUDIT_MERKLE_ROOT_BYTES : nat := 32.
Definition AUDIT_MERKLE_PROOF_MAX_HASHES : nat := 64.
Definition AUDIT_MERKLE_PROOF_MAX_BYTES : nat := AUDIT_MERKLE_ROOT_BYTES * AUDIT_MERKLE_PROOF_MAX_HASHES.
Definition AUDIT_MERKLE_LEAF_DOMAIN : byte := Byte.x00.
Definition AUDIT_MERKLE_INTERNAL_DOMAIN : byte := Byte.x01.

(** * Operations *)

(** The rows of the table in the order of the primary key. *)
Definition audit_count_entries : M nat := sql_query (λ db, length (t_audit_log db)).

(** A hash column must hold 32 bytes. *)
Definition audit_column_hash (h : bytes) : outcome bytes :=
  if (length h =? crypto_hash_sha256_BYTES)%nat then Ok h else Err SM_ERR_STORAGE.

(** [SELECT entry_hash FROM audit_log WHERE entry_id = ?]. *)
Definition audit_get_entry_hash (entry_id : Z) (hash_len : nat) : M bytes :=
  require_db ;;
  guard_or ((1 <=? entry_id)%Z && (crypto_hash_sha256_BYTES <=? hash_len)%nat)
    SM_ERR_INVALID_ARGUMENT ;;
  row ← sql_query (λ db, list_find (λ r, ar_entry_id r = entry_id) (t_audit_log db));
  match row with
  | Some (_, r) => lift (audit_column_hash (ar_entry_hash r))
  | None => throw SM_ERR_NOT_FOUND
  end.

(** [SELECT entry_hash FROM audit_log ORDER BY entry_id DESC LIMIT 1]; zeros
    for an empty log. *)
Definition audit_get_last_hash (hash_len : nat) : M bytes :=
  require_db ;;
  guard_or (crypto_hash_sha256_BYTES <=? hash_len)%nat SM_ERR_INVALID_ARGUMENT ;;
  row ← sql_query (λ db, last (t_audit_log db));
  match row with
  | Some r => lift (audit_column_hash (ar_entry_hash r))
  | None => mret (replicate crypto_hash_sha256_BYTES Byte.x00)
  end.

Section Merkle.
Context {CR : Crypto}.

Definition merkle_leaf (h : bytes) : bytes := sha256 (AUDIT_MERKLE_LEAF_DOMAIN :: h).
Definition merkle_node (l r : bytes) : bytes := sha256 (AUDIT_MERKLE_INTERNAL_DOMAIN :: l ++ r).

Definition audit_hash_merkle_leaf (entry_hash : bytes) : M bytes :=
  guard_or (length entry_hash =? AUDIT_MERKLE_ROOT_BYTES)%nat SM_ERR_INVALID_ARGUMENT ;;
  lib_call SM_ERR_CRYPTO ;;
  mret (merkle_leaf entry_hash).

Definition audit_hash_merkle_internal (left_hash right_hash : bytes) : M bytes :=
  lib_call SM_ERR_CRYPTO ;;
  mret (merkle_node left_hash right_hash).

(** The loop over the rows: the leaf hashes and the index of the target. A
    row that fails leaves fewer hashes than the count, so the caller reports
    every error of the loop as [SM_ERR_STORAGE]. *)
Fixpoint load_leaves_loop (target_entry_id : Z) (index : nat) (found : option nat)
    (rows : list audit_row) : M (list bytes * option nat) :=
  match rows with
  | [] => mret ([], found)
  | r :: rows' =>
      entry_hash ← lift (audit_column_hash (ar_entry_hash r));
      leaf ← audit_hash_merkle_leaf entry_hash;
      let found' := if ((0 <? target_entry_id) && (ar_entry_id r =? target_entry_id))%Z
                    then Some index else found in
      '(leaves, f) ← load_leaves_loop target_entry_id (S index) found' rows';
      mret (leaf :: leaves, f)
  end.

Definition audit_load_merkle_leaves (target_entry_id : Z) : M (list bytes * nat) :=
  require_db ;;
  count ← audit_count_entries;
  if (count =? 0)%nat then
    if (0 <? target_entry_id)%Z then throw SM_ERR_NOT_FOUND else mret ([], 0%nat)
  else
    guard_or (Z.of_nat count <=? SIZE_MAX / 32)%Z SM_ERR_STORAGE ;;
    lib_call SM_ERR_STORAGE ;;
    rows ← sql_query t_audit_log;
    '(leaves, found) ← as_status SM_ERR_STORAGE (load_leaves_loop target_entry_id 0 None rows);
    guard_or (length leaves =? count)%nat SM_ERR_STORAGE ;;
    match found with
    | Some index => mret (leaves, index)
    | None => if (0 <? target_entry_id)%Z then throw SM_ERR_NOT_FOUND else mret (leaves, 0%nat)
    end.

(** The loop over [next_count] pairs; an odd last hash is paired with
    itself. *)
Fixpoint reduce_loop (level : list bytes) : M (list bytes) :=
  match level with
  | [] => mret []
  | [a] => p ← audit_hash_merkle_internal a a; mret [p]
  | a :: b :: level' =>
      p ← audit_hash_merkle_internal a b;
      next ← reduce_loop level';
      mret (p :: next)
  end.

Definition audit_reduce_merkle_level (current : list bytes) : M (list bytes) :=
  guard_or (2 <=? length current)%nat SM_ERR_INVALID_ARGUMENT ;;
  lib_call SM_ERR_STORAGE ;;
  reduce_loop current.

(** [while (current.count > 1)]: the count is halved, its value is fuel
    enough. *)
Fixpoint reduce_all (fuel : nat) (current : list bytes) : M (list bytes) :=
  match fuel with
  | O => mret current
  | S fuel' =>
      if (length current <=? 1)%nat then mret current
      else next ← audit_reduce_merkle_level current; reduce_all fuel' next
  end.

(** The root and the number of leaves; the root of an empty log is zeros. *)
Definition audit_compute_merkle_root (root_len : nat) : M (bytes * nat) :=
  guard_or (AUDIT_MERKLE_ROOT_BYTES <=? root_len)%nat SM_ERR_INVALID_ARGUMENT ;;
  '(leaves, _) ← audit_load_merkle_leaves 0;
  match leaves with
  | [] => mret (replicate root_len Byte.x00, 0%nat)
  | _ =>
      top ← reduce_all (length leaves) leaves;
      mret (nth 0 top [] ++ replicate (root_len - AUDIT_MERKLE_ROOT_BYTES) Byte.x00, length leaves)
  end.

Fixpoint build_proof_loop (fuel : nat) (proof_capacity : nat) (current : list bytes)
    (index : nat) (proof : bytes) : M bytes :=
  match fuel with
  | O => mret proof
  | S fuel' =>
      if (length current <=? 1)%nat then mret proof
      else
        let sibling := if Nat.even index then S index else pred index in
        let sibling_index := if (length current <=? sibling)%nat then index else sibling in
        guard_or (length proof + AUDIT_MERKLE_ROOT_BYTES <=? proof_capacity)%nat
          SM_ERR_INVALID_ARGUMENT ;;
        let proof' := proof ++ nth sibling_index current [] in
        next ← audit_reduce_merkle_level current;
        build_proof_loop fuel' proof_capacity next (Nat.div2 index) proof'
  end.

(** The proof, the index of the leaf and the number of leaves. *)
Definition audit_build_merkle_proof (entry_id : Z) (proof_capacity : nat)
  : M (bytes * nat * nat) :=
  guard_or (1 <=? entry_id)%Z SM_ERR_INVALID_ARGUMENT ;;
  '(leaves, index) ← audit_load_merkle_leaves entry_id;
  proof ← build_proof_loop (length leaves) proof_capacity leaves index [];
  mret (proof, index, length leaves).

(** [while (count > 1)] of the verification. [index] and [count] are
    [size_t]: [count + 1] wraps around. 65 turns are enough for 64 bits; a
    65th turn that is not the last would be [SM_ERR_NOT_IMPLEMENTED], which
    the code never returns. *)
Fixpoint verify_proof_loop (fuel : nat) (index count : Z) (proof current : bytes) : M (bytes * bytes) :=
  match fuel with
  | O => throw SM_ERR_NOT_IMPLEMENTED
  | S fuel' =>
      if (count <=? 1)%Z then mret (current, proof)
      else
        guard_or (AUDIT_MERKLE_ROOT_BYTES <=? length proof)%nat SM_ERR_INVALID_ARGUMENT ;;
        let sibling := take AUDIT_MERKLE_ROOT_BYTES proof in
        parent ← (if Z.even index then audit_hash_merkle_internal current sibling
                  else audit_hash_merkle_internal sibling current);
        verify_proof_loop fuel' (index / 2)%Z (wrap_u 64 (count + 1) / 2)%Z
          (drop AUDIT_MERKLE_ROOT_BYTES proof) parent
  end.

Definition VERIFY_FUEL : nat := 65.

Definition audit_verify_merkle_proof (entry_hash : bytes) (leaf_index leaf_count : Z)
    (proof root : bytes) : M unit :=
  guard_or ((length entry_hash =? AUDIT_MERKLE_ROOT_BYTES)%nat
            && negb (leaf_count =? 0)%Z && (leaf_index <? leaf_count)%Z
            && (length proof mod AUDIT_MERKLE_ROOT_BYTES =? 0)%nat
            && (length root =? AUDIT_MERKLE_ROOT_BYTES)%nat)
    SM_ERR_INVALID_ARGUMENT ;;
  leaf ← audit_hash_merkle_leaf entry_hash;
  '(current, rest) ← verify_proof_loop VERIFY_FUEL leaf_index leaf_count proof leaf;
  guard_or (bool_decide (rest = [])) SM_ERR_INVALID_ARGUMENT ;;
  guard_or (bool_decide (current = root)) SM_ERR_CRYPTO.


(** * Specification: the tree of a list of entries *)

Inductive tree := Leaf (h : bytes) | Node (l r : tree).

Fixpoint tree_hash (t : tree) : bytes :=
  match t with
  | Leaf h => merkle_leaf h
  | Node l r => merkle_node (tree_hash l) (tree_hash r)
  end.

Fixpoint entries (t : tree) : list bytes :=
  match t with
  | Leaf h => [h]
  | Node l r => entries l ++ entries r
  end.

(** The next level up, for any way of joining two neighbours. *)
Fixpoint pairs {A} (join : A → A → A) (l : list A) : list A :=
  match l with
  | [] => []
  | [a] => [join a a]
  | a :: b :: l' => join a b :: pairs join l'
  end.

Fixpoint tops {A} (join : A → A → A) (fuel : nat) (l : list A) : list A :=
  match fuel with
  | O => l
  | S fuel' => if (length l <=? 1)%nat then l else tops join fuel' (pairs join l)
  end.

(** The sibling of index [i] in a level, and those of its ancestors. *)
Definition sibling_index (n i : nat) : nat :=
  let s := if Nat.even i then S i else pred i in if (n <=? s)%nat then i else s.

Fixpoint siblings (fuel : nat) (l : list bytes) (i : nat) : list bytes :=
  match fuel with
  | O => []
  | S fuel' =>
      if (length l <=? 1)%nat then []
      else nth (sibling_index (length l) i) l [] :: siblings fuel' (pairs merkle_node l) (Nat.div2 i)
  end.

Definition merkle_tree (log : list bytes) : option tree :=
  head (tops Node (length log) (Leaf <$> log)).

(** The root of a log of entry hashes; an empty log has none. *)
Definition merkle_root (log : list bytes) : option bytes := tree_hash <$> merkle_tree log.

(** The hashes of the climb from a leaf: on which side the current hash is
    ([true] on the right) and its sibling. *)
Definition climb (c : bytes) (path : list (bool * bytes)) : bytes :=
  foldl (λ c p, if (p.1 : bool) then merkle_node p.2 c else merkle_node c p.2) c path.

(** The steps a verification takes. *)
Fixpoint proof_path (fuel : nat) (index count : Z) (proof : bytes) : list (bool * bytes) :=
  match fuel with
  | O => []
  | S fuel' =>
      if (count <=? 1)%Z then []
      else (negb (Z.even index), take AUDIT_MERKLE_ROOT_BYTES proof)
           :: proof_path fuel' (index / 2) (wrap_u 64 (count + 1) / 2) (drop AUDIT_MERKLE_ROOT_BYTES proof)
  end.

(** Compare a claimed path with a tree from the root down: the first
    difference of two hashed strings. *)
Definition node_input (c : bytes) (p : bool * bytes) : bytes :=
  AUDIT_MERKLE_INTERNAL_DOMAIN :: (if p.1 then p.2 ++ c else c ++ p.2).

Fixpoint find_collision (t : tree) (h : bytes) (rpath : list (bool * bytes)) : bytes * bytes :=
  match rpath, t with
  | [], Leaf h' => (AUDIT_MERKLE_LEAF_DOMAIN :: h, AUDIT_MERKLE_LEAF_DOMAIN :: h')
  | [], Node l r =>
      (AUDIT_MERKLE_LEAF_DOMAIN :: h, AUDIT_MERKLE_INTERNAL_DOMAIN :: tree_hash l ++ tree_hash r)
  | p :: rp, Leaf h' => (node_input (climb (merkle_leaf h) (rev rp)) p, AUDIT_MERKLE_LEAF_DOMAIN :: h')
  | p :: rp, Node l r =>
      let claimed := node_input (climb (merkle_leaf h) (rev rp)) p in
      let actual := AUDIT_MERKLE_INTERNAL_DOMAIN :: tree_hash l ++ tree_hash r in
      if decide (claimed = actual) then find_collision (if p.1 then r else l) h rp
      else (claimed, actual)
  end.

(** The leaf reached by directions from the root. *)
Fixpoint leaf_at (t : tree) (dirs : list bool) : option bytes :=
  match dirs, t with
  | [], Leaf h => Some h
  | b :: bs, Node l r => leaf_at (if b then r else l) bs
  | _, _ => None
  end.

(** The two strings that collide when a verified proof is not about the log. *)
Definition merkle_collision (log : list bytes) (h : bytes) (index count : Z) (proof : bytes)
  : bytes * bytes :=
  match merkle_tree log with
  | Some t => find_collision t h (rev (proof_path VERIFY_FUEL index count proof))
  | None => ([], [])
  end.

Lemma fmap_rev {A B} (f : A → B) (l : list A) : f <$> rev l = rev (f <$> l).
Proof. induction l as [|x l IH]; simpl; [done|]. by rewrite fmap_app, IH. Qed.

(** * Levels *)

Lemma length_pairs {A} (join : A → A → A) l : length (pairs join l) = Nat.div2 (S (length l)).
Proof.
  enough (∀ n l, (length l ≤ n)%nat → length (pairs join l) = Nat.div2 (S (length l))) by eauto.
  intros n. clear l. induction n as [|n IH]; intros [|a [|b l]] Hl; simpl in *; try done; try lia.
  rewrite IH by lia. done.
Qed.

Lemma lookup_pairs {A} (join : A → A → A) l i a b :
  l !! i = Some a → l !! sibling_index (length l) i = Some b →
  pairs join l !! Nat.div2 i = Some (if Nat.even i then join a b else join b a).
Proof.
  enough (∀ n l i, (length l ≤ n)%nat → l !! i = Some a → l !! sibling_index (length l) i = Some b →
    pairs join l !! Nat.div2 i = Some (if Nat.even i then join a b else join b a)) by eauto.
  intros n. clear l i. induction n as [|n IH]; intros [|x [|y l]] i Hl Ha Hb; simpl in Hl;
    try done; try lia.
  - destruct i as [|i]; [|done]. unfold sibling_index in Hb. simpl in *. congruence.
  - destruct i as [|[|i]]; cbn [Nat.div2 Nat.even pairs] in *.
    + unfold sibling_index in Hb. simpl in *. congruence.
    + unfold sibling_index in Hb. simpl in *. congruence.
    + cbn in Ha |- *. apply IH; [lia|done|].
      unfold sibling_index in *. cbn [Nat.even length] in *.
      destruct (Nat.even i) eqn:Ev.
      * destruct (Nat.leb_spec (length l) (S i)) as [H1|H1];
          destruct (Nat.leb_spec (S (S (length l))) (S (S (S i)))) as [H2|H2]; try lia; done.
      * destruct i as [|i]; [done|]. cbn [pred] in *.
        destruct (Nat.leb_spec (length l) i) as [H1|H1];
          destruct (Nat.leb_spec (S (S (length l))) (S (S i))) as [H2|H2]; try lia; done.
Qed.

Lemma fmap_pairs {A B} (f : A → B) join join' l :
  (∀ a b, f (join a b) = join' (f a) (f b)) → f <$> pairs join l = pairs join' (f <$> l).
Proof.
  intros Hf. enough (∀ n l, (length l ≤ n)%nat → f <$> pairs join l = pairs join' (f <$> l)) by eauto.
  intros n. clear l. induction n as [|n IH]; intros [|a [|b l]] Hl; simpl in *; try done; try lia.
  - by rewrite Hf.
  - rewrite Hf. f_equal. apply IH. lia.
Qed.

Lemma fmap_tops {A B} (f : A → B) join join' fuel l :
  (∀ a b, f (join a b) = join' (f a) (f b)) → f <$> tops join fuel l = tops join' fuel (f <$> l).
Proof.
  intros Hf. revert l. induction fuel as [|fuel IH]; intros l; cbn [tops]; [done|].
  rewrite length_fmap. destruct (_ <=? _)%nat; [done|]. by rewrite IH, (fmap_pairs _ _ join').
Qed.

Lemma div2_S_lt n : (2 ≤ n)%nat → (Nat.div2 (S n) < n)%nat.
Proof. intros H. rewrite Nat.div2_div. apply Nat.Div0.div_lt_upper_bound. lia. Qed.

Lemma div2_index i n : (i < n)%nat → (Nat.div2 i < Nat.div2 (S n))%nat.
Proof.
  intros H. rewrite !Nat.div2_div. pose proof (Nat.div_mod i 2). pose proof (Nat.div_mod (S n) 2).
  pose proof (Nat.mod_upper_bound i 2). pose proof (Nat.mod_upper_bound (S n) 2). lia.
Qed.

(** The reduction ends with exactly one hash. *)
Lemma length_tops {A} (join : A → A → A) fuel l :
  l ≠ [] → (length l ≤ fuel)%nat → length (tops join fuel l) = 1%nat.
Proof.
  revert l. induction fuel as [|fuel IH]; intros l Hne Hl; cbn [tops].
  { destruct l; [done|simpl in Hl; lia]. }
  destruct (Nat.leb_spec (length l) 1) as [H|H].
  - destruct l as [|? [|? ?]]; simpl in *; try done; lia.
  - pose proof (div2_S_lt (length l) ltac:(lia)). apply IH; [|rewrite length_pairs; lia].
    destruct l as [|a [|b l]]; simpl; done.
Qed.

Lemma sibling_index_lt n i : (i < n)%nat → (sibling_index n i < n)%nat.
Proof. intros H. unfold sibling_index. destruct (Nat.leb_spec n (if Nat.even i then S i else pred i)); lia. Qed.

Lemma tree_hash_root log :
  merkle_root log = head (tops merkle_node (length log) (merkle_leaf <$> log)).
Proof.
  unfold merkle_root, merkle_tree.
  assert (merkle_leaf <$> log = tree_hash <$> (Leaf <$> log)) as -> by (by rewrite <- list_fmap_compose).
  rewrite <- (fmap_tops tree_hash Node merkle_node) by done.
  by destruct (tops Node _ _).
Qed.

(** * The code computes the specification *)

#[export] Instance keeps_merkle_leaf h : Keeps same_state (audit_hash_merkle_leaf h).
Proof. unfold audit_hash_merkle_leaf. apply _. Qed.
#[export] Instance keeps_merkle_internal l r : Keeps same_state (audit_hash_merkle_internal l r).
Proof. unfold audit_hash_merkle_internal. apply _. Qed.
#[export] Instance keeps_load_loop t i f rows : Keeps same_state (load_leaves_loop t i f rows).
Proof. revert i f. induction rows; intros; simpl; apply _. Qed.
#[export] Instance keeps_load t : Keeps same_state (audit_load_merkle_leaves t).
Proof. unfold audit_load_merkle_leaves, audit_count_entries. apply _. Qed.
#[export] Instance keeps_reduce_loop l : Keeps same_state (reduce_loop l).
Proof.
  assert (Keeps same_state (reduce_loop l) ∧ ∀ a, Keeps same_state (reduce_loop (a :: l))) as [H _]; [|exact H].
  induction l as [|b l [IH1 IH2]]; (split; [|intros a]); try exact (IH2 b); cbn [reduce_loop]; apply _.
Qed.
#[export] Instance keeps_reduce_level l : Keeps same_state (audit_reduce_merkle_level l).
Proof. unfold audit_reduce_merkle_level. apply _. Qed.
#[export] Instance keeps_reduce_all n l : Keeps same_state (reduce_all n l).
Proof. revert l. induction n as [|n IH]; intros l; cbn [reduce_all]; apply _. Qed.
#[export] Instance keeps_compute_root n : Keeps same_state (audit_compute_merkle_root n).
Proof.
  unfold audit_compute_merkle_root. apply keeps_bind; [apply _..|intros []].
  apply keeps_bind; [apply _..|intros [[|a l] i]]; apply _.
Qed.
#[export] Instance keeps_get_entry_hash i n : Keeps same_state (audit_get_entry_hash i n).
Proof. unfold audit_get_entry_hash. apply _. Qed.
#[export] Instance keeps_get_last_hash n : Keeps same_state (audit_get_last_hash n).
Proof. unfold audit_get_last_hash. apply _. Qed.

Lemma audit_column_hash_ok h s : audit_column_hash h = Ok s → s = h ∧ length h = 32%nat.
Proof.
  unfold audit_column_hash. destruct (Nat.eqb_spec (length h) crypto_hash_sha256_BYTES); [|done].
  by intros [= <-].
Qed.

Lemma reduce_loop_ok l e w r w' :
  reduce_loop l e w = (Ok r, w') → r = pairs merkle_node l.
Proof.
  enough (∀ n l w r w', (length l ≤ n)%nat → reduce_loop l e w = (Ok r, w') → r = pairs merkle_node l)
    by eauto.
  clear. intros n. induction n as [|n IH]; intros [|a [|b l]] w r w' Hl H; simpl in Hl; try lia;
    cbn [reduce_loop] in H; unfold audit_hash_merkle_internal in H; inv_m; simpl; try done.
  f_equal. eapply IH; [|eassumption]. lia.
Qed.

Lemma wp_reduce_loop l (Q : list bytes → world → Prop) e w :
  healthy e → (∀ w', same_state w w' → Q (pairs merkle_node l) w') → wp (reduce_loop l) Q e w.
Proof.
  intros He. enough (∀ n l w (Q : list bytes → world → Prop), (length l ≤ n)%nat →
    (∀ w', same_state w w' → Q (pairs merkle_node l) w') → wp (reduce_loop l) Q e w) by eauto.
  clear l w Q. intros n. induction n as [|n IH]; intros [|a [|b l]] w Q Hl HQ; simpl in Hl; try lia;
    cbn [reduce_loop]; unfold audit_hash_merkle_internal; wp_run; try (apply HQ; by unfold same_state).
  apply IH; [lia|]. intros w' Hw'. wp_run. apply HQ. etrans; [|exact Hw']. by unfold same_state.
Qed.

Lemma reduce_level_ok l e w r w' :
  audit_reduce_merkle_level l e w = (Ok r, w') → r = pairs merkle_node l.
Proof. unfold audit_reduce_merkle_level. intros H. inv_m. by apply reduce_loop_ok in H. Qed.

Lemma reduce_all_ok fuel l e w r w' :
  reduce_all fuel l e w = (Ok r, w') → r = tops merkle_node fuel l.
Proof.
  revert l w. induction fuel as [|fuel IH]; intros l w H; cbn [reduce_all tops] in *; [by inv_m|].
  destruct (_ <=? _)%nat; inv_m; [done|].
  match goal with H : audit_reduce_merkle_level _ _ _ = _ |- _ => apply reduce_level_ok in H as -> end.
  by eapply IH.
Qed.

Lemma build_proof_loop_ok fuel cap l i acc e w r w' :
  build_proof_loop fuel cap l i acc e w = (Ok r, w') →
  r = acc ++ concat (siblings fuel l i).
Proof.
  revert l i acc w. induction fuel as [|fuel IH]; intros l i acc w H; cbn [build_proof_loop siblings] in *.
  { inv_m. by rewrite app_nil_r. }
  destruct (Nat.leb_spec (length l) 1); inv_m; [by rewrite app_nil_r|].
  match goal with H : audit_reduce_merkle_level _ _ _ = _ |- _ => apply reduce_level_ok in H as -> end.
  apply IH in H as ->. simpl. by rewrite <- app_assoc.
Qed.

(** The index found by the loop over the rows. *)
Fixpoint find_index (target : Z) (index : nat) (found : option nat) (rows : list audit_row) : option nat :=
  match rows with
  | [] => found
  | r :: rows' =>
      find_index target (S index)
        (if ((0 <? target) && (ar_entry_id r =? target))%Z then Some index else found) rows'
  end.

Lemma load_loop_ok target index found rows e w ls f w' :
  load_leaves_loop target index found rows e w = (Ok (ls, f), w') →
  ls = merkle_leaf <$> (ar_entry_hash <$> rows) ∧ f = find_index target index found rows ∧
  Forall (λ r, length (ar_entry_hash r) = 32%nat) rows.
Proof.
  revert index found w ls f. induction rows as [|r rows IH]; intros index found w ls f H;
    cbn [load_leaves_loop find_index] in *; inv_m.
  - by split_and!.
  - destruct x3 as [ls' f']. inv_m.
    match goal with H : load_leaves_loop _ _ _ _ _ _ = _ |- _ => apply IH in H as (-> & -> & HF) end.
    match goal with H : audit_column_hash _ = _ |- _ => apply audit_column_hash_ok in H as [-> Hl] end.
    unfold audit_hash_merkle_leaf in *. inv_m. split_and!; [done|done|by constructor].
Qed.

Lemma load_leaves_ok target e w c leaves index w' :
  w_conn w = Some c →
  audit_load_merkle_leaves target e w = (Ok (leaves, index), w') →
  leaves = merkle_leaf <$> (ar_entry_hash <$> t_audit_log (conn_cur c)) ∧
  index = default 0%nat (find_index target 0 None (t_audit_log (conn_cur c))) ∧
  ((0 < target)%Z → is_Some (find_index target 0 None (t_audit_log (conn_cur c)))) ∧
  Forall (λ r, length (ar_entry_hash r) = 32%nat) (t_audit_log (conn_cur c)).
Proof.
  intros Hc H. unfold audit_load_merkle_leaves, audit_count_entries in H. inv_m.
  match goal with H : sql_query (λ db, length _) _ _ = _ |- _ =>
    apply sql_query_ok in H as (c0 & Hc0 & -> & ->) end.
  assert (c0 = c) as -> by congruence.
  destruct (Nat.eqb_spec (length (t_audit_log (conn_cur c))) 0) as [E|E].
  - apply length_zero_iff_nil in E. rewrite E. destruct (Z.ltb_spec 0 target); inv_m.
    split_and!; try done. lia.
  - inv_m.
    match goal with H : sql_query t_audit_log _ _ = _ |- _ =>
      apply sql_query_ok in H as (c1 & Hc1 & -> & ->) end.
    cbn [w_conn called] in *. assert (c1 = c) as -> by congruence.
    match goal with H : (let '(_, _) := ?p in _) _ _ = _ |- _ => destruct p as [ls f] end.
    inv_m.
    match goal with H : load_leaves_loop _ _ _ _ _ _ = _ |- _ =>
      apply load_loop_ok in H as (-> & Hf & HF) end. rewrite <- Hf.
    destruct f as [i|]; [|destruct (Z.ltb_spec 0 target)]; inv_m; split_and!; eauto; lia.
Qed.

Lemma find_index_spec target index found rows i :
  (0 < target)%Z → find_index target index found rows = Some i →
  found = Some i ∨ ∃ j r, i = (index + j)%nat ∧ rows !! j = Some r ∧ ar_entry_id r = target.
Proof.
  intros Ht. revert index found. induction rows as [|r rows IH]; intros index found H; cbn in H; [by left|].
  apply IH in H as [H|(j & q & -> & Hj & Hq)].
  - destruct (Z.eqb_spec (ar_entry_id r) target) as [E|E].
    + rewrite andb_true_r, (proj2 (Z.ltb_lt 0 target)) in H by done. injection H as <-.
      right. exists 0%nat, r. split_and!; [lia|done|done].
    + rewrite andb_false_r in H. by left.
  - right. exists (S j), q. split_and!; [lia|done|done].
Qed.

Lemma compute_root_ok n e w c root m w' :
  w_conn w = Some c → t_audit_log (conn_cur c) ≠ [] →
  audit_compute_merkle_root n e w = (Ok (root, m), w') →
  n = AUDIT_MERKLE_ROOT_BYTES →
  merkle_root (ar_entry_hash <$> t_audit_log (conn_cur c)) = Some root ∧
  m = length (t_audit_log (conn_cur c)) ∧
  Forall (λ r, length (ar_entry_hash r) = 32%nat) (t_audit_log (conn_cur c)).
Proof.
  intros Hc Hne H ->. unfold audit_compute_merkle_root in H. inv_m.
  match goal with H : (let '(_, _) := ?p in _) _ _ = _ |- _ => destruct p as [leaves i] end.
  match goal with H : audit_load_merkle_leaves _ _ _ = _ |- _ =>
    apply (load_leaves_ok _ _ _ c) in H as (-> & _ & _ & HF); [|done] end.
  destruct (t_audit_log (conn_cur c)) as [|r rows] eqn:El; [done|]. cbn [fmap list_fmap] in H. inv_m.
  match goal with H : reduce_all _ _ _ _ = _ |- _ => apply reduce_all_ok in H as -> end.
  rewrite app_nil_r.
  rewrite tree_hash_root. cbn [fmap list_fmap].
  split_and!; [|by rewrite !length_cons, !length_fmap|done].
  pose proof (length_tops merkle_node (S (length rows))
    (merkle_leaf (ar_entry_hash r) :: (merkle_leaf <$> (ar_entry_hash <$> rows)))) as Ht.
  rewrite length_cons, !length_fmap in Ht. specialize (Ht ltac:(done) ltac:(lia)).
  rewrite !length_cons, !length_fmap.
  by destruct (tops merkle_node _ _) as [|y [|z l]].
Qed.

Lemma compute_root_count n e w c root m w' :
  w_conn w = Some c → audit_compute_merkle_root n e w = (Ok (root, m), w') →
  m = length (t_audit_log (conn_cur c)).
Proof.
  intros Hc H. unfold audit_compute_merkle_root in H. inv_m.
  match goal with H : (let '(_, _) := ?p in _) _ _ = _ |- _ => destruct p as [leaves i] end.
  match goal with H : audit_load_merkle_leaves _ _ _ = _ |- _ =>
    apply (load_leaves_ok _ _ _ c) in H as (E & _ & _ & _); [|done] end.
  apply (f_equal length) in E. rewrite !length_fmap in E.
  destruct leaves; inv_m; done.
Qed.

(** * Verification *)

Lemma verify_proof_loop_ok fuel index count proof c e w cur rest w' :
  verify_proof_loop fuel index count proof c e w = (Ok (cur, rest), w') →
  let path := proof_path fuel index count proof in
  cur = climb c path ∧ Forall (λ p, length p.2 = 32%nat) path.
Proof.
  revert index count proof c w. induction fuel as [|fuel IH]; intros index count proof c w H;
    cbn [verify_proof_loop proof_path] in *; [inv_m|].
  destruct (count <=? 1)%Z; inv_m; [done|].
  match goal with H : (_ <=? _)%nat = true |- _ => apply Nat.leb_le in H end.
  unfold audit_hash_merkle_internal in *.
  assert (length (take AUDIT_MERKLE_ROOT_BYTES proof) = 32%nat) as Hlen
    by (rewrite length_take; unfold AUDIT_MERKLE_ROOT_BYTES in *; lia).
  destruct (Z.even index); inv_m; apply IH in H as [-> HF]; split; try done; by constructor.
Qed.

Lemma verify_ok h index count proof root e w u w' :
  audit_verify_merkle_proof h index count proof root e w = (Ok u, w') →
  root = climb (merkle_leaf h) (proof_path VERIFY_FUEL index count proof) ∧
  Forall (λ p, length p.2 = 32%nat) (proof_path VERIFY_FUEL index count proof) ∧
  (index < count)%Z.
Proof.
  unfold audit_verify_merkle_proof, audit_hash_merkle_leaf. intros H. inv_m.
  match goal with H : (let '(_, _) := ?p in _) _ _ = _ |- _ => destruct p as [cur rest] end. inv_m.
  match goal with H : verify_proof_loop _ _ _ _ _ _ _ = _ |- _ => apply verify_proof_loop_ok in H as [-> HF] end.
  match goal with H : bool_decide (_ = root) = true |- _ => apply bool_decide_eq_true in H as <- end.
  repeat match goal with H : _ && _ = true |- _ => apply andb_true_iff in H as [H ?] end.
  split_and!; [done|done|by apply Z.ltb_lt].
Qed.

(** ** Soundness *)

Context {CL : CryptoLaws CR}.

Lemma length_climb h path : length (climb (merkle_leaf h) path) = 32%nat.
Proof.
  unfold climb. assert (length (merkle_leaf h) = 32%nat) as Hl by apply length_sha256.
  revert Hl. generalize (merkle_leaf h). induction path as [|[[] s] path IH]; intros c Hl; simpl; [done|..];
    apply IH, length_sha256.
Qed.

Lemma length_tree_hash t : length (tree_hash t) = 32%nat.
Proof. destruct t; apply length_sha256. Qed.

Lemma climb_snoc c path p :
  climb c (path ++ [p]) = sha256 (node_input (climb c path) p).
Proof. unfold climb, node_input. rewrite foldl_app. destruct p as [[] s]; done. Qed.

(** A claimed path to the root of a tree is a path of the tree to the claimed
    leaf, or else two different strings have the same hash. *)
Lemma path_sound t h rpath :
  Forall (λ p, length p.2 = 32%nat) rpath →
  climb (merkle_leaf h) (rev rpath) = tree_hash t →
  leaf_at t (rpath.*1) = Some h ∨ sha256_collision (find_collision t h rpath).
Proof.
  revert t. induction rpath as [|p rp IH]; intros t HF E.
  - destruct t as [h'|l r]; simpl in *.
    + destruct (decide (h = h')) as [->|Hne]; [by left|]. right. split; simpl; [congruence|exact E].
    + right. split; simpl; [discriminate|exact E].
  - apply Forall_cons in HF as [Hp HF]. simpl rev in E. rewrite climb_snoc in E.
    destruct t as [h'|l r]; cbn [find_collision].
    + right. split; simpl; [discriminate|exact E].
    + case_decide as Hd.
      * cbn [fmap list_fmap leaf_at]. apply IH; [done|].
        unfold node_input in Hd. injection Hd as Hd.
        pose proof (length_climb h (rev rp)). pose proof (length_tree_hash l).
        destruct (p.1); apply app_inj_1 in Hd as [H1 H2]; try done; congruence.
      * right. split; [exact Hd|exact E].
Qed.

Lemma leaf_at_entries t dirs h : leaf_at t dirs = Some h → h ∈ entries t.
Proof.
  revert t. induction dirs as [|b dirs IH]; intros [h'|l r] H; simpl in *; try done.
  - injection H as ->. apply list_elem_of_singleton. done.
  - apply elem_of_app. destruct b; [right|left]; by apply IH.
Qed.

Lemma entries_pairs (l : list tree) (P : bytes → Prop) :
  Forall (λ t, Forall P (entries t)) l → Forall (λ t, Forall P (entries t)) (pairs Node l).
Proof.
  enough (∀ n l, (length l ≤ n)%nat → Forall (λ t, Forall P (entries t)) l →
    Forall (λ t, Forall P (entries t)) (pairs Node l)) by eauto.
  clear l. intros n. induction n as [|n IH]; intros [|a [|b l]] Hl HF; simpl in *; try done; try lia.
  - apply Forall_cons in HF as [Ha _]. constructor; [|constructor]. simpl. by apply Forall_app.
  - apply Forall_cons in HF as [Ha HF]. apply Forall_cons in HF as [Hb HF].
    constructor; [by apply Forall_app|]. apply IH; [lia|done].
Qed.

Lemma merkle_tree_entries log t : merkle_tree log = Some t → ∀ h, h ∈ entries t → h ∈ log.
Proof.
  intros Ht. apply Forall_forall. unfold merkle_tree in Ht.
  assert (∀ fuel l, Forall (λ t, Forall (λ h, h ∈ log) (entries t)) l →
    Forall (λ t, Forall (λ h, h ∈ log) (entries t)) (tops Node fuel l)) as Hall.
  { intros fuel. induction fuel as [|fuel IH]; intros l HF; cbn [tops]; [done|].
    destruct (_ <=? _)%nat; [done|]. by apply IH, entries_pairs. }
  specialize (Hall (length log) (Leaf <$> log)).
  destruct (tops _ _ _) as [|t' l]; [done|]. injection Ht as ->.
  apply Forall_inv in Hall; [done|]. apply Forall_fmap, Forall_forall. intros h Hh. simpl.
  by constructor.
Qed.

(** The directions from the root to index [i] of a level of [n] hashes. *)
Fixpoint directions (fuel : nat) (i : nat) (n : nat) : list bool :=
  match fuel with
  | O => []
  | S fuel' => if (n <=? 1)%nat then []
               else directions fuel' (Nat.div2 i) (Nat.div2 (S n)) ++ [negb (Nat.even i)]
  end.

Lemma follow_directions fuel l i t :
  l !! i = Some t → (length l ≤ fuel)%nat →
  ∃ root, tops Node fuel l = [root] ∧
    ∀ dirs, leaf_at root (directions fuel i (length l) ++ dirs) = leaf_at t dirs.
Proof.
  revert l i t. induction fuel as [|fuel IH]; intros l i t Hi Hl.
  { apply lookup_lt_Some in Hi. lia. }
  cbn [tops directions]. destruct (Nat.leb_spec (length l) 1) as [H|H].
  - destruct l as [|t0 [|t1 l]]; [done| |simpl in H; lia].
    destruct i; [|done]. injection Hi as ->. by exists t.
  - pose proof (lookup_lt_Some _ _ _ Hi) as Hlt.
    destruct (lookup_lt_is_Some_2 l (sibling_index (length l) i)) as [s Hs]; [by apply sibling_index_lt|].
    pose proof (lookup_pairs Node l i t s Hi Hs) as Hj.
    pose proof (div2_S_lt (length l) ltac:(lia)).
    destruct (IH _ _ _ Hj) as (root & Hr & Hd); [rewrite length_pairs; lia|].
    exists root. split; [done|]. intros dirs. rewrite <- app_assoc. rewrite length_pairs in Hd.
    rewrite Hd. destruct (Nat.even i) eqn:Ev; done.
Qed.

Lemma even_of_nat i : Z.even (Z.of_nat i) = Nat.even i.
Proof.
  induction i as [|i IH]; [done|].
  rewrite Nat2Z.inj_succ, Z.even_succ, Nat.even_succ, <- Nat.negb_even, <- Z.negb_even. by rewrite IH.
Qed.


Lemma half_count n :
  (Z.of_nat n < SIZE_MAX)%Z → (wrap_u 64 (Z.of_nat n + 1) / 2)%Z = Z.of_nat (Nat.div2 (S n)).
Proof.
  intros H. rewrite wrap_u_small by (unfold SIZE_MAX, UINT64_MAX in H; lia).
  rewrite Nat.div2_div, Nat2Z.inj_div. f_equal; lia.
Qed.

Lemma half_index i : (Z.of_nat i / 2)%Z = Z.of_nat (Nat.div2 i).
Proof. rewrite Nat.div2_div, Nat2Z.inj_div. done. Qed.

Lemma half_pow n k : (n ≤ 2 ^ S k)%nat → (Nat.div2 (S n) ≤ 2 ^ k)%nat.
Proof.
  intros H. rewrite Nat.div2_div. rewrite Nat.pow_succ_r' in H.
  apply Nat.lt_succ_r. apply Nat.Div0.div_lt_upper_bound. lia.
Qed.

Lemma path_directions k f i n proof :
  (n ≤ 2 ^ k)%nat → (n ≤ f)%nat → (Z.of_nat n < SIZE_MAX)%Z →
  rev ((proof_path (S k) (Z.of_nat i) (Z.of_nat n) proof).*1) = directions f i n.
Proof.
  revert f i n proof. induction k as [|k IH]; intros f i n proof Hk Hf Hn.
  - simpl in Hk. cbn [proof_path]. destruct (Z.leb_spec (Z.of_nat n) 1); [|lia].
    destruct f; simpl; [done|]. by destruct (Nat.leb_spec n 1); [|lia].
  - remember (S k) as k1 eqn:Ek. cbn [proof_path]. subst k1.
    destruct f as [|f]; [destruct (Z.leb_spec (Z.of_nat n) 1); [done|lia]|]. cbn [directions].
    destruct (Z.leb_spec (Z.of_nat n) 1), (Nat.leb_spec n 1); try done; try lia.
    cbn [fmap list_fmap rev fst]. rewrite half_count, half_index, even_of_nat by done.
    pose proof (div2_S_lt n ltac:(lia)).
    rewrite (IH f); [done| |lia|lia]. by apply half_pow.
Qed.

Lemma SIZE_MAX_pow n : (Z.of_nat n < SIZE_MAX)%Z → (n ≤ 2 ^ 64)%nat.
Proof.
  intros H. apply Nat2Z.inj_le. rewrite Nat2Z.inj_pow.
  unfold SIZE_MAX, UINT64_MAX in H. change (Z.of_nat 2 ^ Z.of_nat 64)%Z with 18446744073709551616%Z. lia.
Qed.

(** C29: A verified inclusion proof is true: if the code accepts a proof against
    the root of a log, for whatever index and leaf count the prover claims,
    then the entry hash is in the log, at the claimed index when the leaf
    count is that of the log; or else [merkle_collision] computes two
    different strings with the same SHA-256 hash from the proof and the
    log. *)
Theorem merkle_proof_sound log root h index count proof e w u w' :
  merkle_root log = Some root → (0 ≤ index)%Z → (Z.of_nat (length log) < SIZE_MAX)%Z →
  audit_verify_merkle_proof h index count proof root e w = (Ok u, w') →
  (h ∈ log ∧ (count = Z.of_nat (length log) → log !! Z.to_nat index = Some h)) ∨
  sha256_collision (merkle_collision log h index count proof).
Proof.
  intros Hr Hi Hn H. apply verify_ok in H as (E & HF & Hlt).
  unfold merkle_root in Hr. unfold merkle_collision.
  destruct (merkle_tree log) as [t|] eqn:Et; [|done]. injection Hr as Hr.
  destruct (path_sound t h (rev (proof_path VERIFY_FUEL index count proof))) as [Hl|Hc];
    [by apply Forall_rev|by rewrite rev_involutive, <- E| |by right].
  left. split; [by eapply merkle_tree_entries, leaf_at_entries|].
  intros ->. rewrite <- (Z2Nat.id index) in Hl, Hlt by done. set (i := Z.to_nat index) in *.
  assert (i < length log)%nat as Hil by lia.
  destruct (lookup_lt_is_Some_2 log i Hil) as [h0 Hh0].
  assert ((Leaf <$> log) !! i = Some (Leaf h0)) as Hleaf by (by rewrite list_lookup_fmap, Hh0).
  destruct (follow_directions (length log) (Leaf <$> log) i (Leaf h0) Hleaf) as (t' & Ht' & Hd);
    [by rewrite length_fmap|].
  unfold merkle_tree in Et. rewrite Ht' in Et. injection Et as ->.
  specialize (Hd []). rewrite app_nil_r, length_fmap in Hd. cbn [leaf_at] in Hd.
  assert ((rev (proof_path VERIFY_FUEL (Z.of_nat i) (Z.of_nat (length log)) proof)).*1
          = directions (length log) i (length log)) as Hp.
  { rewrite fmap_rev. apply (path_directions 64); [by apply SIZE_MAX_pow|done|done]. }
  rewrite Hp, Hd in Hl. congruence.
Qed.

(** ** Completeness *)

Lemma Forall_pairs_len l :
  Forall (λ h, length h = 32%nat) (pairs merkle_node l).
Proof.
  enough (∀ n l, (length l ≤ n)%nat → Forall (λ h, length h = 32%nat) (pairs merkle_node l))
    by eauto. clear l. intros n. induction n as [|n IH]; intros [|a [|b l]] Hl; simpl in *; try done; try lia.
  - repeat constructor. apply length_sha256.
  - constructor; [apply length_sha256|]. apply IH. lia.
Qed.

Lemma single_level (l : list bytes) i c : l !! i = Some c → (length l ≤ 1)%nat → l = [c] ∧ i = 0%nat.
Proof. intros Hi Hl. destruct l as [|x [|y l]], i; simpl in *; try done; try lia. split; congruence. Qed.

(** The climb along the siblings of a leaf ends at the top of the level. *)
Lemma wp_verify_loop k f l i c rest (Q : bytes * bytes → world → Prop) e w :
  healthy e → l !! i = Some c → (length l ≤ 2 ^ k)%nat → (length l ≤ f)%nat →
  (Z.of_nat (length l) < SIZE_MAX)%Z → Forall (λ h, length h = 32%nat) l →
  (∀ cur w', same_state w w' → tops merkle_node f l = [cur] → Q (cur, rest) w') →
  wp (verify_proof_loop (S k) (Z.of_nat i) (Z.of_nat (length l)) (concat (siblings f l i) ++ rest) c) Q e w.
Proof.
  intros He. revert f l i c w. induction k as [|k IH]; intros f l i c w Hi Hk Hf Hn Hlen HQ;
    pose proof (lookup_lt_Some _ _ _ Hi) as Hlt; destruct f as [|f]; try lia;
    cbn [siblings tops] in *; destruct (Nat.leb_spec (length l) 1) as [H1|H1].
  - cbn [verify_proof_loop]. destruct (Z.leb_spec (Z.of_nat (length l)) 1); [|lia].
    destruct (single_level _ _ _ Hi H1) as [-> ->]. wp_run. by apply HQ.
  - simpl in Hk. lia.
  - remember (S k) as k1 eqn:Ek. cbn [verify_proof_loop]. subst k1.
    destruct (Z.leb_spec (Z.of_nat (length l)) 1); try lia.
    destruct (single_level _ _ _ Hi H1) as [-> ->]. wp_run. by apply HQ.
  - remember (S k) as k1 eqn:Ek. cbn [verify_proof_loop]. subst k1.
    destruct (Z.leb_spec (Z.of_nat (length l)) 1); [lia|].
    destruct (lookup_lt_is_Some_2 l (sibling_index (length l) i)) as [s Hs]; [by apply sibling_index_lt|].
    rewrite (nth_lookup_Some _ _ _ _ Hs). cbn [concat]. rewrite <- app_assoc.
    assert (length s = 32%nat) as Hsl.
    { rewrite Forall_forall in Hlen. apply Hlen. by eapply list_elem_of_lookup_2. }
    wp_run. apply wp_guard.
    { apply Nat.leb_le. rewrite length_app, Hsl. unfold AUDIT_MERKLE_ROOT_BYTES. lia. }
    rewrite take_app_length', drop_app_length' by done.
    rewrite half_count, half_index, even_of_nat, <- (length_pairs merkle_node) by done.
    pose proof (lookup_pairs merkle_node l i c s Hi Hs) as Hj.
    pose proof (div2_S_lt (length l) ltac:(lia)).
    pose proof (half_pow _ _ Hk).
    apply wp_bind. unfold audit_hash_merkle_internal.
    destruct (Nat.even i); wp_run; (apply (IH f (pairs merkle_node l)); rewrite ?length_pairs; try lia;
      [done|apply Forall_pairs_len|]; intros cur w' Hw' Ht; apply HQ; [|done];
      etrans; [|exact Hw']; by unfold same_state).
Qed.

Lemma siblings_len k f l i :
  (length l ≤ 2 ^ k)%nat → (length (siblings f l i) ≤ k)%nat.
Proof.
  revert f l i. induction k as [|k IH]; intros [|f] l i Hk; cbn [siblings]; simpl length; try lia.
  - destruct (Nat.leb_spec (length l) 1); simpl in *; lia.
  - destruct (Nat.leb_spec (length l) 1); simpl; [lia|].
    pose proof (half_pow _ _ Hk) as Hh. rewrite <- (length_pairs merkle_node l) in Hh.
    specialize (IH f _ (Nat.div2 i) Hh). lia.
Qed.

Lemma siblings_32 f l i :
  (i < length l)%nat → Forall (λ h, length h = 32%nat) l →
  Forall (λ h, length h = 32%nat) (siblings f l i).
Proof.
  revert l i. induction f as [|f IH]; intros l i Hi Hl; cbn [siblings]; [done|].
  destruct (Nat.leb_spec (length l) 1); [done|]. constructor.
  - destruct (lookup_lt_is_Some_2 l (sibling_index (length l) i)) as [s Hs]; [by apply sibling_index_lt|].
    rewrite (nth_lookup_Some _ _ _ _ Hs). rewrite Forall_forall in Hl. apply Hl.
    by eapply list_elem_of_lookup_2.
  - apply IH; [rewrite length_pairs; by apply div2_index|]. apply Forall_pairs_len.
Qed.

Lemma length_concat_32 (l : list bytes) :
  Forall (λ h, length h = 32%nat) l → length (concat l) = (32 * length l)%nat.
Proof. induction 1 as [|h l Hh _ IH]; simpl; [done|]. rewrite length_app, Hh, IH. lia. Qed.

(** Building a proof needs 32 bytes of buffer per level. *)
Lemma wp_build_loop k cap f l i acc (Q : bytes → world → Prop) e w :
  healthy e → (i < length l)%nat → (length l ≤ 2 ^ k)%nat →
  Forall (λ h, length h = 32%nat) l → (length acc + 32 * k ≤ cap)%nat →
  (∀ w', same_state w w' → Q (acc ++ concat (siblings f l i)) w') →
  wp (build_proof_loop f cap l i acc) Q e w.
Proof.
  intros He. revert l i acc k w. induction f as [|f IH]; intros l i acc k w Hi Hk Hl Hcap HQ;
    cbn [build_proof_loop siblings] in *.
  { wp_run. rewrite <- (app_nil_r acc). by apply HQ. }
  destruct (Nat.leb_spec (length l) 1) as [H1|H1].
  { wp_run. rewrite <- (app_nil_r acc). by apply HQ. }
  destruct k as [|k]; [simpl in Hk; lia|].
  destruct (lookup_lt_is_Some_2 l (sibling_index (length l) i)) as [s Hs]; [by apply sibling_index_lt|].
  assert (length s = 32%nat) as Hsl.
  { rewrite Forall_forall in Hl. apply Hl. by eapply list_elem_of_lookup_2. }
  fold (sibling_index (length l) i). rewrite (nth_lookup_Some _ _ _ _ Hs) in *.
  wp_run. apply wp_guard; [apply Nat.leb_le; unfold AUDIT_MERKLE_ROOT_BYTES; lia|].
  wp_run. unfold audit_reduce_merkle_level. wp_run. apply wp_guard; [by apply Nat.leb_le|].
  wp_run. apply wp_reduce_loop; [done|]. intros w1 Hw1.
  apply (IH _ _ _ k).
  - rewrite length_pairs. by apply div2_index.
  - rewrite length_pairs. by apply half_pow.
  - apply Forall_pairs_len.
  - rewrite length_app, Hsl. lia.
  - intros w2 Hw2. rewrite <- app_assoc. apply HQ. etrans; [|exact Hw2]. etrans; [|exact Hw1].
    by unfold same_state.
Qed.

Lemma wp_load_loop target index found rows (Q : list bytes * option nat → world → Prop) e w :
  healthy e → Forall (λ r, length (ar_entry_hash r) = 32%nat) rows →
  (∀ w', same_state w w' →
     Q (merkle_leaf <$> (ar_entry_hash <$> rows), find_index target index found rows) w') →
  wp (load_leaves_loop target index found rows) Q e w.
Proof.
  intros He HF. revert index found w Q. induction HF as [|r rows Hr _ IH];
    intros index found w Q HQ; cbn [load_leaves_loop]; wp_run; [by apply HQ|].
  eapply wp_lift. { unfold audit_column_hash. rewrite Hr. reflexivity. }
  unfold audit_hash_merkle_leaf. wp_run. apply wp_guard; [by rewrite Hr|]. wp_run.
  apply IH. intros w' Hw'. wp_run. apply HQ. etrans; [|exact Hw']. by unfold same_state.
Qed.

Lemma wp_load_leaves target c (Q : list bytes * nat → world → Prop) e w :
  healthy e → w_conn w = Some c → t_audit_log (conn_cur c) ≠ [] →
  (Z.of_nat (length (t_audit_log (conn_cur c))) ≤ SIZE_MAX / 32)%Z →
  Forall (λ r, length (ar_entry_hash r) = 32%nat) (t_audit_log (conn_cur c)) →
  ((0 < target)%Z → is_Some (find_index target 0 None (t_audit_log (conn_cur c)))) →
  (∀ w', same_state w w' →
    Q (merkle_leaf <$> (ar_entry_hash <$> t_audit_log (conn_cur c)),
       default 0%nat (find_index target 0 None (t_audit_log (conn_cur c)))) w') →
  wp (audit_load_merkle_leaves target) Q e w.
Proof.
  intros He Hc Hne Hmax HF Hfound HQ. unfold audit_load_merkle_leaves, audit_count_entries.
  wp_run. eapply wp_require_db; [done|]. wp_run. eapply wp_sql_query; [done..|].
  destruct (Nat.eqb_spec (length (t_audit_log (conn_cur c))) 0) as [E|E].
  { by apply length_zero_iff_nil in E. }
  wp_run. apply wp_guard; [by apply Z.leb_le|]. wp_run.
  eapply wp_sql_query; [done|exact Hc|]. wp_run. apply wp_load_loop; [done|done|].
  intros w' Hw'. wp_run. apply wp_guard; [apply Nat.eqb_eq; by rewrite !length_fmap|].
  destruct (find_index _ _ _ _) as [i|]; [|destruct (Z.ltb_spec 0 target) as [Ht|]].
  - wp_run. apply HQ. etrans; [|exact Hw']. by unfold same_state.
  - by destruct (Hfound Ht).
  - wp_run. apply HQ. etrans; [|exact Hw']. by unfold same_state.
Qed.

Lemma find_index_total target index found rows j r :
  (0 < target)%Z → rows !! j = Some r → ar_entry_id r = target →
  is_Some (find_index target index found rows).
Proof.
  intros Ht Hj E.
  assert (∀ rows index f, is_Some f → is_Some (find_index target index f rows)) as Hsome.
  { clear. induction rows as [|q rows IH]; intros index f Hf; simpl; [done|]. apply IH.
    destruct (_ && _)%bool; eauto. }
  revert index found j Hj. induction rows as [|q rows IH]; intros index found [|j] Hj; try done; simpl.
  - injection Hj as ->. apply Hsome.
    rewrite E, Z.eqb_refl, andb_true_r, (proj2 (Z.ltb_lt _ _)) by done. eauto.
  - by eapply IH.
Qed.

Lemma find_index_unique log i r :
  audit_ordered log → log !! i = Some r → (0 < ar_entry_id r)%Z →
  find_index (ar_entry_id r) 0 None log = Some i.
Proof.
  intros Ho Hi Hpos. destruct (find_index_total (ar_entry_id r) 0 None log i r) as [j Hj]; [done..|].
  rewrite Hj. f_equal. apply find_index_spec in Hj as [Hj|(k & q & -> & Hk & Hq)]; [done| |done].
  symmetry. by eapply audit_ordered_inj.
Qed.

Lemma wp_get_entry_hash i r n c (Q : bytes → world → Prop) e w :
  healthy e → w_conn w = Some c → audit_ordered (t_audit_log (conn_cur c)) →
  t_audit_log (conn_cur c) !! i = Some r → (1 ≤ ar_entry_id r)%Z →
  length (ar_entry_hash r) = 32%nat → (32 ≤ n)%nat →
  Q (ar_entry_hash r) (called w) → wp (audit_get_entry_hash (ar_entry_id r) n) Q e w.
Proof.
  intros He Hc Ho Hi Hid Hl Hn HQ. unfold audit_get_entry_hash.
  wp_run. eapply wp_require_db; [done|]. wp_run. apply wp_guard.
  { apply andb_true_iff. split; [by apply Z.leb_le|by apply Nat.leb_le]. }
  wp_run. eapply wp_sql_query; [done..|].
  assert (list_find (λ q, ar_entry_id q = ar_entry_id r) (t_audit_log (conn_cur c)) = Some (i, r)) as ->.
  { apply list_find_Some. split_and!; [done|done|]. intros j q Hj Hlt E.
    assert (j = i) by (by eapply audit_ordered_inj). lia. }
  cbn. eapply wp_lift; [|exact HQ]. unfold audit_column_hash. by rewrite Hl.
Qed.

(** The root the code computes, its builder and its verifier on a log whose
    hashes have the right length. *)
Lemma wp_reduce_all f leaves (Q : list bytes → world → Prop) e w :
  healthy e → (∀ w', same_state w w' → Q (tops merkle_node f leaves) w') →
  wp (reduce_all f leaves) Q e w.
Proof.
  intros He. revert leaves w Q. induction f as [|f IH]; intros leaves w Q HQ; cbn [reduce_all tops].
  { wp_run. by apply HQ. }
  specialize (HQ w) as HQ0. cbn [tops] in HQ, HQ0.
  destruct (Nat.leb_spec (length leaves) 1) as [H|H]; [wp_run; by apply HQ0|].
  unfold audit_reduce_merkle_level. wp_run. apply wp_guard; [by apply Nat.leb_le|]. wp_run.
  apply wp_reduce_loop; [done|]. intros w1 Hw1. apply IH. intros w2 Hw2. apply HQ.
  etrans; [|exact Hw2]. etrans; [|exact Hw1]. by unfold same_state.
Qed.

Lemma merkle_root_is_Some l : l ≠ [] → ∃ root, merkle_root l = Some root ∧
  tops merkle_node (length l) (merkle_leaf <$> l) = [root] ∧ length root = 32%nat.
Proof.
  intros Hne.
  assert (length (tops merkle_node (length l) (merkle_leaf <$> l)) = 1%nat) as Htop.
  { apply length_tops; [|by rewrite length_fmap]. intros E. by destruct l. }
  destruct l as [|h l]; [done|].
  assert (merkle_root (h :: l) = head (tops merkle_node (length (h :: l)) (merkle_leaf <$> h :: l))) as E
    by by rewrite tree_hash_root.
  destruct (tops _ _ _) as [|root [|? ?]]; try done. exists root. split_and!; [done..|].
  unfold merkle_root in E. apply fmap_Some in E as (t & _ & ->). apply length_tree_hash.
Qed.

Lemma wp_compute_root c root (Q : bytes * nat → world → Prop) e w :
  healthy e → w_conn w = Some c →
  Forall (λ r, length (ar_entry_hash r) = 32%nat) (t_audit_log (conn_cur c)) →
  (Z.of_nat (length (t_audit_log (conn_cur c))) ≤ SIZE_MAX / 32)%Z →
  merkle_root (ar_entry_hash <$> t_audit_log (conn_cur c)) = Some root →
  (∀ w', same_state w w' → Q (root, length (t_audit_log (conn_cur c))) w') →
  wp (audit_compute_merkle_root AUDIT_MERKLE_ROOT_BYTES) Q e w.
Proof.
  intros He Hc HF Hmax Hroot HQ. set (log := t_audit_log (conn_cur c)) in *.
  assert (log ≠ []) as Hne by (intros E; by rewrite E in Hroot).
  destruct (merkle_root_is_Some (ar_entry_hash <$> log)) as (root' & E & Ht & _).
  { intros E. by apply fmap_nil_inv in E. }
  rewrite Hroot in E. injection E as <-. rewrite length_fmap in Ht.
  unfold audit_compute_merkle_root. wp_run. apply wp_guard; [done|]. wp_run.
  apply wp_load_leaves with (c := c); try done. intros w1 Hw1. cbv beta iota. fold log.
  destruct (merkle_leaf <$> (ar_entry_hash <$> log)) as [|l0 ls] eqn:El; [by destruct log|].
  assert (length (l0 :: ls) = length log) as Hl by by rewrite <- El, !length_fmap.
  rewrite Hl. wp_run. apply wp_reduce_all; [done|]. intros w2 Hw2. rewrite Ht. cbn [nth].
  wp_run. rewrite app_nil_r. apply HQ. by etrans.
Qed.

Lemma wp_build_proof c i r cap (Q : bytes * nat * nat → world → Prop) e w :
  healthy e → w_conn w = Some c → audit_ordered (t_audit_log (conn_cur c)) →
  t_audit_log (conn_cur c) !! i = Some r → (1 ≤ ar_entry_id r)%Z →
  Forall (λ r, length (ar_entry_hash r) = 32%nat) (t_audit_log (conn_cur c)) →
  (Z.of_nat (length (t_audit_log (conn_cur c))) ≤ SIZE_MAX / 32)%Z →
  (AUDIT_MERKLE_PROOF_MAX_BYTES ≤ cap)%nat →
  (∀ w', same_state w w' →
     Q (concat (siblings (length (t_audit_log (conn_cur c)))
          (merkle_leaf <$> (ar_entry_hash <$> t_audit_log (conn_cur c))) i), i,
        length (t_audit_log (conn_cur c))) w') →
  wp (audit_build_merkle_proof (ar_entry_id r) cap) Q e w.
Proof.
  intros He Hc Ho Hi Hid HF Hmax Hcap HQ. set (log := t_audit_log (conn_cur c)) in *.
  assert (log ≠ []) as Hne by (intros E; by rewrite E in Hi).
  assert (i < length log)%nat as Hlt by (by eapply lookup_lt_Some).
  assert (SIZE_MAX / 32 < SIZE_MAX)%Z as Hdiv by done.
  unfold audit_build_merkle_proof. wp_run. apply wp_guard; [by apply Z.leb_le|]. wp_run.
  apply wp_load_leaves with (c := c); try done.
  { intros _. fold log. rewrite (find_index_unique log i r) by (done || lia). eauto. }
  intros w' Hw'. fold log. rewrite (find_index_unique log i r) by (done || lia). cbn [default].
  set (leaves := merkle_leaf <$> (ar_entry_hash <$> log)) in *.
  assert (length leaves = length log) as Hll by (unfold leaves; by rewrite !length_fmap).
  assert (Forall (λ h, length h = 32%nat) leaves) as Hleaves.
  { apply Forall_fmap, Forall_forall. intros h _. apply length_sha256. }
  wp_run. apply (wp_build_loop 64); [done|simpl; lia|apply SIZE_MAX_pow; lia|done| |].
  { unfold AUDIT_MERKLE_PROOF_MAX_BYTES, AUDIT_MERKLE_ROOT_BYTES, AUDIT_MERKLE_PROOF_MAX_HASHES in Hcap.
    simpl length. lia. }
  intros w'' Hw''. wp_run. rewrite Hll. apply HQ. by etrans.
Qed.

Lemma wp_verify_proof (hashes : list bytes) i h root (Q : unit → world → Prop) e w :
  healthy e → hashes !! i = Some h → length h = 32%nat →
  (Z.of_nat (length hashes) ≤ SIZE_MAX / 32)%Z → merkle_root hashes = Some root →
  (∀ w', Q () w') →
  wp (audit_verify_merkle_proof h (Z.of_nat i) (Z.of_nat (length hashes))
        (concat (siblings (length hashes) (merkle_leaf <$> hashes) i)) root) Q e w.
Proof.
  intros He Hi Hh Hmax Hroot HQ.
  assert (i < length hashes)%nat as Hlt by (by eapply lookup_lt_Some).
  assert (SIZE_MAX / 32 < SIZE_MAX)%Z as Hdiv by done.
  destruct (merkle_root_is_Some hashes) as (root' & E & Ht & Hl); [by intros ->|].
  rewrite Hroot in E. injection E as <-.
  set (leaves := merkle_leaf <$> hashes) in *.
  assert (length leaves = length hashes) as Hll by (unfold leaves; by rewrite !length_fmap).
  assert (Forall (λ h, length h = 32%nat) leaves) as Hleaves.
  { apply Forall_fmap, Forall_forall. intros x _. apply length_sha256. }
  assert (leaves !! i = Some (merkle_leaf h)) as Hleaf.
  { unfold leaves. by rewrite list_lookup_fmap, Hi. }
  unfold audit_verify_merkle_proof. wp_run. apply wp_guard.
  { rewrite Hh, Hl, length_concat_32 by (apply siblings_32; [lia|done]).
    rewrite (Nat.mul_comm 32), Nat.Div0.mod_mul.
    rewrite !andb_true_iff, negb_true_iff, Z.eqb_neq, Z.ltb_lt. split_and!; try done; lia. }
  wp_run. unfold audit_hash_merkle_leaf. wp_run. apply wp_guard; [by rewrite Hh|]. wp_run.
  rewrite <- (app_nil_r (concat _)), <- Hll.
  apply (wp_verify_loop 64 (length leaves)); try done; try lia.
  { apply SIZE_MAX_pow. lia. }
  intros cur w' _ Hcur. rewrite Hll, Ht in Hcur. injection Hcur as <-. cbn.
  wp_run. apply wp_guard; [done|]. wp_run. apply wp_guard; [by apply bool_decide_eq_true|done].
Qed.

(** C30: For every entry of a log, the root the code computes, the hash it reads
    and the proof it builds fit together: the proof has at most 64 hashes,
    the index and the count are those of the entry and the log, and its
    verification succeeds. *)
Theorem merkle_proof_complete c i r cap e w :
  healthy e → w_conn w = Some c → audit_ordered (t_audit_log (conn_cur c)) →
  t_audit_log (conn_cur c) !! i = Some r → (1 ≤ ar_entry_id r)%Z →
  Forall (λ r, length (ar_entry_hash r) = 32%nat) (t_audit_log (conn_cur c)) →
  (Z.of_nat (length (t_audit_log (conn_cur c))) ≤ SIZE_MAX / 32)%Z →
  (AUDIT_MERKLE_PROOF_MAX_BYTES ≤ cap)%nat →
  ∃ root proof w1 w2 w3 w4,
    let n := length (t_audit_log (conn_cur c)) in
    audit_compute_merkle_root AUDIT_MERKLE_ROOT_BYTES e w = (Ok (root, n), w1) ∧
    audit_get_entry_hash (ar_entry_id r) AUDIT_MERKLE_ROOT_BYTES e w1 = (Ok (ar_entry_hash r), w2) ∧
    audit_build_merkle_proof (ar_entry_id r) cap e w2 = (Ok (proof, i, n), w3) ∧
    (length proof ≤ AUDIT_MERKLE_PROOF_MAX_BYTES)%nat ∧
    audit_verify_merkle_proof (ar_entry_hash r) (Z.of_nat i) (Z.of_nat n) proof root e w3
      = (Ok (), w4).
Proof.
  intros He Hc Ho Hi Hid HF Hmax Hcap. set (log := t_audit_log (conn_cur c)) in *.
  assert (SIZE_MAX / 32 < SIZE_MAX)%Z as Hdiv by done.
  assert (i < length log)%nat as Hlt by (by eapply lookup_lt_Some).
  assert (length (ar_entry_hash r) = 32%nat) as Hh.
  { rewrite Forall_forall in HF. apply HF. by eapply list_elem_of_lookup_2. }
  destruct (merkle_root_is_Some (ar_entry_hash <$> log)) as (root & Hroot & _ & _).
  { intros E. apply fmap_nil_inv in E. by rewrite E in Hi. }
  set (proof := concat (siblings (length log) (merkle_leaf <$> (ar_entry_hash <$> log)) i)).
  assert (wp (audit_compute_merkle_root AUDIT_MERKLE_ROOT_BYTES)
            (λ p w', p = (root, length log) ∧ w_conn w' = Some c) e w) as (? & w1 & E1 & -> & Hc1).
  { apply (wp_compute_root c root); try done. intros w' (-> & _). done. }
  assert (wp (audit_get_entry_hash (ar_entry_id r) AUDIT_MERKLE_ROOT_BYTES)
            (λ h w', h = ar_entry_hash r ∧ w_conn w' = Some c) e w1) as (? & w2 & E2 & -> & Hc2).
  { by eapply wp_get_entry_hash. }
  assert (wp (audit_build_merkle_proof (ar_entry_id r) cap)
            (λ p w', p = (proof, i, length log)) e w2) as (? & w3 & E3 & ->).
  { by apply (wp_build_proof c i r cap). }
  assert (wp (audit_verify_merkle_proof (ar_entry_hash r) (Z.of_nat i) (Z.of_nat (length log)) proof root)
            (λ _ _, True) e w3) as ([] & w4 & E4 & _).
  { unfold proof. rewrite <- (length_fmap ar_entry_hash log) at 1 2.
    apply wp_verify_proof; try done; [by rewrite list_lookup_fmap, Hi|by rewrite length_fmap]. }
  exists root, proof, w1, w2, w3, w4. cbv zeta. split_and!; try done.
  assert (Forall (λ h, length h = 32%nat) (merkle_leaf <$> (ar_entry_hash <$> log))) as Hleaves.
  { apply Forall_fmap, Forall_forall. intros h _. apply length_sha256. }
  unfold proof. rewrite length_concat_32 by (apply siblings_32; [by rewrite !length_fmap|done]).
  pose proof (siblings_len 64 (length log) (merkle_leaf <$> (ar_entry_hash <$> log)) i) as Hs.
  rewrite !length_fmap in Hs. specialize (Hs ltac:(apply SIZE_MAX_pow; lia)).
  unfold AUDIT_MERKLE_PROOF_MAX_BYTES, AUDIT_MERKLE_ROOT_BYTES, AUDIT_MERKLE_PROOF_MAX_HASHES. lia.
Qed.

(** * The verifier, completely *)

(** The number of hashes that belong to a leaf count. *)
Definition proof_hashes (count : Z) : nat := length (proof_path VERIFY_FUEL 0 count []).

Lemma length_proof_path fuel i j count p q :
  length (proof_path fuel i count p) = length (proof_path fuel j count q).
Proof.
  induction fuel as [|fuel IH] in i, j, count, p, q |- *; cbn [proof_path]; [done|].
  destruct (count <=? 1)%Z; [done|]. cbn [length]. f_equal. apply IH.
Qed.

Lemma half_bound count k :
  (0 ≤ count ≤ 2 ^ Z.of_nat (S k) ∨ count = SIZE_MAX)%Z → (k < 63)%nat ∨ (k = 63)%nat ∧ (count ≤ SIZE_MAX)%Z →
  (0 ≤ wrap_u 64 (count + 1) / 2 ≤ 2 ^ Z.of_nat k)%Z.
Proof.
  intros H Hk. destruct (decide (count = SIZE_MAX)) as [->|Hne].
  { change (wrap_u 64 (SIZE_MAX + 1) / 2)%Z with 0%Z. lia. }
  assert (0 ≤ count < SIZE_MAX)%Z as Hc.
  { destruct H as [H|H]; [|done]. destruct Hk as [Hk|[-> Hk]]; [|lia]. split; [lia|].
    apply (Z.le_lt_trans _ (2 ^ 63)); [|done]. etrans; [apply H|]. apply Z.pow_le_mono_r; lia. }
  assert (SIZE_MAX = 18446744073709551615)%Z as HM by done.
  rewrite wrap_u_small by lia. destruct H as [[H1 H2]|]; [|done].
  split; [apply Z.div_pos; lia|].
  apply Z.lt_succ_r, Z.div_lt_upper_bound; [lia|].
  rewrite Nat2Z.inj_succ, Z.pow_succ_r in H2 by lia. lia.
Qed.

Lemma audit_hash_merkle_internal_healthy l r e w :
  healthy e → audit_hash_merkle_internal l r e w = (Ok (merkle_node l r), called w).
Proof. intros He. unfold audit_hash_merkle_internal, mbind, M_bind. by rewrite lib_call_healthy. Qed.

Lemma verify_loop_run k fuel index count proof c e w :
  healthy e → (k < fuel)%nat → (k ≤ 64)%nat → (0 ≤ count ≤ 2 ^ Z.of_nat k)%Z → (count ≤ SIZE_MAX)%Z →
  (verify_proof_loop fuel index count proof c e w).1 =
    let path := proof_path fuel index count proof in
    if (32 * length path <=? length proof)%nat
    then Ok (climb c path, drop (32 * length path) proof)
    else Err SM_ERR_INVALID_ARGUMENT.
Proof.
  intros He. revert k index count proof c w.
  induction fuel as [|fuel IH]; intros k index count proof c w Hf Hk Hc Hmax; [lia|].
  cbn [verify_proof_loop proof_path]. destruct (Z.leb_spec count 1) as [H1|H1]; [done|].
  destruct k as [|k]; [simpl in Hc; lia|].
  destruct (Nat.leb_spec AUDIT_MERKLE_ROOT_BYTES (length proof)) as [Hl|Hl].
  2:{ rewrite guard_fail by done. cbv zeta. cbn [length].
      unfold AUDIT_MERKLE_ROOT_BYTES in *.
      rewrite (proj2 (Nat.leb_gt _ (length proof))) by lia. done. }
  rewrite guard_run by done. cbv zeta.
  set (parent := if Z.even index then merkle_node c (take AUDIT_MERKLE_ROOT_BYTES proof)
                 else merkle_node (take AUDIT_MERKLE_ROOT_BYTES proof) c).
  assert ((if Z.even index
           then audit_hash_merkle_internal c (take AUDIT_MERKLE_ROOT_BYTES proof)
           else audit_hash_merkle_internal (take AUDIT_MERKLE_ROOT_BYTES proof) c) e w
          = (Ok parent, called w)) as Hp.
  { subst parent. destruct (Z.even index); by apply audit_hash_merkle_internal_healthy. }
  rewrite (bind_run _ _ _ _ _ _ Hp).
  assert (0 ≤ wrap_u 64 (count + 1) / 2 ≤ 2 ^ Z.of_nat k)%Z as Hh.
  { apply half_bound; [by left|]. destruct (decide (k = 63%nat)); [right; lia|left; lia]. }
  rewrite (IH k); [|lia|lia|done|].
  2:{ etrans; [apply Hh|]. etrans; [apply (Z.pow_le_mono_r _ _ 63); lia|done]. }
  cbv zeta. rewrite length_drop. cbn [length]. unfold AUDIT_MERKLE_ROOT_BYTES in *.
  set (path := proof_path _ _ _ _).
  replace (32 * length path <=? length proof - 32)%nat with (32 * S (length path) <=? length proof)%nat.
  2:{ apply eq_true_iff_eq. rewrite !Nat.leb_le. lia. }
  destruct (_ <=? _)%nat; [|done]. rewrite drop_drop. f_equal. f_equal.
  - subst parent. unfold climb. simpl. by destruct (Z.even index).
  - f_equal. lia.
Qed.

(** The verifier answers for every input, and its answer is: INVALID_ARGUMENT
    unless the lengths are right, the index is below a positive leaf count
    and the proof holds exactly the hashes of that count; CRYPTO when the
    climb from the leaf does not end in the root; success otherwise. The
    loop ends within the 65 turns of the model. *)
Theorem audit_verify_merkle_proof_spec h index count proof root e w :
  healthy e → (0 ≤ count ≤ SIZE_MAX)%Z →
  (audit_verify_merkle_proof h index count proof root e w).1 =
    if (length h =? 32)%nat && (0 <? count)%Z && (index <? count)%Z && (length root =? 32)%nat
       && (length proof =? 32 * proof_hashes count)%nat
    then if bool_decide (climb (merkle_leaf h) (proof_path VERIFY_FUEL index count proof) = root)
         then Ok () else Err SM_ERR_CRYPTO
    else Err SM_ERR_INVALID_ARGUMENT.
Proof.
  intros He Hc. unfold audit_verify_merkle_proof, proof_hashes.
  rewrite (length_proof_path VERIFY_FUEL 0 index count [] proof).
  set (path := proof_path VERIFY_FUEL index count proof).
  assert (negb (count =? 0) = (0 <? count))%Z as ->.
  { apply eq_true_iff_eq. rewrite negb_true_iff, Z.eqb_neq, Z.ltb_lt. lia. }
  unfold AUDIT_MERKLE_ROOT_BYTES.
  destruct (length h =? 32)%nat eqn:Eh; [|done]. cbn [andb].
  destruct (0 <? count)%Z; [|done]. cbn [andb].
  destruct (index <? count)%Z; [|done]. cbn [andb].
  destruct (length root =? 32)%nat; [|by rewrite andb_false_r].
  rewrite andb_true_r. cbn [andb].
  destruct (Nat.eqb_spec (length proof mod 32) 0) as [Hm|Hm].
  2:{ destruct (Nat.eqb_spec (length proof) (32 * length path)) as [E|]; [|done].
      rewrite E, Nat.mul_comm, Nat.Div0.mod_mul in Hm. done. }
  rewrite guard_run by done.
  assert (audit_hash_merkle_leaf h e w = (Ok (merkle_leaf h), called w)) as Hleaf.
  { unfold audit_hash_merkle_leaf. rewrite guard_run by done. by rewrite lib_call_run. }
  rewrite (bind_run _ _ _ _ _ _ Hleaf).
  pose proof (verify_loop_run 64 VERIFY_FUEL index count proof (merkle_leaf h) e (called w) He) as Hr.
  specialize (Hr ltac:(unfold VERIFY_FUEL; lia) ltac:(lia)).
  assert (0 ≤ count ≤ 2 ^ Z.of_nat 64)%Z as Hc'.
  { split; [lia|]. etrans; [apply Hc|done]. }
  specialize (Hr Hc' ltac:(lia)). cbv zeta in Hr. fold path in Hr.
  destruct (verify_proof_loop _ _ _ _ _ _ _) as [r w1] eqn:El. cbn [fst] in Hr. subst r.
  unfold mbind at 1, M_bind at 1. rewrite El.
  destruct (Nat.leb_spec (32 * length path) (length proof)) as [Hl|Hl].
  2:{ destruct (Nat.eqb_spec (length proof) (32 * length path)); [lia|done]. }
  destruct (Nat.eqb_spec (length proof) (32 * length path)) as [E|E].
  - rewrite (bool_decide_true (drop _ _ = [])) by (apply drop_ge; lia).
    rewrite guard_run by done. unfold guard_or, lift, check. simpl. by destruct (bool_decide _).
  - rewrite (bool_decide_false (drop _ _ = [])); [done|]. intros Hd. apply (f_equal length) in Hd.
    rewrite length_drop in Hd. simpl length in Hd. lia.
Qed.

(** * What the root determines *)

#[export] Instance tree_eq_dec : EqDecision tree.
Proof. solve_decision. Defined.

(** Two hashed strings that differ, for two trees with the same root. *)
Fixpoint tree_collision (t u : tree) : bytes * bytes :=
  match t, u with
  | Leaf a, Leaf b => (AUDIT_MERKLE_LEAF_DOMAIN :: a, AUDIT_MERKLE_LEAF_DOMAIN :: b)
  | Leaf a, Node l r =>
      (AUDIT_MERKLE_LEAF_DOMAIN :: a, AUDIT_MERKLE_INTERNAL_DOMAIN :: tree_hash l ++ tree_hash r)
  | Node l r, Leaf b =>
      (AUDIT_MERKLE_INTERNAL_DOMAIN :: tree_hash l ++ tree_hash r, AUDIT_MERKLE_LEAF_DOMAIN :: b)
  | Node l r, Node l' r' =>
      if decide (tree_hash l = tree_hash l' ∧ tree_hash r = tree_hash r')
      then if decide (l = l') then tree_collision r r' else tree_collision l l'
      else (AUDIT_MERKLE_INTERNAL_DOMAIN :: tree_hash l ++ tree_hash r,
            AUDIT_MERKLE_INTERNAL_DOMAIN :: tree_hash l' ++ tree_hash r')
  end.

Lemma tree_hash_inj t u : tree_hash t = tree_hash u → t = u ∨ sha256_collision (tree_collision t u).
Proof.
  induction t as [a|l IHl r IHr] in u |- *; destruct u as [b|l' r']; intros H; cbn [tree_collision].
  - destruct (decide (a = b)) as [->|Hne]; [by left|right]. split; [simpl; congruence|exact H].
  - right. split; [done|exact H].
  - right. split; [done|exact H].
  - destruct (decide _) as [[El Er]|Hne].
    + destruct (decide (l = l')) as [->|Hl].
      * destruct (IHr r' Er) as [->|]; [by left|by right].
      * destruct (IHl l' El) as [->|]; [done|by right].
    + right. split; [|exact H]. simpl. intros E. injection E as E.
      apply app_inj_1 in E; [tauto|]. by rewrite !length_tree_hash.
Qed.

Lemma merkle_tree_inj log log' t :
  merkle_tree log = Some t → merkle_tree log' = Some t → length log = length log' → log = log'.
Proof.
  intros H H' Hl. apply list_eq_same_length with (length log); [done..|].
  intros i x y Hi Hx Hy.
  assert (∀ l z, merkle_tree l = Some t → length l = length log → l !! i = Some z →
    leaf_at t (directions (length log) i (length log)) = Some z) as Hz.
  { intros l z Ht Hll Hz.
    assert ((Leaf <$> l) !! i = Some (Leaf z)) as Hleaf by (by rewrite list_lookup_fmap, Hz).
    destruct (follow_directions (length l) (Leaf <$> l) i (Leaf z) Hleaf) as (t' & Ht' & Hd);
      [by rewrite length_fmap|].
    unfold merkle_tree in Ht. rewrite Ht' in Ht. injection Ht as ->.
    specialize (Hd []). rewrite app_nil_r, length_fmap, Hll in Hd. exact Hd. }
  pose proof (Hz log x H eq_refl Hx) as E. rewrite (Hz log' y H' (eq_sym Hl) Hy) in E. congruence.
Qed.

(** The strings that collide when two logs of the same length share a root. *)
Definition root_collision (log log' : list bytes) : bytes * bytes :=
  match merkle_tree log, merkle_tree log' with
  | Some t, Some u => tree_collision t u
  | _, _ => ([], [])
  end.

Lemma merkle_root_inj log log' root :
  merkle_root log = Some root → merkle_root log' = Some root → length log = length log' →
  log = log' ∨ sha256_collision (root_collision log log').
Proof.
  unfold merkle_root, root_collision. intros H H' Hl.
  destruct (merkle_tree log) as [t|] eqn:Et; [|done].
  destruct (merkle_tree log') as [u|] eqn:Eu; [|done].
  destruct (tree_hash_inj t u) as [->|Hc]; [simpl in *; congruence| |by right].
  left. by eapply merkle_tree_inj.
Qed.

(** * What the root does not determine *)

(** The last hash of an odd level is paired with itself, so a log of an odd
    length and the log with its last hash repeated have the same root: the
    root determines the log only together with the number of leaves. *)
Lemma merkle_root_repeated_last (a b c : bytes) :
  merkle_root [a; b; c] = merkle_root [a; b; c; c].
Proof. reflexivity. Qed.

(** With a claimed leaf count of [SIZE_MAX] the sum [count + 1] wraps to 0
    and the loop ends after one turn, so the proof of a leaf of a log with
    two entries is accepted for that count. *)
Lemma verify_leaf_count_wraps (a b : bytes) e w :
  healthy e → length a = 32%nat →
  (audit_verify_merkle_proof a 0 SIZE_MAX (merkle_leaf b)
     (merkle_node (merkle_leaf a) (merkle_leaf b)) e w).1
  = if (length (merkle_leaf b) =? 32)%nat && (length (merkle_node (merkle_leaf a) (merkle_leaf b)) =? 32)%nat
    then Ok () else Err SM_ERR_INVALID_ARGUMENT.
Proof.
  intros He Ha. rewrite audit_verify_merkle_proof_spec by done.
  rewrite Ha. change (0 <? SIZE_MAX)%Z with true. change (32 =? 32)%nat with true.
  change (proof_hashes SIZE_MAX) with 1%nat. change (32 * 1)%nat with 32%nat. cbn [andb].
  rewrite andb_comm. destruct (_ && _) eqn:E; [|done].
  apply andb_true_iff in E as [E _]. apply Nat.eqb_eq in E.
  rewrite bool_decide_true; [done|].
  assert (proof_path VERIFY_FUEL 0 SIZE_MAX (merkle_leaf b)
          = [(false, take AUDIT_MERKLE_ROOT_BYTES (merkle_leaf b))]) as ->.
  { unfold VERIFY_FUEL. cbn [proof_path]. change (SIZE_MAX <=? 1)%Z with false.
    change (wrap_u 64 (SIZE_MAX + 1) / 2)%Z with 0%Z. done. }
  unfold climb. cbn [foldl fst snd]. rewrite take_ge; [done|]. unfold AUDIT_MERKLE_ROOT_BYTES. lia.
Qed.
End Merkle.

(** * Concrete runs *)

Module MerkleExample.

Definition entry (n : nat) : bytes := replicate 31 Byte.x00 ++ [z_byte (Z.of_nat n)].
Definition row (n : nat) : audit_row :=
  AuditRow (Z.of_nat n) [] (str "CREATE") [] [] None (str "SUCCESS") [] (entry n) [].
Definition log : list audit_row := row <$> [1; 2; 3]%nat.
Definition conn : connection :=
  Connection (Database [] log ∅ []) (Database [] log ∅ []) false.
Definition world : world := World (Some conn) None false Sample.disk0 0 0 0.
Definition e0 : env := Sample.env_at 0.
Definition path : bytes :=
  @merkle_leaf Toy.crypto (entry 3) ++
  @merkle_node Toy.crypto (@merkle_leaf Toy.crypto (entry 1)) (@merkle_leaf Toy.crypto (entry 2)).
Definition root : bytes := default [] (@merkle_root Toy.crypto (ar_entry_hash <$> log)).

Lemma merkle_proof_sound_witness :
  (entry 3 ∈ ar_entry_hash <$> log ∧
   (3%Z = Z.of_nat (length (ar_entry_hash <$> log)) →
    (ar_entry_hash <$> log) !! Z.to_nat 2 = Some (entry 3))) ∨
  @sha256_collision Toy.crypto (@merkle_collision Toy.crypto (ar_entry_hash <$> log) (entry 3) 2 3 path).
Proof.
  destruct (run_ok (@audit_verify_merkle_proof Toy.crypto (entry 3) 2 3 path root e0 world))
    as (u & w & H); [vm_compute; reflexivity|].
  apply (@merkle_proof_sound Toy.crypto Toy.laws _ root (entry 3) 2 3 path e0 world u w);
    [vm_compute; reflexivity|done|done|exact H].
Defined.

Lemma merkle_proof_complete_witness :
  ∃ root proof w1 w2 w3 w4,
    @audit_compute_merkle_root Toy.crypto AUDIT_MERKLE_ROOT_BYTES e0 world = (Ok (root, 3%nat), w1) ∧
    audit_get_entry_hash 2 AUDIT_MERKLE_ROOT_BYTES e0 w1 = (Ok (entry 2), w2) ∧
    @audit_build_merkle_proof Toy.crypto 2 AUDIT_MERKLE_PROOF_MAX_BYTES e0 w2 = (Ok (proof, 1%nat, 3%nat), w3) ∧
    (length proof ≤ AUDIT_MERKLE_PROOF_MAX_BYTES)%nat ∧
    @audit_verify_merkle_proof Toy.crypto (entry 2) 1 3 proof root e0 w3 = (Ok (), w4).
Proof.
  apply (@merkle_proof_complete Toy.crypto Toy.laws conn 1 (row 2) AUDIT_MERKLE_PROOF_MAX_BYTES e0 world).
  - apply Sample.env_at_healthy.
  - reflexivity.
  - repeat constructor.
  - reflexivity.
  - simpl. lia.
  - repeat constructor.
  - apply (bool_decide_unpack _). vm_compute. exact I.
  - lia.
Defined.

Lemma audit_verify_merkle_proof_spec_witness :
  (@audit_verify_merkle_proof Toy.crypto (entry 3) 2 3 path root e0 world).1 = Ok () ∧
  (@audit_verify_merkle_proof Toy.crypto (entry 2) 2 3 path root e0 world).1 = Err SM_ERR_CRYPTO ∧
  (@audit_verify_merkle_proof Toy.crypto (entry 3) 2 3 (take 32 path) root e0 world).1
    = Err SM_ERR_INVALID_ARGUMENT.
Proof.
  pose proof (Sample.env_at_healthy 0) as He.
  split_and!; rewrite (@audit_verify_merkle_proof_spec Toy.crypto) by (exact He || done);
    vm_compute; reflexivity.
Defined.

End MerkleExample.
