(* ===== verification/Backup.v ===== *)
(** The encrypted backups and the key files of src/src/backup.c: the capsule
    format, the hybrid key exchange that seals a capsule, its export and
    import, and the ML-DSA-65 signatures.

    The file helpers of backup.c are in [Files]. *)

From S2P Require Import Prelude Status Sodium Schema State Files Openssl Utils Storage Sqlite CryptoEngine Merkle.

Definition BACKUP_MAGIC : bytes := str "SMBKPQ1" ++ [newline].
Definition BACKUP_MAGIC_LEN : nat := 8.
Definition BACKUP_VERSION : Z := 1.
Definition BACKUP_FIXED_HEADER_LEN : nat := 44.
Definition BACKUP_MAX_DB_BYTES : Z := 128 * 1024 * 1024.
Definition BACKUP_KEY_BYTES : nat := crypto_aead_KEYBYTES.
Definition BACKUP_NONCE_BYTES : nat := aead_NPUBBYTES XCHACHA20_POLY1305.
Definition BACKUP_TAG_BYTES : nat := aead_ABYTES XCHACHA20_POLY1305.
Definition BACKUP_ENCAP_PREFIX_LEN : nat := 4.
Definition BACKUP_CAPSULE_ALGORITHM : bytes := str "X25519+ML-KEM-768".

(** * The format *)

Definition backup_write_u32_le (value : Z) : bytes := write_le 4 value.
Definition backup_read_u32_le (l : bytes) : Z := read_le (take 4 l).
Definition backup_read_u64_le (l : bytes) : Z := read_le (take 8 l).

Definition backup_checked_add (total value : Z) : outcome Z :=
  check (total <=? SIZE_MAX - value)%Z SM_ERR_STORAGE ;; Ok (total + value)%Z.

(** [status = backup_checked_add(&total, len)] for one length after the other. *)
Definition checked_sum (total : Z) (parts : list bytes) : outcome Z :=
  foldl (λ acc part, total ← acc; backup_checked_add total (Z.of_nat (length part))) (Ok total) parts.

Definition backup_build_hybrid_encap (ephemeral_public kem_ct : bytes) : M bytes :=
  guard_or ((length ephemeral_public =? BACKUP_X25519_PUBLIC_BYTES)%nat && negb (bool_decide (kem_ct = [])))
    SM_ERR_INVALID_ARGUMENT ;;
  lift (checked_sum (Z.of_nat BACKUP_ENCAP_PREFIX_LEN) [ephemeral_public; kem_ct]) ;;
  lib_call SM_ERR_STORAGE ;;
  mret (backup_write_u32_le (Z.of_nat (length ephemeral_public)) ++ ephemeral_public ++ kem_ct).

(** The ephemeral public key and the ciphertext of the KEM. *)
Definition backup_parse_hybrid_encap (encap : bytes) : outcome (bytes * bytes) :=
  check (BACKUP_ENCAP_PREFIX_LEN <? length encap)%nat SM_ERR_INVALID_ARGUMENT ;;
  let encoded_ephemeral_len := backup_read_u32_le encap in
  check ((encoded_ephemeral_len =? Z.of_nat BACKUP_X25519_PUBLIC_BYTES)
         && (encoded_ephemeral_len <=? Z.of_nat (length encap - BACKUP_ENCAP_PREFIX_LEN)))%Z SM_ERR_CRYPTO ;;
  let offset := (BACKUP_ENCAP_PREFIX_LEN + Z.to_nat encoded_ephemeral_len)%nat in
  check (offset <? length encap)%nat SM_ERR_CRYPTO ;;
  Ok (take (Z.to_nat encoded_ephemeral_len) (drop BACKUP_ENCAP_PREFIX_LEN encap), drop offset encap).

Definition backup_build_aad (fixed_header algorithm kem_ct nonce audit_root : bytes) : M bytes :=
  lift (checked_sum (Z.of_nat BACKUP_FIXED_HEADER_LEN) [algorithm; kem_ct; nonce; audit_root]) ;;
  lib_call SM_ERR_STORAGE ;;
  mret (fixed_header ++ algorithm ++ kem_ct ++ nonce ++ audit_root).

Definition backup_build_fixed_header (algorithm_len kem_ct_len nonce_len audit_root_len ciphertext_len
    plaintext_len : Z) : outcome bytes :=
  check ((algorithm_len <=? UINT32_MAX) && (kem_ct_len <=? UINT32_MAX) && (nonce_len <=? UINT32_MAX)
         && (audit_root_len <=? UINT32_MAX))%Z SM_ERR_INVALID_ARGUMENT ;;
  Ok (BACKUP_MAGIC ++ backup_write_u32_le BACKUP_VERSION ++ backup_write_u32_le algorithm_len
      ++ backup_write_u32_le kem_ct_len ++ backup_write_u32_le nonce_len
      ++ backup_write_u32_le audit_root_len ++ utils_write_u64_le ciphertext_len
      ++ utils_write_u64_le plaintext_len).

(** What [backup_pqc_import] finds in a capsule: the authenticated part before
    the ciphertext, and the pieces it points into. *)
Record capsule_parts := Capsule {
  cp_aad : bytes;
  cp_encap : bytes;
  cp_nonce : bytes;
  cp_audit_root : bytes;
  cp_ciphertext : bytes;
  cp_plaintext_len : Z;
}.

Definition bytes_at (offset len : nat) (l : bytes) : bytes := take len (drop offset l).

Definition parse_capsule (capsule : bytes) : outcome capsule_parts :=
  check (BACKUP_FIXED_HEADER_LEN <=? length capsule)%nat SM_ERR_STORAGE ;;
  check (bool_decide (take BACKUP_MAGIC_LEN capsule = BACKUP_MAGIC)) SM_ERR_CRYPTO ;;
  check (backup_read_u32_le (drop 8 capsule) =? BACKUP_VERSION)%Z SM_ERR_CRYPTO ;;
  let algorithm_len := Z.to_nat (backup_read_u32_le (drop 12 capsule)) in
  let encap_len := Z.to_nat (backup_read_u32_le (drop 16 capsule)) in
  let nonce_len := Z.to_nat (backup_read_u32_le (drop 20 capsule)) in
  let audit_root_len := Z.to_nat (backup_read_u32_le (drop 24 capsule)) in
  let ciphertext_len := backup_read_u64_le (drop 28 capsule) in
  let expected_plaintext_len := backup_read_u64_le (drop 36 capsule) in
  check ((algorithm_len =? length BACKUP_CAPSULE_ALGORITHM)%nat && (nonce_len =? BACKUP_NONCE_BYTES)%nat
         && (audit_root_len =? AUDIT_MERKLE_ROOT_BYTES)%nat
         && (Z.of_nat BACKUP_TAG_BYTES <=? ciphertext_len)%Z
         && (expected_plaintext_len =? ciphertext_len - Z.of_nat BACKUP_TAG_BYTES)%Z) SM_ERR_CRYPTO ;;
  let offset := BACKUP_FIXED_HEADER_LEN in
  check (algorithm_len <=? length capsule - offset)%nat SM_ERR_STORAGE ;;
  let algorithm := bytes_at offset algorithm_len capsule in
  let offset := (offset + algorithm_len)%nat in
  check (bool_decide (algorithm = BACKUP_CAPSULE_ALGORITHM) && (encap_len <=? length capsule - offset)%nat)
    SM_ERR_CRYPTO ;;
  let encap := bytes_at offset encap_len capsule in
  let offset := (offset + encap_len)%nat in
  check (nonce_len <=? length capsule - offset)%nat SM_ERR_STORAGE ;;
  let nonce := bytes_at offset nonce_len capsule in
  let offset := (offset + nonce_len)%nat in
  check (audit_root_len <=? length capsule - offset)%nat SM_ERR_STORAGE ;;
  let audit_root := bytes_at offset audit_root_len capsule in
  let offset := (offset + audit_root_len)%nat in
  check (ciphertext_len =? Z.of_nat (length capsule - offset))%Z SM_ERR_STORAGE ;;
  Ok (Capsule (take offset capsule) encap nonce audit_root (drop offset capsule) expected_plaintext_len).

(** * Key files *)

Definition backup_private_key_passphrase_is_valid (passphrase : bytes) : bool :=
  negb (bool_decide (c_str passphrase = [])).

(** [strncmp(line, p, strlen(p)) == 0] *)
Definition has_prefix (p line : bytes) : bool := bool_decide (take (length p) (c_str line) = p).

(** The strings that [fgets(line, 256, fp)] reads, to the end of the stream. *)
Fixpoint fgets_all (room : nat) (line l : bytes) : list bytes :=
  match l with
  | [] => match line with [] => [] | _ => [line] end
  | b :: l' =>
      if bool_decide (b = newline) || (room =? 1)%nat then (line ++ [b]) :: fgets_all 255 [] l'
      else fgets_all (room - 1) (line ++ [b]) l'
  end.

(** Whether a private key was seen; one that is not encrypted is refused. *)
Fixpoint header_loop (saw_private_key : bool) (lines : list bytes) : outcome bool :=
  match lines with
  | [] => Ok saw_private_key
  | line :: lines' =>
      if has_prefix begin_prefix line then
        check (has_prefix encrypted_header line) SM_ERR_CRYPTO ;; header_loop true lines'
      else header_loop saw_private_key lines'
  end.

Definition backup_private_key_file_header_is_encrypted (content : bytes) : M unit :=
  lib_call SM_ERR_STORAGE ;;
  lib_call SM_ERR_STORAGE ;;
  saw_private_key ← lift (header_loop false (fgets_all 255 [] content));
  guard_or saw_private_key SM_ERR_STORAGE.

(** Random bytes that OpenSSL draws. *)
Definition openssl_random : M bytes := randombytes_buf 32.

Section Backup.
Context {CR : Crypto} {PX : Posix} {OS : Openssl} {SQ : Sqlite}.

(** A call of OpenSSL that may fail. *)
Definition openssl_call {A} (r : option A) : M A :=
  lib_call SM_ERR_CRYPTO ;; lift (from_option_or SM_ERR_CRYPTO r).

Definition openssl_keygen (algorithm : bytes) : M pkey :=
  lib_call SM_ERR_CRYPTO ;;
  r ← openssl_random;
  mret (EVP_PKEY_Q_keygen algorithm r).

Definition backup_write_encrypted_private_key (fp : bytes) (key : pkey) (passphrase : bytes) : M unit :=
  guard_or (backup_private_key_passphrase_is_valid passphrase) SM_ERR_INVALID_ARGUMENT ;;
  guard_or (Z.of_nat (length (c_str passphrase)) <=? INT_MAX)%Z SM_ERR_INVALID_ARGUMENT ;;
  r ← openssl_random;
  as_status SM_ERR_CRYPTO (fwrite fp (PEM_write_PrivateKey key (c_str passphrase) r)).

Definition read_public_key (l : bytes) : M (pkey * bytes) := openssl_call (PEM_read_PUBKEY l).
Definition read_private_key (passphrase l : bytes) : M (pkey * bytes) :=
  openssl_call (PEM_read_PrivateKey (c_str passphrase) l).

Definition backup_load_public_keypair (path : bytes) : M (pkey * pkey) :=
  guard_or (negb (bool_decide (c_str path = []))) SM_ERR_INVALID_ARGUMENT ;;
  fp ← fopen_rb path;
  and_close
    (content ← fcontent fp;
     '(kem_key, rest) ← read_public_key content;
     '(x25519_key, _) ← read_public_key rest;
     mret (kem_key, x25519_key)).

Definition backup_load_private_keypair (path passphrase : bytes) : M (pkey * pkey) :=
  guard_or (negb (bool_decide (c_str path = [])) && backup_private_key_passphrase_is_valid passphrase)
    SM_ERR_INVALID_ARGUMENT ;;
  fp ← backup_fopen_owner_only_read path;
  and_close
    (content ← fcontent fp;
     backup_private_key_file_header_is_encrypted content ;;
     '(kem_key, rest) ← read_private_key passphrase content;
     '(x25519_key, _) ← read_private_key passphrase rest;
     mret (kem_key, x25519_key)).

Definition backup_load_single_public_key (path : bytes) : M pkey :=
  guard_or (negb (bool_decide (c_str path = []))) SM_ERR_INVALID_ARGUMENT ;;
  fp ← fopen_rb path;
  content ← fcontent fp;
  '(key, _) ← read_public_key content;
  mret key.

Definition backup_load_single_private_key (path passphrase : bytes) : M pkey :=
  guard_or (negb (bool_decide (c_str path = [])) && backup_private_key_passphrase_is_valid passphrase)
    SM_ERR_INVALID_ARGUMENT ;;
  fp ← backup_fopen_owner_only_read path;
  content ← fcontent fp;
  backup_private_key_file_header_is_encrypted content ;;
  '(key, _) ← read_private_key passphrase content;
  mret key.

(** [for] each key: [write(fp, key)] *)
Definition write_keys (write : pkey → M unit) (keys : list pkey) : M unit := for_each write keys.

(** The two files of a key pair: the encrypted private keys first, then the
    public ones. After any failure both paths are removed. *)
Definition write_key_files (public_key_path private_key_path passphrase : bytes) (keys : list pkey) : M unit :=
  r ← try
    (private_fp ← backup_fopen_exclusive private_key_path S_IRUSR_IWUSR;
     write_keys (λ key, backup_write_encrypted_private_key private_fp key passphrase) keys ;;
     lib_call SM_ERR_STORAGE ;;
     public_fp ← backup_fopen_exclusive public_key_path S_PUBLIC_KEY_MODE;
     write_keys (λ key, as_status SM_ERR_CRYPTO (fwrite public_fp (PEM_write_PUBKEY key))) keys ;;
     lib_call SM_ERR_STORAGE);
  match r with
  | Ok _ => mret ()
  | Err s => remove_path public_key_path ;; remove_path private_key_path ;; throw s
  end.

Definition key_paths_valid (public_key_path private_key_path passphrase : bytes) : bool :=
  negb (bool_decide (c_str public_key_path = [])) && negb (bool_decide (c_str private_key_path = []))
  && backup_private_key_passphrase_is_valid passphrase.

Definition backup_pqc_keygen (public_key_path private_key_path private_key_passphrase : bytes) : M unit :=
  guard_or (key_paths_valid public_key_path private_key_path private_key_passphrase) SM_ERR_INVALID_ARGUMENT ;;
  kem_key ← openssl_keygen BACKUP_PQC_KEM_ALGORITHM;
  x25519_key ← openssl_keygen BACKUP_CLASSICAL_KEX_ALGORITHM;
  write_key_files public_key_path private_key_path private_key_passphrase [kem_key; x25519_key].

Definition backup_mldsa_keygen (public_key_path private_key_path private_key_passphrase : bytes) : M unit :=
  guard_or (key_paths_valid public_key_path private_key_path private_key_passphrase) SM_ERR_INVALID_ARGUMENT ;;
  key ← openssl_keygen BACKUP_MLDSA_ALGORITHM;
  write_key_files public_key_path private_key_path private_key_passphrase [key].

(** Whether the library has the algorithms. *)
Definition backup_pqc_available : M bool :=
  kem_key ← try (openssl_keygen BACKUP_PQC_KEM_ALGORITHM);
  x25519_key ← try (openssl_keygen BACKUP_CLASSICAL_KEX_ALGORITHM);
  mret (is_ok kem_key && is_ok x25519_key).

Definition backup_mldsa_available : M bool :=
  key ← try (openssl_keygen BACKUP_MLDSA_ALGORITHM);
  mret (is_ok key).

(** * The hybrid key *)

Definition backup_encapsulate (public_key : pkey) : M (bytes * bytes) :=
  r ← openssl_random;
  kem ← openssl_call (EVP_PKEY_encapsulate public_key r);
  lib_call SM_ERR_STORAGE ;;
  lib_call SM_ERR_CRYPTO ;;
  mret kem.

Definition backup_decapsulate (private_key : pkey) (kem_ct : bytes) : M bytes :=
  guard_or (negb (bool_decide (kem_ct = []))) SM_ERR_INVALID_ARGUMENT ;;
  shared_secret ← openssl_call (EVP_PKEY_decapsulate private_key kem_ct);
  lib_call SM_ERR_STORAGE ;;
  lib_call SM_ERR_CRYPTO ;;
  mret shared_secret.

Definition backup_x25519_derive (private_key peer_public_key : pkey) : M bytes :=
  shared_secret ← openssl_call (EVP_PKEY_derive private_key peer_public_key);
  lib_call SM_ERR_STORAGE ;;
  lib_call SM_ERR_CRYPTO ;;
  mret shared_secret.

Definition backup_get_raw_public_key (key : pkey) : M bytes :=
  public_key ← openssl_call (EVP_PKEY_get_raw_public_key key);
  lib_call SM_ERR_STORAGE ;;
  lib_call SM_ERR_CRYPTO ;;
  mret public_key.

Definition backup_x25519_public_from_raw (public_key : bytes) : M pkey :=
  guard_or (length public_key =? BACKUP_X25519_PUBLIC_BYTES)%nat SM_ERR_INVALID_ARGUMENT ;;
  openssl_call (EVP_PKEY_new_raw_public_key BACKUP_CLASSICAL_KEX_ALGORITHM public_key).

Definition capsule_context : bytes := str "Fuin-PQC-Backup-v1|X25519+ML-KEM-768|XChaCha20-Poly1305".

Definition backup_derive_capsule_key (kem_shared_secret x25519_shared_secret encap audit_root : bytes) : M bytes :=
  guard_or (negb (bool_decide (kem_shared_secret = [])) && negb (bool_decide (x25519_shared_secret = []))
            && negb (bool_decide (encap = [])) && (length audit_root =? AUDIT_MERKLE_ROOT_BYTES)%nat)
    SM_ERR_INVALID_ARGUMENT ;;
  lib_call SM_ERR_CRYPTO ;;
  mret (generichash [] (capsule_context ++ kem_shared_secret ++ x25519_shared_secret ++ encap ++ audit_root)
          BACKUP_KEY_BYTES).

(** * Export and import *)

Definition backup_sqlite_snapshot : M bytes :=
  df ← database_of;
  serialized ← sql_query (sqlite3_serialize (df_catalogue df));
  guard_or (negb (bool_decide (serialized = []))) SM_ERR_STORAGE ;;
  guard_or (Z.of_nat (length serialized) <=? BACKUP_MAX_DB_BYTES)%Z SM_ERR_INVALID_ARGUMENT ;;
  lib_call SM_ERR_STORAGE ;;
  mret serialized.

Definition backup_pqc_export (recipient_public_key_path capsule_path audit_root : bytes) : M unit :=
  require_db ;;
  guard_or (length audit_root =? AUDIT_MERKLE_ROOT_BYTES)%nat SM_ERR_INVALID_ARGUMENT ;;
  snapshot ← backup_sqlite_snapshot;
  '(kem_public_key, x25519_public_key) ← backup_load_public_keypair recipient_public_key_path;
  '(kem_ct, kem_shared_secret) ← backup_encapsulate kem_public_key;
  ephemeral_key ← openssl_keygen BACKUP_CLASSICAL_KEX_ALGORITHM;
  x25519_shared_secret ← backup_x25519_derive ephemeral_key x25519_public_key;
  ephemeral_public ← backup_get_raw_public_key ephemeral_key;
  encap ← backup_build_hybrid_encap ephemeral_public kem_ct;
  capsule_key ← backup_derive_capsule_key kem_shared_secret x25519_shared_secret encap audit_root;
  guard_or (Z.of_nat (length snapshot) <=? SIZE_MAX - Z.of_nat BACKUP_TAG_BYTES)%Z SM_ERR_STORAGE ;;
  lib_call SM_ERR_STORAGE ;;
  nonce ← randombytes_buf BACKUP_NONCE_BYTES;
  fixed_header ← lift (backup_build_fixed_header (Z.of_nat (length BACKUP_CAPSULE_ALGORITHM))
                         (Z.of_nat (length encap)) (Z.of_nat (length nonce)) (Z.of_nat (length audit_root))
                         (Z.of_nat (length snapshot + BACKUP_TAG_BYTES)) (Z.of_nat (length snapshot)));
  aad ← backup_build_aad fixed_header BACKUP_CAPSULE_ALGORITHM encap nonce audit_root;
  lib_call SM_ERR_CRYPTO ;;
  let ciphertext := aead_encrypt XCHACHA20_POLY1305 capsule_key nonce aad snapshot in
  lift (checked_sum (Z.of_nat (length aad)) [ciphertext]) ;;
  lib_call SM_ERR_STORAGE ;;
  backup_write_all capsule_path (aad ++ ciphertext).

Definition backup_pqc_import (private_key_path private_key_passphrase capsule_path output_db_path : bytes)
  : M unit :=
  guard_or (backup_private_key_passphrase_is_valid private_key_passphrase
            && negb (bool_decide (c_str output_db_path = []))) SM_ERR_INVALID_ARGUMENT ;;
  capsule ← backup_read_all capsule_path (BACKUP_MAX_DB_BYTES + 8192);
  parts ← lift (parse_capsule capsule);
  '(ephemeral_public, kem_ct) ← lift (backup_parse_hybrid_encap (cp_encap parts));
  '(kem_private_key, x25519_private_key) ← backup_load_private_keypair private_key_path private_key_passphrase;
  kem_shared_secret ← backup_decapsulate kem_private_key kem_ct;
  ephemeral_public_key ← backup_x25519_public_from_raw ephemeral_public;
  x25519_shared_secret ← backup_x25519_derive x25519_private_key ephemeral_public_key;
  capsule_key ← backup_derive_capsule_key kem_shared_secret x25519_shared_secret (cp_encap parts)
                  (cp_audit_root parts);
  lib_call SM_ERR_STORAGE ;;
  plaintext ← lift (from_option_or SM_ERR_CRYPTO
                (aead_decrypt XCHACHA20_POLY1305 capsule_key (cp_nonce parts) (cp_aad parts) (cp_ciphertext parts)));
  guard_or (Z.of_nat (length plaintext) =? cp_plaintext_len parts)%Z SM_ERR_CRYPTO ;;
  backup_write_all output_db_path plaintext.

(** * Signatures *)

Definition backup_mldsa_sign (private_key_path private_key_passphrase message : bytes) (signature_len : nat)
  : M bytes :=
  guard_or (negb (bool_decide (message = []))) SM_ERR_INVALID_ARGUMENT ;;
  key ← backup_load_single_private_key private_key_path private_key_passphrase;
  lib_call SM_ERR_STORAGE ;;
  r ← openssl_random;
  signature ← openssl_call (EVP_DigestSign key message r);
  guard_or (length signature <=? signature_len)%nat SM_ERR_CRYPTO ;;
  mret signature.

Definition backup_mldsa_verify (public_key_path message signature : bytes) : M unit :=
  guard_or (negb (bool_decide (message = [])) && negb (bool_decide (signature = []))) SM_ERR_INVALID_ARGUMENT ;;
  key ← backup_load_single_public_key public_key_path;
  lib_call SM_ERR_STORAGE ;;
  lib_call SM_ERR_CRYPTO ;;
  guard_or (EVP_DigestVerify key message signature) SM_ERR_CRYPTO.

End Backup.

(** * The format is canonical *)

(** The authenticated part of a capsule. *)
Definition capsule_aad (encap nonce audit_root : bytes) (ciphertext_len plaintext_len : Z) : bytes :=
  (BACKUP_MAGIC ++ write_le 4 BACKUP_VERSION ++ write_le 4 (Z.of_nat (length BACKUP_CAPSULE_ALGORITHM))
   ++ write_le 4 (Z.of_nat (length encap)) ++ write_le 4 (Z.of_nat (length nonce))
   ++ write_le 4 (Z.of_nat (length audit_root)) ++ write_le 8 ciphertext_len ++ write_le 8 plaintext_len)
  ++ BACKUP_CAPSULE_ALGORITHM ++ encap ++ nonce ++ audit_root.

Definition capsule_of (p : capsule_parts) : bytes := cp_aad p ++ cp_ciphertext p.

(** The pieces of a capsule that has the right form. *)
Definition capsule_parts_ok (p : capsule_parts) : Prop :=
  length (cp_nonce p) = BACKUP_NONCE_BYTES ∧ length (cp_audit_root p) = AUDIT_MERKLE_ROOT_BYTES ∧
  (Z.of_nat (length (cp_encap p)) ≤ UINT32_MAX)%Z ∧
  (Z.of_nat BACKUP_TAG_BYTES ≤ Z.of_nat (length (cp_ciphertext p)) ≤ UINT64_MAX)%Z ∧
  cp_plaintext_len p = (Z.of_nat (length (cp_ciphertext p)) - Z.of_nat BACKUP_TAG_BYTES)%Z ∧
  cp_aad p = capsule_aad (cp_encap p) (cp_nonce p) (cp_audit_root p)
               (Z.of_nat (length (cp_ciphertext p))) (cp_plaintext_len p).

(** The eight fields of the header and what follows it. *)
Lemma split_header (c : bytes) :
  (BACKUP_FIXED_HEADER_LEN ≤ length c)%nat →
  ∃ m v a e n r cl pl rest : bytes, c = (m ++ v ++ a ++ e ++ n ++ r ++ cl ++ pl) ++ rest ∧
    length m = 8%nat ∧ length v = 4%nat ∧ length a = 4%nat ∧ length e = 4%nat ∧ length n = 4%nat ∧
    length r = 4%nat ∧ length cl = 8%nat ∧ length pl = 8%nat.
Proof.
  unfold BACKUP_FIXED_HEADER_LEN. intros H.
  exists (take 8 c), (take 4 (drop 8 c)), (take 4 (drop 12 c)), (take 4 (drop 16 c)), (take 4 (drop 20 c)),
    (take 4 (drop 24 c)), (take 8 (drop 28 c)), (take 8 (drop 36 c)), (drop 44 c).
  rewrite !length_take, !length_drop. split_and!; try lia.
  assert (∀ i k j, j = i + k → take k (drop i c) ++ drop j c = drop i c)%nat as Hd.
  { intros i k j ->. rewrite <- drop_drop. apply take_drop. }
  rewrite <- !app_assoc. rewrite (Hd 36 8 44), (Hd 28 8 36), (Hd 24 4 28), (Hd 20 4 24), (Hd 16 4 20),
    (Hd 12 4 16), (Hd 8 4 12) by done. by rewrite take_drop.
Qed.

Lemma take_app_at {A} (l k : list A) n : length l = n → take n (l ++ k) = l.
Proof. intros <-. apply take_app_length. Qed.
Lemma drop_app_at {A} (l k : list A) n m : length l = n → drop (n + m) (l ++ k) = drop m k.
Proof. intros <-. rewrite drop_app_ge by lia. f_equal. lia. Qed.

(** What the header says, read off its fields. *)
Lemma header_fields (m v a e n r cl pl rest : bytes) :
  length m = 8%nat → length v = 4%nat → length a = 4%nat → length e = 4%nat → length n = 4%nat →
  length r = 4%nat → length cl = 8%nat → length pl = 8%nat →
  let c := (m ++ v ++ a ++ e ++ n ++ r ++ cl ++ pl) ++ rest in
  take BACKUP_MAGIC_LEN c = m ∧ backup_read_u32_le (drop 8 c) = read_le v ∧
  backup_read_u32_le (drop 12 c) = read_le a ∧ backup_read_u32_le (drop 16 c) = read_le e ∧
  backup_read_u32_le (drop 20 c) = read_le n ∧ backup_read_u32_le (drop 24 c) = read_le r ∧
  backup_read_u64_le (drop 28 c) = read_le cl ∧ backup_read_u64_le (drop 36 c) = read_le pl ∧
  (∀ i, drop (BACKUP_FIXED_HEADER_LEN + i) c = drop i rest) ∧
  length c = (BACKUP_FIXED_HEADER_LEN + length rest)%nat.
Proof.
  intros Hm Hv Ha He Hn Hr Hc Hp c. unfold c. clear c.
  unfold BACKUP_MAGIC_LEN, BACKUP_FIXED_HEADER_LEN, backup_read_u32_le, backup_read_u64_le.
  split_and!; [rewrite <- ?app_assoc..| |].
  - by apply take_app_at.
  - rewrite (drop_app_at m _ 8 0) by done. by rewrite drop_0, take_app_at.
  - rewrite (drop_app_at m _ 8 4), (drop_app_at v _ 4 0) by done. by rewrite drop_0, take_app_at.
  - rewrite (drop_app_at m _ 8 8), (drop_app_at v _ 4 4), (drop_app_at a _ 4 0) by done.
    by rewrite drop_0, take_app_at.
  - rewrite (drop_app_at m _ 8 12), (drop_app_at v _ 4 8), (drop_app_at a _ 4 4), (drop_app_at e _ 4 0) by done.
    by rewrite drop_0, take_app_at.
  - rewrite (drop_app_at m _ 8 16), (drop_app_at v _ 4 12), (drop_app_at a _ 4 8), (drop_app_at e _ 4 4),
      (drop_app_at n _ 4 0) by done. by rewrite drop_0, take_app_at.
  - rewrite (drop_app_at m _ 8 20), (drop_app_at v _ 4 16), (drop_app_at a _ 4 12), (drop_app_at e _ 4 8),
      (drop_app_at n _ 4 4), (drop_app_at r _ 4 0) by done. by rewrite drop_0, take_app_at.
  - rewrite (drop_app_at m _ 8 28), (drop_app_at v _ 4 24), (drop_app_at a _ 4 20), (drop_app_at e _ 4 16),
      (drop_app_at n _ 4 12), (drop_app_at r _ 4 8), (drop_app_at cl _ 8 0) by done. by rewrite drop_0, take_app_at.
  - intros i. apply drop_app_at. rewrite !length_app. lia.
  - rewrite !length_app. lia.
Qed.

Lemma read_write_u32 v : (0 ≤ v ≤ UINT32_MAX)%Z → read_le (write_le 4 v) = v.
Proof. unfold UINT32_MAX. intros H. rewrite read_write_le, Z.mod_small; lia. Qed.
Lemma read_write_u64 v : (0 ≤ v ≤ UINT64_MAX)%Z → read_le (write_le 8 v) = v.
Proof. unfold UINT64_MAX. intros H. rewrite read_write_le, Z.mod_small; lia. Qed.
Lemma write_read_u32 l : length l = 4%nat → write_le 4 (read_le l) = l.
Proof. intros <-. apply write_read_le. Qed.
Lemma write_read_u64 l : length l = 8%nat → write_le 8 (read_le l) = l.
Proof. intros <-. apply write_read_le. Qed.

Lemma read_nonneg l : (0 ≤ read_le l)%Z.
Proof. pose proof (read_le_bound l). lia. Qed.

(** A capsule in canonical form is read back. *)
Lemma parse_canonical p : capsule_parts_ok p → parse_capsule (capsule_of p) = Ok p.
Proof.
  destruct p as [aad encap nonce root ct pl].
  intros (Hn & Hr & He & Hc & Hp & Ha). cbn [cp_aad cp_encap cp_nonce cp_audit_root cp_ciphertext cp_plaintext_len] in *.
  unfold capsule_of. cbn [cp_aad cp_ciphertext]. subst aad. unfold capsule_aad at 1. rewrite <- (app_assoc _ _ ct).
  destruct (header_fields BACKUP_MAGIC (write_le 4 BACKUP_VERSION)
    (write_le 4 (Z.of_nat (length BACKUP_CAPSULE_ALGORITHM))) (write_le 4 (Z.of_nat (length encap)))
    (write_le 4 (Z.of_nat (length nonce))) (write_le 4 (Z.of_nat (length root)))
    (write_le 8 (Z.of_nat (length ct))) (write_le 8 pl)
    ((BACKUP_CAPSULE_ALGORITHM ++ encap ++ nonce ++ root) ++ ct))
    as (F1 & F2 & F3 & F4 & F5 & F6 & F7 & F8 & F9 & F10); [reflexivity|apply length_write_le..|].
  set (c := _ ++ (_ ++ ct)) in *.
  rewrite read_write_u32 in F2 by (split; discriminate).
  rewrite read_write_u32 in F3 by (split; discriminate).
  rewrite read_write_u32 in F4 by lia.
  rewrite read_write_u32 in F5 by (rewrite Hn; split; discriminate).
  rewrite read_write_u32 in F6 by (rewrite Hr; split; discriminate).
  rewrite read_write_u64 in F7, F8 by (unfold BACKUP_TAG_BYTES in *; cbn in *; lia).
  unfold parse_capsule. rewrite F1, F2, F3, F4, F5, F6, F7, F8, !Nat2Z.id.
  assert (take (BACKUP_FIXED_HEADER_LEN + length BACKUP_CAPSULE_ALGORITHM + length encap + length nonce
            + length root) c = capsule_aad encap nonce root (Z.of_nat (length ct)) pl) as G6.
  { unfold c, capsule_aad. rewrite app_assoc. apply take_app_at. rewrite !length_app, !length_write_le.
    unfold BACKUP_FIXED_HEADER_LEN. change (length BACKUP_MAGIC) with 8%nat. lia. }
  clearbody c. generalize dependent BACKUP_CAPSULE_ALGORITHM. intros alg F3 F9 F10 G6.
  assert (∀ n, bytes_at BACKUP_FIXED_HEADER_LEN n c = take n ((alg ++ encap ++ nonce ++ root) ++ ct)) as G0.
  { intros n. unfold bytes_at. by rewrite <- (Nat.add_0_r BACKUP_FIXED_HEADER_LEN), F9, drop_0. }
  unfold bytes_at in *. rewrite <- !Nat.add_assoc, !F9, G0. rewrite <- !app_assoc.
  rewrite !(drop_app_at alg), !(drop_app_at encap), !(drop_app_at nonce) by done.
  rewrite !drop_app_length, !take_app_length. rewrite <- !Nat.add_assoc in G6. rewrite G6, F10, !length_app.
  rewrite (check_run (_ <=? _)%nat) by (apply Nat.leb_le; lia).
  rewrite (check_run (bool_decide _)) by by apply bool_decide_true.
  rewrite (check_run (_ =? _)%Z) by apply Z.eqb_refl.
  rewrite Hn, Hr, !Nat.eqb_refl, Hp, Z.eqb_refl, (proj2 (Z.leb_le _ _)) by lia.
  rewrite check_run by done.
  rewrite check_run by (apply Nat.leb_le; lia).
  rewrite check_run by (rewrite bool_decide_true by done; apply Nat.leb_le; lia).
  do 2 rewrite check_run by (apply Nat.leb_le; lia).
  rewrite check_run by (apply Z.eqb_eq; lia). done.
Qed.

(** What is read is the capsule in canonical form. *)
Lemma parse_accepts c p : parse_capsule c = Ok p → c = capsule_of p ∧ capsule_parts_ok p.
Proof.
  unfold parse_capsule. intros H. apply outcome_seq_ok in H as [H0%check_ok%Nat.leb_le H].
  destruct (split_header c H0) as (m & v & a & e & n & r & cl & pl & rest & -> & Lm & Lv & La & Le & Ln & Lr & Lc & Lp).
  destruct (header_fields m v a e n r cl pl rest) as (F1 & F2 & F3 & F4 & F5 & F6 & F7 & F8 & F9 & F10); [done..|].
  rewrite F1, F2, F3, F4, F5, F6, F7, F8 in H. clear F1 F2 F3 F4 F5 F6 F7 F8.
  assert (∀ k, bytes_at BACKUP_FIXED_HEADER_LEN k ((m ++ v ++ a ++ e ++ n ++ r ++ cl ++ pl) ++ rest) = take k rest) as G0.
  { intros k. unfold bytes_at. by rewrite <- (Nat.add_0_r BACKUP_FIXED_HEADER_LEN), F9, drop_0. }
  assert (∀ k, take (BACKUP_FIXED_HEADER_LEN + k) ((m ++ v ++ a ++ e ++ n ++ r ++ cl ++ pl) ++ rest)
            = (m ++ v ++ a ++ e ++ n ++ r ++ cl ++ pl) ++ take k rest) as G1.
  { intros k. rewrite take_app_ge by (rewrite !length_app; unfold BACKUP_FIXED_HEADER_LEN; lia).
    do 2 f_equal. rewrite !length_app. unfold BACKUP_FIXED_HEADER_LEN. lia. }
  rewrite F10, G0, <- !Nat.add_assoc, G1 in H. unfold bytes_at in H. rewrite !F9 in H.
  apply outcome_seq_ok in H as [E1%check_ok%bool_decide_eq_true H].
  apply outcome_seq_ok in H as [E2%check_ok%Z.eqb_eq H].
  apply outcome_seq_ok in H as [E3%check_ok H].
  rewrite !andb_true_iff, !Nat.eqb_eq, Z.leb_le, Z.eqb_eq in E3. destruct E3 as ((((E3 & E4) & E5) & E6) & E7).
  apply outcome_seq_ok in H as [E8%check_ok%Nat.leb_le H].
  apply outcome_seq_ok in H as [E9%check_ok H].
  rewrite andb_true_iff, bool_decide_eq_true, Nat.leb_le in E9. destruct E9 as [E9 E10].
  apply outcome_seq_ok in H as [E11%check_ok%Nat.leb_le H].
  apply outcome_seq_ok in H as [E12%check_ok%Nat.leb_le H].
  apply outcome_seq_ok in H as [E13%check_ok%Z.eqb_eq H]. injection H as <-.
  pose proof (read_nonneg a). pose proof (read_nonneg e). pose proof (read_nonneg n). pose proof (read_nonneg r).
  pose proof (read_le_bound e) as Be. rewrite Le in Be. pose proof (read_le_bound cl) as Bc. rewrite Lc in Bc.
  assert (∀ i k j, j = i + k → take k (drop i rest) ++ drop j rest = drop i rest)%nat as Hd.
  { intros i k j ->. rewrite <- drop_drop. apply take_drop. }
  set (la := Z.to_nat (read_le a)) in *. set (le := Z.to_nat (read_le e)) in *.
  set (ln := Z.to_nat (read_le n)) in *. set (lr := Z.to_nat (read_le r)) in *.
  assert (length (take le (drop la rest)) = le) as Ke by (rewrite length_take, length_drop; lia).
  assert (length (take ln (drop (la + le) rest)) = ln) as Kn by (rewrite length_take, length_drop; lia).
  assert (length (take lr (drop (la + (le + ln)) rest)) = lr) as Kr by (rewrite length_take, length_drop; lia).
  assert (Z.of_nat (length (drop (la + (le + (ln + lr))) rest)) = read_le cl) as Kc.
  { rewrite length_drop. lia. }
  assert (take (la + (le + (ln + lr))) rest
    = BACKUP_CAPSULE_ALGORITHM ++ take le (drop la rest) ++ take ln (drop (la + le) rest)
      ++ take lr (drop (la + (le + ln)) rest)) as Ht.
  { apply (app_inv_tail (drop (la + (le + (ln + lr))) rest)). rewrite take_drop, <- !app_assoc, <- E9.
    rewrite (Hd (la + (le + ln)) lr), (Hd (la + le) ln), (Hd la le) by lia. by rewrite take_drop. }
  unfold capsule_of, capsule_parts_ok.
  cbn [cp_aad cp_encap cp_nonce cp_audit_root cp_ciphertext cp_plaintext_len].
  split; [by rewrite <- (app_assoc _ (take _ rest)), take_drop|].
  rewrite Kn, Kr, Ke, Kc. split_and!; [done|done|unfold le, UINT32_MAX; lia|done|unfold UINT64_MAX; lia|done|].
  rewrite Ht. f_equal. unfold capsule_aad. rewrite Ke, Kn, Kr, <- E1, <- E2, <- E3.
  replace (Z.of_nat la) with (read_le a) by (unfold la; lia).
  replace (Z.of_nat le) with (read_le e) by (unfold le; lia).
  replace (Z.of_nat ln) with (read_le n) by (unfold ln; lia).
  replace (Z.of_nat lr) with (read_le r) by (unfold lr; lia).
  by rewrite !write_read_u32, !write_read_u64.
Qed.

(** C11: [backup_pqc_import] reads exactly the capsules in canonical form: a file
    is accepted as a capsule, with its authenticated header, encapsulation,
    nonce, audit root and ciphertext, if and only if it is the bytes that
    these pieces make, with lengths that fit; so no file reads in two ways. *)
Theorem backup_capsule_canonical capsule p :
  parse_capsule capsule = Ok p ↔ capsule = capsule_of p ∧ capsule_parts_ok p.
Proof. split; [apply parse_accepts|]. intros [-> Hp]. by apply parse_canonical. Qed.

Section Proofs.
Context {CR : Crypto} {CL : CryptoLaws CR} {PX : Posix} {PL : PosixLaws PX}.
Context {OS : Openssl} {OL : OpensslLaws OS} {SQ : Sqlite} {SL : SqliteLaws SQ}.

(** * Key files *)

Lemma fgets_line l rest : newline ∉ l → ∀ room line, (length l < room)%nat →
  fgets_all room line (l ++ [newline] ++ rest) = (line ++ l ++ [newline]) :: fgets_all 255 [] rest.
Proof.
  induction l as [|b l IH]; intros Hn room line Hr; cbn [app fgets_all].
  - by rewrite bool_decide_true.
  - apply not_elem_of_cons in Hn as [Hb Hn]. cbn [length] in Hr.
    rewrite bool_decide_false by done. cbn [orb]. rewrite (proj2 (Nat.eqb_neq _ _)) by lia.
    rewrite (IH Hn) by lia. by rewrite <- app_assoc.
Qed.

Lemma has_prefix_line p l : newline ∉ p → has_prefix p (l ++ [newline]) = true → p `prefix_of` l.
Proof.
  intros Hp. unfold has_prefix. rewrite bool_decide_eq_true. intros E.
  assert (∀ k, c_str k `prefix_of` k) as Hc.
  { intros k. induction k as [|b k IH]; [done|]. cbn. case_decide; [apply prefix_nil|]. by apply prefix_cons. }
  assert (p `prefix_of` l ++ [newline]) as [k Hk].
  { transitivity (c_str (l ++ [newline])); [|apply Hc]. rewrite <- E at 1. apply prefix_take. }
  destruct (decide (length p ≤ length l)%nat) as [Hl|Hl].
  - exists (take (length l - length p) k).
    apply (f_equal (take (length l))) in Hk. rewrite take_app_length, take_app_ge in Hk by done. exact Hk.
  - exfalso. apply Hp. assert (p !! length l = Some newline) as Hx; [|by eapply list_elem_of_lookup_2].
    assert ((l ++ [newline]) !! length l = Some newline) as Hy by by apply list_lookup_middle.
    rewrite Hk in Hy. by rewrite lookup_app_l in Hy by lia.
Qed.

Lemma pem_lines_cons l lines rest : pem_lines (l :: lines) ++ rest = l ++ [newline] ++ pem_lines lines ++ rest.
Proof. unfold pem_lines. cbn [fmap list_fmap concat]. by rewrite <- !app_assoc. Qed.

(** The lines of an encrypted key pass, whatever follows. *)
Lemma header_loop_key k pass r saw rest :
  header_loop saw (fgets_all 255 [] (PEM_write_PrivateKey k pass r ++ rest))
  = header_loop true (fgets_all 255 [] rest).
Proof.
  destruct (private_lines k pass r) as (lines & Hl & ->). rewrite <- !app_assoc.
  rewrite fgets_line; [|by apply (bool_decide_unpack _)|cbn; lia]. cbn [app header_loop].
  change (has_prefix begin_prefix (encrypted_header ++ [newline])) with true. cbn [header_loop].
  change (has_prefix encrypted_header (encrypted_header ++ [newline])) with true. cbn [check mbind outcome_bind].
  induction Hl as [|l lines (Hn & Hlen & Hb) _ IH]; [done|].
  rewrite pem_lines_cons, fgets_line by done. cbn [app header_loop].
  destruct (has_prefix begin_prefix (l ++ [newline])) eqn:E; [|exact IH].
  exfalso. apply Hb. apply has_prefix_line in E; [done|]. by apply (bool_decide_unpack _).
Qed.

Lemma header_loop_keys pass krs :
  krs ≠ [] → header_loop false (fgets_all 255 [] (concat ((λ kr, PEM_write_PrivateKey kr.1 pass kr.2) <$> krs))) = Ok true.
Proof.
  assert (∀ krs', header_loop true (fgets_all 255 [] (concat ((λ kr, PEM_write_PrivateKey kr.1 pass kr.2) <$> krs'))) = Ok true) as H.
  { induction krs' as [|kr krs' IH]; [done|]. cbn [fmap list_fmap concat]. by rewrite header_loop_key. }
  destruct krs as [|kr krs]; [done|]. intros _. cbn [fmap list_fmap concat]. by rewrite header_loop_key.
Qed.

(** What a private key file holds. *)
Definition private_text (pass : bytes) (krs : list (pkey * bytes)) : bytes :=
  concat ((λ kr, PEM_write_PrivateKey kr.1 (c_str pass) kr.2) <$> krs).
Definition public_text (keys : list pkey) : bytes := concat (PEM_write_PUBKEY <$> keys).

#[export] Instance keeps_openssl_random : Keeps same_state openssl_random.
Proof. unfold openssl_random. apply _. Qed.
#[export] Instance keeps_openssl_keygen a : Keeps same_state (openssl_keygen a).
Proof. unfold openssl_keygen. apply _. Qed.
#[export] Instance keeps_openssl_call {A} (r : option A) : Keeps same_state (openssl_call r).
Proof. unfold openssl_call. apply _. Qed.

Lemma write_private_ok p pass mode keys content e w u w' :
  write_keys (λ key, backup_write_encrypted_private_key p key pass) keys e w = (Ok u, w') →
  d_files (w_disk w) !! p = Some (created mode content) →
  ∃ krs, krs.*1 = keys ∧ wrote p (created mode (content ++ private_text pass krs)) w w'.
Proof.
  revert content w. induction keys as [|k keys IH]; intros content w H Hf.
  - exists []. split; [done|]. injection H as _ <-. unfold private_text, wrote. cbn.
    rewrite app_nil_r, insert_id by done. by split_and!.
  - cbn [write_keys for_each] in H. apply bind_ok in H as (? & w1 & H1 & H).
    unfold backup_write_encrypted_private_key in H1.
    apply bind_ok in H1 as (? & ? & [_ ->]%guard_ok & H1). apply bind_ok in H1 as (? & ? & [_ ->]%guard_ok & H1).
    apply bind_ok in H1 as (r & w2 & H2 & H1). apply as_status_ok in H1.
    apply (keeps_run same_state _) in H2. pose proof H2 as (_ & _ & _ & E2).
    apply (fwrite_ok _ _ content mode) in H1; [|by rewrite E2].
    assert (wrote p (created mode (content ++ PEM_write_PrivateKey k (c_str pass) r)) w w1) as W1
      by by eapply same_then_wrote.
    destruct (IH _ _ H (wrote_file _ _ _ _ W1)) as (krs & <- & W2). exists ((k, r) :: krs). split; [done|].
    unfold private_text in *. cbn [fmap list_fmap concat fst snd]. rewrite app_assoc.
    by eapply wrote_again.
Qed.

Lemma write_public_ok p mode keys content e w u w' :
  write_keys (λ key, as_status SM_ERR_CRYPTO (fwrite p (PEM_write_PUBKEY key))) keys e w = (Ok u, w') →
  d_files (w_disk w) !! p = Some (created mode content) →
  wrote p (created mode (content ++ public_text keys)) w w'.
Proof.
  revert content w. induction keys as [|k keys IH]; intros content w H Hf.
  - injection H as _ <-. unfold public_text, wrote. cbn. rewrite app_nil_r, insert_id by done. by split_and!.
  - cbn [write_keys for_each] in H. apply bind_ok in H as (? & w1 & H1%as_status_ok & H).
    apply (fwrite_ok _ _ content mode) in H1; [|done].
    specialize (IH _ _ H (wrote_file _ _ _ _ H1)). unfold public_text in *. cbn [fmap list_fmap concat].
    rewrite app_assoc. by eapply wrote_again.
Qed.

(** The two files of a key pair, made where there was nothing. *)
Definition wrote_keys (public_key_path private_key_path pass : bytes) (keys : list pkey) (w w' : world) : Prop :=
  ∃ pubp privp krs, resolves public_key_path pubp ∧ resolves private_key_path privp ∧ pubp ≠ privp ∧
    d_files (w_disk w) !! pubp = None ∧ d_files (w_disk w) !! privp = None ∧ krs.*1 = keys ∧
    w_conn w' = w_conn w ∧ w_subkeys w' = w_subkeys w ∧ w_unlocked w' = w_unlocked w ∧
    d_database (w_disk w') = d_database (w_disk w) ∧
    d_files (w_disk w') = <[pubp := created S_PUBLIC_KEY_MODE (public_text keys)]>
      (<[privp := created S_IRUSR_IWUSR (private_text pass krs)]> (d_files (w_disk w))).

Lemma write_key_files_ok pub priv pass keys e w u w' :
  write_key_files pub priv pass keys e w = (Ok u, w') → wrote_keys pub priv pass keys w w'.
Proof.
  unfold write_key_files. intros H. apply bind_ok in H as (r & w9 & E%try_ok & H). destruct r as [u0|s].
  2:{ apply bind_ok in H as (? & ? & _ & H). apply bind_ok in H as (? & ? & _ & H). discriminate H. }
  injection H as _ ->.
  apply bind_ok in E as (privp & w1 & H1 & E). apply fopen_exclusive_ok in H1 as (R1 & N1 & W1).
  apply bind_ok in E as (? & w2 & H2 & E).
  apply (write_private_ok _ _ S_IRUSR_IWUSR _ []) in H2 as (krs & Hk & W2); [|by eapply wrote_file].
  apply bind_ok in E as (? & w3 & [_ ->]%lib_call_ok & E).
  apply bind_ok in E as (pubp & w4 & H4 & E). apply fopen_exclusive_ok in H4 as (R4 & N4 & W4).
  apply bind_ok in E as (? & w5 & H5 & E).
  apply (write_public_ok _ S_PUBLIC_KEY_MODE _ []) in H5; [|by eapply wrote_file].
  apply lib_call_ok in E as [_ ->].
  pose proof (wrote_again _ _ _ _ _ _ W1 W2) as W12. pose proof (wrote_again _ _ _ _ _ _ W4 H5) as W45.
  destruct W12 as (A1 & A2 & A3 & A4 & A5), W45 as (B1 & B2 & B3 & B4 & B5).
  change (w_disk (called w2)) with (w_disk w2) in *. rewrite A5 in N4, B5.
  assert (pubp ≠ privp) as Hne by (intros ->; by rewrite lookup_insert_eq in N4).
  exists pubp, privp, krs. rewrite lookup_insert_ne in N4 by done.
  split_and!; try done; cbn in *; congruence.
Qed.

(** ** Reading keys back *)

#[export] Instance keeps_header content : Keeps same_state (backup_private_key_file_header_is_encrypted content).
Proof. unfold backup_private_key_file_header_is_encrypted. apply _. Qed.
#[export] Instance keeps_load_public path : Keeps same_state (backup_load_public_keypair path).
Proof. unfold backup_load_public_keypair, read_public_key. keeps_tac. Qed.
#[export] Instance keeps_load_private path pass : Keeps same_state (backup_load_private_keypair path pass).
Proof. unfold backup_load_private_keypair, read_private_key. keeps_tac. Qed.
#[export] Instance keeps_load_single_public path : Keeps same_state (backup_load_single_public_key path).
Proof. unfold backup_load_single_public_key, read_public_key. keeps_tac. Qed.
#[export] Instance keeps_load_single_private path pass : Keeps same_state (backup_load_single_private_key path pass).
Proof. unfold backup_load_single_private_key, read_private_key. keeps_tac. Qed.

(** A passphrase that the PEM reader takes in full. *)
Definition passphrase_ok (pass : bytes) : Prop := c_str pass ≠ [] ∧ (length (c_str pass) ≤ PEM_BUFSIZE)%nat.

Lemma wp_openssl_call {A} (r : option A) a (Q : A → world → Prop) e w :
  healthy e → r = Some a → Q a (called w) → wp (openssl_call r) Q e w.
Proof. intros He -> HQ. unfold openssl_call. wp_run. by apply (wp_lift _ a). Qed.

Lemma wp_header pass krs (Q : unit → world → Prop) e w :
  healthy e → krs ≠ [] → Q () (called (called w)) →
  wp (backup_private_key_file_header_is_encrypted (private_text pass krs)) Q e w.
Proof.
  intros He Hk HQ. unfold backup_private_key_file_header_is_encrypted. wp_run.
  apply (wp_lift _ true); [by apply header_loop_keys|]. by apply wp_guard.
Qed.

Lemma wp_load_private path pass p k1 k2 r1 r2 (Q : pkey * pkey → world → Prop) e w :
  healthy e → resolves path p → passphrase_ok pass →
  d_files (w_disk w) !! p = Some (created S_IRUSR_IWUSR (private_text pass [(k1, r1); (k2, r2)])) →
  (∀ w', same_state w w' → Q (k1, k2) w') → wp (backup_load_private_keypair path pass) Q e w.
Proof.
  intros He Hp [Hne Hlen] Hf HQ.
  apply (wp_mono _ (λ a w', same_state w w' ∧ a = (k1, k2))); [|intros a w' [S ->]; by apply HQ].
  apply (wp_keeps same_state (backup_load_private_keypair path pass) (λ a _, a = (k1, k2))).
  unfold backup_load_private_keypair. wp_run. apply wp_guard.
  { destruct Hp as [? _]. unfold backup_private_key_passphrase_is_valid. by rewrite !bool_decide_false. }
  wp_run. eapply wp_owner_only; [done|done|exact Hf|apply created_owner_only|]. intros w1 (_ & _ & _ & S1).
  apply wp_and_close; [done|]. wp_run. eapply wp_fcontent; [rewrite S1; exact Hf|]. wp_run.
  apply wp_header; [done|done|]. unfold read_private_key, private_text. cbn [fmap list_fmap concat fst snd f_content created]. wp_run.
  eapply wp_openssl_call; [done|by apply read_write_private|]. cbv beta iota. wp_run.
  eapply wp_openssl_call; [done|by apply read_write_private|]. cbv beta iota. by wp_run.
Qed.

Lemma wp_load_public path p mode k1 k2 (Q : pkey * pkey → world → Prop) e w :
  healthy e → resolves path p → d_files (w_disk w) !! p = Some (created mode (public_text [k1; k2])) →
  (∀ w', same_state w w' → Q (public_half k1, public_half k2) w') → wp (backup_load_public_keypair path) Q e w.
Proof.
  intros He Hp Hf HQ.
  apply (wp_mono _ (λ a w', same_state w w' ∧ a = (public_half k1, public_half k2))); [|intros a w' [S ->]; by apply HQ].
  apply (wp_keeps same_state (backup_load_public_keypair path) (λ a _, a = (public_half k1, public_half k2))).
  unfold backup_load_public_keypair. wp_run. apply wp_guard.
  { destruct Hp as [? _]. by rewrite bool_decide_false. }
  wp_run. eapply wp_fopen_rb; [done|done|exact Hf|done|]. apply wp_and_close; [done|]. wp_run.
  eapply wp_fcontent; [exact Hf|]. wp_run. unfold read_public_key, public_text. cbn [fmap list_fmap concat f_content created]. wp_run.
  eapply wp_openssl_call; [done|by apply read_write_public|]. cbv beta iota. wp_run.
  eapply wp_openssl_call; [done|by apply read_write_public|]. cbv beta iota. by wp_run.
Qed.

(** What the readers of these files get in any environment. *)
Lemma openssl_call_ok {A} (r : option A) e w a w' : openssl_call r e w = (Ok a, w') → r = Some a.
Proof. unfold openssl_call. intros H. inv_m. by eapply from_option_or_ok. Qed.

Lemma fcontent_ok p f e w c w' :
  fcontent p e w = (Ok c, w') → d_files (w_disk w) !! p = Some f → c = f_content f ∧ w' = w.
Proof. unfold fcontent, mbind, M_bind, get_files. intros H Hf. rewrite Hf in H. by injection H as <- <-. Qed.

Lemma fopen_rb_ok path p f e w q w' :
  fopen_rb path e w = (Ok q, w') → resolves path p → d_files (w_disk w) !! p = Some f → f_kind f = Regular →
  q = p ∧ w' = called w.
Proof.
  unfold fopen_rb. intros H Hp Hf Hk. apply bind_ok in H as (? & ? & [_ ->]%lib_call_ok & H).
  apply bind_ok in H as (fs & ? & E & H). injection E as <- <-. unfold lift in H. injection H as H <-.
  apply from_option_or_ok in H. change (w_disk (called w)) with (w_disk w) in H.
  rewrite (follow_resolved _ _ _ _ Hp Hf Hk) in H. by injection H as <-.
Qed.

Lemma load_public_ok path p mode k1 k2 e w ks w' :
  backup_load_public_keypair path e w = (Ok ks, w') → resolves path p →
  d_files (w_disk w) !! p = Some (created mode (public_text [k1; k2])) →
  ks = (public_half k1, public_half k2).
Proof.
  intros H Hp Hf. unfold backup_load_public_keypair in H.
  apply bind_ok in H as (? & ? & [_ ->]%guard_ok & H). apply bind_ok in H as (fp & w1 & H1 & H).
  destruct (fopen_rb_ok _ p _ _ _ _ _ H1 Hp Hf eq_refl) as [-> ->].
  apply and_close_ok in H as (w2 & H & _). apply bind_ok in H as (c & w3 & H2 & H).
  destruct (fcontent_ok p _ _ _ _ _ H2 Hf) as [-> ->].
  apply bind_ok in H as ([q1 rest] & w4 & H3%openssl_call_ok & H).
  unfold public_text in H3. cbn [fmap list_fmap concat f_content created] in H3.
  rewrite read_write_public in H3. injection H3 as <- <-.
  apply bind_ok in H as ([q2 rest] & w5 & H4%openssl_call_ok & H).
  rewrite read_write_public in H4. injection H4 as <- <-. by apply ret_ok in H as [-> _].
Qed.

(** * Capsules *)

#[export] Instance keeps_snapshot : Keeps same_state backup_sqlite_snapshot.
Proof. unfold backup_sqlite_snapshot. apply _. Qed.
#[export] Instance keeps_encapsulate k : Keeps same_state (backup_encapsulate k).
Proof. unfold backup_encapsulate. apply _. Qed.
#[export] Instance keeps_decapsulate k ct : Keeps same_state (backup_decapsulate k ct).
Proof. unfold backup_decapsulate. apply _. Qed.
#[export] Instance keeps_derive a b : Keeps same_state (backup_x25519_derive a b).
Proof. unfold backup_x25519_derive. apply _. Qed.
#[export] Instance keeps_raw k : Keeps same_state (backup_get_raw_public_key k).
Proof. unfold backup_get_raw_public_key. apply _. Qed.
#[export] Instance keeps_from_raw k : Keeps same_state (backup_x25519_public_from_raw k).
Proof. unfold backup_x25519_public_from_raw. apply _. Qed.
#[export] Instance keeps_build_encap a b : Keeps same_state (backup_build_hybrid_encap a b).
Proof. unfold backup_build_hybrid_encap. apply _. Qed.
#[export] Instance keeps_build_aad a b c d f : Keeps same_state (backup_build_aad a b c d f).
Proof. unfold backup_build_aad. apply _. Qed.
#[export] Instance keeps_capsule_key a b c d : Keeps same_state (backup_derive_capsule_key a b c d).
Proof. unfold backup_derive_capsule_key. apply _. Qed.

(** An export and an import change no file that exists, however they end. *)
#[export] Instance keeps_export pub path root : Keeps new_files (backup_pqc_export pub path root).
Proof. unfold backup_pqc_export. keeps_tac. Qed.
#[export] Instance keeps_import priv pass path out : Keeps new_files (backup_pqc_import priv pass path out).
Proof. unfold backup_pqc_import. keeps_tac. Qed.

Definition capsule_key (kem_secret x25519_secret encap audit_root : bytes) : bytes :=
  generichash [] (capsule_context ++ kem_secret ++ x25519_secret ++ encap ++ audit_root) BACKUP_KEY_BYTES.

(** A capsule that the private keys [k1] (KEM) and [k2] (X25519) open to
    [snapshot]. *)
Definition sealed_capsule (k1 k2 : pkey) (snapshot audit_root : bytes) (p : capsule_parts) : Prop :=
  capsule_parts_ok p ∧ cp_audit_root p = audit_root ∧ cp_plaintext_len p = Z.of_nat (length snapshot) ∧
  ∃ raw ct s1 s2 ephemeral,
    cp_encap p = write_le 4 32 ++ raw ++ ct ∧ length raw = BACKUP_X25519_PUBLIC_BYTES ∧ ct ≠ [] ∧
    EVP_PKEY_decapsulate k1 ct = Some s1 ∧ s1 ≠ [] ∧
    EVP_PKEY_new_raw_public_key BACKUP_CLASSICAL_KEX_ALGORITHM raw = Some ephemeral ∧
    EVP_PKEY_derive k2 ephemeral = Some s2 ∧ s2 ≠ [] ∧
    cp_ciphertext p = aead_encrypt XCHACHA20_POLY1305 (capsule_key s1 s2 (cp_encap p) audit_root)
                        (cp_nonce p) (cp_aad p) snapshot.

Lemma parse_encap raw ct :
  length raw = BACKUP_X25519_PUBLIC_BYTES → ct ≠ [] →
  backup_parse_hybrid_encap (write_le 4 32 ++ raw ++ ct) = Ok (raw, ct).
Proof.
  intros Hr Hct. assert (length ct ≠ 0)%nat by by destruct ct.
  assert (backup_read_u32_le (write_le 4 32 ++ raw ++ ct) = 32%Z) as E.
  { unfold backup_read_u32_le. rewrite take_app_at by apply length_write_le. by vm_compute. }
  unfold backup_parse_hybrid_encap. rewrite E. rewrite !length_app, length_write_le, Hr.
  unfold BACKUP_ENCAP_PREFIX_LEN, BACKUP_X25519_PUBLIC_BYTES in *.
  rewrite check_run by (apply Nat.ltb_lt; lia).
  rewrite check_run by (rewrite andb_true_iff, Z.eqb_eq, Z.leb_le; lia).
  rewrite check_run by (apply Nat.ltb_lt; change (Z.to_nat 32) with 32%nat; lia).
  change (Z.to_nat 32) with 32%nat. rewrite (drop_app_at _ _ 4 32) by apply length_write_le.
  rewrite <- (Nat.add_0_r 4) at 1. rewrite (drop_app_at _ _ 4 0) by apply length_write_le.
  rewrite drop_0, take_app_at by done. rewrite <- Hr, drop_app_length. done.
Qed.

(** The bytes of the database that a connection sees. *)
Definition snapshot_of (w : world) (c : connection) : bytes :=
  sqlite3_serialize (df_catalogue (d_database (w_disk w))) (conn_cur c).

(** What the steps of an export give. *)
Lemma keygen_ok a e w k w' : openssl_keygen a e w = (Ok k, w') → ∃ r, k = EVP_PKEY_Q_keygen a r.
Proof.
  unfold openssl_keygen. intros H. apply bind_ok in H as (? & ? & _ & H). apply bind_ok in H as (r & ? & _ & H).
  apply ret_ok in H as [-> _]. by exists r.
Qed.

Lemma encapsulate_ok k e w r w' : backup_encapsulate k e w = (Ok r, w') → ∃ rk, EVP_PKEY_encapsulate k rk = Some r.
Proof.
  unfold backup_encapsulate. intros H. apply bind_ok in H as (rk & ? & _ & H).
  apply bind_ok in H as (kem & ? & H1%openssl_call_ok & H). exists rk. rewrite H1.
  apply bind_ok in H as (? & ? & _ & H). apply bind_ok in H as (? & ? & _ & H). by apply ret_ok in H as [-> _].
Qed.

Lemma x25519_derive_ok k p e w s w' : backup_x25519_derive k p e w = (Ok s, w') → EVP_PKEY_derive k p = Some s.
Proof.
  unfold backup_x25519_derive. intros H. apply bind_ok in H as (s' & ? & H1%openssl_call_ok & H).
  apply bind_ok in H as (? & ? & _ & H). apply bind_ok in H as (? & ? & _ & H). by apply ret_ok in H as [-> _].
Qed.

Lemma get_raw_ok k e w s w' : backup_get_raw_public_key k e w = (Ok s, w') → EVP_PKEY_get_raw_public_key k = Some s.
Proof.
  unfold backup_get_raw_public_key. intros H. apply bind_ok in H as (s' & ? & H1%openssl_call_ok & H).
  apply bind_ok in H as (? & ? & _ & H). apply bind_ok in H as (? & ? & _ & H). by apply ret_ok in H as [-> _].
Qed.

Lemma build_encap_ok raw ct e w encap w' :
  backup_build_hybrid_encap raw ct e w = (Ok encap, w') →
  length raw = BACKUP_X25519_PUBLIC_BYTES ∧ ct ≠ [] ∧ encap = write_le 4 32 ++ raw ++ ct.
Proof.
  unfold backup_build_hybrid_encap. intros H. apply bind_ok in H as (? & ? & [Hg _]%guard_ok & H).
  rewrite andb_true_iff, Nat.eqb_eq, negb_true_iff, bool_decide_eq_false in Hg. destruct Hg as [Hr Hc].
  apply bind_ok in H as (? & ? & _ & H). apply bind_ok in H as (? & ? & _ & H). apply ret_ok in H as [-> _].
  by rewrite Hr.
Qed.

Lemma derive_key_ok a b c d e w key w' :
  backup_derive_capsule_key a b c d e w = (Ok key, w') → a ≠ [] ∧ b ≠ [] ∧ c ≠ [] ∧ key = capsule_key a b c d.
Proof.
  unfold backup_derive_capsule_key. intros H. apply bind_ok in H as (? & ? & [Hg _]%guard_ok & H).
  rewrite !andb_true_iff, !negb_true_iff, !bool_decide_eq_false in Hg. destruct Hg as [[[Ha Hb] Hc] _].
  apply bind_ok in H as (? & ? & _ & H). by apply ret_ok in H as [-> _].
Qed.

Lemma snapshot_ok c e w snap w' :
  backup_sqlite_snapshot e w = (Ok snap, w') → w_conn w = Some c →
  snap = snapshot_of w c ∧ (Z.of_nat (length snap) ≤ BACKUP_MAX_DB_BYTES)%Z.
Proof.
  unfold backup_sqlite_snapshot. intros H Hc. apply bind_ok in H as (df & ? & E0 & H). injection E0 as <- <-.
  apply bind_ok in H as (? & ? & (c0 & E & -> & ->)%sql_query_ok & H).
  replace c0 with c in * by congruence. apply bind_ok in H as (? & ? & _ & H).
  apply bind_ok in H as (? & ? & [Hl%Z.leb_le _]%guard_ok & H). apply bind_ok in H as (? & ? & _ & H).
  by apply ret_ok in H as [-> _].
Qed.

Lemma build_aad_ok encap nonce root ct_len pt_len fixed e w aad w' :
  backup_build_fixed_header (Z.of_nat (length BACKUP_CAPSULE_ALGORITHM)) (Z.of_nat (length encap))
    (Z.of_nat (length nonce)) (Z.of_nat (length root)) ct_len pt_len = Ok fixed →
  backup_build_aad fixed BACKUP_CAPSULE_ALGORITHM encap nonce root e w = (Ok aad, w') →
  aad = capsule_aad encap nonce root ct_len pt_len.
Proof.
  unfold backup_build_fixed_header, backup_build_aad. intros [_ [= <-]]%outcome_seq_ok H.
  apply bind_ok in H as (? & ? & _ & H). apply bind_ok in H as (? & ? & _ & H). by apply ret_ok in H as [-> _].
Qed.

(** The two sides agree on the key, so what the sender seals is a sealed
    capsule for the receiver. *)
Lemma sealed_intro r1 r2 rk re ct s1 raw s2 encap nonce root snapshot :
  let k1 := EVP_PKEY_Q_keygen BACKUP_PQC_KEM_ALGORITHM r1 in
  let k2 := EVP_PKEY_Q_keygen BACKUP_CLASSICAL_KEX_ALGORITHM r2 in
  let ek := EVP_PKEY_Q_keygen BACKUP_CLASSICAL_KEX_ALGORITHM re in
  let pt_len := Z.of_nat (length snapshot) in
  let aad := capsule_aad encap nonce root (Z.of_nat (length snapshot + BACKUP_TAG_BYTES)) pt_len in
  EVP_PKEY_encapsulate (public_half k1) rk = Some (ct, s1) → s1 ≠ [] →
  EVP_PKEY_derive ek (public_half k2) = Some s2 → s2 ≠ [] →
  EVP_PKEY_get_raw_public_key ek = Some raw →
  encap = write_le 4 32 ++ raw ++ ct → length nonce = BACKUP_NONCE_BYTES →
  length root = AUDIT_MERKLE_ROOT_BYTES → (pt_len ≤ BACKUP_MAX_DB_BYTES)%Z →
  sealed_capsule k1 k2 snapshot root (Capsule aad encap nonce root
    (aead_encrypt XCHACHA20_POLY1305 (capsule_key s1 s2 encap root) nonce aad snapshot) pt_len) ∧
  length encap = (4 + 32 + 1088)%nat.
Proof.
  intros k1 k2 ek pt_len aad E1 Hs1 E2 Hs2 E3 Henc Hnonce Hroot Hlen.
  destruct (decapsulate_encapsulate r1 rk) as (ct' & s1' & E1' & D1 & Lct & _). fold k1 in E1', D1.
  rewrite E1 in E1'. injection E1' as <- <-.
  destruct (derive_agrees re r2) as (s2' & E2' & D2 & _). fold k2 ek in E2', D2.
  rewrite E2 in E2'. injection E2' as <-.
  destruct (raw_public_key re) as (raw' & E3' & Lraw & D3). fold ek in E3', D3. rewrite E3 in E3'. injection E3' as <-.
  assert (length encap = (4 + 32 + 1088)%nat) as Lenc.
  { rewrite Henc, !length_app, length_write_le, Lraw, Lct. done. }
  split; [|done]. unfold BACKUP_MAX_DB_BYTES in Hlen. split.
  - unfold capsule_parts_ok. cbn [cp_aad cp_encap cp_nonce cp_audit_root cp_ciphertext cp_plaintext_len].
    rewrite length_aead_encrypt, Lenc. unfold BACKUP_TAG_BYTES, UINT64_MAX in *. cbn [aead_ABYTES] in *.
    split_and!; try done; try lia.
  - cbn [cp_aad cp_encap cp_nonce cp_audit_root cp_ciphertext cp_plaintext_len]. split_and!; [done..|].
    exists raw, ct, s1, s2, (public_half ek). split_and!; try done. by destruct ct.
Qed.

(** What a successful export wrote. *)
Lemma export_ok pub path root e w u w' pubp mode r1 r2 c :
  let k1 := EVP_PKEY_Q_keygen BACKUP_PQC_KEM_ALGORITHM r1 in
  let k2 := EVP_PKEY_Q_keygen BACKUP_CLASSICAL_KEX_ALGORITHM r2 in
  backup_pqc_export pub path root e w = (Ok u, w') →
  resolves pub pubp → d_files (w_disk w) !! pubp = Some (created mode (public_text [k1; k2])) →
  w_conn w = Some c →
  ∃ capp p, resolves path capp ∧ d_files (w_disk w) !! capp = None ∧
    sealed_capsule k1 k2 (snapshot_of w c) root p ∧
    (Z.of_nat (length (snapshot_of w c)) ≤ BACKUP_MAX_DB_BYTES)%Z ∧
    length (cp_encap p) = (4 + 32 + 1088)%nat ∧
    wrote capp (created S_IRUSR_IWUSR (capsule_of p)) w w'.
Proof.
  intros k1 k2 H Hpub Hf Hc. unfold backup_pqc_export in H.
  apply bind_ok in H as (? & ? & [_ ->]%require_db_ok & H).
  apply bind_ok in H as (? & ? & [Hroot%Nat.eqb_eq ->]%guard_ok & H).
  apply bind_ok in H as (snap & w1 & H1 & H). pose proof (keeps_run same_state _ _ _ _ _ H1) as S1.
  destruct (snapshot_ok _ _ _ _ _ H1 Hc) as [-> Hlen].
  apply bind_ok in H as ([kem_pk x_pk] & w2 & H2 & H). pose proof (keeps_run same_state _ _ _ _ _ H2) as S2.
  eapply load_public_ok in H2; [|exact Hpub|destruct S1 as (_ & _ & _ & ->); exact Hf]. injection H2 as -> ->.
  apply bind_ok in H as ([ct s1] & w3 & H3 & H). pose proof (keeps_run same_state _ _ _ _ _ H3) as S3.
  apply bind_ok in H as (ek & w4 & H4 & H). pose proof (keeps_run same_state _ _ _ _ _ H4) as S4.
  apply bind_ok in H as (s2 & w5 & H5 & H). pose proof (keeps_run same_state _ _ _ _ _ H5) as S5.
  apply bind_ok in H as (raw & w6 & H6 & H). pose proof (keeps_run same_state _ _ _ _ _ H6) as S6.
  apply bind_ok in H as (encap & w7 & H7 & H). pose proof (keeps_run same_state _ _ _ _ _ H7) as S7.
  apply bind_ok in H as (key & w8 & H8 & H). pose proof (keeps_run same_state _ _ _ _ _ H8) as S8.
  apply encapsulate_ok in H3 as (rk & E1). apply keygen_ok in H4 as (re & ->).
  apply x25519_derive_ok in H5 as E2. apply get_raw_ok in H6 as E3. apply build_encap_ok in H7 as (Lraw & Hct & Eencap).
  apply derive_key_ok in H8 as (Hs1 & Hs2 & Henc & ->).
  apply bind_ok in H as (? & ? & [_ ->]%guard_ok & H). apply bind_ok in H as (? & ? & [_ ->]%lib_call_ok & H).
  apply bind_ok in H as (nonce & ? & [Hnonce ->]%randombytes_buf_ok & H).
  apply bind_ok in H as (fixed & ? & Hfixed & H). unfold lift in Hfixed. injection Hfixed as Hfixed <-.
  apply bind_ok in H as (aad & w9 & H9 & H). pose proof (keeps_run same_state _ _ _ _ _ H9) as S9.
  rewrite (build_aad_ok _ _ _ _ _ _ _ _ _ _ Hfixed H9) in *. clear H9 aad.
  apply bind_ok in H as (? & ? & [_ ->]%lib_call_ok & H). apply bind_ok in H as (? & ? & Hsum & H).
  unfold lift in Hsum. injection Hsum as _ <-. apply bind_ok in H as (? & ? & [_ ->]%lib_call_ok & H).
  apply write_all_ok in H as (capp & Hcap & Hn & W).
  assert (same_state w (called (called w9))) as S.
  { do 8 (etrans; [eassumption|]). change (same_state (draw (called w8)) w9). done. }
  destruct (sealed_intro r1 r2 rk re ct s1 raw s2 encap nonce root (snapshot_of w c))
    as [Hseal Lenc]; [done..|].
  eexists capp, _. split_and!; [done|by destruct S as (_ & _ & _ & <-)|exact Hseal|done|exact Lenc|].
  by eapply same_then_wrote.
Qed.

Lemma wp_decapsulate k ct s (Q : bytes → world → Prop) e w :
  healthy e → ct ≠ [] → EVP_PKEY_decapsulate k ct = Some s →
  (∀ w', same_state w w' → Q s w') → wp (backup_decapsulate k ct) Q e w.
Proof.
  intros He Hct Hs HQ. unfold backup_decapsulate. wp_run. apply wp_guard; [by rewrite bool_decide_false|]. wp_run.
  eapply wp_openssl_call; [done|exact Hs|]. wp_run. by apply HQ.
Qed.

Lemma wp_x25519_derive k p s (Q : bytes → world → Prop) e w :
  healthy e → EVP_PKEY_derive k p = Some s →
  (∀ w', same_state w w' → Q s w') → wp (backup_x25519_derive k p) Q e w.
Proof.
  intros He Hs HQ. unfold backup_x25519_derive. wp_run.
  eapply wp_openssl_call; [done|exact Hs|]. wp_run. by apply HQ.
Qed.

Lemma wp_derive_key a b c d (Q : bytes → world → Prop) e w :
  healthy e → a ≠ [] → b ≠ [] → c ≠ [] → length d = AUDIT_MERKLE_ROOT_BYTES →
  (∀ w', same_state w w' → Q (capsule_key a b c d) w') → wp (backup_derive_capsule_key a b c d) Q e w.
Proof.
  intros He Ha Hb Hc Hd HQ. unfold backup_derive_capsule_key. wp_run.
  apply wp_guard; [by rewrite !bool_decide_false, Hd by done|]. wp_run. by apply HQ.
Qed.

(** The size of a capsule. *)
Lemma length_capsule p :
  capsule_parts_ok p →
  length (capsule_of p) = (44 + 17 + length (cp_encap p) + 24 + 32 + length (cp_ciphertext p))%nat.
Proof.
  intros (Hn & Hr & _ & _ & _ & Ha). unfold capsule_of. rewrite Ha. unfold capsule_aad.
  rewrite !length_app, !length_write_le, Hn, Hr.
  change (length BACKUP_MAGIC) with 8%nat. change (length BACKUP_CAPSULE_ALGORITHM) with 17%nat.
  unfold BACKUP_NONCE_BYTES, AUDIT_MERKLE_ROOT_BYTES. cbn [aead_NPUBBYTES]. lia.
Qed.

(** A sealed capsule, and the private keys it is for, make the snapshot. *)
Lemma wp_import priv pass path out privp capp outp k1 k2 r1 r2 snapshot root p (Q : unit → world → Prop) e w :
  healthy e → passphrase_ok pass →
  resolves path capp → d_files (w_disk w) !! capp = Some (created S_IRUSR_IWUSR (capsule_of p)) →
  sealed_capsule k1 k2 snapshot root p → (Z.of_nat (length snapshot) ≤ BACKUP_MAX_DB_BYTES)%Z →
  length (cp_encap p) = (4 + 32 + 1088)%nat → length root = AUDIT_MERKLE_ROOT_BYTES →
  resolves priv privp →
  d_files (w_disk w) !! privp = Some (created S_IRUSR_IWUSR (private_text pass [(k1, r1); (k2, r2)])) →
  resolves out outp → d_files (w_disk w) !! outp = None →
  (∀ w', wrote outp (created S_IRUSR_IWUSR snapshot) w w' → Q () w') →
  wp (backup_pqc_import priv pass path out) Q e w.
Proof.
  intros He Hpass Hpath Hcap (Hp & Hroot & Hpl & raw & ct & s1 & s2 & ek & Henc & Lraw & Hct & D1 & Hs1 & D3 & D2 & Hs2 & Hc)
    Hlen Lenc Lroot Hpriv Hkey Hout Hnone HQ.
  assert (length (cp_ciphertext p) = length snapshot + 16)%nat as Lc by by rewrite Hc, length_aead_encrypt.
  pose proof (length_capsule p Hp) as Lcap. rewrite Lenc, Lc in Lcap.
  unfold backup_pqc_import. wp_run. apply wp_guard.
  { destruct Hpass as [? _], Hout as [? _]. unfold backup_private_key_passphrase_is_valid.
    by rewrite !bool_decide_false. }
  wp_run. eapply wp_read_all; [done|exact Hpath|exact Hcap|done| | |].
  { cbn [f_content created]. rewrite Lcap. unfold BACKUP_MAX_DB_BYTES, SIZE_MAX, UINT64_MAX in *. lia. }
  { cbn [f_content created]. intros E. by rewrite E in Lcap. }
  intros w1 S1. cbn [f_content created]. wp_run. eapply wp_lift; [by apply parse_canonical|]. wp_run.
  eapply wp_lift; [rewrite Henc; by apply parse_encap|]. cbv beta iota. wp_run.
  pose proof S1 as (_ & _ & _ & F1).
  eapply wp_load_private; [done|exact Hpriv|done|rewrite F1; exact Hkey|]. intros w2 S2. cbv beta iota. wp_run.
  apply (wp_decapsulate _ _ s1); [done..|]. intros w3 S3. wp_run.
  unfold backup_x25519_public_from_raw. wp_run. apply wp_guard; [by rewrite Lraw|].
  eapply wp_openssl_call; [done|exact D3|]. wp_run.
  apply (wp_x25519_derive _ _ s2); [done..|]. intros w4 S4. wp_run.
  apply wp_derive_key; [done..|rewrite Henc; by intros E|by rewrite Hroot|]. intros w5 S5. wp_run.
  assert (same_state w (called w5)) as S.
  { do 3 (etrans; [eassumption|]). change (same_state (called w3) w5). by etrans. }
  eapply wp_lift; [by rewrite Hroot, Hc, aead_decrypt_encrypt|]. wp_run.
  apply wp_guard; [by rewrite Hpl; apply Z.eqb_refl|]. pose proof S as (_ & _ & _ & F).
  eapply wp_write_all; [done|exact Hout|by rewrite F|]. intros w' W. apply HQ. by eapply same_then_wrote.
Qed.

(** * What the component promises *)

Lemma pqc_keygen_ok pub priv pass e w u w' :
  backup_pqc_keygen pub priv pass e w = (Ok u, w') →
  c_str pass ≠ [] ∧ ∃ r1 r2, wrote_keys pub priv pass
    [EVP_PKEY_Q_keygen BACKUP_PQC_KEM_ALGORITHM r1; EVP_PKEY_Q_keygen BACKUP_CLASSICAL_KEX_ALGORITHM r2] w w'.
Proof.
  unfold backup_pqc_keygen. intros H. apply bind_ok in H as (? & ? & [Hg ->]%guard_ok & H).
  unfold key_paths_valid, backup_private_key_passphrase_is_valid in Hg.
  rewrite !andb_true_iff, !negb_true_iff, !bool_decide_eq_false in Hg. destruct Hg as [_ Hpass]. split; [done|].
  apply bind_ok in H as (k1 & w1 & H1 & H). apply bind_ok in H as (k2 & w2 & H2 & H).
  pose proof (keeps_run same_state _ _ _ _ _ H1) as S1. pose proof (keeps_run same_state _ _ _ _ _ H2) as S2.
  apply keygen_ok in H1 as [r1 ->]. apply keygen_ok in H2 as [r2 ->]. exists r1, r2.
  apply write_key_files_ok in H as (pubp & privp & krs & H). exists pubp, privp, krs.
  assert (same_state w w2) as (A1 & A2 & A3 & A4) by by etrans. rewrite A1, A2, A3, A4 in H. exact H.
Qed.

Lemma mldsa_keygen_ok pub priv pass e w u w' :
  backup_mldsa_keygen pub priv pass e w = (Ok u, w') →
  c_str pass ≠ [] ∧ ∃ r, wrote_keys pub priv pass [EVP_PKEY_Q_keygen BACKUP_MLDSA_ALGORITHM r] w w'.
Proof.
  unfold backup_mldsa_keygen. intros H. apply bind_ok in H as (? & ? & [Hg ->]%guard_ok & H).
  unfold key_paths_valid, backup_private_key_passphrase_is_valid in Hg.
  rewrite !andb_true_iff, !negb_true_iff, !bool_decide_eq_false in Hg. destruct Hg as [_ Hpass]. split; [done|].
  apply bind_ok in H as (k1 & w1 & H1 & H). pose proof (keeps_run same_state _ _ _ _ _ H1) as (A1 & A2 & A3 & A4).
  apply keygen_ok in H1 as [r1 ->]. exists r1.
  apply write_key_files_ok in H as (pubp & privp & krs & H). exists pubp, privp, krs.
  rewrite A1, A2, A3, A4 in H. exact H.
Qed.

(** The files of a pair of keys, which stay where they were made. *)
Definition key_files (pub priv pass : bytes) (keys : list pkey) (fs : gmap bytes file) : Prop :=
  ∃ pubp privp krs, resolves pub pubp ∧ resolves priv privp ∧ krs.*1 = keys ∧
    fs !! pubp = Some (created S_PUBLIC_KEY_MODE (public_text keys)) ∧
    fs !! privp = Some (created S_IRUSR_IWUSR (private_text pass krs)).

Lemma wrote_key_files pub priv pass keys w w' fs :
  wrote_keys pub priv pass keys w w' → d_files (w_disk w') ⊆ fs → key_files pub priv pass keys fs.
Proof.
  intros (pubp & privp & krs & Hpub & Hpriv & Hne & _ & _ & Hk & _ & _ & _ & _ & E) Hsub.
  rewrite E in Hsub. exists pubp, privp, krs. split_and!; try done.
  - eapply lookup_weaken; [|exact Hsub]. apply lookup_insert_eq.
  - eapply lookup_weaken; [|exact Hsub]. rewrite lookup_insert_ne by done. apply lookup_insert_eq.
Qed.

Lemma key_files_mono pub priv pass keys fs fs' : key_files pub priv pass keys fs → fs ⊆ fs' → key_files pub priv pass keys fs'.
Proof.
  intros (pubp & privp & krs & Hpub & Hpriv & Hk & F1 & F2) Hsub. exists pubp, privp, krs.
  split_and!; try done; by eapply lookup_weaken.
Qed.

(** An export for keys whose files are there, then an import. *)
Lemma export_import pub priv pass path out root outp r1 r2 c e2 w2 u w2' e3 w3 :
  key_files pub priv pass
    [EVP_PKEY_Q_keygen BACKUP_PQC_KEM_ALGORITHM r1; EVP_PKEY_Q_keygen BACKUP_CLASSICAL_KEX_ALGORITHM r2]
    (d_files (w_disk w2)) →
  passphrase_ok pass → w_conn w2 = Some c →
  backup_pqc_export pub path root e2 w2 = (Ok u, w2') → d_files (w_disk w2') ⊆ d_files (w_disk w3) →
  healthy e3 → resolves out outp → d_files (w_disk w3) !! outp = None →
  ∃ w3', backup_pqc_import priv pass path out e3 w3 = (Ok (), w3') ∧
    wrote outp (created S_IRUSR_IWUSR (snapshot_of w2 c)) w3 w3'.
Proof.
  intros (pubp & privp & krs & Hpub & Hpriv & Hk & F1 & F2) Hpass Hc Hexp Hsub He3 Hout Hnone.
  destruct krs as [|[k1 a1] [|[k2 a2] [|? krs]]]; try discriminate Hk.
  cbn [fmap list_fmap fst] in Hk. injection Hk as -> ->.
  destruct (export_ok _ _ _ _ _ _ _ _ _ _ _ _ Hexp Hpub F1 Hc) as (capp & p & Hcap & Hn & Hs & Hlen & Lenc & W).
  assert (d_files (w_disk w2) ⊆ d_files (w_disk w3)) as Hsub2.
  { etrans; [|exact Hsub]. by pose proof (keeps_run new_files _ _ _ _ _ Hexp) as (_ & _ & _ & _ & ?). }
  pose proof (lookup_weaken _ _ _ _ (wrote_file _ _ _ _ W) Hsub) as Hcf.
  pose proof (lookup_weaken _ _ _ _ F2 Hsub2) as Hkf.
  assert (wp (backup_pqc_import priv pass path out)
    (λ _ w', wrote outp (created S_IRUSR_IWUSR (snapshot_of w2 c)) w3 w') e3 w3) as ([] & w3' & R & HW).
  { eapply (wp_import priv pass path out privp capp outp); try done.
    destruct Hs as ((_ & Hr & _) & <- & _). done. }
  by exists w3'.
Qed.

(** a backup can always be restored: with a key pair that
    [backup_pqc_keygen] made, a capsule that [backup_pqc_export] wrote for it,
    and the files still there, [backup_pqc_import] with the private key and its
    passphrase succeeds in a healthy environment and makes a new file, for the
    owner only, with exactly the bytes of the database that was exported; no
    other file changes. Keygen and export may have run in any environment. *)
Theorem backup_round_trip pub priv pass path out root outp c e1 w1 w1' e2 w2 w2' e3 w3 :
  backup_pqc_keygen pub priv pass e1 w1 = (Ok (), w1') →
  (length (c_str pass) ≤ PEM_BUFSIZE)%nat →
  d_files (w_disk w1') ⊆ d_files (w_disk w2) → w_conn w2 = Some c →
  backup_pqc_export pub path root e2 w2 = (Ok (), w2') → d_files (w_disk w2') ⊆ d_files (w_disk w3) →
  healthy e3 → resolves out outp → d_files (w_disk w3) !! outp = None →
  ∃ w3', backup_pqc_import priv pass path out e3 w3 = (Ok (), w3') ∧
    d_files (w_disk w3') = <[outp := created S_IRUSR_IWUSR (snapshot_of w2 c)]> (d_files (w_disk w3)).
Proof.
  intros [Hne (r1 & r2 & Hk)]%pqc_keygen_ok Hlen Hsub Hc Hexp Hsub2 He3 Hout Hnone.
  destruct (export_import pub priv pass path out root outp r1 r2 c e2 w2 () w2' e3 w3)
    as (w3' & R & _ & _ & _ & _ & F); try done; [by eapply wrote_key_files|]. by exists w3'.
Qed.

(** C12: exporting and importing never change a file that exists, nor the
    session or the database, however they end: any call may fail. *)
Theorem backup_keeps_files pub priv pass path out root e w :
  new_files w (backup_pqc_export pub path root e w).2 ∧ new_files w (backup_pqc_import priv pass path out e w).2.
Proof.
  split; [apply (keeps (R := new_files) (m := backup_pqc_export pub path root))|].
  apply (keeps (R := new_files) (m := backup_pqc_import priv pass path out)).
Qed.

(** ** Signatures *)

Lemma wp_load_single_private path pass p k r (Q : pkey → world → Prop) e w :
  healthy e → resolves path p → passphrase_ok pass →
  d_files (w_disk w) !! p = Some (created S_IRUSR_IWUSR (private_text pass [(k, r)])) →
  (∀ w', same_state w w' → Q k w') → wp (backup_load_single_private_key path pass) Q e w.
Proof.
  intros He Hp [Hne Hlen] Hf HQ.
  apply (wp_mono _ (λ a w', same_state w w' ∧ a = k)); [|intros a w' [S ->]; by apply HQ].
  apply (wp_keeps same_state (backup_load_single_private_key path pass) (λ a _, a = k)).
  unfold backup_load_single_private_key. wp_run. apply wp_guard.
  { destruct Hp as [? _]. unfold backup_private_key_passphrase_is_valid. by rewrite !bool_decide_false. }
  wp_run. eapply wp_owner_only; [done|done|exact Hf|apply created_owner_only|]. intros w1 (_ & _ & _ & S1).
  wp_run. eapply wp_fcontent; [rewrite S1; exact Hf|]. wp_run.
  apply wp_header; [done|done|]. unfold read_private_key, private_text. cbn [fmap list_fmap concat fst snd f_content created]. wp_run.
  eapply wp_openssl_call; [done|by apply read_write_private|]. cbv beta iota. by wp_run.
Qed.

Lemma wp_load_single_public path p mode k (Q : pkey → world → Prop) e w :
  healthy e → resolves path p → d_files (w_disk w) !! p = Some (created mode (public_text [k])) →
  (∀ w', same_state w w' → Q (public_half k) w') → wp (backup_load_single_public_key path) Q e w.
Proof.
  intros He Hp Hf HQ.
  apply (wp_mono _ (λ a w', same_state w w' ∧ a = public_half k)); [|intros a w' [S ->]; by apply HQ].
  apply (wp_keeps same_state (backup_load_single_public_key path) (λ a _, a = public_half k)).
  unfold backup_load_single_public_key. wp_run. apply wp_guard.
  { destruct Hp as [? _]. by rewrite bool_decide_false. }
  wp_run. eapply wp_fopen_rb; [done|done|exact Hf|done|]. wp_run.
  eapply wp_fcontent; [exact Hf|]. wp_run. unfold read_public_key, public_text. cbn [fmap list_fmap concat f_content created]. wp_run.
  eapply wp_openssl_call; [done|by apply read_write_public|]. cbv beta iota. by wp_run.
Qed.

#[export] Instance keeps_sign priv pass m n : Keeps same_state (backup_mldsa_sign priv pass m n).
Proof. unfold backup_mldsa_sign. keeps_tac. Qed.
#[export] Instance keeps_verify pub m s : Keeps same_state (backup_mldsa_verify pub m s).
Proof. unfold backup_mldsa_verify. keeps_tac. Qed.

(** A signature of the key [k], whose public half accepts it. *)
Definition signs (k : pkey) (message signature : bytes) : Prop :=
  length signature = 3309%nat ∧ EVP_DigestVerify (public_half k) message signature = true.

Lemma wp_sign pub priv pass r message n (Q : bytes → world → Prop) e w :
  let k := EVP_PKEY_Q_keygen BACKUP_MLDSA_ALGORITHM r in
  healthy e → key_files pub priv pass [k] (d_files (w_disk w)) → passphrase_ok pass → message ≠ [] →
  (3309 ≤ n)%nat → (∀ s w', same_state w w' → signs k message s → Q s w') →
  wp (backup_mldsa_sign priv pass message n) Q e w.
Proof.
  intros k He (pubp & privp & krs & _ & Hp & Hk & _ & F) Hpass Hm Hn HQ.
  destruct krs as [|[k' r'] [|]]; try discriminate Hk. cbn [fmap list_fmap fst] in Hk. injection Hk as ->.
  unfold backup_mldsa_sign. wp_run. apply wp_guard; [by rewrite bool_decide_false|]. wp_run.
  eapply wp_load_single_private; [done|exact Hp|done|exact F|]. intros w1 S1. wp_run.
  unfold openssl_random. wp_run.
  destruct (verify_sign r message r0 Hm) as (s & Es & Ls & Vs). fold k in Es, Vs.
  eapply wp_openssl_call; [done|exact Es|]. wp_run. apply wp_guard; [apply Nat.leb_le; lia|]. wp_run.
  by apply HQ.
Qed.

Lemma wp_verify pub priv pass k message signature (Q : unit → world → Prop) e w :
  healthy e → key_files pub priv pass [k] (d_files (w_disk w)) → message ≠ [] → signs k message signature →
  (∀ w', same_state w w' → Q () w') → wp (backup_mldsa_verify pub message signature) Q e w.
Proof.
  intros He (pubp & privp & krs & Hp & _ & _ & F & _) Hm [Hl Hv] HQ.
  unfold backup_mldsa_verify. wp_run. apply wp_guard.
  { rewrite !bool_decide_false; [done| |done]. intros E. by rewrite E in Hl. }
  wp_run. eapply wp_load_single_public; [done|exact Hp|exact F|]. intros w1 S1. wp_run.
  apply wp_guard; [done|]. by apply HQ.
Qed.

(** C13: signatures of audit roots: with an ML-DSA key pair that
    [backup_mldsa_keygen] made, in a healthy environment [backup_mldsa_sign]
    signs every message into a buffer that is large enough, and
    [backup_mldsa_verify] with the public key file accepts the signature, as
    long as the files are there; both leave the state as it was. *)
Theorem backup_mldsa_sign_verify pub priv pass message n e1 w1 w1' e2 w2 :
  backup_mldsa_keygen pub priv pass e1 w1 = (Ok (), w1') → (length (c_str pass) ≤ PEM_BUFSIZE)%nat →
  d_files (w_disk w1') ⊆ d_files (w_disk w2) → healthy e2 → message ≠ [] → (3309 ≤ n)%nat →
  ∃ signature w2', backup_mldsa_sign priv pass message n e2 w2 = (Ok signature, w2') ∧ same_state w2 w2' ∧
    ∀ e3 w3, healthy e3 → d_files (w_disk w2) ⊆ d_files (w_disk w3) →
    ∃ w3', backup_mldsa_verify pub message signature e3 w3 = (Ok (), w3') ∧ same_state w3 w3'.
Proof.
  intros [Hne (r & Hk)]%mldsa_keygen_ok Hlen Hsub He2 Hm Hn. pose proof (wrote_key_files _ _ _ _ _ _ _ Hk Hsub) as Hf.
  destruct (wp_sign pub priv pass r message n
    (λ s w', same_state w2 w' ∧ signs (EVP_PKEY_Q_keygen BACKUP_MLDSA_ALGORITHM r) message s) e2 w2)
    as (s & w2' & R & S & Hs); try done.
  exists s, w2'. split_and!; [done..|]. intros e3 w3 He3 Hsub3.
  destruct (wp_verify pub priv pass (EVP_PKEY_Q_keygen BACKUP_MLDSA_ALGORITHM r) message s (λ _ w', same_state w3 w') e3 w3) as ([] & w3' & R3 & S3); try done.
  { by eapply key_files_mono. }
  by exists w3'.
Qed.

(** ** A key file that exists *)

Lemma fopen_exclusive_exists path mode p f e w :
  resolves path p → d_files (w_disk w) !! p = Some f →
  ∃ w', backup_fopen_exclusive path mode e w = (Err SM_ERR_STORAGE, w') ∧ same_state w w'.
Proof.
  intros Hp Hf. unfold backup_fopen_exclusive.
  destruct (as_status SM_ERR_STORAGE (backup_resolve_parent_path path) e w) as [r1 w1] eqn:E1.
  pose proof (keeps_run same_state _ _ _ _ _ E1) as S1. destruct r1 as [q|s].
  2:{ rewrite (bind_run_err _ _ _ _ _ _ E1). exists w1. split; [|done].
      f_equal. f_equal. unfold as_status in E1. destruct (backup_resolve_parent_path path e w) as [[]]; by injection E1. }
  rewrite (bind_run _ _ _ _ _ _ E1). apply as_status_ok, resolve_ok in E1.
  rewrite <- (resolves_unique _ _ _ Hp E1) in *. clear E1 q.
  destruct (posix_open p true true mode e w1) as [r2 w2] eqn:E2. pose proof (open_exclusive_cases _ _ _ _ _ _ E2) as C2.
  pose proof S1 as (_ & _ & _ & F1). destruct r2 as [entry|s].
  - destruct C2 as (Hp' & Hn & _). rewrite (resolved_entry _ _ Hp) in Hp'. injection Hp' as <-.
    rewrite F1, Hf in Hn. done.
  - destruct C2 as [-> ->]. exists (called w1). split; [|etrans; [exact S1|by unfold same_state]].
    by rewrite (bind_run_err _ _ _ _ _ _ E2).
Qed.

Lemma remove_path_run path p e w :
  healthy e → path_entry path = Some p →
  remove_path path e w = (Ok (), set_disk (Disk (delete p (d_files (w_disk w))) (d_database (w_disk w))) (called w)).
Proof.
  intros He Hp. unfold remove_path, mbind, M_bind, try, lib_call, get_files, put_files. cbn. by rewrite He, Hp.
Qed.

(** what [backup_pqc_keygen] does when the private key file exists: it
    fails, as it should, and then its cleanup removes that file, which it did
    not make, and the public key file, whatever they held. *)
Theorem backup_keygen_removes_existing pub priv pass pubp privp f e w :
  healthy e → c_str pass ≠ [] → resolves pub pubp → resolves priv privp → d_files (w_disk w) !! privp = Some f →
  ∃ w', backup_pqc_keygen pub priv pass e w = (Err SM_ERR_STORAGE, w') ∧
    d_files (w_disk w') = delete privp (delete pubp (d_files (w_disk w))).
Proof.
  intros He Hpass Hpub Hpriv Hf. unfold backup_pqc_keygen.
  rewrite guard_run. 2:{ unfold key_paths_valid, backup_private_key_passphrase_is_valid.
    destruct Hpub as [? _], Hpriv as [? _]. by rewrite !bool_decide_false. }
  assert (∀ a w, ∃ k, openssl_keygen a e w = (Ok k, draw (called w))) as Hgen.
  { intros a w0. unfold openssl_keygen. rewrite lib_call_run by done. eexists. reflexivity. }
  destruct (Hgen BACKUP_PQC_KEM_ALGORITHM w) as [k1 E1]. rewrite (bind_run _ _ _ _ _ _ E1).
  destruct (Hgen BACKUP_CLASSICAL_KEX_ALGORITHM (draw (called w))) as [k2 E2]. rewrite (bind_run _ _ _ _ _ _ E2).
  destruct (fopen_exclusive_exists priv S_IRUSR_IWUSR privp f e (draw (called (draw (called w)))))
    as (w1 & E3 & _ & _ & _ & F1); [done..|].
  unfold write_key_files, try at 1, mbind at 1, M_bind at 1. rewrite (bind_run_err _ _ _ _ _ _ E3).
  rewrite (bind_run _ _ _ _ _ _ (remove_path_run pub pubp e w1 He (resolves_entry _ _ Hpub))).
  rewrite (bind_run _ _ _ _ _ _ (remove_path_run priv privp e _ He (resolves_entry _ _ Hpriv))).
  eexists. split; [reflexivity|]. cbn [set_disk called w_disk d_files]. by rewrite F1.
Qed.
End Proofs.

(** * Witnesses *)

Module BackupExample.
#[local] Existing Instance Toy.crypto.
#[local] Existing Instance Toy.laws.
#[local] Existing Instance ToyPosix.posix.
#[local] Existing Instance ToyPosix.laws.
#[local] Existing Instance ToyOpenssl.openssl.
#[local] Existing Instance ToyOpenssl.laws.
#[local] Existing Instance ToySqlite.sqlite.
#[local] Existing Instance ToySqlite.laws.

Definition e0 : env := Sample.env_at 1700000000.
Definition world0 : world := Sample.world0.
Definition pub : bytes := str "pub.pem".
Definition priv : bytes := str "keys/priv.pem".
Definition pass : bytes := str "horse".
Definition cap : bytes := str "/backup".
Definition out : bytes := str "restored.db".
Definition root : bytes := repeat Byte.x07 32.

(** The world after a key pair was made, and after an export. *)
Definition w_keys : world := (backup_pqc_keygen pub priv pass e0 world0).2.
Definition w_cap : world := (backup_pqc_export pub cap root e0 w_keys).2.
Definition entry (l : bytes) : bytes := slash :: l.

Lemma out_resolves : resolves out (entry out).
Proof. split; [done|]. exists [dot], out, [slash]. by split_and!. Qed.
Lemma pub_resolves : resolves pub (entry pub).
Proof. split; [done|]. exists [dot], pub, [slash]. by split_and!. Qed.
Lemma priv_resolves : resolves priv (entry (str "priv.pem")).
Proof. split; [done|]. exists (str "keys"), (str "priv.pem"), [slash]. by split_and!. Qed.

Lemma backup_round_trip_witness :
  ∃ w3, backup_pqc_import priv pass cap out e0 w_cap = (Ok (), w3) ∧
    d_files (w_disk w3) = <[entry out := created S_IRUSR_IWUSR (snapshot_of w_keys (Connection empty_database empty_database false))]> (d_files (w_disk w_cap)).
Proof.
  apply (backup_round_trip pub priv pass cap out root (entry out) (Connection empty_database empty_database false)
    e0 world0 w_keys e0 w_keys w_cap e0 w_cap);
    [runs (backup_pqc_keygen pub priv pass) e0 world0|vm_compute; lia|reflexivity|vm_compute; reflexivity
    |runs (backup_pqc_export pub cap root) e0 w_keys|reflexivity|exact (Sample.env_at_healthy _)
    |exact out_resolves|vm_compute; reflexivity].
Defined.

Definition w_sign : world := (backup_mldsa_keygen pub priv pass e0 world0).2.

Lemma backup_mldsa_sign_verify_witness :
  ∃ signature w, backup_mldsa_sign priv pass (str "root") 4096 e0 w_sign = (Ok signature, w) ∧ same_state w_sign w ∧
    ∀ e3 w3, healthy e3 → d_files (w_disk w_sign) ⊆ d_files (w_disk w3) →
    ∃ w4, backup_mldsa_verify pub (str "root") signature e3 w3 = (Ok (), w4) ∧ same_state w3 w4.
Proof.
  apply (backup_mldsa_sign_verify pub priv pass (str "root") 4096 e0 world0 w_sign e0 w_sign);
    [runs (backup_mldsa_keygen pub priv pass) e0 world0|vm_compute; lia|reflexivity|exact (Sample.env_at_healthy _)
    |discriminate|vm_compute; lia].
Defined.

Lemma backup_keygen_removes_existing_witness :
  ∃ w, backup_pqc_keygen pub priv pass e0 w_keys = (Err SM_ERR_STORAGE, w) ∧
    d_files (w_disk w) = delete (entry (str "priv.pem")) (delete (entry pub) (d_files (w_disk w_keys))).
Proof.
  destruct (d_files (w_disk w_keys) !! entry (str "priv.pem")) as [f|] eqn:E.
  - apply (backup_keygen_removes_existing pub priv pass _ _ f);
      [exact (Sample.env_at_healthy _)|discriminate|exact pub_resolves|exact priv_resolves|exact E].
  - exfalso. revert E. vm_compute. discriminate.
Defined.

End BackupExample.
