(* ===== verification/AuditLog.v ===== *)
(** The audit log (src/src/audit.c): a hash chain over the rows of
    [audit_log], each row signed with a key that is ratcheted forward by
    SHA-256. [audit_log_event] appends a row, [audit_verify_chain] accepts
    exactly the logs that satisfy [chain_ok], [audit_resign_chain] signs the
    same rows under a new key. The texts that are hashed are injective in the
    fields they cover, so two verified logs with the same last hash agree or
    show a SHA-256 collision. What the texts do not cover is stated too: the
    bytes of a text column after a NUL, and the high bits of a version. *)

From S2P Require Import Prelude Status Sodium Schema State Utils Merkle.

Definition AUDIT_ACTOR_DEFAULT : bytes := str "user:default".
Definition AUDIT_RESULT_SUCCESS : bytes := str "SUCCESS".
Definition AUDIT_RESULT_FAILURE : bytes := str "FAILURE".
Definition AUDIT_DOMAIN : bytes := str "SM-AUDIT-v1".

(** The fields of an entry as the functions of audit.c pass them around. The
    actor is empty for NULL and for the empty string. *)
Record audit_entry := AuditEntry {
  ae_id : Z;
  ae_timestamp : bytes;
  ae_action : bytes;
  ae_actor : bytes;
  ae_target : bytes;
  ae_version : Z;
  ae_result : bytes;
  ae_prev : bytes;
}.

Definition audit_valid_action (action : bytes) : bool :=
  negb (bool_decide (action = [])) &&
  existsb (λ a, match strcmp action a with Eq => true | _ => false end)
    [str "CREATE"; str "READ"; str "UPDATE"; str "DELETE"; str "ROLLBACK";
     str "ROTATE_KEK"; str "ROTATE_DEK"; str "TOKEN_ISSUE"; str "TOKEN_REVOKE"].

Definition audit_valid_result (result : bytes) : bool :=
  negb (bool_decide (result = [])) &&
  (bool_decide (strcmp result AUDIT_RESULT_SUCCESS = Eq) ||
   bool_decide (strcmp result AUDIT_RESULT_FAILURE = Eq)).

Definition audit_validate_key (audit_key : bytes) : M unit :=
  guard_or (length audit_key =? crypto_auth_KEYBYTES)%nat SM_ERR_INVALID_ARGUMENT ;;
  lib_call SM_ERR_CRYPTO.

(** * Canonical bytes *)

Definition audit_write_u32_le (value : Z) : bytes := write_le 4 value.

Definition audit_checked_add (total value : Z) : outcome Z :=
  check (negb (SIZE_MAX - value <? total)%Z) SM_ERR_INVALID_ARGUMENT ;;
  Ok (total + value)%Z.

Definition audit_field_size (field_len : Z) : outcome Z :=
  check (field_len <=? UINT32_MAX)%Z SM_ERR_INVALID_ARGUMENT ;;
  Ok (4 + field_len)%Z.

(** [ADD_FIELD_SIZE] for each field. *)
Fixpoint add_field_sizes (total : Z) (fields : list bytes) : outcome Z :=
  match fields with
  | [] => Ok total
  | d :: fields' =>
      field_len ← audit_field_size (Z.of_nat (length d));
      total' ← audit_checked_add total field_len;
      add_field_sizes total' fields'
  end.

Definition audit_append_field (out data : bytes) : outcome bytes :=
  check (Z.of_nat (length data) <=? UINT32_MAX)%Z SM_ERR_INVALID_ARGUMENT ;;
  Ok (out ++ audit_write_u32_le (Z.of_nat (length data)) ++ data).

Fixpoint append_fields (out : bytes) (fields : list bytes) : outcome bytes :=
  match fields with
  | [] => Ok out
  | d :: fields' => out' ← audit_append_field out d; append_fields out' fields'
  end.

Definition actor_value (actor : bytes) : bytes :=
  if bool_decide (actor = []) then AUDIT_ACTOR_DEFAULT else actor.

Definition version_data (target_version : Z) : bytes :=
  if (0 <? target_version)%Z then write_le 8 target_version else [].

Definition entry_fields (x : audit_entry) (entry_hash : option bytes) : list bytes :=
  [AUDIT_DOMAIN; write_le 8 (ae_id x); ae_timestamp x; ae_action x; actor_value (ae_actor x);
   ae_target x; version_data (ae_version x); ae_result x; ae_prev x]
  ++ match entry_hash with Some h => [h] | None => [] end.

Definition audit_build_entry_bytes (x : audit_entry) (entry_hash : option bytes) : M bytes :=
  guard_or (negb (bool_decide (ae_timestamp x = [])) && (1 <=? ae_id x)%Z
            && audit_valid_action (ae_action x) && negb (bool_decide (ae_target x = []))
            && audit_valid_result (ae_result x))
    SM_ERR_INVALID_ARGUMENT ;;
  total ← lift (add_field_sizes 0 (entry_fields x entry_hash));
  lib_call SM_ERR_STORAGE ;;
  data ← lift (append_fields [] (entry_fields x entry_hash));
  guard_or (Z.of_nat (length data) =? total)%Z SM_ERR_STORAGE ;;
  mret data.

(** * Reading rows *)

(** [SELECT COALESCE(MAX(entry_id), 0) + 1]: SQLite adds in reals when the
    integers overflow, and reads them back as [INT64_MAX]. *)
Definition audit_next_entry_id : M Z :=
  next_id ← sql_query (λ db, Z.min INT64_MAX (default 0 (sql_max ar_entry_id (t_audit_log db)) + 1)%Z);
  guard_or (1 <=? next_id)%Z SM_ERR_STORAGE ;;
  mret next_id.

Definition audit_column_signature (s : bytes) : outcome bytes :=
  if (length s =? crypto_auth_BYTES)%nat then Ok s else Err SM_ERR_STORAGE.

(** The columns of the SELECT of both chain loops: the entry and the stored
    entry hash. Texts are read as C strings, the version as a C [int]. *)
Definition audit_read_row (r : audit_row) : M (audit_entry * bytes) :=
  lib_call SM_ERR_STORAGE ;;
  guard_or (1 <=? ar_entry_id r)%Z SM_ERR_STORAGE ;;
  target_version ← match ar_target_version r with
                   | None => mret 0%Z
                   | Some v => guard_or (1 <=? column_int v)%Z SM_ERR_STORAGE ;; mret (column_int v)
                   end;
  stored_prev ← lift (audit_column_hash (ar_prev_hash r));
  stored_entry_hash ← lift (audit_column_hash (ar_entry_hash r));
  mret (AuditEntry (ar_entry_id r) (c_str (ar_timestamp r)) (c_str (ar_action r))
          (c_str (ar_actor r)) (c_str (ar_target r)) target_version (c_str (ar_result r))
          stored_prev, stored_entry_hash).

Section Audit.
Context {CR : Crypto}.

Definition audit_advance_ratchet_key (ratchet_key : bytes) : M bytes :=
  guard_or (length ratchet_key =? crypto_auth_KEYBYTES)%nat SM_ERR_INVALID_ARGUMENT ;;
  lib_call SM_ERR_CRYPTO ;;
  mret (sha256 ratchet_key).

Fixpoint ratchet_loop (n : nat) (ratchet_key : bytes) : M bytes :=
  match n with
  | O => mret ratchet_key
  | S n' => k ← audit_advance_ratchet_key ratchet_key; ratchet_loop n' k
  end.

Definition audit_derive_ratchet_key (audit_key : bytes) (entry_index : nat) : M bytes :=
  audit_validate_key audit_key ;; ratchet_loop entry_index audit_key.

Definition audit_compute_entry_hash (x : audit_entry) : M bytes :=
  data ← audit_build_entry_bytes x None;
  lib_call SM_ERR_CRYPTO ;;
  mret (sha256 data).

Definition audit_compute_signature (x : audit_entry) (entry_hash audit_key : bytes) : M bytes :=
  data ← audit_build_entry_bytes x (Some entry_hash);
  lib_call SM_ERR_CRYPTO ;;
  mret (crypto_auth data audit_key).

(** * Operations *)

Definition audit_log_event (actor action target : bytes) (target_version : Z)
    (result audit_key : bytes) : M unit :=
  require_db ;;
  audit_validate_key audit_key ;;
  timestamp ← utils_now_iso8601 UTILS_ISO8601_UTC_BUFFER_LEN;
  prev_hash ← audit_get_last_hash crypto_hash_sha256_BYTES;
  entry_id ← audit_next_entry_id;
  entry_count ← audit_count_entries;
  let x := AuditEntry entry_id timestamp action (actor_value actor) target target_version
             result prev_hash in
  entry_hash ← audit_compute_entry_hash x;
  ratchet_key ← audit_derive_ratchet_key audit_key entry_count;
  signature ← audit_compute_signature x entry_hash ratchet_key;
  sql_exec (λ db,
    t ← insert_audit_row
          (AuditRow entry_id timestamp action (actor_value actor) target
             (if (0 <? target_version)%Z then Some target_version else None)
             result prev_hash entry_hash signature)
          (t_audit_log db);
    Some (with_audit_log t db, ())).

(** A row of the signing loop: its chain and its recomputed hash. *)
Definition audit_check_row (expected_prev : bytes) (r : audit_row) : M (audit_entry * bytes) :=
  '(x, stored_entry_hash) ← audit_read_row r;
  guard_or (bool_decide (ae_prev x = expected_prev)) SM_ERR_CRYPTO ;;
  computed_entry_hash ← audit_compute_entry_hash x;
  guard_or (bool_decide (stored_entry_hash = computed_entry_hash)) SM_ERR_CRYPTO ;;
  mret (x, stored_entry_hash).

Fixpoint resign_loop (expected_prev ratchet_key : bytes) (rows : list audit_row)
  : M (list (Z * bytes)) :=
  match rows with
  | [] => mret []
  | r :: rows' =>
      lib_call SM_ERR_STORAGE ;;
      '(x, stored_entry_hash) ← audit_check_row expected_prev r;
      signature ← audit_compute_signature x stored_entry_hash ratchet_key;
      next_key ← audit_advance_ratchet_key ratchet_key;
      items ← resign_loop stored_entry_hash next_key rows';
      mret ((ae_id x, signature) :: items)
  end.

(** [sqlite3_bind_int] takes an [int]: the id is truncated to 32 bits. *)
Definition resign_update (item : Z * bytes) : M unit :=
  changes ← sql_exec (λ db,
    let '(t, n) := update_signature (wrap_s 32 item.1) item.2 (t_audit_log db) in
    Some (with_audit_log t db, n));
  guard_or (changes =? 1)%nat SM_ERR_STORAGE.

Definition audit_resign_chain (audit_key : bytes) : M unit :=
  require_db ;;
  audit_validate_key audit_key ;;
  rows ← sql_query t_audit_log;
  items ← resign_loop (replicate crypto_hash_sha256_BYTES Byte.x00) audit_key rows;
  for_each resign_update items.

(** Order of the C code: the signature column is read with the others, before
    the chain is checked. *)
Fixpoint verify_loop (expected_prev ratchet_key : bytes) (rows : list audit_row) : M unit :=
  match rows with
  | [] => mret ()
  | r :: rows' =>
      '(x, stored_entry_hash) ← audit_read_row r;
      signature ← lift (audit_column_signature (ar_hmac_signature r));
      guard_or (bool_decide (ae_prev x = expected_prev)) SM_ERR_CRYPTO ;;
      computed_entry_hash ← audit_compute_entry_hash x;
      guard_or (bool_decide (stored_entry_hash = computed_entry_hash)) SM_ERR_CRYPTO ;;
      signed_bytes ← audit_build_entry_bytes x (Some stored_entry_hash);
      guard_or (crypto_auth_verify signature signed_bytes ratchet_key) SM_ERR_CRYPTO ;;
      next_key ← audit_advance_ratchet_key ratchet_key;
      verify_loop stored_entry_hash next_key rows'
  end.

Definition audit_verify_chain (audit_key : bytes) : M unit :=
  require_db ;;
  audit_validate_key audit_key ;;
  rows ← sql_query t_audit_log;
  verify_loop (replicate crypto_hash_sha256_BYTES Byte.x00) audit_key rows.

(** * Specification *)

Definition field (d : bytes) : bytes := write_le 4 (Z.of_nat (length d)) ++ d.

Definition entry_text (x : audit_entry) (entry_hash : option bytes) : bytes :=
  concat (field <$> entry_fields x entry_hash).

#[local] Arguments field : simpl never.

(** What [audit_build_entry_bytes] asks of an entry. *)
Definition build_ok (x : audit_entry) (entry_hash : option bytes) : bool :=
  negb (bool_decide (ae_timestamp x = [])) && (1 <=? ae_id x)%Z
  && audit_valid_action (ae_action x) && negb (bool_decide (ae_target x = []))
  && audit_valid_result (ae_result x)
  && forallb (λ d, (Z.of_nat (length d) <=? UINT32_MAX)%Z) (entry_fields x entry_hash).

Definition entry_ok (x : audit_entry) : bool := build_ok x None.

(** The entry a row stands for. *)
Definition row_version (r : audit_row) : Z :=
  match ar_target_version r with None => 0 | Some v => column_int v end.

Definition row_entry (r : audit_row) : audit_entry :=
  AuditEntry (ar_entry_id r) (c_str (ar_timestamp r)) (c_str (ar_action r)) (c_str (ar_actor r))
    (c_str (ar_target r)) (row_version r) (c_str (ar_result r)) (ar_prev_hash r).

Definition row_ok (r : audit_row) : bool :=
  match ar_target_version r with None => true | Some v => (1 <=? column_int v)%Z end
  && (length (ar_prev_hash r) =? 32)%nat && (length (ar_entry_hash r) =? 32)%nat
  && entry_ok (row_entry r).

(** The hash chain alone, and with the signatures. *)
Fixpoint hashes_ok (prev : bytes) (rows : list audit_row) : bool :=
  match rows with
  | [] => true
  | r :: rows' =>
      row_ok r && bool_decide (ar_prev_hash r = prev)
      && bool_decide (ar_entry_hash r = sha256 (entry_text (row_entry r) None))
      && hashes_ok (ar_entry_hash r) rows'
  end.

Definition row_signature (key : bytes) (r : audit_row) : bytes :=
  crypto_auth (entry_text (row_entry r) (Some (ar_entry_hash r))) key.

Fixpoint signatures_ok (key : bytes) (rows : list audit_row) : bool :=
  match rows with
  | [] => true
  | r :: rows' =>
      bool_decide (ar_hmac_signature r = row_signature key r) && signatures_ok (sha256 key) rows'
  end.

Definition zeros : bytes := replicate crypto_hash_sha256_BYTES Byte.x00.

Definition chain_ok (key : bytes) (rows : list audit_row) : bool :=
  hashes_ok zeros rows && signatures_ok key rows.

(** [K_n], the key of entry number [n]. *)
Fixpoint ratchet (n : nat) (key : bytes) : bytes :=
  match n with O => key | S n' => ratchet n' (sha256 key) end.

Definition last_hash (rows : list audit_row) : bytes := from_option ar_entry_hash zeros (last rows).


(** * Canonical bytes are injective *)

Abbreviation small d := (Z.of_nat (length d) <=? UINT32_MAX)%Z.

Lemma append_fields_ok fields out data :
  append_fields out fields = Ok data →
  forallb (λ d, small d) fields = true ∧ data = out ++ concat (field <$> fields).
Proof.
  revert out. induction fields as [|d fields IH]; simpl; intros out H.
  { injection H as <-. by rewrite app_nil_r. }
  inv_outcome. unfold audit_append_field in *. inv_outcome.
  match goal with H : append_fields _ _ = Ok _ |- _ => apply IH in H as [-> ->] end.
  split; [by apply andb_true_iff|]. unfold field, audit_write_u32_le. by rewrite <- !app_assoc.
Qed.

Lemma append_fields_run fields out :
  forallb (λ d, small d) fields = true →
  append_fields out fields = Ok (out ++ concat (field <$> fields)).
Proof.
  revert out. induction fields as [|d fields IH]; simpl; intros out H.
  { by rewrite app_nil_r. }
  apply andb_true_iff in H as [Hd H]. unfold audit_append_field. rewrite Hd. simpl.
  rewrite IH by done. unfold field, audit_write_u32_le. by rewrite <- !app_assoc.
Qed.

Lemma length_field d : length (field d) = (4 + length d)%nat.
Proof. unfold field. by rewrite length_app, length_write_le. Qed.

Lemma add_field_sizes_run fields total :
  forallb (λ d, small d) fields = true → (0 ≤ total)%Z →
  (total + Z.of_nat (length fields) * (4 + UINT32_MAX) ≤ SIZE_MAX)%Z →
  add_field_sizes total fields = Ok (total + Z.of_nat (length (concat (field <$> fields))))%Z.
Proof.
  revert total. induction fields as [|d fields IH]; simpl; intros total H Ht Hm.
  { f_equal. lia. }
  apply andb_true_iff in H as [Hd H]. unfold audit_field_size. rewrite Hd. simpl.
  apply Z.leb_le in Hd. change (total + Z.of_nat (S (length fields)) * (4 + UINT32_MAX) ≤ SIZE_MAX)%Z in Hm.
  rewrite Nat2Z.inj_succ in Hm.
  assert (0 ≤ UINT32_MAX)%Z by done.
  unfold audit_checked_add. rewrite (proj2 (Z.ltb_ge _ _)) by nia. simpl.
  rewrite IH by (done || nia). f_equal.
  change (total + (4 + Z.of_nat (length d)) + Z.of_nat (length (concat (field <$> fields)))
          = total + Z.of_nat (length (field d ++ concat (field <$> fields))))%Z.
  rewrite length_app, length_field. lia.
Qed.

Lemma build_ok_small x oh : build_ok x oh = true → forallb (λ d, small d) (entry_fields x oh) = true.
Proof. unfold build_ok. by rewrite !andb_true_iff; intros [_ H]. Qed.

Lemma build_ok_guard x oh :
  build_ok x oh = true →
  negb (bool_decide (ae_timestamp x = [])) && (1 <=? ae_id x)%Z
            && audit_valid_action (ae_action x) && negb (bool_decide (ae_target x = []))
            && audit_valid_result (ae_result x) = true.
Proof. unfold build_ok. by rewrite andb_true_iff; intros [H _]. Qed.

Lemma build_ok_hash x h : length h = 32%nat → build_ok x (Some h) = entry_ok x.
Proof.
  intros Hh. unfold entry_ok, build_ok, entry_fields. rewrite app_nil_r, forallb_app.
  cbn [forallb]. rewrite Hh. change (Z.of_nat 32 <=? UINT32_MAX)%Z with true.
  by rewrite andb_true_r.
Qed.

Lemma build_bytes_ok x oh e w data w' :
  audit_build_entry_bytes x oh e w = (Ok data, w') →
  build_ok x oh = true ∧ data = entry_text x oh ∧ w' = called w.
Proof.
  unfold audit_build_entry_bytes, build_ok, entry_text.
  generalize (entry_fields x oh). intros fields H. inv_m.
  match goal with H : append_fields _ _ = Ok _ |- _ => apply append_fields_ok in H as [Hs ->] end.
  split_and!; [|done|done]. by apply andb_true_iff.
Qed.

Lemma wp_build x oh (Q : bytes → world → Prop) e w :
  healthy e → build_ok x oh = true → Q (entry_text x oh) (called w) →
  wp (audit_build_entry_bytes x oh) Q e w.
Proof.
  intros He Hb HQ. pose proof (build_ok_small _ _ Hb) as Hs.
  unfold audit_build_entry_bytes. wp_run. apply wp_guard; [by eapply build_ok_guard|].
  wp_run. eapply wp_lift.
  { apply add_field_sizes_run; [done|done|].
    assert (Z.of_nat (length (entry_fields x oh)) ≤ 10)%Z by (destruct oh; simpl; lia).
    assert (10 * (4 + UINT32_MAX) ≤ SIZE_MAX)%Z by done. assert (0 ≤ 4 + UINT32_MAX)%Z by done. nia. }
  wp_run. eapply wp_lift; [by apply append_fields_run|]. wp_run.
  apply wp_guard; [by apply Z.eqb_eq|]. wp_run. done.
Qed.

Lemma field_app_inj a b x y :
  small a = true → small b = true → field a ++ x = field b ++ y → a = b ∧ x = y.
Proof.
  unfold field. intros Ha%Z.leb_le Hb%Z.leb_le H. unfold UINT32_MAX in *.
  rewrite <- !app_assoc in H. apply app_inj_1 in H as [H1 H2]; [|by rewrite !length_write_le].
  apply write_le_inj in H1; [|lia..]. apply Nat2Z.inj in H1. by apply app_inj_1.
Qed.

Lemma fields_inj l k :
  forallb (λ d, small d) l = true → forallb (λ d, small d) k = true →
  concat (field <$> l) = concat (field <$> k) → l = k.
Proof.
  revert k. induction l as [|a l IH]; intros [|b k]; simpl; intros Hl Hk H; try done.
  apply andb_true_iff in Hl as [Ha Hl]. apply andb_true_iff in Hk as [Hb Hk].
  apply field_app_inj in H as [-> H]; [|done..]. f_equal. by apply IH.
Qed.

(** The entry with the actor the texts contain. *)
Definition canonical (x : audit_entry) : audit_entry :=
  AuditEntry (ae_id x) (ae_timestamp x) (ae_action x) (actor_value (ae_actor x)) (ae_target x)
    (ae_version x) (ae_result x) (ae_prev x).

(** Machine ranges of the two numbers. *)
Definition entry_range (x : audit_entry) : Prop :=
  (ae_id x ≤ INT64_MAX)%Z ∧ (0 ≤ ae_version x ≤ INT_MAX)%Z.

Lemma version_data_inj v v' :
  (0 ≤ v ≤ INT_MAX)%Z → (0 ≤ v' ≤ INT_MAX)%Z → version_data v = version_data v' → v = v'.
Proof.
  unfold version_data, INT_MAX. intros Hv Hv'.
  destruct (Z.ltb_spec 0 v), (Z.ltb_spec 0 v'); intros E; try lia.
  - by apply write_le_inj in E; [|lia..].
  - by apply (f_equal length) in E.
  - by apply (f_equal length) in E.
Qed.

Lemma entry_text_inj x y :
  entry_ok x = true → entry_ok y = true → entry_range x → entry_range y →
  entry_text x None = entry_text y None → canonical x = canonical y.
Proof.
  intros Hx Hy [Rx Vx] [Ry Vy] E. apply fields_inj in E; [|by apply build_ok_small..].
  apply build_ok_guard in Hx, Hy. rewrite !andb_true_iff, !Z.leb_le in Hx, Hy. unfold INT64_MAX in *.
  pose proof (λ k, f_equal (λ l, nth k l []) E : nth k _ [] = nth k _ []) as N.
  pose proof (N 1%nat : write_le 8 _ = write_le 8 _) as E1.
  pose proof (N 2%nat : ae_timestamp x = ae_timestamp y) as E2.
  pose proof (N 3%nat : ae_action x = ae_action y) as E3.
  pose proof (N 4%nat : actor_value _ = actor_value _) as E4.
  pose proof (N 5%nat : ae_target x = ae_target y) as E5.
  pose proof (N 6%nat : version_data _ = version_data _) as E6.
  pose proof (N 7%nat : ae_result x = ae_result y) as E7.
  pose proof (N 8%nat : ae_prev x = ae_prev y) as E8.
  apply write_le_inj in E1; [|lia..]. apply version_data_inj in E6; [|done..].
  unfold canonical. by rewrite E1, E2, E3, E4, E5, E6, E7, E8.
Qed.

(** * Runs of the parts *)

#[export] Typeclasses Opaque audit_validate_key audit_build_entry_bytes audit_compute_entry_hash
  audit_compute_signature audit_advance_ratchet_key ratchet_loop audit_derive_ratchet_key
  audit_next_entry_id audit_count_entries audit_read_row audit_check_row resign_loop verify_loop
  audit_verify_chain audit_log_event audit_resign_chain audit_get_last_hash.

#[export] Instance keeps_validate_key k : Keeps same_state (audit_validate_key k).
Proof. unfold audit_validate_key. apply _. Qed.
#[export] Instance keeps_build_bytes x oh : Keeps same_state (audit_build_entry_bytes x oh).
Proof. unfold audit_build_entry_bytes. apply _. Qed.
#[export] Instance keeps_entry_hash x : Keeps same_state (audit_compute_entry_hash x).
Proof. unfold audit_compute_entry_hash. apply _. Qed.
#[export] Instance keeps_signature x h k : Keeps same_state (audit_compute_signature x h k).
Proof. unfold audit_compute_signature. apply _. Qed.
#[export] Instance keeps_advance k : Keeps same_state (audit_advance_ratchet_key k).
Proof. unfold audit_advance_ratchet_key. apply _. Qed.
#[export] Instance keeps_ratchet_loop n k : Keeps same_state (ratchet_loop n k).
Proof. revert k. induction n; intros; simpl; apply _. Qed.
#[export] Instance keeps_derive k n : Keeps same_state (audit_derive_ratchet_key k n).
Proof. unfold audit_derive_ratchet_key. apply _. Qed.
#[export] Instance keeps_next_entry_id : Keeps same_state audit_next_entry_id.
Proof. unfold audit_next_entry_id. apply _. Qed.
#[export] Instance keeps_count : Keeps same_state audit_count_entries.
Proof. unfold audit_count_entries. apply _. Qed.
#[export] Instance keeps_read_row r : Keeps same_state (audit_read_row r).
Proof. unfold audit_read_row. apply _. Qed.
#[export] Instance keeps_check_row p r : Keeps same_state (audit_check_row p r).
Proof. unfold audit_check_row. apply _. Qed.
#[export] Instance keeps_resign_loop p k rows : Keeps same_state (resign_loop p k rows).
Proof. revert p k. induction rows; intros; simpl; apply _. Qed.
#[export] Instance keeps_verify_loop p k rows : Keeps same_state (verify_loop p k rows).
Proof. revert p k. induction rows; intros; simpl; apply _. Qed.
#[export] Instance keeps_verify_chain k : Keeps same_state (audit_verify_chain k).
Proof. unfold audit_verify_chain. apply _. Qed.
#[export] Instance keeps_log_event a b c v r k : Keeps in_transaction (audit_log_event a b c v r k).
Proof. unfold audit_log_event. apply _. Qed.
#[export] Instance keeps_resign_chain k : Keeps in_transaction (audit_resign_chain k).
Proof. unfold audit_resign_chain, resign_update. keeps_tac. Qed.

Lemma entry_hash_ok x e w h w' :
  audit_compute_entry_hash x e w = (Ok h, w') →
  entry_ok x = true ∧ h = sha256 (entry_text x None).
Proof.
  unfold audit_compute_entry_hash. intros H. inv_m.
  match goal with H : audit_build_entry_bytes _ _ _ _ = _ |- _ => apply build_bytes_ok in H as (? & -> & _) end.
  done.
Qed.

Lemma signature_ok x h key e w s w' :
  audit_compute_signature x h key e w = (Ok s, w') → s = crypto_auth (entry_text x (Some h)) key.
Proof.
  unfold audit_compute_signature. intros H. inv_m.
  by match goal with H : audit_build_entry_bytes _ _ _ _ = _ |- _ => apply build_bytes_ok in H as (_ & -> & _) end.
Qed.

Lemma advance_ok key e w k w' :
  audit_advance_ratchet_key key e w = (Ok k, w') → length key = 32%nat ∧ k = sha256 key.
Proof. unfold audit_advance_ratchet_key. intros H. inv_m. split; [by apply Nat.eqb_eq|done]. Qed.

Lemma read_row_ok r e w x h w' :
  audit_read_row r e w = (Ok (x, h), w') →
  x = row_entry r ∧ h = ar_entry_hash r ∧ ar_prev_hash r = ae_prev x ∧
  match ar_target_version r with None => true | Some v => (1 <=? column_int v)%Z end
  && (length (ar_prev_hash r) =? 32)%nat && (length (ar_entry_hash r) =? 32)%nat = true.
Proof.
  unfold audit_read_row, row_entry, row_version. intros H.
  destruct (ar_target_version r) as [v|]; inv_m;
    repeat match goal with
    | H : audit_column_hash _ = Ok _ |- _ => apply audit_column_hash_ok in H as [-> ?]
    end; split_and!; try done; rewrite !andb_true_iff, !Nat.eqb_eq; done.
Qed.

Lemma audit_column_hash_run h : (length h =? 32)%nat = true → audit_column_hash h = Ok h.
Proof. unfold audit_column_hash, crypto_hash_sha256_BYTES. by intros ->. Qed.

Lemma wp_read_row r (Q : audit_entry * bytes → world → Prop) e w :
  healthy e → row_ok r = true → Q (row_entry r, ar_entry_hash r) (called w) →
  wp (audit_read_row r) Q e w.
Proof.
  intros He Hr HQ. unfold row_ok in Hr. rewrite !andb_true_iff in Hr.
  destruct Hr as [[[Hv Hp] Hh] Ho].
  assert (1 <= ar_entry_id r)%Z as Hid.
  { apply build_ok_guard in Ho. rewrite !andb_true_iff, Z.leb_le in Ho. apply Ho. }
  unfold audit_read_row. wp_run. apply wp_guard; [by apply Z.leb_le|]. wp_run.
  unfold row_entry, row_version in *.
  destruct (ar_target_version r) as [v|]; wp_run.
  1: apply wp_guard; [done|]; wp_run.
  all: eapply wp_lift; [by apply audit_column_hash_run|]; wp_run;
    eapply wp_lift; [by apply audit_column_hash_run|]; wp_run; done.
Qed.

Lemma wp_entry_hash x (Q : bytes → world → Prop) e w :
  healthy e → entry_ok x = true → Q (sha256 (entry_text x None)) (called (called w)) →
  wp (audit_compute_entry_hash x) Q e w.
Proof. intros He Hx HQ. unfold audit_compute_entry_hash. wp_run. apply wp_build; [done..|]. by wp_run. Qed.

Lemma wp_signature x h key (Q : bytes → world → Prop) e w :
  healthy e → entry_ok x = true → length h = 32%nat →
  Q (crypto_auth (entry_text x (Some h)) key) (called (called w)) →
  wp (audit_compute_signature x h key) Q e w.
Proof.
  intros He Hx Hh HQ. unfold audit_compute_signature. wp_run.
  apply wp_build; [done|by rewrite build_ok_hash|]. by wp_run.
Qed.

Lemma wp_advance key (Q : bytes → world → Prop) e w :
  healthy e → length key = 32%nat → Q (sha256 key) (called w) →
  wp (audit_advance_ratchet_key key) Q e w.
Proof.
  intros He Hk HQ. unfold audit_advance_ratchet_key. wp_run.
  apply wp_guard; [by apply Nat.eqb_eq|]. by wp_run.
Qed.

Lemma wp_validate key (Q : unit → world → Prop) e w :
  healthy e → length key = 32%nat → Q () (called w) → wp (audit_validate_key key) Q e w.
Proof.
  intros He Hk HQ. unfold audit_validate_key. wp_run. apply wp_guard; [by apply Nat.eqb_eq|]. by wp_run.
Qed.

Lemma validate_ok key e w u w' :
  audit_validate_key key e w = (Ok u, w') → length key = 32%nat.
Proof. unfold audit_validate_key. intros H. inv_m. by apply Nat.eqb_eq. Qed.

(** * Verification *)

Lemma hashes_ok_cons prev r rows :
  hashes_ok prev (r :: rows) = true ↔
  row_ok r = true ∧ ar_prev_hash r = prev ∧ ar_entry_hash r = sha256 (entry_text (row_entry r) None) ∧
  hashes_ok (ar_entry_hash r) rows = true.
Proof. cbn [hashes_ok]. rewrite !andb_true_iff, 2!bool_decide_eq_true. tauto. Qed.

Lemma signatures_ok_cons key r rows :
  signatures_ok key (r :: rows) = true ↔
  ar_hmac_signature r = row_signature key r ∧ signatures_ok (sha256 key) rows = true.
Proof. cbn [signatures_ok]. by rewrite andb_true_iff, bool_decide_eq_true. Qed.

Lemma verify_loop_ok prev key rows e w u w' :
  verify_loop prev key rows e w = (Ok u, w') →
  hashes_ok prev rows = true ∧ signatures_ok key rows = true.
Proof.
  revert prev key w. induction rows as [|r rows IH]; intros prev key w H; [done|].
  cbn [verify_loop] in H. apply bind_ok in H as ([x h] & w1 & Hr & H).
  apply read_row_ok in Hr as (-> & -> & Hp & Hr). inv_m.
  match goal with H : verify_loop _ _ _ _ _ = _ |- _ => apply IH in H as [Hh Hs] end.
  match goal with H : audit_compute_entry_hash _ _ _ = _ |- _ => apply entry_hash_ok in H as [Ho ->] end.
  match goal with H : audit_build_entry_bytes _ _ _ _ = _ |- _ => apply build_bytes_ok in H as (_ & -> & _) end.
  match goal with H : audit_advance_ratchet_key _ _ _ = _ |- _ => apply advance_ok in H as [_ ->] end.
  match goal with H : audit_column_signature _ = Ok _ |- _ =>
    unfold audit_column_signature in H; destruct (_ =? _)%nat in H; [injection H as <-|discriminate] end.
  unfold crypto_auth_verify in *.
  repeat match goal with H : bool_decide _ = true |- _ => apply bool_decide_eq_true in H end.
  rewrite hashes_ok_cons, signatures_ok_cons. unfold row_ok. rewrite Hr, Ho. by split_and!.
Qed.

Lemma row_ok_entry r : row_ok r = true → entry_ok (row_entry r) = true ∧ length (ar_entry_hash r) = 32%nat.
Proof. unfold row_ok. rewrite !andb_true_iff, !Nat.eqb_eq. intuition. Qed.

Lemma wp_verify_loop_chain `{CL : !CryptoLaws CR} prev key rows (Q : unit → world → Prop) e w :
  healthy e → length key = 32%nat → hashes_ok prev rows = true → signatures_ok key rows = true →
  (∀ w', same_state w w' → Q () w') → wp (verify_loop prev key rows) Q e w.
Proof.
  intros He. revert prev key w. induction rows as [|r rows IH]; intros prev key w Hk Hh Hs HQ.
  { cbn [verify_loop]. wp_run. by apply HQ. }
  apply hashes_ok_cons in Hh as (Hr & Hp & Hhash & Hh). apply signatures_ok_cons in Hs as [Hsig Hs].
  destruct (row_ok_entry _ Hr) as [Ho Hl].
  cbn [verify_loop]. wp_run. apply wp_read_row; [done..|]. wp_run.
  eapply wp_lift.
  { unfold audit_column_signature. rewrite Hsig. unfold row_signature. rewrite length_crypto_auth.
    reflexivity. }
  wp_run. apply wp_guard; [by apply bool_decide_eq_true|]. wp_run.
  apply wp_entry_hash; [done..|]. wp_run. apply wp_guard; [by apply bool_decide_eq_true|]. wp_run.
  apply wp_build; [done|by rewrite build_ok_hash|]. wp_run.
  apply wp_guard; [unfold crypto_auth_verify; by apply bool_decide_eq_true|]. wp_run.
  apply wp_advance; [done..|]. apply IH; [apply length_sha256|done..|].
  intros w' Hw. apply HQ. etrans; [|exact Hw]. by unfold same_state.
Qed.

Lemma verify_chain_ok key e w u w' :
  audit_verify_chain key e w = (Ok u, w') →
  length key = 32%nat ∧ ∃ c, w_conn w = Some c ∧ chain_ok key (t_audit_log (conn_cur c)) = true.
Proof.
  unfold audit_verify_chain, audit_validate_key. intros H. inv_m.
  match goal with H : sql_query _ _ _ = _ |- _ => apply sql_query_ok in H as (c & Hc & -> & ->) end.
  match goal with H : verify_loop _ _ _ _ _ = _ |- _ => apply verify_loop_ok in H as [Hh Hs] end.
  split; [by apply Nat.eqb_eq|]. exists c. split; [done|]. by apply andb_true_iff.
Qed.

Lemma wp_verify_chain `{CL : !CryptoLaws CR} key c (Q : unit → world → Prop) e w :
  healthy e → w_conn w = Some c → length key = 32%nat →
  chain_ok key (t_audit_log (conn_cur c)) = true →
  (∀ w', same_state w w' → Q () w') → wp (audit_verify_chain key) Q e w.
Proof.
  intros He Hc Hk [Hh Hs]%andb_true_iff HQ. unfold audit_verify_chain.
  wp_run. eapply wp_require_db; [done|]. wp_run. apply wp_validate; [done..|]. wp_run.
  eapply wp_sql_query; [done..|]. apply wp_verify_loop_chain; [done..|].
  intros w' Hw. apply HQ. etrans; [|exact Hw]. by unfold same_state.
Qed.

(** C26: [audit_verify_chain] decides [chain_ok]: when no library call fails it
    returns success on exactly the logs in which every row is well formed,
    carries the hash of its predecessor (zeros for the first), the hash of
    its own canonical bytes, and the HMAC of those bytes and that hash under
    the key ratcheted once per preceding row. *)
Theorem audit_verify_chain_spec `{CL : !CryptoLaws CR} key c e w :
  healthy e → w_conn w = Some c →
  (audit_verify_chain key e w).1 = Ok () ↔
  length key = 32%nat ∧ chain_ok key (t_audit_log (conn_cur c)) = true.
Proof.
  intros He Hc. split.
  - destruct (audit_verify_chain key e w) as [r w'] eqn:E. simpl. intros ->.
    apply verify_chain_ok in E as (Hk & c' & Hc' & H). split; [done|]. congruence.
  - intros [Hk H]. destruct (wp_verify_chain key c (λ _ _, True) e w) as ([] & w' & -> & _); done.
Qed.

(** * Appending *)

(** The row that [audit_log_event] makes for a log. *)
Definition next_id (log : list audit_row) : Z :=
  Z.min INT64_MAX (default 0 (sql_max ar_entry_id log) + 1)%Z.

Definition new_entry (log : list audit_row) (timestamp action actor target : bytes) (version : Z)
    (result : bytes) : audit_entry :=
  AuditEntry (next_id log) timestamp action (actor_value actor) target version result (last_hash log).

Definition new_row (key : bytes) (log : list audit_row) (x : audit_entry) : audit_row :=
  let h := sha256 (entry_text x None) in
  AuditRow (ae_id x) (ae_timestamp x) (ae_action x) (ae_actor x) (ae_target x)
    (if (0 <? ae_version x)%Z then Some (ae_version x) else None) (ae_result x) (ae_prev x) h
    (crypto_auth (entry_text x (Some h)) (ratchet (length log) key)).

Lemma ratchet_loop_ok n key e w k w' :
  ratchet_loop n key e w = (Ok k, w') → k = ratchet n key.
Proof.
  revert key w. induction n as [|n IH]; intros key w H; cbn [ratchet_loop] in H; inv_m; [done|].
  match goal with H : audit_advance_ratchet_key _ _ _ = _ |- _ => apply advance_ok in H as [_ ->] end.
  by eapply IH.
Qed.

Lemma wp_ratchet_loop `{CL : !CryptoLaws CR} n key (Q : bytes → world → Prop) e w :
  healthy e → length key = 32%nat → (∀ w', same_state w w' → Q (ratchet n key) w') →
  wp (ratchet_loop n key) Q e w.
Proof.
  intros He. revert key w. induction n as [|n IH]; intros key w Hk HQ; cbn [ratchet_loop].
  { wp_run. by apply HQ. }
  wp_run. apply wp_advance; [done..|]. apply IH; [apply length_sha256|].
  intros w' Hw. apply HQ. etrans; [|exact Hw]. by unfold same_state.
Qed.

Lemma get_last_hash_ok n e w h w' c :
  w_conn w = Some c → audit_get_last_hash n e w = (Ok h, w') →
  h = last_hash (t_audit_log (conn_cur c)) ∧ length h = 32%nat ∧ same_state w w'.
Proof.
  intros Hc H. unfold audit_get_last_hash in H. inv_m.
  match goal with H : sql_query _ _ _ = _ |- _ => apply sql_query_ok in H as (c' & Hc' & -> & ->) end.
  rewrite Hc in Hc'. injection Hc' as <-. unfold last_hash, zeros.
  destruct (last _) as [r|]; inv_m; [|done].
  by match goal with H : audit_column_hash _ = Ok _ |- _ => apply audit_column_hash_ok in H as [-> ?] end.
Qed.

Lemma sql_query_in {A} (q : database → A) e w a w' c :
  w_conn w = Some c → sql_query q e w = (Ok a, w') → a = q (conn_cur c).
Proof. intros Hc (c' & Hc' & -> & _)%sql_query_ok. congruence. Qed.

Lemma next_entry_id_ok e w i w' c :
  w_conn w = Some c → audit_next_entry_id e w = (Ok i, w') → i = next_id (t_audit_log (conn_cur c)).
Proof.
  intros Hc H. unfold audit_next_entry_id in H. inv_m.
  by match goal with H : sql_query _ _ _ = _ |- _ => apply (sql_query_in _ _ _ _ _ _ Hc) in H end.
Qed.

Lemma log_event_ok actor action target version result key e w u w' c :
  w_conn w = Some c →
  audit_log_event actor action target version result key e w = (Ok u, w') →
  let log := t_audit_log (conn_cur c) in
  ∃ t timestamp log',
    let x := new_entry log timestamp action actor target version result in
    utils_format_iso8601 t UTILS_ISO8601_UTC_BUFFER_LEN = Ok timestamp ∧
    length key = 32%nat ∧ entry_ok x = true ∧ length (last_hash log) = 32%nat ∧
    insert_audit_row (new_row key log x) log = Some log' ∧
    w_conn w' = Some (written c (with_audit_log log' (conn_cur c))) ∧
    w_subkeys w' = w_subkeys w ∧ w_unlocked w' = w_unlocked w ∧ w_disk w' = w_disk w.
Proof.
  intros Hc H log. unfold audit_log_event in H.
  apply bind_ok in H as (? & w0 & H0 & H). apply require_db_ok in H0 as [_ ->].
  apply bind_ok in H as (? & w1 & H1 & H).
  pose proof (keeps_run same_state _ _ _ _ _ H1) as S1. apply validate_ok in H1 as Hk.
  apply bind_ok in H as (ts & w2 & H2 & H). pose proof (keeps_run same_state _ _ _ _ _ H2) as S2.
  apply utils_now_ok in H2 as [t H2].
  assert (same_state w w2) as S by (by etrans). clear S1 S2 H1.
  assert (w_conn w2 = Some c) as Hc2 by (destruct S as [-> _]; done).
  apply bind_ok in H as (prev & w3 & H3 & H).
  apply (get_last_hash_ok _ _ _ _ _ _ Hc2) in H3 as (-> & Hl & S3).
  apply bind_ok in H as (i & w4 & H4 & H). pose proof (keeps_run same_state _ _ _ _ _ H4) as S4.
  assert (w_conn w3 = Some c) as Hc3 by (destruct S3 as [-> _]; done).
  apply (next_entry_id_ok _ _ _ _ _ Hc3) in H4 as ->.
  apply bind_ok in H as (n & w5 & H5 & H). pose proof (keeps_run same_state _ _ _ _ _ H5) as S5.
  assert (w_conn w4 = Some c) as Hc4 by (destruct S4 as [-> _]; done).
  apply (sql_query_in _ _ _ _ _ _ Hc4) in H5 as ->.
  apply bind_ok in H as (h & w6 & H6 & H). pose proof (keeps_run same_state _ _ _ _ _ H6) as S6.
  apply entry_hash_ok in H6 as [Ho ->].
  apply bind_ok in H as (k & w7 & H7 & H). pose proof (keeps_run same_state _ _ _ _ _ H7) as S7.
  unfold audit_derive_ratchet_key in H7. apply bind_ok in H7 as (? & w7' & _ & H7).
  apply ratchet_loop_ok in H7 as ->.
  apply bind_ok in H as (sig & w8 & H8 & H). pose proof (keeps_run same_state _ _ _ _ _ H8) as S8.
  apply signature_ok in H8 as ->.
  assert (same_state w w8) as S'.
  { etrans; [exact S|]. etrans; [exact S3|]. etrans; [exact S4|]. etrans; [exact S5|].
    etrans; [exact S6|]. etrans; [exact S7|exact S8]. }
  destruct S' as (E1 & E2 & E3 & E4).
  apply sql_exec_ok in H as (c' & db & Hc' & Hi & ->).
  rewrite E1, Hc in Hc'. injection Hc' as <-.
  apply bind_Some in Hi as (log' & Hi & [= <-]).
  exists t, ts, log'. split_and!; done.
Qed.

Lemma hashes_ok_app prev log r :
  hashes_ok prev (log ++ [r]) = true ↔
  hashes_ok prev log = true ∧ row_ok r = true ∧
  ar_prev_hash r = from_option ar_entry_hash prev (last log) ∧
  ar_entry_hash r = sha256 (entry_text (row_entry r) None).
Proof.
  induction log as [|q log IH] in prev |- *; cbn [app].
  - rewrite hashes_ok_cons. simpl. intuition.
  - rewrite !hashes_ok_cons, IH, last_cons. destruct (last log); simpl; intuition congruence.
Qed.

Lemma signatures_ok_app key log r :
  signatures_ok key (log ++ [r]) = true ↔
  signatures_ok key log = true ∧ ar_hmac_signature r = row_signature (ratchet (length log) key) r.
Proof.
  induction log as [|q log IH] in key |- *; cbn [app length ratchet].
  - rewrite signatures_ok_cons. simpl. intuition.
  - rewrite !signatures_ok_cons, IH. intuition congruence.
Qed.

Lemma actor_value_idemp a : actor_value (actor_value a) = actor_value a.
Proof. unfold actor_value. destruct (bool_decide (a = [])) eqn:E; [done|by rewrite E]. Qed.

Lemma valid_action_text a : audit_valid_action a = true → Byte.x00 ∉ a.
Proof.
  unfold audit_valid_action. intros [_ H]%andb_true_iff. apply existsb_exists in H as (b & Hb & H).
  destruct (strcmp a b) eqn:E; try done. apply strcmp_eq in E as ->.
  simpl in Hb. repeat (destruct Hb as [<-|Hb]; [apply (bool_decide_unpack _); vm_compute; exact I|]). done.
Qed.

Lemma valid_result_text a : audit_valid_result a = true → Byte.x00 ∉ a.
Proof.
  unfold audit_valid_result. intros [_ H]%andb_true_iff.
  apply orb_true_iff in H as [H|H]; apply bool_decide_eq_true, strcmp_eq in H as ->;
    apply (bool_decide_unpack _); vm_compute; exact I.
Qed.

Lemma actor_value_text a : Byte.x00 ∉ a → Byte.x00 ∉ actor_value a.
Proof.
  intros H. unfold actor_value. destruct (bool_decide _); [|done].
  apply (bool_decide_unpack _); vm_compute; exact I.
Qed.

(** The row stands for the entry it was made from: the texts agree. *)
Lemma new_row_text `{CL : !CryptoLaws CR} key log timestamp action actor target version result oh :
  let x := new_entry log timestamp action actor target version result in
  entry_ok x = true → Byte.x00 ∉ timestamp → Byte.x00 ∉ actor → Byte.x00 ∉ target →
  (version ≤ INT_MAX)%Z → length (last_hash log) = 32%nat →
  entry_text (row_entry (new_row key log x)) oh = entry_text x oh ∧
  row_ok (new_row key log x) = true.
Proof.
  intros x Ho Ht Ha Hg Hv Hl.
  assert (row_version (new_row key log x) = Z.max 0 version) as Ev.
  { unfold row_version, new_row. cbn [ar_target_version]. subst x. cbn [ae_version new_entry].
    destruct (Z.ltb_spec 0 version); [|lia]. unfold column_int, INT_MAX in *.
    rewrite wrap_s_small by lia. lia. }
  pose proof (build_ok_guard _ _ Ho) as Hg'. rewrite !andb_true_iff in Hg'.
  destruct Hg' as [[[[H1 H2] H3] H4] H5].
  assert (entry_fields (row_entry (new_row key log x)) oh = entry_fields x oh) as Ef.
  { unfold entry_fields, row_entry. rewrite Ev. unfold new_row, x, new_entry.
    cbn [ae_id ae_timestamp ae_action ae_actor ae_target ae_version ae_result ae_prev ar_entry_id
         ar_timestamp ar_action ar_actor ar_target ar_result ar_prev_hash].
    rewrite !c_str_no_nul;
      [|by apply valid_result_text|done|by apply actor_value_text|by apply valid_action_text|done].
    assert (version_data (Z.max 0 version) = version_data version) as ->; [|done].
    unfold version_data. destruct (Z.ltb_spec 0 version), (Z.ltb_spec 0 (Z.max 0 version)); try lia; [|done].
    f_equal. lia. }
  split; [unfold entry_text; by rewrite Ef|].
  unfold row_ok. rewrite !andb_true_iff. split_and!.
  - unfold new_row. cbn [ar_target_version]. subst x. cbn [ae_version new_entry].
    destruct (Z.ltb_spec 0 version); [|done]. unfold column_int, INT_MAX in *.
    rewrite wrap_s_small by lia. apply Z.leb_le. lia.
  - apply Nat.eqb_eq. exact Hl.
  - apply Nat.eqb_eq, length_sha256.
  - unfold entry_ok, build_ok in *. apply andb_true_iff in Ho as [_ Ho].
    assert (entry_fields (row_entry (new_row key log x)) None = entry_fields x None) as Ef'.
    { unfold entry_fields in *. apply (f_equal (take 9)) in Ef. exact Ef. }
    rewrite Ef', Ho, andb_true_r. clear Ef Ef' Ho Ev.
    unfold row_entry, new_row, x, new_entry in *.
    cbn [ae_id ae_timestamp ae_action ae_actor ae_target ae_version ae_result ae_prev ar_entry_id
         ar_timestamp ar_action ar_actor ar_target ar_result ar_prev_hash] in *.
    rewrite !c_str_no_nul by (first [done|by apply valid_result_text|by apply valid_action_text]).
    by rewrite H1, H2, H3, H4, H5.
Qed.

Lemma sql_max_bound {A} (f : A → Z) l r : r ∈ l → (f r ≤ default 0 (sql_max f l))%Z.
Proof.
  intros Hr. destruct (sql_max f l) as [m|] eqn:E.
  - apply sql_max_spec in E as [_ H]. by apply H.
  - apply sql_max_None in E as ->. by apply not_elem_of_nil in Hr.
Qed.

Lemma insert_last r log log' :
  audit_ordered log → (∀ q, q ∈ log → (ar_entry_id q ≤ ar_entry_id r)%Z) →
  insert_audit_row r log = Some log' →
  log' = log ++ [r] ∧ Forall (λ q, (ar_entry_id q < ar_entry_id r)%Z) log.
Proof.
  unfold insert_audit_row. destruct (audit_row_checks r); [|done].
  intros Ho. revert log'. induction Ho as [|q log Ho IH Hq]; intros log' Hle Hi; simpl in *.
  { by injection Hi as <-. }
  assert (ar_entry_id q ≤ ar_entry_id r)%Z by (apply Hle, elem_of_cons; auto).
  rewrite (proj2 (Z.ltb_ge _ _)) in Hi by lia.
  destruct (Z.eqb_spec (ar_entry_id r) (ar_entry_id q)) as [|Hne]; [done|].
  apply fmap_Some in Hi as (l1 & Hi & ->). apply IH in Hi as [-> HF].
  - split; [done|]. constructor; [lia|done].
  - intros x Hx. apply Hle, elem_of_cons; auto.
Qed.

(** The row is appended and the chain goes on. *)
Lemma log_event_chain `{CL : !CryptoLaws CR}
    actor action target version result key e w u w' c :
  let log := t_audit_log (conn_cur c) in
  w_conn w = Some c → audit_ordered log →
  (∀ r, r ∈ log → (ar_entry_id r ≤ INT64_MAX)%Z) →
  chain_ok key log = true → no_nul actor = true → no_nul target = true → (version ≤ INT_MAX)%Z →
  audit_log_event actor action target version result key e w = (Ok u, w') →
  ∃ timestamp r,
    r = new_row key log (new_entry log timestamp action actor target version result) ∧
    w_conn w' = Some (written c (with_audit_log (log ++ [r]) (conn_cur c))) ∧
    chain_ok key (log ++ [r]) = true ∧ audit_ordered (log ++ [r]).
Proof.
  intros log Hc Hord Hmax Hch Ha Hg Hv H.
  apply bool_decide_eq_true in Ha, Hg.
  apply (log_event_ok _ _ _ _ _ _ _ _ _ _ c Hc) in H
    as (t & ts & log' & Hts & Hk & Ho & Hl & Hi & Hc' & _).
  fold log in Ho, Hl, Hi, Hc'. apply utils_format_iso8601_text in Hts as [Hts _].
  set (x := new_entry log ts action actor target version result) in *.
  destruct (new_row_text key log ts action actor target version result None Ho Hts Ha Hg Hv Hl) as [E Hr].
  destruct (new_row_text key log ts action actor target version result
              (Some (sha256 (entry_text x None))) Ho Hts Ha Hg Hv Hl) as [E' _].
  fold x in E, E', Hr. set (r := new_row key log x) in *.
  apply insert_last in Hi as [-> HF]; [|done|].
  2:{ intros q Hq. pose proof (sql_max_bound ar_entry_id log q Hq). specialize (Hmax q Hq).
      unfold r, new_row, x, new_entry, next_id. cbn [ar_entry_id ae_id]. lia. }
  exists ts, r. split_and!; [done|done| |by apply audit_ordered_app_last].
  apply andb_true_iff in Hch as [Hh Hs]. unfold chain_ok.
  apply andb_true_iff. split.
  - apply hashes_ok_app. split_and!; [done|done|done|]. by rewrite E.
  - apply signatures_ok_app. split; [done|]. unfold row_signature.
    change (ar_entry_hash r) with (sha256 (entry_text x None)). by rewrite E'.
Qed.

(** C27: On a log that [audit_verify_chain] accepts, [audit_log_event] appends
    one row that records its arguments, numbered after the last one, and
    [audit_verify_chain] accepts the new log under the same key. *)
Theorem audit_log_event_extends `{CL : !CryptoLaws CR}
    actor action target version result key e w u w' c e0 u0 w0 e1 :
  let log := t_audit_log (conn_cur c) in
  w_conn w = Some c → audit_ordered log →
  (∀ r, r ∈ log → (ar_entry_id r ≤ INT64_MAX)%Z) →
  no_nul actor = true → no_nul target = true → (version ≤ INT_MAX)%Z →
  audit_verify_chain key e0 w = (Ok u0, w0) →
  audit_log_event actor action target version result key e w = (Ok u, w') → healthy e1 →
  ∃ c' r, w_conn w' = Some c' ∧ conn_cur c' = with_audit_log (log ++ [r]) (conn_cur c) ∧
    ar_action r = action ∧ ar_actor r = actor_value actor ∧ ar_target r = target ∧
    ar_target_version r = (if (0 <? version)%Z then Some version else None) ∧ ar_result r = result ∧
    audit_ordered (log ++ [r]) ∧ (audit_verify_chain key e1 w').1 = Ok ().
Proof.
  intros log Hc Hord Hmax Ha Hg Hv Hver H He.
  apply verify_chain_ok in Hver as (Hk & c0 & Hc0 & Hch). assert (c0 = c) as -> by congruence.
  destruct (log_event_chain actor action target version result key e w u w' c) as (ts & r & -> & Hc' & Hch' & Hord');
    try done.
  eexists _, _. split_and!; [exact Hc'|reflexivity..|done|].
  destruct (wp_verify_chain key (written c (with_audit_log (log ++
     [new_row key log (new_entry log ts action actor target version result)]) (conn_cur c)))
     (λ _ _, True) e1 w') as ([] & w2 & -> & _); done.
Qed.

(** What [audit_log_event] asks of its arguments. *)
Definition loggable (actor action target result : bytes) : bool :=
  audit_valid_action action && negb (bool_decide (target = [])) && audit_valid_result result
  && small actor && small target.

Lemma valid_action_in a : audit_valid_action a = true → a ∈ audit_actions ∧ small a = true.
Proof.
  unfold audit_valid_action. intros [_ H]%andb_true_iff. apply existsb_exists in H as (b & Hb & H).
  destruct (strcmp a b) eqn:E; try done. apply strcmp_eq in E as ->.
  split; [by apply list_elem_of_In|].
  simpl in Hb. repeat (destruct Hb as [<-|Hb]; [vm_compute; reflexivity|]). done.
Qed.

Lemma valid_result_in a :
  audit_valid_result a = true → (a = str "SUCCESS" ∨ a = str "FAILURE") ∧ small a = true.
Proof.
  unfold audit_valid_result. intros [_ H]%andb_true_iff.
  apply orb_true_iff in H as [H|H]; apply bool_decide_eq_true, strcmp_eq in H as ->;
    (split; [auto|vm_compute; reflexivity]).
Qed.

Lemma new_entry_ok log ts t actor action target version result :
  loggable actor action target result = true → (1 ≤ next_id log)%Z →
  length (last_hash log) = 32%nat → utils_format_iso8601 t UTILS_ISO8601_UTC_BUFFER_LEN = Ok ts →
  entry_ok (new_entry log ts action actor target version result) = true.
Proof.
  intros Hl Hid Hh Ht. unfold loggable in Hl. rewrite !andb_true_iff in Hl.
  destruct Hl as [[[[H1 H2] H3] H4] H5].
  pose proof (utils_format_iso8601_text _ _ _ Ht) as [_ Hne].
  pose proof (utils_format_iso8601_fits _ _ _ Ht) as Hfit.
  pose proof (valid_action_in _ H1) as [_ Hsa]. pose proof (valid_result_in _ H3) as [_ Hsr].
  unfold entry_ok, build_ok, new_entry, entry_fields.
  cbn [ae_id ae_timestamp ae_action ae_actor ae_target ae_version ae_result ae_prev app forallb].
  rewrite H1, H2, H3, H5, Hsa, Hsr, Hh. rewrite (bool_decide_false (ts = [])) by done.
  rewrite (proj2 (Z.leb_le 1 _)) by done. rewrite length_write_le.
  assert (small ts = true) as ->.
  { apply Z.leb_le. assert (length ts < 21)%nat by exact Hfit. unfold UINT32_MAX. lia. }
  rewrite actor_value_idemp.
  assert (small (actor_value actor) = true) as ->.
  { unfold actor_value. by destruct (bool_decide (actor = [])). }
  assert (small (version_data version) = true) as ->.
  { unfold version_data. by destruct (0 <? version)%Z. }
  done.
Qed.

Lemma insert_new r log :
  audit_row_checks r = true → Forall (λ q, (ar_entry_id q < ar_entry_id r)%Z) log →
  insert_audit_row r log = Some (log ++ [r]).
Proof. intros Hr Hf. unfold insert_audit_row. rewrite Hr. by apply insert_by_entry_id_last. Qed.

Lemma hashes_ok_rows prev log r : hashes_ok prev log = true → r ∈ log → row_ok r = true.
Proof.
  induction log as [|q log IH] in prev |- *; [by intros _ ?%not_elem_of_nil|].
  intros (Hq & _ & _ & H)%hashes_ok_cons [->|Hr]%elem_of_cons; [done|by eapply IH].
Qed.

Lemma row_ok_id r : row_ok r = true → (1 ≤ ar_entry_id r)%Z.
Proof.
  intros [Ho _]%row_ok_entry. apply build_ok_guard in Ho. rewrite !andb_true_iff, Z.leb_le in Ho.
  apply Ho.
Qed.

Lemma length_last_hash log :
  (∀ r, r ∈ log → row_ok r = true) → length (last_hash log) = 32%nat.
Proof.
  intros H. unfold last_hash. destruct (last log) as [r|] eqn:E; [|done].
  apply last_Some_elem_of in E. by apply H, row_ok_entry in E as [_ ?].
Qed.

Lemma next_id_pos log : (∀ r, r ∈ log → row_ok r = true) → (1 ≤ next_id log)%Z.
Proof.
  intros H. unfold next_id, INT64_MAX. destruct (sql_max ar_entry_id log) as [m|] eqn:E; simpl; [|lia].
  apply sql_max_spec in E as [(r & Hr & <-) _]. apply H, row_ok_id in Hr. lia.
Qed.

(** With no failing call, a clock of this age and well-formed arguments, an
    event is logged. *)
Lemma wp_log_event `{CL : !CryptoLaws CR} actor action target version result key c
    (Q : unit → world → Prop) e w :
  let log := t_audit_log (conn_cur c) in
  healthy e → clock_ok e → w_conn w = Some c → length key = 32%nat →
  loggable actor action target result = true →
  (∀ r, r ∈ log → row_ok r = true ∧ (ar_entry_id r < INT64_MAX)%Z) →
  (∀ ts w', let x := new_entry log ts action actor target version result in
     w_conn w' = Some (written c (with_audit_log (log ++ [new_row key log x]) (conn_cur c))) →
     w_subkeys w' = w_subkeys w → w_unlocked w' = w_unlocked w → w_disk w' = w_disk w →
     Q () w') →
  wp (audit_log_event actor action target version result key) Q e w.
Proof.
  intros log He Hclk Hc Hk Hlog Hrows HQ.
  assert (∀ r, r ∈ log → row_ok r = true) as Hok by (intros r Hr; by apply Hrows).
  pose proof (length_last_hash log Hok) as Hl. pose proof (next_id_pos log Hok) as Hid.
  unfold audit_log_event.
  wp_run. eapply wp_require_db; [done|]. wp_run. apply wp_validate; [done..|]. wp_run.
  apply wp_utils_now; [done|done|]. intros ts t w1 Ht S1.
  assert (w_conn w1 = Some c) as Hc1 by (destruct S1 as [-> _]; done).
  assert (entry_ok (new_entry log ts action actor target version result) = true) as Hx
    by (by eapply new_entry_ok). unfold new_entry in Hx.
  wp_run. unfold audit_get_last_hash. wp_run. eapply wp_require_db; [done|]. wp_run.
  apply wp_guard; [done|]. wp_run. eapply wp_sql_query; [done..|]. fold log.
  assert (wp (match last log with
              | Some r => lift (audit_column_hash (ar_entry_hash r))
              | None => mret (replicate crypto_hash_sha256_BYTES Byte.x00)
              end) (λ h w', h = last_hash log ∧ w' = called w1) e (called w1)) as Hlast.
  { unfold last_hash in *. destruct (last log) as [r|]; [|by wp_run].
    eapply wp_lift; [apply audit_column_hash_run; by apply Nat.eqb_eq|done]. }
  eapply wp_mono; [exact Hlast|]. intros h w2 [-> ->].
  unfold audit_next_entry_id. wp_run. eapply wp_sql_query; [done..|]. wp_run.
  fold log. fold (next_id log). apply wp_guard; [by apply Z.leb_le|]. wp_run.
  unfold audit_count_entries. eapply wp_sql_query; [done..|]. fold log.
  cbv zeta. wp_run. apply wp_entry_hash; [done..|]. wp_run.
  unfold audit_derive_ratchet_key. wp_run. apply wp_validate; [done..|]. wp_run.
  apply wp_ratchet_loop; [done..|]. intros w3 S3. wp_run.
  apply wp_signature; [done|done|apply length_sha256|].
  set (x := new_entry log ts action actor target version result).
  destruct S1 as (_ & E2 & E3 & E4), S3 as (F1 & F2 & F3 & F4). simpl in E2, E3, E4, F1, F2, F3, F4.
  eapply (wp_sql_exec _ c (with_audit_log (log ++ [new_row key log x]) (conn_cur c)));
    [done|simpl; by rewrite F1| |].
  { fold log. change (AuditRow _ _ _ _ _ _ _ _ _ _) with (new_row key log x).
    rewrite insert_new; [done| |].
    - unfold loggable in Hlog. rewrite !andb_true_iff in Hlog. destruct Hlog as [[[[H1 _] H3] _] _].
      unfold audit_row_checks. apply andb_true_iff.
      by split; apply bool_decide_eq_true; [apply valid_action_in|apply valid_result_in].
    - apply Forall_forall. intros q Hq. pose proof (sql_max_bound ar_entry_id log q Hq).
      destruct (Hrows q Hq) as [_ Hlt].
      unfold new_row, x, new_entry, next_id. cbn [ar_entry_id ae_id].
      destruct (sql_max ar_entry_id log) as [m|] eqn:Em; simpl in *; [|lia].
      apply sql_max_spec in Em as [(q' & Hq' & <-) _]. destruct (Hrows q' Hq'). lia. }
  apply (HQ ts); simpl; [done|congruence..].
Qed.

(** * Signing under a new key *)

(** The log with every signature recomputed. *)
Fixpoint resigned (key : bytes) (log : list audit_row) : list audit_row :=
  match log with
  | [] => []
  | r :: log' => sign_row (row_signature key r) r :: resigned (sha256 key) log'
  end.

Fixpoint new_signatures (key : bytes) (log : list audit_row) : list (Z * bytes) :=
  match log with
  | [] => []
  | r :: log' => (ar_entry_id r, row_signature key r) :: new_signatures (sha256 key) log'
  end.

Lemma check_row_ok prev r e w x h w' :
  audit_check_row prev r e w = (Ok (x, h), w') →
  x = row_entry r ∧ h = ar_entry_hash r ∧ row_ok r = true ∧ ar_prev_hash r = prev ∧
  ar_entry_hash r = sha256 (entry_text (row_entry r) None).
Proof.
  unfold audit_check_row. intros H. apply bind_ok in H as ([x' h'] & w1 & Hr & H).
  apply read_row_ok in Hr as (-> & -> & Hp & Hr). inv_m.
  match goal with H : audit_compute_entry_hash _ _ _ = _ |- _ => apply entry_hash_ok in H as [Ho ->] end.
  repeat match goal with H : bool_decide _ = true |- _ => apply bool_decide_eq_true in H end.
  split_and!; try congruence. unfold row_ok. by rewrite Hr, Ho.
Qed.

Lemma resign_loop_ok prev key rows e w items w' :
  resign_loop prev key rows e w = (Ok items, w') →
  hashes_ok prev rows = true ∧ items = new_signatures key rows.
Proof.
  revert prev key w items. induction rows as [|r rows IH]; intros prev key w items H.
  { cbn [resign_loop] in H. by inv_m. }
  cbn [resign_loop] in H. apply bind_ok in H as (u0 & w0 & H0 & H).
  apply bind_ok in H as ([y hy] & w1 & Hr & H).
  apply check_row_ok in Hr as (-> & -> & Hr & Hp & Hh). inv_m.
  match goal with H : audit_compute_signature _ _ _ _ _ = _ |- _ => apply signature_ok in H as -> end.
  match goal with H : audit_advance_ratchet_key _ _ _ = _ |- _ => apply advance_ok in H as [_ ->] end.
  match goal with H : resign_loop _ _ _ _ _ = _ |- _ => apply IH in H as [Hs ->] end.
  split; [|done]. by apply hashes_ok_cons.
Qed.

Lemma wp_resign_loop `{CL : !CryptoLaws CR} prev key rows (Q : list (Z * bytes) → world → Prop) e w :
  healthy e → length key = 32%nat → hashes_ok prev rows = true →
  (∀ w', same_state w w' → Q (new_signatures key rows) w') → wp (resign_loop prev key rows) Q e w.
Proof.
  intros He. revert prev key w Q. induction rows as [|r rows IH]; intros prev key w Q Hk Hh HQ.
  { cbn [resign_loop]. wp_run. by apply HQ. }
  apply hashes_ok_cons in Hh as (Hr & Hp & Hhash & Hh).
  destruct (row_ok_entry _ Hr) as [Ho Hl].
  cbn [resign_loop]. unfold audit_check_row. wp_run. apply wp_read_row; [done..|]. wp_run.
  apply wp_guard; [by apply bool_decide_eq_true|]. wp_run.
  apply wp_entry_hash; [done..|]. wp_run. apply wp_guard; [by apply bool_decide_eq_true|]. wp_run.
  apply wp_signature; [done..|]. wp_run. apply wp_advance; [done..|].
  wp_run. apply IH; [apply length_sha256|done|]. intros w' Hw. wp_run. apply HQ.
  etrans; [|exact Hw]. by unfold same_state.
Qed.

(** Ids that fit the [int] parameter of [sqlite3_bind_int]. *)
Definition ids_fit (log : list audit_row) : Prop :=
  ∀ r, r ∈ log → (ar_entry_id r ≤ INT_MAX)%Z.

Lemma update_skips log i s :
  (∀ r, r ∈ log → ar_entry_id r ≠ i) → (update_signature i s log).1 = log.
Proof.
  unfold update_signature. simpl. induction log as [|r log IH]; intros H; simpl; [done|].
  rewrite (proj2 (Z.eqb_neq _ _)) by (apply H, elem_of_cons; auto). f_equal.
  apply IH. intros q Hq. apply H, elem_of_cons; auto.
Qed.

Lemma resigned_ids key log : ar_entry_id <$> resigned key log = ar_entry_id <$> log.
Proof. induction log in key |- *; simpl; [done|]. by f_equal. Qed.

(** The update of one row of an ordered log. *)
Lemma update_signature_split pre r log s :
  audit_ordered (pre ++ r :: log) →
  update_signature (ar_entry_id r) s (pre ++ r :: log) = (pre ++ sign_row s r :: log, 1%nat).
Proof.
  intros Ho. pose proof (audit_ordered_NoDup _ Ho) as Hn. rewrite fmap_app in Hn.
  apply NoDup_app in Hn as (_ & Hd & Hn). simpl in Hn. apply NoDup_cons in Hn as [Hn _].
  assert ((update_signature (ar_entry_id r) s (pre ++ r :: log)).2 = 1%nat) as E2.
  { apply update_signature_unique with r; [done| |done]. apply elem_of_app. right. apply elem_of_cons. auto. }
  apply injective_projections; [|exact E2]. clear E2. unfold update_signature. simpl.
  rewrite fmap_app, fmap_cons. cbv beta. rewrite Z.eqb_refl.
  pose proof (update_skips pre (ar_entry_id r) s) as E1. unfold update_signature in E1. simpl in E1.
  rewrite E1.
  2:{ intros q Hq E. apply (Hd (ar_entry_id q)); [by apply list_elem_of_fmap_2|]. rewrite E. left. }
  pose proof (update_skips log (ar_entry_id r) s) as E3. unfold update_signature in E3. simpl in E3.
  rewrite E3; [done|]. intros q Hq E. apply Hn. rewrite <- E. by apply list_elem_of_fmap_2.
Qed.

Lemma ordered_ids l k : ar_entry_id <$> l = ar_entry_id <$> k → audit_ordered l → audit_ordered k.
Proof.
  unfold audit_ordered. revert k. induction l as [|a l IH]; intros [|b k] E H; simpl in *; try done.
  injection E as Ea E. apply StronglySorted_inv in H as [H HF]. constructor; [by apply IH|].
  apply Forall_forall. intros q Hq. rewrite Forall_forall in HF.
  apply (list_elem_of_fmap_2 ar_entry_id) in Hq. change (ar_entry_id <$> l = ar_entry_id <$> k) in E.
  rewrite <- E in Hq.
  apply list_elem_of_fmap in Hq as (p & Ep & Hp). specialize (HF p Hp). lia.
Qed.

(** The updates one after another, on a log whose first part is done. *)
Lemma updates_run key pre log e w c u w' :
  w_conn w = Some c → t_audit_log (conn_cur c) = pre ++ log → audit_ordered (pre ++ log) →
  (∀ r, r ∈ log → (1 ≤ ar_entry_id r ≤ INT_MAX)%Z) →
  for_each resign_update (new_signatures key log) e w = (Ok u, w') →
  ∃ c', w_conn w' = Some c' ∧ conn_cur c' = with_audit_log (pre ++ resigned key log) (conn_cur c) ∧
        conn_in_tx c' = conn_in_tx c.
Proof.
  revert key pre w c. induction log as [|r log IH]; intros key pre w c Hc Hl Ho Hid H.
  { cbn in H. inv_m. exists c. split_and!; [done| |done]. simpl. rewrite <- Hl. by destruct (conn_cur c). }
  cbn [new_signatures for_each] in H. apply bind_ok in H as (? & w1 & H1 & H).
  unfold resign_update in H1. apply bind_ok in H1 as (n & w2 & H1 & H2). inv_m.
  apply sql_exec_ok in H1 as (c0 & db & Hc0 & Hu & ->). rewrite Hc in Hc0. injection Hc0 as <-.
  cbn [fst snd] in Hu. rewrite Hl in Hu.
  destruct (Hid r) as [Hr1 Hr2]; [apply elem_of_cons; auto|]. unfold INT_MAX in Hr2.
  rewrite wrap_s_small in Hu by lia. rewrite update_signature_split in Hu by done.
  injection Hu as <- <-.
  apply (IH (sha256 key) (pre ++ [sign_row (row_signature key r) r])) with
    (c := written c (with_audit_log (pre ++ sign_row (row_signature key r) r :: log) (conn_cur c))) in H;
    [|done|by simpl; rewrite <- app_assoc| |].
  - destruct H as (c' & Hc' & Hcur & Htx). exists c'. split_and!; [done| |done].
    rewrite Hcur. simpl. by rewrite <- app_assoc.
  - eapply ordered_ids; [|exact Ho]. by rewrite !fmap_app, <- app_assoc.
  - intros q Hq. apply Hid, elem_of_cons. auto.
Qed.

Lemma row_entry_sign s r : row_entry (sign_row s r) = row_entry r.
Proof. done. Qed.

Lemma resigned_chain key log prev :
  hashes_ok prev log = true →
  hashes_ok prev (resigned key log) = true ∧ signatures_ok key (resigned key log) = true.
Proof.
  revert key prev. induction log as [|r log IH]; intros key prev H; [done|].
  apply hashes_ok_cons in H as (Hr & Hp & Hh & H). apply (IH (sha256 key)) in H as [H1 H2].
  cbn [resigned]. split; [by apply hashes_ok_cons|by apply signatures_ok_cons].
Qed.

(** The signatures are replaced, nothing else, and the chain is whole. *)
Lemma resign_chain_ok key e w u w' c :
  let log := t_audit_log (conn_cur c) in
  w_conn w = Some c → audit_ordered log → ids_fit log →
  audit_resign_chain key e w = (Ok u, w') →
  ∃ c', w_conn w' = Some c' ∧ conn_in_tx c' = conn_in_tx c ∧
        conn_cur c' = with_audit_log (resigned key log) (conn_cur c) ∧
        length key = 32%nat ∧ hashes_ok zeros log = true ∧ chain_ok key (resigned key log) = true.
Proof.
  intros log Hc Ho Hfit H. unfold audit_resign_chain in H.
  apply bind_ok in H as (? & w0 & H0 & H). apply require_db_ok in H0 as [_ ->].
  apply bind_ok in H as (? & w1 & H1 & H). pose proof (keeps_run same_state _ _ _ _ _ H1) as S1.
  apply validate_ok in H1 as Hk.
  assert (w_conn w1 = Some c) as Hc1 by (destruct S1 as [-> _]; done).
  apply bind_ok in H as (rows & w2 & H2 & H). pose proof (keeps_run same_state _ _ _ _ _ H2) as S2.
  apply (sql_query_in _ _ _ _ _ _ Hc1) in H2 as ->. fold log in H.
  apply bind_ok in H as (items & w3 & H3 & H). pose proof (keeps_run same_state _ _ _ _ _ H3) as S3.
  apply resign_loop_ok in H3 as [Hh ->]. fold zeros in Hh.
  assert (w_conn w3 = Some c) as Hc3.
  { destruct S3 as [-> _], S2 as [-> _]. done. }
  apply (updates_run key [] log e w3 c) in H as (c' & Hc' & Hcur & Htx); [|done..|].
  2:{ intros r Hr. split; [by eapply row_ok_id, hashes_ok_rows|by apply Hfit]. }
  exists c'. split_and!; try done. unfold chain_ok.
  destruct (resigned_chain key log zeros Hh) as [-> ->]. done.
Qed.

Lemma resigned_rows key log :
  Forall2 (λ r r', r' = sign_row (ar_hmac_signature r') r) log (resigned key log).
Proof. revert key. induction log as [|r log IH]; intros key; constructor; [done|apply IH]. Qed.

(** [audit_resign_chain] replaces the signatures of the log and nothing
    else, and [audit_verify_chain] accepts the result under the new key; it
    refuses a log whose hash chain is broken. *)
Theorem audit_resign_chain_verifies `{CL : !CryptoLaws CR} key e w u w' c e1 :
  let log := t_audit_log (conn_cur c) in
  w_conn w = Some c → audit_ordered log → ids_fit log →
  audit_resign_chain key e w = (Ok u, w') → healthy e1 →
  hashes_ok zeros log = true ∧
  ∃ c' log', w_conn w' = Some c' ∧ conn_cur c' = with_audit_log log' (conn_cur c) ∧
    Forall2 (λ r r', r' = sign_row (ar_hmac_signature r') r) log log' ∧
    (audit_verify_chain key e1 w').1 = Ok ().
Proof.
  intros log Hc Ho Hfit H He.
  destruct (resign_chain_ok key e w u w' c Hc Ho Hfit H) as (c' & Hc' & _ & Hcur & Hk & Hh & Hch).
  split; [done|]. exists c', (resigned key log). split_and!; [done..|apply resigned_rows|].
  destruct (wp_verify_chain key c' (λ _ _, True) e1 w') as ([] & w2 & -> & _); try done.
  by rewrite Hcur.
Qed.

Lemma wp_updates key pre log (Q : unit → world → Prop) e w c :
  healthy e → w_conn w = Some c → t_audit_log (conn_cur c) = pre ++ log → audit_ordered (pre ++ log) →
  (∀ r, r ∈ log → (1 ≤ ar_entry_id r ≤ INT_MAX)%Z) →
  (∀ c' w', w_conn w' = Some c' → conn_cur c' = with_audit_log (pre ++ resigned key log) (conn_cur c) →
     in_transaction w w' → Q () w') →
  wp (for_each resign_update (new_signatures key log)) Q e w.
Proof.
  intros He. revert key pre w c. induction log as [|r log IH]; intros key pre w c Hc Hl Ho Hid HQ.
  { cbn [new_signatures for_each]. wp_run. apply (HQ c w); [done| |reflexivity].
    simpl. rewrite <- Hl. by destruct (conn_cur c). }
  destruct (Hid r) as [Hr1 Hr2]; [apply elem_of_cons; auto|]. unfold INT_MAX in Hr2.
  cbn [new_signatures for_each]. wp_run. unfold resign_update. wp_run.
  set (db := with_audit_log (pre ++ sign_row (row_signature key r) r :: log) (conn_cur c)).
  eapply (wp_sql_exec _ c db 1%nat); [done|done| |].
  { cbn [fst snd]. rewrite Hl, wrap_s_small, update_signature_split by (done || lia). done. }
  apply wp_guard; [done|].
  assert (in_transaction w (set_conn (Some (written c db)) (called w))) as T.
  { unfold in_transaction. rewrite Hc. simpl. split_and!; [done..|].
    eexists. split_and!; [done|done|]. simpl. by intros ->. }
  apply (IH (sha256 key) (pre ++ [sign_row (row_signature key r) r]) _ (written c db)).
  - done.
  - simpl. by rewrite <- app_assoc.
  - eapply ordered_ids; [|exact Ho]. by rewrite !fmap_app, <- app_assoc.
  - intros q Hq. apply Hid, elem_of_cons. auto.
  - intros c' w' Hc' Hcur T'. apply (HQ c'); [done| |by etrans].
    rewrite Hcur. simpl. by rewrite <- app_assoc.
Qed.

Lemma wp_resign_chain `{CL : !CryptoLaws CR} key (Q : unit → world → Prop) e w c :
  let log := t_audit_log (conn_cur c) in
  healthy e → w_conn w = Some c → length key = 32%nat → audit_ordered log → ids_fit log →
  hashes_ok zeros log = true →
  (∀ c' w', w_conn w' = Some c' → conn_cur c' = with_audit_log (resigned key log) (conn_cur c) →
     in_transaction w w' → Q () w') →
  wp (audit_resign_chain key) Q e w.
Proof.
  intros log He Hc Hk Ho Hfit Hh HQ. unfold audit_resign_chain.
  wp_run. eapply wp_require_db; [done|]. wp_run. apply wp_validate; [done..|]. wp_run.
  eapply wp_sql_query; [done..|]. fold log. wp_run.
  apply wp_resign_loop; [done..|]. intros w1 S1.
  assert (same_state w w1) as S by (etrans; [|exact S1]; by unfold same_state).
  apply (wp_updates key [] log _ e w1 c); [done|destruct S as [-> _]; done|done|done| |].
  { intros r Hr. split; [by eapply row_ok_id, hashes_ok_rows|by apply Hfit]. }
  intros c' w' Hc' Hcur T. apply (HQ c'); [done..|]. etrans; [|exact T].
  by apply same_state_in_transaction.
Qed.

(** * Tamper evidence *)

(** Compare two logs from their ends: the first two entries whose texts
    differ. *)
Fixpoint texts_collision (rev_log rev_log' : list audit_row) : bytes * bytes :=
  match rev_log, rev_log' with
  | r :: l, q :: k =>
      if decide (entry_text (row_entry r) None = entry_text (row_entry q) None)
      then texts_collision l k
      else (entry_text (row_entry r) None, entry_text (row_entry q) None)
  | _, _ => ([], [])
  end.

Definition log_entries (log : list audit_row) : list audit_entry := canonical ∘ row_entry <$> log.

Lemma row_ok_range r :
  row_ok r = true → (ar_entry_id r ≤ INT64_MAX)%Z → entry_range (row_entry r).
Proof.
  unfold row_ok, entry_range, row_entry, row_version. cbn [ae_id ae_version].
  intros H Hid. split; [done|]. rewrite !andb_true_iff in H. destruct H as [[[H _] _] _].
  destruct (ar_target_version r) as [v|]; [|done].
  apply Z.leb_le in H. unfold column_int, wrap_s, INT_MAX in *.
  assert (0 ≤ (v + 2 ^ (32 - 1)) mod 2 ^ 32 < 2 ^ 32)%Z by (apply Z.mod_pos_bound; done). simpl in *. lia.
Qed.

(** The last hash of a log determines its entries, as many as there are. *)
Lemma last_hash_binds log log' :
  hashes_ok zeros log = true → hashes_ok zeros log' = true → length log = length log' →
  (∀ r, r ∈ log ++ log' → (ar_entry_id r ≤ INT64_MAX)%Z) →
  last_hash log = last_hash log' →
  log_entries log = log_entries log' ∨ sha256_collision (texts_collision (rev log) (rev log')).
Proof.
  revert log'. induction log as [|r log IH] using rev_ind; intros log' H H' Hl Hid E.
  { destruct log'; [by left|done]. }
  destruct log' as [|q log' _] using rev_ind; [rewrite length_app in Hl; simpl in Hl; lia|].
  rewrite !length_app in Hl. simpl in Hl.
  apply hashes_ok_app in H as (H & Hr & Hp & Hh). apply hashes_ok_app in H' as (H' & Hq & Hp' & Hh').
  unfold last_hash in E. rewrite !last_snoc in E. simpl in E.
  rewrite !rev_app_distr. cbn [rev app texts_collision].
  destruct (decide _) as [Et|Et].
  2:{ right. split; [exact Et|]. simpl. congruence. }
  assert (canonical (row_entry r) = canonical (row_entry q)) as Ec.
  { apply entry_text_inj; [by apply row_ok_entry..| | |done]; apply row_ok_range; try done;
      apply Hid; rewrite !elem_of_app, !list_elem_of_singleton; auto. }
  destruct (IH log' H H') as [IHe|IHc]; [lia| | | |by right].
  - intros x Hx. apply Hid. rewrite !elem_of_app in *. tauto.
  - pose proof (f_equal ae_prev Ec) as Ep. simpl in Ep. unfold last_hash. congruence.
  - left. unfold log_entries in *. rewrite !fmap_app, IHe. simpl. by rewrite Ec.
Qed.

(** C25: The Merkle root together with the number of entries anchors the log: when
    two databases, read at different times and with different keys, both pass
    [audit_verify_chain] and show the same root and count, their logs hold the
    same entries, field by field; otherwise one of the two functions below
    computes two strings with the same SHA-256 hash. So whoever keeps an
    earlier root detects that an entry was changed, removed or reordered. *)
Theorem audit_anchored_root_binds `{CL : !CryptoLaws CR}
    key1 e1 w1 u1 w1' r1 c1 key2 e2 w2 u2 w2' r2 c2 root count :
  let log1 := t_audit_log (conn_cur c1) in
  let log2 := t_audit_log (conn_cur c2) in
  w_conn w1 = Some c1 → w_conn w2 = Some c2 →
  (∀ r, r ∈ log1 ++ log2 → (ar_entry_id r ≤ INT64_MAX)%Z) →
  audit_verify_chain key1 e1 w1 = (Ok u1, w1') →
  audit_compute_merkle_root AUDIT_MERKLE_ROOT_BYTES e1 w1 = (Ok (root, count), r1) →
  audit_verify_chain key2 e2 w2 = (Ok u2, w2') →
  audit_compute_merkle_root AUDIT_MERKLE_ROOT_BYTES e2 w2 = (Ok (root, count), r2) →
  log_entries log1 = log_entries log2 ∨
  sha256_collision (root_collision (ar_entry_hash <$> log1) (ar_entry_hash <$> log2)) ∨
  sha256_collision (texts_collision (rev log1) (rev log2)).
Proof.
  intros log1 log2 Hc1 Hc2 Hid V1 R1 V2 R2.
  apply verify_chain_ok in V1 as (_ & c & Hc & V1). assert (c = c1) as -> by congruence.
  apply verify_chain_ok in V2 as (_ & c & Hc' & V2). assert (c = c2) as -> by congruence.
  apply andb_true_iff in V1 as [V1 _]. apply andb_true_iff in V2 as [V2 _].
  pose proof (compute_root_count _ _ _ _ _ _ _ Hc1 R1) as L1.
  pose proof (compute_root_count _ _ _ _ _ _ _ Hc2 R2) as L2. fold log1 in V1, L1. fold log2 in V2, L2.
  destruct (decide (log1 = [])) as [E|Hne].
  { left. assert (log2 = []) as ->; [|by rewrite E]. apply nil_length_inv. rewrite <- L2, L1, E. done. }
  assert (log2 ≠ []) as Hne2 by (intros E; apply Hne, nil_length_inv; rewrite <- L1, L2, E; done).
  destruct (compute_root_ok _ _ _ _ _ _ _ Hc1 Hne R1 eq_refl) as (M1 & _).
  destruct (compute_root_ok _ _ _ _ _ _ _ Hc2 Hne2 R2 eq_refl) as (M2 & _).
  fold log1 in M1. fold log2 in M2.
  destruct (merkle_root_inj _ _ _ M1 M2) as [Eh|Hcol]; [rewrite !length_fmap; congruence| |by auto].
  destruct (last_hash_binds log1 log2 V1 V2) as [E|Hcol]; [congruence|done| |by auto|by auto].
  unfold last_hash. apply (f_equal last) in Eh. rewrite !fmap_last in Eh.
  destruct (last log1), (last log2); simpl in *; congruence.
Qed.

End Audit.

(** * What the texts leave out *)

Section Gaps.
Context {CR : Crypto}.

Definition set_actor (actor : bytes) (r : audit_row) : audit_row :=
  AuditRow (ar_entry_id r) (ar_timestamp r) (ar_action r) actor (ar_target r) (ar_target_version r)
    (ar_result r) (ar_prev_hash r) (ar_entry_hash r) (ar_hmac_signature r).

Definition set_version (v : Z) (r : audit_row) : audit_row :=
  AuditRow (ar_entry_id r) (ar_timestamp r) (ar_action r) (ar_actor r) (ar_target r) (Some v)
    (ar_result r) (ar_prev_hash r) (ar_entry_hash r) (ar_hmac_signature r).

Lemma chain_same_text key pre r q post :
  row_entry r = row_entry q → row_ok r = row_ok q → ar_prev_hash r = ar_prev_hash q →
  ar_entry_hash r = ar_entry_hash q → ar_hmac_signature r = ar_hmac_signature q →
  chain_ok key (pre ++ r :: post) = chain_ok key (pre ++ q :: post).
Proof.
  intros E1 E2 E3 E4 E5. unfold chain_ok. f_equal.
  - generalize zeros as prev. induction pre as [|x pre IH]; intros prev; cbn [app hashes_ok].
    + by rewrite E1, E2, E3, E4.
    + by rewrite IH.
  - revert key. induction pre as [|x pre IH]; intros key; cbn [app signatures_ok].
    + unfold row_signature. by rewrite E1, E4, E5.
    + by rewrite IH.
Qed.

(** Bytes written after a NUL into the actor of a row do not reach the hash
    or the signature: the log still verifies. *)
Lemma chain_ignores_actor_tail key pre r post junk :
  no_nul (ar_actor r) = true →
  chain_ok key (pre ++ set_actor (ar_actor r ++ Byte.x00 :: junk) r :: post)
  = chain_ok key (pre ++ r :: post).
Proof.
  intros H%bool_decide_eq_true.
  assert (row_entry (set_actor (ar_actor r ++ Byte.x00 :: junk) r) = row_entry r) as E.
  { unfold row_entry, row_version, set_actor. cbn [ar_entry_id ar_timestamp ar_action ar_actor ar_target
      ar_target_version ar_result ar_prev_hash]. by rewrite c_str_app_nul, (c_str_no_nul (ar_actor r)). }
  apply chain_same_text; try done. unfold row_ok. rewrite E. done.
Qed.

(** Neither do the high bits of the version. *)
Lemma chain_ignores_version_high key pre r post v :
  ar_target_version r = Some v →
  chain_ok key (pre ++ set_version (v + 2 ^ 32) r :: post) = chain_ok key (pre ++ r :: post).
Proof.
  intros H.
  assert (column_int (v + 2 ^ 32) = column_int v) as Ev.
  { unfold column_int, wrap_s. f_equal.
    replace (v + 2 ^ 32 + 2 ^ (32 - 1))%Z with (v + 2 ^ (32 - 1) + 1 * 2 ^ 32)%Z by lia.
    by rewrite Z.mod_add. }
  assert (row_entry (set_version (v + 2 ^ 32) r) = row_entry r) as E.
  { unfold row_entry, row_version, set_version. cbn [ar_entry_id ar_timestamp ar_action ar_actor ar_target
      ar_target_version ar_result ar_prev_hash]. by rewrite Ev, H. }
  apply chain_same_text; try done. unfold row_ok. rewrite E, H. cbn [ar_target_version set_version].
  by rewrite Ev.
Qed.

End Gaps.

(** * Concrete runs *)

Module AuditExample.

Definition key : bytes := replicate 32 (z_byte 7).
Definition key' : bytes := replicate 32 (z_byte 8).
Definition e0 : env := Sample.env_at 1700000000.
Definition ts : bytes := str "2023-11-14T22:13:20Z".

Definition row_after (log : list audit_row) (id : Z) : audit_row :=
  @new_row Toy.crypto key log
    (AuditEntry id ts (str "CREATE") AUDIT_ACTOR_DEFAULT (str "db/password") 3 AUDIT_RESULT_SUCCESS
       (last_hash log)).
Definition log1 : list audit_row := Eval vm_compute in [row_after [] 1].
Definition log2 : list audit_row := Eval vm_compute in log1 ++ [row_after log1 2].

Definition conn_of (log : list audit_row) : connection :=
  Connection (Database [] log ∅ []) (Database [] log ∅ []) false.
Definition world_of (log : list audit_row) : world := World (Some (conn_of log)) None false Sample.disk0 0 0 0.

Lemma audit_verify_chain_spec_witness :
  (@audit_verify_chain Toy.crypto key e0 (world_of log2)).1 = Ok ().
Proof.
  apply (@audit_verify_chain_spec Toy.crypto Toy.laws key (conn_of log2) e0 (world_of log2));
    [apply Sample.env_at_healthy|reflexivity|].
  split; [reflexivity|vm_compute; reflexivity].
Defined.

Lemma ids_small : ∀ r, r ∈ log2 → (ar_entry_id r ≤ INT_MAX)%Z.
Proof. apply Forall_forall. apply (bool_decide_unpack _). vm_compute. exact I. Qed.

Lemma ordered2 : audit_ordered log2.
Proof. repeat constructor. Qed.

Lemma audit_log_event_extends_witness :
  ∃ w' c' r, w_conn w' = Some c' ∧
    conn_cur c' = with_audit_log (log2 ++ [r]) (conn_cur (conn_of log2)) ∧
    ar_action r = str "READ" ∧ ar_actor r = str "user:default" ∧ ar_target r = str "db/password" ∧
    ar_target_version r = Some 3%Z ∧ ar_result r = str "SUCCESS" ∧
    audit_ordered (log2 ++ [r]) ∧ (@audit_verify_chain Toy.crypto key e0 w').1 = Ok ().
Proof.
  destruct (run_ok (@audit_log_event Toy.crypto [] (str "READ") (str "db/password") 3 (str "SUCCESS") key
    e0 (world_of log2))) as (u & w' & H); [vm_compute; reflexivity|].
  destruct (run_ok (@audit_verify_chain Toy.crypto key e0 (world_of log2))) as (u0 & w0 & H0);
    [vm_compute; reflexivity|].
  exists w'.
  apply (@audit_log_event_extends Toy.crypto Toy.laws [] (str "READ") (str "db/password") 3
    (str "SUCCESS") key e0 (world_of log2) u w' (conn_of log2) e0 u0 w0 e0).
  - reflexivity.
  - exact ordered2.
  - intros r Hr. etrans; [by apply ids_small|done].
  - reflexivity.
  - reflexivity.
  - done.
  - exact H0.
  - exact H.
  - exact (Sample.env_at_healthy _).
Defined.

Lemma audit_resign_chain_verifies_witness :
  @hashes_ok Toy.crypto zeros log2 = true ∧
  ∃ w' c' log', w_conn w' = Some c' ∧ conn_cur c' = with_audit_log log' (conn_cur (conn_of log2)) ∧
    Forall2 (λ r r', r' = sign_row (ar_hmac_signature r') r) log2 log' ∧
    (@audit_verify_chain Toy.crypto key' e0 w').1 = Ok ().
Proof.
  destruct (run_ok (@audit_resign_chain Toy.crypto key' e0 (world_of log2))) as (u & w' & H);
    [vm_compute; reflexivity|].
  destruct (@audit_resign_chain_verifies Toy.crypto Toy.laws key' e0 (world_of log2) u w' (conn_of log2) e0)
    as (Hh & c' & log' & E).
  - reflexivity.
  - exact ordered2.
  - exact ids_small.
  - exact H.
  - exact (Sample.env_at_healthy _).
  - split; [exact Hh|]. by exists w', c', log'.
Defined.

Lemma audit_anchored_root_binds_witness :
  log_entries log2 = log_entries log2 ∨
  @sha256_collision Toy.crypto (@root_collision Toy.crypto (ar_entry_hash <$> log2) (ar_entry_hash <$> log2)) ∨
  @sha256_collision Toy.crypto (texts_collision (rev log2) (rev log2)).
Proof.
  destruct (run_ok (@audit_verify_chain Toy.crypto key e0 (world_of log2))) as (u & w' & V);
    [vm_compute; reflexivity|].
  destruct (run_ok (@audit_compute_merkle_root Toy.crypto AUDIT_MERKLE_ROOT_BYTES e0 (world_of log2)))
    as ([root n] & r' & R); [vm_compute; reflexivity|].
  apply (@audit_anchored_root_binds Toy.crypto Toy.laws key e0 (world_of log2) u w' r' (conn_of log2)
    key e0 (world_of log2) u w' r' (conn_of log2) root n);
    [reflexivity|reflexivity| |exact V|exact R|exact V|exact R].
  intros r Hr. apply elem_of_app in Hr as [Hr|Hr]; (etrans; [by apply ids_small|done]).
Defined.

(** A row whose id does not fit an [int]: the signing pass reports success
    but writes the signature of the second row into the first, and the log
    no longer verifies under the new key. *)
Definition log_wide : list audit_row := Eval vm_compute in log1 ++ [row_after log1 4294967297].

Lemma resign_truncates_entry_id :
  (@audit_verify_chain Toy.crypto key e0 (world_of log_wide)).1 = Ok () ∧
  is_ok (@audit_resign_chain Toy.crypto key' e0 (world_of log_wide)).1 = true ∧
  ((@audit_resign_chain Toy.crypto key' ;; @audit_verify_chain Toy.crypto key') e0 (world_of log_wide)).1
    = Err SM_ERR_CRYPTO.
Proof. split_and!; vm_compute; reflexivity. Qed.

End AuditExample.
