(* ===== verification/Access.v ===== *)
(** Access tokens (src/src/access.c): scopes and what they allow, the signed
    payload of a token, issuing and verifying.

    The JSON library is vendored third-party code and a parameter: the class
    [Cjson], with what the code relies on in [CjsonLaws]. *)

From S2P Require Import Prelude Status Sodium Schema State Utils.
From Stdlib Require Import QArith Qround.
Local Open Scope nat_scope.
Local Open Scope stdpp_scope.

Definition ACCESS_SUBJECT_MAX : nat := 128.
Definition ACCESS_SCOPE_MAX : nat := 256.
Definition ACCESS_TOKEN_BUFFER_LEN : nat := 2048.
Definition ACCESS_TOKEN_PREFIX : bytes := str "fu1.".
Definition ACCESS_TOKEN_PREFIX_LEN : nat := 4.
Definition ACCESS_NONCE_BYTES : nat := 16.

(** A double that is an integer, 2^53 - 1. *)
Definition ACCESS_MAX_JSON_SECONDS : Z := 9007199254740991.

Record access_token_claims_t := Claims {
  tc_subject : bytes;
  tc_scope : bytes;
  tc_issued_at : Z;
  tc_expires_at : Z;
}.

(** * Scopes *)

Definition star : byte := Byte.x2a.
Definition colon : byte := Byte.x3a.
Definition comma : byte := Byte.x2c.
Definition slash : byte := Byte.x2f.
Definition dot : byte := Byte.x2e.

(** [strchr(l, b) - l], [memchr]. *)
Definition index_of (b : byte) (l : bytes) : option nat := fst <$> list_find (λ c, c = b) l.

(** [strncmp(a, b, n) == 0] *)
Definition strncmp_eq (a b : bytes) (n : nat) : bool :=
  bool_decide (take n (c_str a) = take n (c_str b)).

(** [p[i]] of a C string, its final NUL included. *)
Definition char_at (i : nat) (l : bytes) : byte := nth i l Byte.x00.

(** [allowed] points into the scope string, [allowed_len] bytes of it count. *)
Definition access_resource_matches (allowed : bytes) (allowed_len : nat) (required : bytes) : bool :=
  if (allowed_len =? 1)%nat && bool_decide (char_at 0 allowed = star) then true
  else
    let required_len := length (c_str required) in
    if (0 <? allowed_len)%nat && bool_decide (char_at (allowed_len - 1) allowed = star) then
      let prefix_len := (allowed_len - 1)%nat in
      if negb (strncmp_eq allowed required prefix_len) then false
      else if (0 <? prefix_len)%nat && negb (bool_decide (char_at (prefix_len - 1) allowed = slash)) then
        let next := char_at prefix_len required in
        negb (negb (bool_decide (next = Byte.x00)) && negb (bool_decide (next = slash)))
      else true
    else (allowed_len =? required_len)%nat && strncmp_eq allowed required required_len.

Definition access_one_scope_allows (token_scope : bytes) (token_scope_len : nat) (required_scope : bytes)
  : bool :=
  if (token_scope_len =? 0)%nat then false
  else if (token_scope_len =? 1)%nat && bool_decide (char_at 0 token_scope = star) then true
  else
    match index_of colon (take token_scope_len token_scope), index_of colon (c_str required_scope) with
    | Some token_action_len, Some required_action_len =>
        if (token_action_len =? 0)%nat || (required_action_len =? 0)%nat then false
        else if negb (((token_action_len =? 1)%nat && bool_decide (char_at 0 token_scope = star))
                      || ((token_action_len =? required_action_len)%nat
                          && strncmp_eq token_scope required_scope required_action_len)) then false
        else access_resource_matches (drop (token_action_len + 1) token_scope)
               (token_scope_len - token_action_len - 1) (drop (required_action_len + 1) required_scope)
    | _, _ => false
    end.

(** The loop over [cursor]; one turn per item. *)
Fixpoint scope_loop (fuel : nat) (cursor required_scope : bytes) : bool :=
  match fuel with
  | O => false
  | S fuel' =>
      if bool_decide (c_str cursor = []) then false
      else
        let comma_at := index_of comma (c_str cursor) in
        let scope_len := default (length (c_str cursor)) comma_at in
        if access_one_scope_allows cursor scope_len required_scope then true
        else match comma_at with
             | None => false
             | Some i => scope_loop fuel' (drop (i + 1) cursor) required_scope
             end
  end.

Definition access_scope_allows (token_scope required_scope : bytes) : bool :=
  if bool_decide (c_str token_scope = []) || bool_decide (c_str required_scope = []) then false
  else scope_loop (S (length (c_str token_scope))) (c_str token_scope) (c_str required_scope).

(** ** What a scope allows

    A scope is a comma-separated list of items [action:resource], or [*]. *)

(** A resource pattern: a literal, or a prefix followed by a star, which then
    ends at a slash of the resource or at its end. *)
Definition resource_allows (pattern resource : bytes) : Prop :=
  (pattern = resource ∧ last pattern ≠ Some star) ∨
  ∃ prefix rest, (pattern = prefix ++ [star]) ∧ (resource = prefix ++ rest) ∧
    (prefix = [] ∨ last prefix = Some slash ∨ rest = [] ∨ head rest = Some slash).

Definition item_allows (item required : bytes) : Prop :=
  item = [star] ∨
  ∃ action pattern action' resource,
    (item = action ++ (colon :: pattern)) ∧ (required = action' ++ (colon :: resource)) ∧
    (colon ∉ action) ∧ (colon ∉ action') ∧ action ≠ [] ∧ action' ≠ [] ∧
    (action = [star] ∨ action = action') ∧ resource_allows pattern resource.

Fixpoint split_on (b : byte) (l : bytes) : list bytes :=
  match l with
  | [] => [[]]
  | c :: l' =>
      if decide (c = b) then [] :: split_on b l'
      else match split_on b l' with
           | s :: ss => (c :: s) :: ss
           | [] => [[c]]
           end
  end.

Definition scope_allows (scope required : bytes) : Prop :=
  scope ≠ [] ∧ required ≠ [] ∧ ∃ item, item ∈ split_on comma scope ∧ item_allows item required.

(** ** Lemmas *)

Lemma index_of_Some b l i :
  index_of b l = Some i ↔ ∃ l1 l2, (l = l1 ++ (b :: l2)) ∧ (b ∉ l1) ∧ length l1 = i.
Proof.
  unfold index_of. split.
  - destruct (list_find _ l) as [[j c]|] eqn:E; [|done]. intros [= <-].
    apply list_find_Some in E as (Hj & -> & Hbefore).
    exists (take j l), (drop (S j) l). split_and!.
    + by rewrite <- (take_drop_middle _ _ _ Hj) at 1.
    + intros (k & Hk)%list_elem_of_lookup. apply lookup_take_Some in Hk as [Hk Hlt].
      exact (Hbefore _ _ Hk Hlt eq_refl).
    + rewrite length_take. apply lookup_lt_Some in Hj. lia.
  - intros (l1 & l2 & -> & Hn & <-).
    rewrite list_find_app_r.
    + cbn. rewrite decide_True by done. cbn. f_equal; lia.
    + apply list_find_None, Forall_forall. by intros x Hx ->.
Qed.

Lemma index_of_None b l : index_of b l = None ↔ b ∉ l.
Proof.
  unfold index_of. rewrite fmap_None, list_find_None, Forall_forall. split.
  - intros H Hb. by apply (H b).
  - by intros H x Hx ->.
Qed.

Lemma index_of_app b l1 l2 : b ∉ l1 → index_of b (l1 ++ b :: l2) = Some (length l1).
Proof. intros H. apply index_of_Some. by exists l1, l2. Qed.

Lemma char_at_lookup i l b : char_at i l = b → b ≠ Byte.x00 → l !! i = Some b.
Proof.
  unfold char_at. intros H Hb. destruct (l !! i) as [c|] eqn:E.
  - by rewrite (nth_lookup_Some _ _ _ _ E) in H; subst.
  - apply lookup_ge_None in E. by rewrite nth_overflow in H.
Qed.

Lemma take_c_str n l : Byte.x00 ∉ take n l → take n (c_str l) = take n l.
Proof.
  revert n. induction l as [|b l IH]; intros [|n] H; try done. cbn in *.
  rewrite not_elem_of_cons in H. destruct H as [Hb H]. rewrite decide_False by congruence.
  cbn. f_equal. by apply IH.
Qed.

Lemma split_on_nonempty b l : split_on b l ≠ [].
Proof. destruct l as [|c l]; cbn; [done|]. case_decide; [done|]. by destruct (split_on b l). Qed.

Lemma split_on_free b l : b ∉ l → split_on b l = [l].
Proof.
  induction l as [|c l IH]; intros H; [done|]. cbn. apply not_elem_of_cons in H as [Hb H].
  rewrite decide_False by congruence. by rewrite IH.
Qed.

Lemma split_on_app b l1 l2 : b ∉ l1 → split_on b (l1 ++ b :: l2) = l1 :: split_on b l2.
Proof.
  induction l1 as [|c l1 IH]; intros H; cbn; [by rewrite decide_True|].
  apply not_elem_of_cons in H as [Hb H]. rewrite decide_False by congruence. by rewrite IH.
Qed.

Lemma strncmp_eq_prefix a b n :
  Byte.x00 ∉ take n a → Byte.x00 ∉ b →
  strncmp_eq a b n = true ↔ take n a = take n b.
Proof.
  intros Ha Hb. unfold strncmp_eq. rewrite bool_decide_eq_true, take_c_str by done.
  by rewrite (c_str_no_nul b).
Qed.

Lemma char_at_app_l i l1 l2 : (i < length l1)%nat → char_at i (l1 ++ l2) = char_at i l1.
Proof. unfold char_at. apply app_nth1. Qed.

Lemma char_at_last l x : char_at (length l) (l ++ [x]) = x.
Proof. unfold char_at. rewrite app_nth2, Nat.sub_diag by lia. done. Qed.

Lemma char_at_rest n l1 l2 : length l1 = n → char_at n (l1 ++ l2) = default Byte.x00 (head l2).
Proof. intros <-. unfold char_at. rewrite app_nth2, Nat.sub_diag by lia. by destruct l2. Qed.

(** The end of the prefix and what follows it in the resource. *)
Lemma prefix_boundary q r tail rest :
  Byte.x00 ∉ r → r = q ++ rest →
  (if (0 <? length q)%nat && negb (bool_decide (char_at (length q - 1) (q ++ tail) = slash))
   then negb (negb (bool_decide (char_at (length q) r = Byte.x00))
              && negb (bool_decide (char_at (length q) r = slash)))
   else true) = true
  ↔ q = [] ∨ last q = Some slash ∨ rest = [] ∨ head rest = Some slash.
Proof.
  intros Hr ->. rewrite (char_at_rest (length q)) by done.
  assert (Byte.x00 ∉ rest) as Hrest by (intros H; apply Hr, elem_of_app; by right).
  assert (default Byte.x00 (head rest) = Byte.x00 ↔ rest = []) as H0.
  { destruct rest as [|c rest]; [done|]. cbn. apply not_elem_of_cons in Hrest as [Hc _].
    split; [congruence|done]. }
  assert (default Byte.x00 (head rest) = slash ↔ head rest = Some slash) as H1.
  { destruct rest as [|c rest]; cbn; [done|]. split; congruence. }
  destruct q as [|x q _] using rev_ind; [cbn; tauto|].
  rewrite length_app. cbn [length]. rewrite Nat.add_sub, char_at_app_l by (rewrite length_app; cbn; lia).
  rewrite char_at_last, last_snoc. rewrite (proj2 (Nat.ltb_lt _ _)) by lia. cbn [andb].
  assert (q ++ [x] ≠ []) as Hq by by destruct q.
  destruct (decide (x = slash)) as [->|Hx].
  - rewrite bool_decide_true by done. cbn. tauto.
  - rewrite bool_decide_false by done. cbn [negb].
    rewrite negb_andb, !negb_involutive, orb_true_iff, !bool_decide_eq_true, H0, H1.
    assert (Some x ≠ Some slash) by congruence. tauto.
Qed.

Lemma resource_matches_spec p tail r :
  Byte.x00 ∉ p → Byte.x00 ∉ r →
  access_resource_matches (p ++ tail) (length p) r = true ↔ resource_allows p r.
Proof.
  intros Hp Hr. unfold access_resource_matches. rewrite (c_str_no_nul r) by done.
  destruct p as [|x q _] using rev_ind.
  - cbn. split.
    + intros [Hl Hs]%andb_true_iff. left. destruct r; done.
    + intros [[<- _]|(q & rest & E & _)]; [done|by destruct q].
  - rewrite <- app_assoc. cbn [app]. rewrite length_app. cbn [length]. rewrite Nat.add_sub.
    assert (char_at (length q) (q ++ x :: tail) = x) as Hx.
    { unfold char_at. rewrite app_nth2, Nat.sub_diag by lia. done. }
    assert (Byte.x00 ∉ q) as Hq by (intros H; apply Hp, elem_of_app; by left).
    assert (∀ t, char_at 0 ([] ++ star :: t) = star) as Hx0 by done.
    rewrite Hx, (proj2 (Nat.ltb_lt _ _)) by lia. cbn [andb].
    destruct (decide (x = star)) as [->|Hne].
    + assert (resource_allows (q ++ [star]) r ↔ ∃ rest, r = q ++ rest ∧
        (q = [] ∨ last q = Some slash ∨ rest = [] ∨ head rest = Some slash)) as ->.
      { split.
        - intros [[_ H]|(q' & rest & E & -> & H)]; [by rewrite last_snoc in H|].
          apply app_inj_tail in E as [<- _]. by exists rest.
        - intros (rest & -> & H). right. exists q, rest. by split_and!. }
      rewrite (bool_decide_true (star = star)) by done. destruct (decide (q = [])) as [->|Hqe].
      { cbn [length Nat.add Nat.eqb]. rewrite Hx0, bool_decide_true by done. cbn [andb].
        split; [|reflexivity]. intros _. exists r. auto. }
      assert ((length q + 1 =? 1)%nat = false) as -> by (apply Nat.eqb_neq; destruct q; [done|cbn; lia]).
      cbn [andb]. destruct (strncmp_eq _ _ _) eqn:Ecmp; cbn [negb].
      * apply strncmp_eq_prefix in Ecmp; [|by rewrite take_app_length|done]. rewrite take_app_length in Ecmp.
        assert (r = q ++ drop (length q) r) as Er by (rewrite Ecmp at 1; by rewrite take_drop).
        rewrite (prefix_boundary q r (star :: tail) _ Hr Er). split.
        -- intros H. by exists (drop (length q) r).
        -- intros (rest & E & H). rewrite E, drop_app_length in *. done.
      * split; [done|]. intros (rest & -> & _). apply not_true_iff_false in Ecmp. destruct Ecmp.
        apply strncmp_eq_prefix; [by rewrite take_app_length|done|]. by rewrite !take_app_length.
    + rewrite (bool_decide_false (x = star)) by done.
      assert ((length q + 1 =? 1)%nat && bool_decide (char_at 0 (q ++ x :: tail) = star) = false) as ->.
      { apply andb_false_iff. destruct q; [right|left; apply Nat.eqb_neq; cbn; lia]. by rewrite bool_decide_false. }
      cbn [andb].
      rewrite andb_true_iff, Nat.eqb_eq. split.
      * intros [Hl Hc]. rewrite <- Hl in Hc.
        assert (take (length q + 1) (q ++ x :: tail) = q ++ [x]) as Ht.
        { rewrite take_app_ge by lia. by rewrite Nat.add_comm, Nat.add_sub. }
        apply strncmp_eq_prefix in Hc; [|by rewrite Ht|done]. rewrite Ht in Hc.
        left. rewrite last_snoc. split; [|congruence]. rewrite Hc. rewrite take_ge by lia. done.
      * intros [[<- _]|(q' & rest & E & _)].
        -- rewrite length_app. split; [done|]. cbn [length].
           assert (take (length q + 1) (q ++ x :: tail) = q ++ [x]) as Ht.
           { rewrite take_app_ge by lia. by rewrite Nat.add_comm, Nat.add_sub. }
           apply strncmp_eq_prefix; [by rewrite Ht|done|]. rewrite Ht. symmetry. apply take_ge. rewrite length_app. done.
        -- apply app_inj_tail in E as [_ ->]. done.
Qed.

Lemma item_allows_nil required : ¬ item_allows [] required.
Proof. intros [H|(a & p & a' & r & H & _)]; [done|by destruct a]. Qed.

(** The first occurrence of a separator splits a list in one way. *)
Lemma app_inj_first {A} (x : A) l1 l2 k1 k2 :
  l1 ++ (x :: k1) = l2 ++ (x :: k2) → x ∉ l1 → x ∉ l2 → l1 = l2 ∧ k1 = k2.
Proof.
  revert l2. induction l1 as [|y l1 IH]; intros [|z l2]; cbn; intros E H1 H2.
  - by injection E.
  - injection E as -> _. destruct H2. by left.
  - injection E as <- _. destruct H1. by left.
  - injection E as <- E. apply not_elem_of_cons in H1 as [_ H1], H2 as [_ H2].
    destruct (IH _ E H1 H2) as [-> ->]. done.
Qed.

(** The characters of a prefix, read as a C string. *)
Lemma take_c_str_app n l l' : Byte.x00 ∉ l → length l = n → take n (c_str (l ++ l')) = l.
Proof. intros Hl <-. rewrite take_c_str; by rewrite take_app_length. Qed.

Lemma action_matches action tail action' resource :
  Byte.x00 ∉ action → Byte.x00 ∉ action' →
  ((length action =? 1)%nat && bool_decide (char_at 0 (action ++ tail) = star))
  || ((length action =? length action')%nat
      && strncmp_eq (action ++ tail) (action' ++ resource) (length action')) = true
  ↔ action = [star] ∨ action = action'.
Proof.
  intros Ha Ha'. rewrite orb_true_iff, !andb_true_iff, !Nat.eqb_eq, bool_decide_eq_true.
  assert (length action = 1%nat ∧ char_at 0 (action ++ tail) = star ↔ action = [star]) as ->.
  { destruct action as [|x [|y l]]; cbn; [split; [lia|done]| |split; [lia|done]].
    unfold char_at. cbn. split; [intros [_ ->]|intros [= ->]]; done. }
  assert (length action = length action' ∧
          strncmp_eq (action ++ tail) (action' ++ resource) (length action') = true
          ↔ action = action') as ->; [|done].
  unfold strncmp_eq. rewrite bool_decide_eq_true. split.
  - intros [Hl E]. by rewrite !take_c_str_app in E.
  - intros ->. by rewrite !take_c_str_app.
Qed.

(** Both scopes split at their first colon. *)
Lemma one_scope_split a p tail a' r :
  Byte.x00 ∉ a → Byte.x00 ∉ p → Byte.x00 ∉ a' → Byte.x00 ∉ r → colon ∉ a → colon ∉ a' →
  access_one_scope_allows ((a ++ colon :: p) ++ tail) (length (a ++ colon :: p)) (a' ++ colon :: r) = true
  ↔ a ≠ [] ∧ a' ≠ [] ∧ (a = [star] ∨ a = a') ∧ resource_allows p r.
Proof.
  intros Ha Hp Ha' Hr Hca Hca'. unfold access_one_scope_allows.
  assert (Byte.x00 ∉ a' ++ colon :: r) as Hreq.
  { rewrite elem_of_app, elem_of_cons. intros [H|[H|H]]; done. }
  rewrite take_app_length, (c_str_no_nul _ Hreq), !index_of_app by done.
  assert ((length (a ++ colon :: p) =? 0)%nat = false) as -> by (rewrite length_app; cbn; apply Nat.eqb_neq; lia).
  assert ((length (a ++ colon :: p) =? 1)%nat
          && bool_decide (char_at 0 ((a ++ colon :: p) ++ tail) = star) = false) as ->.
  { apply andb_false_iff. destruct a as [|x a]; [right; by apply bool_decide_eq_false|left].
    rewrite length_app. apply Nat.eqb_neq. cbn. lia. }
  destruct (decide (a = [])) as [->|Hae]; [by split; [|intros [? _]]|].
  destruct (decide (a' = [])) as [->|Hae'].
  { cbn [length]. rewrite orb_true_r. split; [done|intros (_ & ? & _); done]. }
  assert ((length a =? 0)%nat || (length a' =? 0)%nat = false) as ->.
  { apply orb_false_iff. split; apply Nat.eqb_neq; [by destruct a|by destruct a']. }
  rewrite <- app_assoc. cbn [app].
  assert (∀ (l t : bytes) x, drop (length l + 1) (l ++ x :: t) = t) as Hdrop.
  { intros l t x. rewrite <- drop_drop, drop_app_length. done. }
  rewrite !Hdrop, length_app. cbn [length].
  replace (length a + S (length p) - length a - 1)%nat with (length p) by lia.
  pose proof (action_matches a (colon :: p ++ tail) a' (colon :: r) Ha Ha') as Hact.
  destruct (_ || _) eqn:E; cbn [negb].
  - rewrite resource_matches_spec by done. destruct Hact as [Hact _]. specialize (Hact eq_refl). tauto.
  - split; [done|]. intros (_ & _ & H & _). apply Hact in H. done.
Qed.

(** Without a colon on both sides only the star allows. *)
Lemma one_scope_no_split item tail required :
  item ≠ [star] → index_of colon item = None ∨ index_of colon (c_str required) = None →
  access_one_scope_allows (item ++ tail) (length item) required = false.
Proof.
  intros Hs H. unfold access_one_scope_allows. rewrite take_app_length.
  destruct (_ =? 0)%nat; [done|].
  assert ((length item =? 1)%nat && bool_decide (char_at 0 (item ++ tail) = star) = false) as ->.
  { apply andb_false_iff. destruct item as [|x [|y l]]; [by left| |by left]. right.
    apply bool_decide_eq_false. unfold char_at. cbn. congruence. }
  destruct H as [->| ->]; [done|]. by destruct (index_of _ _).
Qed.

Lemma one_scope_spec item tail required :
  Byte.x00 ∉ item → Byte.x00 ∉ required →
  access_one_scope_allows (item ++ tail) (length item) required = true ↔ item_allows item required.
Proof.
  intros Hi Hr. destruct (decide (item = [star])) as [->|Hs].
  { split; [by left|]. intros _. unfold access_one_scope_allows. done. }
  destruct (index_of colon item) as [i|] eqn:Ei; destruct (index_of colon required) as [j|] eqn:Ej.
  2-4: rewrite one_scope_no_split by (rewrite ?(c_str_no_nul required) by done; auto);
    split; [done|]; intros [->|(a & p & a' & r & -> & -> & Ha & Ha' & _)]; [done|];
    rewrite index_of_app in Ei, Ej by done; done.
  apply index_of_Some in Ei as (a & p & -> & Hca & _).
  apply index_of_Some in Ej as (a' & r & -> & Hca' & _).
  rewrite elem_of_app, elem_of_cons in Hi, Hr.
  rewrite one_scope_split by tauto. split.
  - intros (? & ? & ? & ?). right. exists a, p, a', r. by split_and!.
  - intros [?|(b & q & b' & s & E & E' & Hb & Hb' & H)]; [done|].
    apply app_inj_first in E as [<- <-]; [|done..].
    apply app_inj_first in E' as [<- <-]; [|done..]. tauto.
Qed.

Lemma scope_loop_spec fuel cursor required :
  (length cursor < fuel)%nat → Byte.x00 ∉ cursor → Byte.x00 ∉ required →
  scope_loop fuel cursor required = true ↔
  ∃ item, item ∈ split_on comma cursor ∧ item_allows item required.
Proof.
  revert cursor. induction fuel as [|fuel IH]; intros cursor Hf Hc Hr; [lia|]. cbn [scope_loop].
  rewrite (c_str_no_nul cursor) by done. case_bool_decide as Hne.
  { subst. cbn [split_on]. split; [done|]. intros (item & ->%list_elem_of_singleton & H%item_allows_nil). done. }
  destruct (index_of comma cursor) as [i|] eqn:Ei; cbn [default].
  - apply index_of_Some in Ei as (l1 & l2 & -> & Hl1 & <-). rewrite split_on_app by done.
    rewrite elem_of_app, elem_of_cons in Hc. setoid_rewrite elem_of_cons.
    assert (drop (length l1 + 1) (l1 ++ comma :: l2) = l2) as -> by (rewrite <- drop_drop, drop_app_length; done).
    pose proof (one_scope_spec l1 (comma :: l2) required ltac:(tauto) Hr) as H1.
    pose proof (IH l2 ltac:(rewrite length_app in Hf; cbn in Hf; lia) ltac:(tauto) Hr) as H2.
    destruct (access_one_scope_allows _ _ _).
    + split; [|done]. intros _. exists l1. split; [by left|by apply H1].
    + rewrite H2. split; [intros (item & ? & ?); eauto|].
      intros (item & [->|Hin] & H); [apply H1 in H; done|eauto].
  - apply index_of_None in Ei. rewrite split_on_free by done.
    pose proof (one_scope_spec cursor [] required Hc Hr) as H1. rewrite app_nil_r in H1.
    destruct (access_one_scope_allows _ _ _).
    + split; [|done]. intros _. exists cursor. split; [by apply list_elem_of_singleton|by apply H1].
    + split; [done|]. intros (item & ->%list_elem_of_singleton & H). apply H1 in H. done.
Qed.

Lemma scope_allows_iff token_scope required_scope :
  access_scope_allows token_scope required_scope = true ↔
  scope_allows (c_str token_scope) (c_str required_scope).
Proof.
  unfold access_scope_allows, scope_allows.
  destruct (bool_decide (c_str token_scope = []) || bool_decide (c_str required_scope = [])) eqn:E.
  - split; [done|]. intros (? & ? & _). apply orb_true_iff in E as [E|E];
      by apply bool_decide_eq_true in E.
  - apply orb_false_iff in E as [E1%bool_decide_eq_false E2%bool_decide_eq_false].
    rewrite scope_loop_spec by (try apply c_str_nul_free; lia). tauto.
Qed.

(** C22: [access_scope_allows] accepts exactly when one of the comma-separated
    items of the token's scope is the star, or has the action (or any) and a
    resource pattern that matches: literally, or by a prefix and a final star
    that ends at a slash or at the end of the resource. *)
Theorem access_scope_allows_spec token_scope required_scope :
  access_scope_allows token_scope required_scope = true ↔
  scope_allows (c_str token_scope) (c_str required_scope).
Proof. apply scope_allows_iff. Qed.

(** The star spans any number of path segments, but not part of one. *)
Example scope_star_deep : access_scope_allows (str "read:db/*") (str "read:db/a/b") = true.
Proof. reflexivity. Qed.
Example scope_star_bare : access_scope_allows (str "read:db*") (str "read:db-secret") = false.
Proof. reflexivity. Qed.
Example scope_list : access_scope_allows (str "write:x,read:db") (str "read:db") = true.
Proof. reflexivity. Qed.
Example scope_no_action : access_scope_allows (str ":db") (str ":db") = false.
Proof. reflexivity. Qed.

(** * The JSON library

    A member of a parsed object: a number with the integer and the double
    cJSON keeps for it ([None] for an infinity), a string, or anything else. *)

Inductive json_item :=
| JNumber (valueint : Z) (valuedouble : option Q)
| JString (valuestring : bytes)
| JOther.

(** [cJSON_CreateNumber] of an integral double. *)
Definition json_number (z : Z) : json_item :=
  JNumber (Z.max INT_MIN (Z.min INT_MAX z)) (Some (inject_Z z)).

Definition json_object : Type := list (bytes * json_item).

Class Cjson := {
  cJSON_PrintUnformatted : json_object → bytes;
  cJSON_ParseWithLength : bytes → option json_object;
}.

(** What survives printing and parsing: strings without NUL and numbers that
    the fifteen digits of the printer carry, under distinct names. *)
Definition json_printable (i : json_item) : Prop :=
  match i with
  | JNumber _ _ => ∃ z, i = json_number z ∧ (Z.abs z < 10 ^ 15)%Z
  | JString s => Byte.x00 ∉ s
  | JOther => False
  end.

Class CjsonLaws (J : Cjson) : Prop := {
  cjson_parse_print (o : json_object) :
    Forall (λ m, Byte.x00 ∉ m.1 ∧ json_printable m.2) o → NoDup o.*1 →
    cJSON_ParseWithLength (cJSON_PrintUnformatted o) = Some o;
  cjson_print_text (o : json_object) :
    Byte.x00 ∉ cJSON_PrintUnformatted o ∧ cJSON_PrintUnformatted o ≠ [];
}.

(** [cJSON_GetObjectItemCaseSensitive]: the first member of that name. *)
Definition json_member (root : json_object) (name : bytes) : option json_item :=
  snd <$> head (filter (λ m, m.1 = name) root).

(** * Tokens *)

Definition access_init_sodium : M unit := lib_call SM_ERR_CRYPTO.

Definition access_copy_claim (output_len : nat) (input : bytes) : outcome bytes :=
  check (negb (output_len =? 0)%nat && negb (bool_decide (c_str input = []))) SM_ERR_INVALID_ARGUMENT ;;
  check (length (c_str input) <? output_len)%nat SM_ERR_INVALID_ARGUMENT ;;
  Ok (c_str input).

Definition access_now : M Z :=
  current ← time_null;
  guard_or (negb ((current =? -1)%Z || (current <? 0)%Z)) SM_ERR_STORAGE ;;
  mret current.

Definition access_validate_key (kek_token : bytes) : outcome unit :=
  check (length kek_token =? crypto_auth_KEYBYTES)%nat SM_ERR_INVALID_ARGUMENT.

(** The value of a JSON number as a [uint64_t]: the double is truncated. *)
Definition access_json_uint64 (root : json_object) (name : bytes) : outcome Z :=
  match json_member root name with
  | Some (JNumber _ (Some number)) =>
      if negb (Qle_bool 0 number) || negb (Qle_bool number (inject_Z ACCESS_MAX_JSON_SECONDS))
      then Err SM_ERR_AUTH else Ok (Qfloor number)
  | _ => Err SM_ERR_AUTH
  end.

Definition access_json_string (root : json_object) (name : bytes) (output_len : nat) : outcome bytes :=
  match json_member root name with
  | Some (JString valuestring) => access_copy_claim output_len valuestring
  | _ => Err SM_ERR_AUTH
  end.

(** The two fields of a token after its prefix. *)
Definition access_extract_token_parts (token : bytes) : M (bytes * bytes) :=
  let token_len := length (c_str token) in
  guard_or (negb ((token_len <=? ACCESS_TOKEN_PREFIX_LEN)%nat || (ACCESS_TOKEN_BUFFER_LEN <? token_len)%nat
                  || negb (strncmp_eq token ACCESS_TOKEN_PREFIX ACCESS_TOKEN_PREFIX_LEN))) SM_ERR_AUTH ;;
  let payload_start := drop ACCESS_TOKEN_PREFIX_LEN (c_str token) in
  match index_of dot payload_start with
  | None => throw SM_ERR_AUTH
  | Some payload_len =>
      guard_or (negb (payload_len =? 0)%nat) SM_ERR_AUTH ;;
      let signature_start := drop (payload_len + 1) payload_start in
      guard_or (negb (bool_decide (signature_start = []) || bool_decide (is_Some (index_of dot signature_start))))
        SM_ERR_AUTH ;;
      lib_call SM_ERR_STORAGE ;;
      lib_call SM_ERR_STORAGE ;;
      mret (take payload_len payload_start, signature_start)
  end.

Definition access_compose_token (payload_b64 signature_b64 : bytes) (token_len : nat) : outcome bytes :=
  check (negb (token_len =? 0)%nat) SM_ERR_INVALID_ARGUMENT ;;
  let text := ACCESS_TOKEN_PREFIX ++ c_str payload_b64 ++ [dot] ++ c_str signature_b64 in
  check (length text <? token_len)%nat SM_ERR_INVALID_ARGUMENT ;;
  Ok text.

Section Access.
Context {CR : Crypto} {J : Cjson}.

Definition access_make_nonce_b64 (nonce_b64_len : nat) : M bytes :=
  guard_or (negb (nonce_b64_len =? 0)%nat) SM_ERR_INVALID_ARGUMENT ;;
  nonce ← randombytes_buf ACCESS_NONCE_BYTES;
  utils_base64_encode nonce nonce_b64_len.

Definition token_payload (subject scope : bytes) (issued_at expires_at : Z) (nonce_b64 : bytes)
  : json_object :=
  [(str "v", json_number 1); (str "sub", JString (c_str subject)); (str "scope", JString (c_str scope));
   (str "iat", json_number issued_at); (str "exp", json_number expires_at);
   (str "nonce", JString (c_str nonce_b64))].

(** Creating the object, its six members and its text may each fail. *)
Definition access_build_payload (subject scope : bytes) (issued_at expires_at : Z) : M bytes :=
  nonce_b64 ← access_make_nonce_b64 (sodium_base64_ENCODED_LEN ACCESS_NONCE_BYTES);
  lib_call SM_ERR_STORAGE ;;
  for_each (λ _, lib_call SM_ERR_STORAGE) (token_payload subject scope issued_at expires_at nonce_b64) ;;
  lib_call SM_ERR_STORAGE ;;
  mret (c_str (cJSON_PrintUnformatted (token_payload subject scope issued_at expires_at nonce_b64))).

Definition access_b64_encode_alloc (input : bytes) : M bytes :=
  lib_call SM_ERR_STORAGE ;;
  utils_base64_encode input (sodium_base64_ENCODED_LEN (length input)).

Definition access_decode_payload (payload_b64 : bytes) : M bytes :=
  let input_len := length (c_str payload_b64) in
  guard_or (negb ((input_len =? 0)%nat || (ACCESS_TOKEN_BUFFER_LEN <? input_len)%nat)) SM_ERR_AUTH ;;
  lib_call SM_ERR_STORAGE ;;
  as_status SM_ERR_AUTH (utils_base64_decode payload_b64 input_len).

Definition access_decode_signature (signature_b64 : bytes) : M bytes :=
  decoded ← as_status SM_ERR_AUTH (utils_base64_decode signature_b64 crypto_auth_BYTES);
  guard_or (length decoded =? crypto_auth_BYTES)%nat SM_ERR_AUTH ;;
  mret decoded.

(** [cJSON_IsNumber(version) && version->valueint == 1] *)
Definition version_is_1 (root : json_object) : bool :=
  match json_member root (str "v") with
  | Some (JNumber valueint _) => (valueint =? 1)%Z
  | _ => false
  end.

Definition access_parse_claims (payload : bytes) : M access_token_claims_t :=
  guard_or (negb (length payload =? 0)%nat) SM_ERR_INVALID_ARGUMENT ;;
  lib_call SM_ERR_AUTH ;;
  root ← lift (from_option_or SM_ERR_AUTH (cJSON_ParseWithLength payload));
  guard_or (version_is_1 root) SM_ERR_AUTH ;;
  subject ← lift (access_json_string root (str "sub") ACCESS_SUBJECT_MAX);
  scope ← lift (access_json_string root (str "scope") ACCESS_SCOPE_MAX);
  issued_at ← lift (access_json_uint64 root (str "iat"));
  expires_at ← lift (access_json_uint64 root (str "exp"));
  guard_or (negb (expires_at <=? issued_at)%Z) SM_ERR_AUTH ;;
  (match json_member root (str "nonce") with
   | Some (JString valuestring) =>
       nonce_bytes ← as_status SM_ERR_AUTH (utils_base64_decode valuestring ACCESS_NONCE_BYTES);
       guard_or (length nonce_bytes =? ACCESS_NONCE_BYTES)%nat SM_ERR_AUTH
   | _ => throw SM_ERR_AUTH
   end) ;;
  mret (Claims subject scope issued_at expires_at).

(** [expires_at > 2^53 - 1] as doubles is the comparison of the integers: the
    bound is exact and the conversion is monotone. *)
Definition access_issue_token (subject scope : bytes) (ttl_seconds : Z) (kek_token : bytes)
    (token_len : nat) : M bytes :=
  guard_or (negb (ttl_seconds =? 0)%Z && negb (token_len =? 0)%nat) SM_ERR_INVALID_ARGUMENT ;;
  lift (access_validate_key kek_token) ;;
  access_init_sodium ;;
  subject_copy ← lift (access_copy_claim ACCESS_SUBJECT_MAX subject);
  scope_copy ← lift (access_copy_claim ACCESS_SCOPE_MAX scope);
  issued_at ← access_now;
  guard_or (ttl_seconds <=? UINT64_MAX - issued_at)%Z SM_ERR_INVALID_ARGUMENT ;;
  let expires_at := (issued_at + ttl_seconds)%Z in
  guard_or (expires_at <=? ACCESS_MAX_JSON_SECONDS)%Z SM_ERR_INVALID_ARGUMENT ;;
  payload ← access_build_payload subject_copy scope_copy issued_at expires_at;
  lib_call SM_ERR_CRYPTO ;;
  let signature := crypto_auth payload kek_token in
  payload_b64 ← access_b64_encode_alloc payload;
  signature_b64 ← access_b64_encode_alloc signature;
  lift (access_compose_token payload_b64 signature_b64 token_len).

(** [required_scope] may be NULL: no scope is required then. *)
Definition access_verify_token (token : bytes) (required_scope : option bytes) (kek_token : bytes)
  : M access_token_claims_t :=
  guard_or (negb (bool_decide (c_str token = []))) SM_ERR_INVALID_ARGUMENT ;;
  lift (access_validate_key kek_token) ;;
  access_init_sodium ;;
  '(payload_b64, signature_b64) ← access_extract_token_parts token;
  payload ← access_decode_payload payload_b64;
  signature ← access_decode_signature signature_b64;
  guard_or (crypto_auth_verify signature payload kek_token) SM_ERR_AUTH ;;
  parsed ← access_parse_claims payload;
  now ← access_now;
  guard_or (negb (tc_expires_at parsed <=? now)%Z) SM_ERR_AUTH ;;
  guard_or (match required_scope with
            | None => true
            | Some required => bool_decide (c_str required = [])
                               || access_scope_allows (tc_scope parsed) required
            end) SM_ERR_AUTH ;;
  mret parsed.

End Access.

(** * Issuing and verifying *)

Section Tokens.
Context {CR : Crypto} {CL : CryptoLaws CR} {J : Cjson} {JL : CjsonLaws J}.

Lemma base64_no_nul m : Byte.x00 ∉ base64_encode m.
Proof. intros H. pose proof (base64_alphabet m) as F. rewrite Forall_forall in F. by destruct (F _ H). Qed.

Lemma base64_no_dot m : dot ∉ base64_encode m.
Proof. intros H. pose proof (base64_alphabet m) as F. rewrite Forall_forall in F. by destruct (F _ H). Qed.

Lemma base64_nonempty m : m ≠ [] → base64_encode m ≠ [].
Proof.
  intros Hm E. pose proof (length_base64_encode m) as L. rewrite E in L. destruct m as [|x m]; [done|].
  cbn [length] in L. assert (1 ≤ (S (length m) + 2) / 3) by (apply Nat.div_le_lower_bound; lia). lia.
Qed.

Lemma length_base64_le m : length m ≤ length (base64_encode m).
Proof. rewrite length_base64_encode. pose proof (Nat.div_mod_eq (length m + 2) 3).
  pose proof (Nat.mod_upper_bound (length m + 2) 3). lia. Qed.

Lemma base64_decode_run m n e w :
  healthy e → length m ≤ n → utils_base64_decode (base64_encode m) n e w = (Ok m, called w).
Proof.
  intros He Hn. unfold utils_base64_decode, utils_init_sodium. rewrite lib_call_run by done.
  rewrite (c_str_no_nul _ (base64_no_nul m)), base64_decode_encode, (proj2 (Nat.leb_le _ _)) by done. done.
Qed.

Lemma base64_encode_ok input n e w s w' :
  utils_base64_encode input n e w = (Ok s, w') → s = base64_encode input ∧ w' = called w.
Proof. unfold utils_base64_encode, utils_init_sodium. intros H. inv_m. done. Qed.

(** The text of a token. *)
Definition token_text (payload signature : bytes) : bytes :=
  ACCESS_TOKEN_PREFIX ++ base64_encode payload ++ [dot] ++ base64_encode signature.

Definition issued_payload (subject scope nonce : bytes) (issued_at expires_at : Z) : bytes :=
  cJSON_PrintUnformatted
    (token_payload (c_str subject) (c_str scope) issued_at expires_at (base64_encode nonce)).

Lemma token_text_no_nul payload signature : Byte.x00 ∉ token_text payload signature.
Proof.
  unfold token_text. rewrite !elem_of_app. pose proof (base64_no_nul payload).
  pose proof (base64_no_nul signature). intros [H1|[H1|[H1|H1]]]; try done.
  - revert H1. apply (bool_decide_unpack _). vm_compute. exact I.
  - by apply list_elem_of_singleton in H1.
Qed.

Lemma copy_claim_ok n input s :
  access_copy_claim n input = Ok s → s = c_str input ∧ c_str input ≠ [] ∧ length (c_str input) < n.
Proof.
  unfold access_copy_claim. intros H. inv_outcome.
  repeat match goal with H : _ && _ = true |- _ => apply andb_true_iff in H as [? ?] end.
  split_and!; [done| |by apply Nat.ltb_lt].
  match goal with H : negb (bool_decide _) = true |- _ => by apply negb_true_iff, bool_decide_eq_false in H end.
Qed.

Lemma compose_token_ok payload signature n token :
  access_compose_token (base64_encode payload) (base64_encode signature) n = Ok token →
  token = token_text payload signature ∧ length token < n.
Proof.
  unfold access_compose_token. rewrite !c_str_no_nul by apply base64_no_nul. intros H. inv_outcome.
  split; [done|by apply Nat.ltb_lt].
Qed.

Lemma issue_token_ok subject scope ttl k n e w token w' :
  access_issue_token subject scope ttl k n e w = (Ok token, w') →
  let iat := env_clock e (w_ticks w) in
  ∃ nonce, length nonce = ACCESS_NONCE_BYTES ∧
    token = (let p := issued_payload subject scope nonce iat (iat + ttl) in token_text p (crypto_auth p k)) ∧
    (c_str subject ≠ [] ∧ length (c_str subject) < ACCESS_SUBJECT_MAX) ∧
    (c_str scope ≠ [] ∧ length (c_str scope) < ACCESS_SCOPE_MAX) ∧
    (0 ≤ iat)%Z ∧ (iat + ttl ≤ ACCESS_MAX_JSON_SECONDS)%Z ∧
    length token < n ∧ length k = crypto_auth_KEYBYTES.
Proof.
  unfold access_issue_token, access_init_sodium, access_now, time_null, access_build_payload,
    access_make_nonce_b64, access_b64_encode_alloc. intros H. inv_m.
  repeat match goal with
    | H : utils_base64_encode _ _ _ _ = (Ok _, _) |- _ => apply base64_encode_ok in H as [-> ->]
    | H : access_copy_claim _ _ = Ok _ |- _ => apply copy_claim_ok in H as (-> & ? & ?)
    | H : (Ok _, _) = (Ok _, _) |- _ => injection H as <- <-
    | H : access_validate_key _ = Ok ?u |- _ => destruct u; apply check_ok, Nat.eqb_eq in H
    | H : access_compose_token _ _ _ = Ok _ |- _ => apply compose_token_ok in H as [-> ?]
    | H : (_ <=? _)%Z = true |- _ => apply Z.leb_le in H
    | H : negb (_ || (_ <? 0)%Z) = true |- _ => apply negb_true_iff, orb_false_iff in H as [_ H%Z.ltb_ge]
    end.
  match goal with H : length ?r = ACCESS_NONCE_BYTES |- _ => exists r end. cbn zeta. unfold issued_payload.
  rewrite !(c_str_no_nul _ (proj1 (cjson_print_text _))) in *. split_and!; done.
Qed.

(** The payload reads back as what was put in. *)
Lemma payload_members subject scope iat exp nonce :
  let o := token_payload subject scope iat exp nonce in
  version_is_1 o = true ∧ json_member o (str "sub") = Some (JString (c_str subject)) ∧
  json_member o (str "scope") = Some (JString (c_str scope)) ∧
  json_member o (str "iat") = Some (json_number iat) ∧
  json_member o (str "exp") = Some (json_number exp) ∧
  json_member o (str "nonce") = Some (JString (c_str nonce)).
Proof. cbn zeta. split_and!; reflexivity. Qed.

Lemma payload_parses subject scope iat exp nonce :
  (0 ≤ iat < 10 ^ 15)%Z → (0 ≤ exp < 10 ^ 15)%Z →
  let o := token_payload subject scope iat exp nonce in
  cJSON_ParseWithLength (cJSON_PrintUnformatted o) = Some o.
Proof.
  intros Hi Hx. apply cjson_parse_print.
  - assert (∀ z, (0 ≤ z < 10 ^ 15)%Z → json_printable (json_number z)) as Hn by (intros z Hz; exists z; split; [done|lia]).
    repeat apply Forall_cons_2; [..|apply Forall_nil_2]; cbn [fst snd];
      (split; [apply (bool_decide_unpack _); vm_compute; exact I|]);
      first [apply Hn; lia|apply c_str_nul_free].
  - apply (bool_decide_unpack _). vm_compute. exact I.
Qed.

Lemma json_uint64_number o name z :
  json_member o name = Some (json_number z) → (0 ≤ z ≤ ACCESS_MAX_JSON_SECONDS)%Z →
  access_json_uint64 o name = Ok z.
Proof.
  intros E Hz. unfold access_json_uint64. rewrite E. unfold json_number.
  rewrite (proj2 (Qle_bool_iff 0 (inject_Z z))) by (change 0%Q with (inject_Z 0); rewrite <- Zle_Qle; lia).
  rewrite (proj2 (Qle_bool_iff (inject_Z z) _)) by (rewrite <- Zle_Qle; lia).
  cbn [negb orb]. by rewrite Qfloor_Z.
Qed.

Lemma copy_claim_run n s : Byte.x00 ∉ s → s ≠ [] → length s < n → access_copy_claim n s = Ok s.
Proof.
  intros Hz Hne Hl. unfold access_copy_claim. rewrite (c_str_no_nul _ Hz).
  rewrite (proj2 (Nat.eqb_neq _ _)) by lia. rewrite bool_decide_false by done.
  rewrite (proj2 (Nat.ltb_lt _ _)) by done. done.
Qed.

Lemma parse_claims_run subject scope nonce iat exp e w :
  healthy e → length nonce = ACCESS_NONCE_BYTES →
  c_str subject ≠ [] ∧ length (c_str subject) < ACCESS_SUBJECT_MAX →
  c_str scope ≠ [] ∧ length (c_str scope) < ACCESS_SCOPE_MAX →
  (0 ≤ iat < exp)%Z → (exp < 10 ^ 15)%Z →
  access_parse_claims (issued_payload subject scope nonce iat exp) e w
  = (Ok (Claims (c_str subject) (c_str scope) iat exp), called (called w)).
Proof.
  intros He Hn [Hs Hsl] [Hc Hcl] Hi Hx. unfold access_parse_claims, issued_payload.
  set (o := token_payload _ _ _ _ _).
  destruct (payload_members (c_str subject) (c_str scope) iat exp (base64_encode nonce))
    as (Ev & Esub & Esc & Ei & Ee & En). fold o in Ev, Esub, Esc, Ei, Ee, En.
  rewrite c_str_idemp in Esub, Esc. rewrite (c_str_no_nul _ (base64_no_nul nonce)) in En.
  rewrite guard_run by (apply negb_true_iff, Nat.eqb_neq; destruct (cjson_print_text o) as [_ Hne];
    by destruct (cJSON_PrintUnformatted o)).
  rewrite lib_call_run by done. unfold o at 1. rewrite payload_parses by lia. fold o.
  rewrite (bind_run _ _ _ _ o _ eq_refl). rewrite guard_run by done.
  assert (access_json_string o (str "sub") ACCESS_SUBJECT_MAX = Ok (c_str subject)) as ->.
  { unfold access_json_string. rewrite Esub. by apply copy_claim_run; [apply c_str_nul_free|..]. }
  assert (access_json_string o (str "scope") ACCESS_SCOPE_MAX = Ok (c_str scope)) as ->.
  { unfold access_json_string. rewrite Esc. by apply copy_claim_run; [apply c_str_nul_free|..]. }
  rewrite (json_uint64_number _ _ _ Ei), (json_uint64_number _ _ _ Ee) by (unfold ACCESS_MAX_JSON_SECONDS; lia).
  do 4 (rewrite (bind_run _ _ _ _ _ _ eq_refl)). cbv beta.
  rewrite guard_run by (apply negb_true_iff, Z.leb_gt; lia). rewrite En.
  rewrite (bind_run _ _ _ _ () (called (called w))); [reflexivity|].
  erewrite bind_run; [|unfold as_status; rewrite base64_decode_run by (done || lia); reflexivity].
  by apply guard_ok; rewrite Hn.
Qed.

Lemma crypto_auth_nonempty p k : crypto_auth p k ≠ [].
Proof. intros E. pose proof (length_crypto_auth p k) as L. by rewrite E in L. Qed.

Lemma token_text_not_empty p s : token_text p s ≠ [].
Proof. done. Qed.

Lemma extract_run payload signature e w :
  healthy e → payload ≠ [] → signature ≠ [] → length (token_text payload signature) ≤ ACCESS_TOKEN_BUFFER_LEN →
  access_extract_token_parts (token_text payload signature) e w
  = (Ok (base64_encode payload, base64_encode signature), called (called w)).
Proof.
  intros He Hp Hs Hl. unfold access_extract_token_parts.
  rewrite (c_str_no_nul _ (token_text_no_nul payload signature)).
  apply base64_nonempty in Hp, Hs. pose proof (base64_no_dot payload). pose proof (base64_no_dot signature).
  unfold token_text in *. set (p := base64_encode payload) in *. set (s := base64_encode signature) in *.
  rewrite guard_run.
  2:{ rewrite negb_true_iff, !orb_false_iff, negb_false_iff. split_and!.
      - apply Nat.leb_gt. rewrite !length_app. assert (0 < length p) by (by destruct p; [|cbn; lia]).
        change (length ACCESS_TOKEN_PREFIX) with ACCESS_TOKEN_PREFIX_LEN. lia.
      - apply Nat.ltb_ge. exact Hl.
      - unfold strncmp_eq. apply bool_decide_eq_true. reflexivity. }
  change (drop ACCESS_TOKEN_PREFIX_LEN (ACCESS_TOKEN_PREFIX ++ p ++ [dot] ++ s)) with (p ++ dot :: s).
  rewrite index_of_app by done.
  rewrite guard_run by (apply negb_true_iff, Nat.eqb_neq; by destruct p).
  rewrite <- drop_drop, drop_app_length. cbn [drop]. rewrite drop_0, take_app_length.
  rewrite guard_run.
  2:{ rewrite (proj2 (index_of_None dot s)) by done. rewrite !bool_decide_false; [done|by intros [? ?]|done]. }
  by rewrite !lib_call_run.
Qed.

Lemma decode_payload_run payload e w :
  healthy e → payload ≠ [] → length (base64_encode payload) ≤ ACCESS_TOKEN_BUFFER_LEN →
  access_decode_payload (base64_encode payload) e w = (Ok payload, called (called w)).
Proof.
  intros He Hp Hl. apply base64_nonempty in Hp as Hp'. unfold access_decode_payload.
  rewrite (c_str_no_nul _ (base64_no_nul payload)).
  rewrite guard_run.
  2:{ rewrite negb_true_iff, !orb_false_iff. split; [apply Nat.eqb_neq; by destruct (base64_encode payload)|].
      by apply Nat.ltb_ge. }
  rewrite lib_call_run by done. unfold as_status. by rewrite base64_decode_run by (done || apply length_base64_le).
Qed.

Lemma decode_signature_run signature e w :
  healthy e → length signature = crypto_auth_BYTES →
  access_decode_signature (base64_encode signature) e w = (Ok signature, called w).
Proof.
  intros He Hl. unfold access_decode_signature.
  rewrite (bind_run _ _ _ _ signature (called w)) by (unfold as_status; rewrite base64_decode_run by (done || lia); done).
  rewrite guard_run by (by apply Nat.eqb_eq). done.
Qed.

(** What is left of verification once the token is authentic. *)
Definition claims_check (claims : access_token_claims_t) (required_scope : option bytes) (now : Z)
  : outcome access_token_claims_t :=
  if (now <? tc_expires_at claims)%Z
     && match required_scope with
        | None => true
        | Some required => bool_decide (c_str required = []) || access_scope_allows (tc_scope claims) required
        end
  then Ok claims else Err SM_ERR_AUTH.

Lemma verify_issued subject scope nonce iat exp k required e w :
  let p := issued_payload subject scope nonce iat exp in
  let token := token_text p (crypto_auth p k) in
  healthy e → (0 ≤ env_clock e (w_ticks w))%Z →
  length token ≤ ACCESS_TOKEN_BUFFER_LEN → length k = crypto_auth_KEYBYTES →
  length nonce = ACCESS_NONCE_BYTES →
  c_str subject ≠ [] ∧ length (c_str subject) < ACCESS_SUBJECT_MAX →
  c_str scope ≠ [] ∧ length (c_str scope) < ACCESS_SCOPE_MAX →
  (0 ≤ iat < exp)%Z → (exp < 10 ^ 15)%Z →
  (access_verify_token token required k e w).1
  = claims_check (Claims (c_str subject) (c_str scope) iat exp) required (env_clock e (w_ticks w)).
Proof.
  intros p token He Hnow Hl Hk Hn Hs Hc Hi Hx. unfold access_verify_token.
  assert (p ≠ []) as Hp by (apply cjson_print_text).
  rewrite guard_run by (unfold token; rewrite c_str_no_nul by apply token_text_no_nul; done).
  assert (access_validate_key k = Ok ()) as Hkey by (apply check_ok, Nat.eqb_eq; done). rewrite Hkey.
  rewrite (bind_run _ _ _ _ () w eq_refl). unfold access_init_sodium. rewrite lib_call_run by done.
  rewrite (bind_run _ _ _ _ _ _ (extract_run p _ e _ He Hp (crypto_auth_nonempty _ _) Hl)). cbv beta iota.
  assert (length (base64_encode p) ≤ ACCESS_TOKEN_BUFFER_LEN) as Hlp.
  { unfold token, token_text in Hl. rewrite !length_app in Hl. lia. }
  rewrite (bind_run _ _ _ _ _ _ (decode_payload_run p e _ He Hp Hlp)).
  rewrite (bind_run _ _ _ _ _ _ (decode_signature_run _ e _ He (length_crypto_auth p k))).
  rewrite guard_run by (unfold crypto_auth_verify; by apply bool_decide_eq_true).
  rewrite (bind_run _ _ _ _ _ _ (parse_claims_run subject scope nonce iat exp e _ He Hn Hs Hc Hi Hx)).
  unfold access_now. rewrite (bind_run _ _ _ _ (env_clock e (w_ticks w)) (tick (called (called (called (called (called (called (called (called w))))))))) ).
  2:{ rewrite (bind_run _ _ _ _ _ _ eq_refl). cbn [w_ticks called].
      rewrite guard_run; [done|]. rewrite (proj2 (Z.eqb_neq _ _)), (proj2 (Z.ltb_ge _ _)) by lia. done. }
  unfold claims_check. cbn [tc_expires_at tc_scope]. rewrite Z.ltb_antisym.
  destruct (exp <=? _)%Z; cbn [negb andb]; [done|]. rewrite guard_run by done.
  destruct required as [required|]; [|done]. by destruct (_ || _).
Qed.

(** a token that [access_issue_token] returned is accepted by
    [access_verify_token] under the same key, with the subject, the scope and
    the times it was issued for, until it expires and only for what its scope
    allows; afterwards, or for another scope, the answer is an authentication
    error. *)
Theorem access_issue_verify subject scope ttl k n e w token w' required e2 w2 :
  access_issue_token subject scope ttl k n e w = (Ok token, w') →
  let iat := env_clock e (w_ticks w) in
  (0 < ttl)%Z → (iat + ttl < 10 ^ 15)%Z → n ≤ S ACCESS_TOKEN_BUFFER_LEN →
  healthy e2 → (0 ≤ env_clock e2 (w_ticks w2))%Z →
  (access_verify_token token required k e2 w2).1
  = claims_check (Claims (c_str subject) (c_str scope) iat (iat + ttl)) required (env_clock e2 (w_ticks w2)).
Proof.
  intros H iat Httl Hx Hn He Hnow.
  destruct (issue_token_ok _ _ _ _ _ _ _ _ _ H) as (nonce & Hnonce & -> & Hs & Hc & Hi & _ & Hl & Hk).
  cbn zeta in *. apply verify_issued; try done; unfold iat; lia.
Qed.

Lemma json_uint64_ok root name z :
  access_json_uint64 root name = Ok z → (0 ≤ z ≤ ACCESS_MAX_JSON_SECONDS)%Z.
Proof.
  unfold access_json_uint64. destruct (json_member root name) as [[vi [q|]|s|]|]; try done.
  destruct (Qle_bool 0 q) eqn:E0; cbn [negb orb]; [|done].
  destruct (Qle_bool q _) eqn:E1; cbn [negb]; [|done]. intros [= <-].
  apply Qle_bool_iff in E0, E1. apply Qfloor_resp_le in E0, E1.
  change 0%Q with (inject_Z 0) in E0. rewrite Qfloor_Z in E0, E1. done.
Qed.

Lemma base64_decode_ok input n e w r w' :
  utils_base64_decode input n e w = (Ok r, w') → base64_decode (c_str input) = Some r ∧ w' = called w.
Proof.
  unfold utils_base64_decode, utils_init_sodium. intros H. inv_m.
  destruct (base64_decode _) as [d|]; [|done]. destruct (_ <=? _); [|done]. by apply ret_ok in H as [-> ->].
Qed.

Lemma parse_claims_ok payload e w claims w' :
  access_parse_claims payload e w = (Ok claims, w') →
  w_ticks w' = w_ticks w ∧
  ∃ root, cJSON_ParseWithLength payload = Some root ∧
    access_json_string root (str "sub") ACCESS_SUBJECT_MAX = Ok (tc_subject claims) ∧
    access_json_string root (str "scope") ACCESS_SCOPE_MAX = Ok (tc_scope claims) ∧
    access_json_uint64 root (str "iat") = Ok (tc_issued_at claims) ∧
    access_json_uint64 root (str "exp") = Ok (tc_expires_at claims) ∧
    (tc_issued_at claims < tc_expires_at claims)%Z.
Proof.
  unfold access_parse_claims. intros H. inv_m. inv_outcome.
  repeat match goal with H : negb (_ <=? _)%Z = true |- _ => apply negb_true_iff, Z.leb_gt in H end.
  split; [|eexists; split_and!; eassumption].
  match goal with H : (match ?m with _ => _ end) _ _ = _ |- _ => destruct m as [[| |]|]; try done end.
  inv_m. match goal with H : utils_base64_decode _ _ _ _ = _ |- _ => by apply base64_decode_ok in H as [_ ->] end.
Qed.

Lemma extract_ok token e w p64 s64 w' :
  access_extract_token_parts token e w = (Ok (p64, s64), w') →
  c_str token = ACCESS_TOKEN_PREFIX ++ p64 ++ [dot] ++ s64 ∧ w' = called (called w).
Proof.
  unfold access_extract_token_parts. intros H. inv_m.
  destruct (index_of dot _) as [i|] eqn:Ei; [|done]. inv_m. split; [|done].
  apply index_of_Some in Ei as (l1 & l2 & E & _ & <-). rewrite E, take_app_length, <- drop_drop, drop_app_length.
  cbn [drop]. rewrite <- (take_drop ACCESS_TOKEN_PREFIX_LEN (c_str token)). f_equal; [|done].
  match goal with H : negb (_ || _ || negb (strncmp_eq _ _ _)) = true |- _ =>
    apply negb_true_iff, orb_false_iff in H as [_ H%negb_false_iff%bool_decide_eq_true]; exact H end.
Qed.

Lemma verify_token_ok token required k e w claims w' :
  access_verify_token token required k e w = (Ok claims, w') →
  ∃ p64 s64 payload root,
    c_str token = ACCESS_TOKEN_PREFIX ++ p64 ++ [dot] ++ s64 ∧
    base64_decode p64 = Some payload ∧ base64_decode s64 = Some (crypto_auth payload k) ∧
    cJSON_ParseWithLength payload = Some root ∧
    access_json_string root (str "sub") ACCESS_SUBJECT_MAX = Ok (tc_subject claims) ∧
    access_json_string root (str "scope") ACCESS_SCOPE_MAX = Ok (tc_scope claims) ∧
    access_json_uint64 root (str "iat") = Ok (tc_issued_at claims) ∧
    access_json_uint64 root (str "exp") = Ok (tc_expires_at claims) ∧
    (tc_issued_at claims < tc_expires_at claims)%Z ∧
    (env_clock e (w_ticks w) < tc_expires_at claims)%Z ∧
    ∀ req, required = Some req → c_str req ≠ [] → scope_allows (c_str (tc_scope claims)) (c_str req).
Proof.
  unfold access_verify_token, access_decode_payload, access_decode_signature, access_now, time_null,
    access_init_sodium. intros H. inv_m.
  match goal with x : bytes * bytes |- _ => destruct x as [p64 s64] end. inv_m.
  repeat match goal with
    | H : access_extract_token_parts _ _ _ = _ |- _ => apply extract_ok in H as [? ->]
    | H : utils_base64_decode _ _ _ _ = _ |- _ => apply base64_decode_ok in H as [? ->]
    | H : (Ok _, _) = (Ok _, _) |- _ => injection H as <- <-
    end.
  match goal with H : access_parse_claims _ _ _ = _ |- _ =>
    apply parse_claims_ok in H as (Ht & root & H) end.
  match goal with H : crypto_auth_verify _ _ _ = true |- _ => apply bool_decide_eq_true in H; subst end.
  assert (∀ l1 l2, c_str token = ACCESS_TOKEN_PREFIX ++ l1 ++ [dot] ++ l2 → (Byte.x00 ∉ l1) ∧ (Byte.x00 ∉ l2)) as Hz.
  { intros l1 l2 E. pose proof (c_str_nul_free token) as F. rewrite E, !elem_of_app in F. tauto. }
  match goal with H : c_str token = _ |- _ => destruct (Hz _ _ H) as [Hz1 Hz2] end.
  rewrite ?(c_str_no_nul _ Hz1), ?(c_str_no_nul _ Hz2) in *.
  exists p64, s64. eexists _, root. split_and!; try eassumption; try tauto.
  - match goal with H : negb (_ <=? _)%Z = true |- _ => apply negb_true_iff, Z.leb_gt in H; by rewrite Ht in H end.
  - intros req -> Hreq. match goal with H : bool_decide (c_str req = []) || _ = true |- _ =>
      apply orb_true_iff in H as [Hr%bool_decide_eq_true|Hr%scope_allows_iff]; done end.
Qed.

(** C21: an accepted token carries, in base64, a payload and the authentication
    code of this very payload under the key; its claims are those of the
    payload; it has not expired at the time of the check, and a required
    scope is one that its scope allows. *)
Theorem access_verify_token_sound token required k e w claims w' :
  access_verify_token token required k e w = (Ok claims, w') →
  ∃ p64 s64 payload root,
    c_str token = ACCESS_TOKEN_PREFIX ++ p64 ++ [dot] ++ s64 ∧
    base64_decode p64 = Some payload ∧ base64_decode s64 = Some (crypto_auth payload k) ∧
    cJSON_ParseWithLength payload = Some root ∧
    access_json_string root (str "sub") ACCESS_SUBJECT_MAX = Ok (tc_subject claims) ∧
    access_json_string root (str "scope") ACCESS_SCOPE_MAX = Ok (tc_scope claims) ∧
    access_json_uint64 root (str "iat") = Ok (tc_issued_at claims) ∧
    access_json_uint64 root (str "exp") = Ok (tc_expires_at claims) ∧
    (tc_issued_at claims < tc_expires_at claims)%Z ∧
    (env_clock e (w_ticks w) < tc_expires_at claims)%Z ∧
    ∀ req, required = Some req → c_str req ≠ [] → scope_allows (c_str (tc_scope claims)) (c_str req).
Proof. apply verify_token_ok. Qed.

#[export] Instance keeps_access_verify t r k : Keeps same_state (access_verify_token t r k).
Proof.
  unfold access_verify_token, access_init_sodium, access_extract_token_parts, access_decode_payload,
    access_decode_signature, access_parse_claims, access_now. keeps_tac.
Qed.

#[export] Instance keeps_access_issue s c t k n : Keeps same_state (access_issue_token s c t k n).
Proof.
  unfold access_issue_token, access_init_sodium, access_build_payload, access_make_nonce_b64,
    access_b64_encode_alloc, access_now. keeps_tac.
Qed.

End Tokens.

(** * An executable instance of the JSON library

    Every byte of a field is announced by an [a] and the field is closed by a
    [b]: not JSON, but all the laws. *)

Module ToyJson.

Definition field (l : bytes) : bytes := flat_map (λ b, [Byte.x61; b]) (c_str l) ++ [Byte.x62].

Fixpoint parse_field (l : bytes) : option (bytes * bytes) :=
  match l with
  | [] => None
  | c :: l' =>
      if decide (c = Byte.x62) then Some ([], l')
      else match l' with
           | [] => None
           | b :: l'' => '(x, rest) ← parse_field l''; Some (b :: x, rest)
           end
  end.

Definition print_int (z : Z) : bytes :=
  (if (z <? 0)%Z then Byte.x6d else Byte.x70) :: field (print_dec (Z.abs z)).

Definition parse_int (l : bytes) : option (Z * bytes) :=
  match l with
  | [] => None
  | c :: l' =>
      '(x, rest) ← parse_field l';
      Some (if decide (c = Byte.x6d) then - read_dec x else read_dec x, rest)%Z
  end.

Definition print_item (i : json_item) : bytes :=
  match i with
  | JNumber _ (Some q) => Byte.x6e :: print_int (Qfloor q)
  | JNumber _ None => [Byte.x69]
  | JString s => Byte.x73 :: field s
  | JOther => [Byte.x6f]
  end.

Definition parse_item (l : bytes) : option (json_item * bytes) :=
  match l with
  | [] => None
  | c :: l' =>
      if decide (c = Byte.x6e) then '(z, rest) ← parse_int l'; Some (json_number z, rest)
      else if decide (c = Byte.x73) then '(s, rest) ← parse_field l'; Some (JString s, rest)
      else Some (JOther, l')
  end.

Definition print (o : json_object) : bytes :=
  flat_map (λ m, Byte.x2c :: field m.1 ++ print_item m.2) o ++ [Byte.x7d].

Fixpoint parse (fuel : nat) (l : bytes) : option json_object :=
  match fuel, l with
  | S fuel', c :: l' =>
      if decide (c = Byte.x7d) then Some []
      else '(name, l1) ← parse_field l'; '(i, l2) ← parse_item l1;
           o ← parse fuel' l2; Some ((name, i) :: o)
  | _, _ => None
  end.

#[export] Instance cjson : Cjson := {|
  cJSON_PrintUnformatted := print;
  cJSON_ParseWithLength l := parse (length l) l;
|}.

Lemma parse_print_field l rest : Byte.x00 ∉ l → parse_field (field l ++ rest) = Some (l, rest).
Proof.
  unfold field. intros H. rewrite (c_str_no_nul _ H). clear H.
  induction l as [|b l IH]; cbn [flat_map app parse_field]; [by rewrite decide_True|].
  rewrite decide_False by done. by rewrite IH.
Qed.

Lemma parse_print_int z rest : parse_int (print_int z ++ rest) = Some (z, rest).
Proof.
  unfold parse_int, print_int. cbn [app]. pose proof (print_dec_digits (Z.abs z) ltac:(lia)) as Hd.
  rewrite parse_print_field.
  2:{ intros H. rewrite Forall_forall in Hd. by destruct (Hd _ H). }
  cbn [mbind option_bind]. rewrite read_print_dec by lia. destruct (Z.ltb_spec z 0).
  - rewrite decide_True by done. do 2 f_equal. lia.
  - rewrite decide_False by done. do 2 f_equal. lia.
Qed.

Lemma parse_print_item i rest : json_printable i → parse_item (print_item i ++ rest) = Some (i, rest).
Proof.
  destruct i as [vi vd|s|]; cbn [json_printable]; [|intros H|done].
  - intros (z & -> & _). unfold json_number, parse_item, print_item. cbn [app].
    rewrite decide_True by done. rewrite Qfloor_Z, parse_print_int. done.
  - unfold parse_item, print_item. cbn [app]. rewrite decide_False, decide_True by done.
    by rewrite parse_print_field.
Qed.

Lemma parse_print o fuel :
  length (print o) ≤ fuel → Forall (λ m, (Byte.x00 ∉ m.1) ∧ json_printable m.2) o →
  parse fuel (print o) = Some o.
Proof.
  unfold print. intros Hf Ho. revert fuel Hf. induction Ho as [|[name i] o [Hn Hi] Ho IH]; intros [|fuel] Hf.
  1,3: cbn in Hf; lia.
  - cbn. done.
  - cbn [flat_map fst snd app] in *. rewrite <- !app_assoc in *. cbn [parse]. rewrite decide_False by done.
    rewrite parse_print_field by done. cbn [mbind option_bind]. rewrite parse_print_item by done.
    cbn [mbind option_bind]. rewrite IH; [done|]. cbn [length] in Hf. rewrite !length_app in *. lia.
Qed.

Lemma field_no_nul l : Byte.x00 ∉ field l.
Proof.
  unfold field. pose proof (c_str_nul_free l) as H. revert H.
  induction (c_str l) as [|b k IH]; cbn [flat_map app]; rewrite ?not_elem_of_cons; [done|].
  intros [Hb H]. split_and!; [done|done|by apply IH].
Qed.

Lemma print_item_no_nul i : Byte.x00 ∉ print_item i.
Proof.
  destruct i as [vi [q|]|s|]; cbn [print_item]; unfold print_int; rewrite !not_elem_of_cons;
    split_and!; try done; try apply not_elem_of_nil; try apply field_no_nul.
  by case_match.
Qed.

#[export] Instance laws : CjsonLaws cjson.
Proof.
  split.
  - intros o Ho _. by apply parse_print.
  - intros o. cbn [cJSON_PrintUnformatted cjson]. unfold print. split.
    + rewrite not_elem_of_app. split; [|by intros ?%list_elem_of_singleton].
      induction o as [|[name i] o IH]; cbn [flat_map fst snd]; [apply not_elem_of_nil|].
      rewrite not_elem_of_app, not_elem_of_cons, not_elem_of_app.
      split_and!; [done|apply field_no_nul|apply print_item_no_nul|done].
    + by destruct (flat_map _ _).
Qed.

End ToyJson.

(** * Witnesses *)

(** The result of a run that succeeds. *)
Definition text_of (r : outcome bytes) : bytes := match r with Ok t => t | Err _ => [] end.

Module AccessExample.
#[local] Existing Instance Toy.crypto.
#[local] Existing Instance Toy.laws.
#[local] Existing Instance ToyJson.cjson.
#[local] Existing Instance ToyJson.laws.

Definition key : bytes := replicate 32 Byte.x2a.
Definition issue : outcome bytes * world :=
  access_issue_token (str "ci-runner") (str "read:db/*,write:app") 3600 key 2048
    (Sample.env_at 1700000000) Sample.world0.
Definition token : bytes := text_of issue.1.

Lemma issue_run : issue = (Ok token, issue.2).
Proof.
  assert (is_ok issue.1 = true) as H by (vm_compute; reflexivity).
  unfold token. destruct issue as [[t|s] w]; [reflexivity|discriminate H].
Qed.

Lemma access_issue_verify_witness :
  (access_verify_token token (Some (str "read:db/prod")) key (Sample.env_at 1700000100) Sample.world0).1
  = Ok (Claims (str "ci-runner") (str "read:db/*,write:app") 1700000000 1700003600).
Proof.
  rewrite (access_issue_verify (str "ci-runner") (str "read:db/*,write:app") 3600 key 2048
    (Sample.env_at 1700000000) Sample.world0 token issue.2 (Some (str "read:db/prod"))
    (Sample.env_at 1700000100) Sample.world0 issue_run); try lia;
    [vm_compute; reflexivity|cbn; lia|unfold ACCESS_TOKEN_BUFFER_LEN; lia|exact (Sample.env_at_healthy _)|cbn; lia].
Defined.

Lemma access_verify_token_sound_witness :
  let e := Sample.env_at 1700000100 in
  let r := access_verify_token token (Some (str "read:db/prod")) key e Sample.world0 in
  ∃ claims p64 s64 payload root, r = (Ok claims, r.2) ∧
    c_str token = ACCESS_TOKEN_PREFIX ++ p64 ++ [dot] ++ s64 ∧
    base64_decode p64 = Some payload ∧ base64_decode s64 = Some (crypto_auth payload key) ∧
    cJSON_ParseWithLength payload = Some root ∧ (1700000100 < tc_expires_at claims)%Z.
Proof.
  cbv zeta.
  assert (is_ok (access_verify_token token (Some (str "read:db/prod")) key (Sample.env_at 1700000100)
                   Sample.world0).1 = true) as Hok by (vm_compute; reflexivity).
  destruct (run_ok _ Hok) as (claims & w & H).
  destruct (access_verify_token_sound _ _ _ _ _ _ _ H)
    as (p64 & s64 & payload & root & H1 & H2 & H3 & H4 & _ & _ & _ & _ & _ & H5 & _).
  exists claims, p64, s64, payload, root. rewrite H. cbn [snd]. split_and!; assumption || reflexivity.
Defined.

(** After the hour the token is refused, and so is a scope it does not have. *)
Example token_expired :
  (access_verify_token token None key (Sample.env_at 1700003600) Sample.world0).1 = Err SM_ERR_AUTH.
Proof. vm_compute. reflexivity. Qed.
Example token_out_of_scope :
  (access_verify_token token (Some (str "write:db/prod")) key (Sample.env_at 1700000100) Sample.world0).1
  = Err SM_ERR_AUTH.
Proof. vm_compute. reflexivity. Qed.

End AccessExample.
