(* ===== verification/VaultRows.v ===== *)
(** The table access of the vault (first half of src/src/vault.c): the session
    globals, names of secrets (the keyed lookup and the encrypted display
    name), the metadata blobs, and the statements on the table [secrets] that
    the operations of [Vault] are made of. *)

From S2P Require Import Prelude Status Sodium Schema State Utils Kdf CryptoEngine KeyManager AuditLog.

Definition VAULT_METADATA_SALT : bytes := str "salt".
Definition VAULT_METADATA_VERIFIER : bytes := str "password_verifier".
Definition VAULT_METADATA_TOKEN_NOT_BEFORE : bytes := str "token_not_before".
Definition VAULT_METADATA_META_KEY_NONCE : bytes := str "meta_key_nonce".
Definition VAULT_METADATA_META_KEY_WRAPPED : bytes := str "meta_key_wrapped".
Definition VAULT_META_KEY_WRAP_AAD : bytes := str "vault:kek_meta:v1".
Definition VAULT_META_KEY_WRAP_NONCE_BYTES : nat := aead_NPUBBYTES XCHACHA20_POLY1305.
Definition VAULT_META_KEY_WRAP_BYTES : nat := crypto_aead_KEYBYTES + aead_ABYTES XCHACHA20_POLY1305.
Definition VAULT_SECRET_NAME_MAX : nat := 256.
Definition VAULT_NAME_LOOKUP_BYTES : nat := crypto_generichash_BYTES.
Definition VAULT_NAME_LOOKUP_HEX_LEN : nat := 65.
Definition VAULT_NAME_NONCE_BYTES : nat := aead_NPUBBYTES XCHACHA20_POLY1305.
Definition VAULT_ENCRYPTED_NAME_MAX : nat := VAULT_SECRET_NAME_MAX + aead_ABYTES XCHACHA20_POLY1305.

(** * The session *)

(** [g_subkeys], or a NULL pointer. *)
Definition g_subkeys : M kdf_subkeys_t := λ e w,
  (match w_subkeys w with Some k => Ok k | None => Err SM_ERR_INVALID_ARGUMENT end, w).

Definition vault_alloc_subkeys : M unit := lib_call SM_ERR_STORAGE.

Definition vault_lock_state : M unit := λ e w, (Ok (), set_session None false w).

Definition vault_require_unlocked : M unit := λ e w,
  (if w_unlocked w && bool_decide (is_Some (w_subkeys w)) then Ok () else Err SM_ERR_AUTH, w).

(** * Metadata *)

Definition vault_get_metadata_blob (key : bytes) (output_len : nat) : M (option bytes) :=
  require_db ;;
  row ← sql_query (λ db, t_metadata db !! key);
  match row with
  | None => mret None
  | Some blob => guard_or (length blob <=? output_len)%nat SM_ERR_STORAGE ;; mret (Some blob)
  end.

Definition vault_bind_blob (data : bytes) : outcome unit :=
  check (Z.of_nat (length data) <=? INT_MAX)%Z SM_ERR_INVALID_ARGUMENT.

Definition vault_put_metadata_blob (key value : bytes) : M unit :=
  require_db ;;
  lift (vault_bind_blob value) ;;
  sql_exec (λ db, Some (put_metadata key value db, ())).

Definition vault_get_token_not_before : M Z :=
  found ← vault_get_metadata_blob VAULT_METADATA_TOKEN_NOT_BEFORE 8;
  match found with
  | None => mret 0%Z
  | Some encoded => guard_or (length encoded =? 8)%nat SM_ERR_STORAGE ;; mret (read_le encoded)
  end.

Definition vault_put_token_not_before (not_before : Z) : M unit :=
  vault_put_metadata_blob VAULT_METADATA_TOKEN_NOT_BEFORE (utils_write_u64_le not_before).

Definition vault_log_auth_failure_untrusted : M unit :=
  require_db ;;
  now ← utils_now_iso8601 UTILS_ISO8601_UTC_BUFFER_LEN;
  sql_exec (λ db, Some (add_auth_failure now db, ())).

(** Salt and verifier, both or neither. *)
Definition vault_load_auth_metadata : M (option (bytes * bytes)) :=
  salt ← vault_get_metadata_blob VAULT_METADATA_SALT KDF_SALT_BYTES;
  verifier ← vault_get_metadata_blob VAULT_METADATA_VERIFIER crypto_hash_sha256_BYTES;
  match salt, verifier with
  | None, None => mret None
  | Some s, Some v =>
      guard_or ((length s =? KDF_SALT_BYTES)
                && (length v =? crypto_hash_sha256_BYTES))%nat SM_ERR_STORAGE ;;
      mret (Some (s, v))
  | _, _ => throw SM_ERR_STORAGE
  end.

(** The copy of the password in locked memory. *)
Definition vault_copy_password (master_password : bytes) : M bytes :=
  guard_or (negb (bool_decide (c_str master_password = []))) SM_ERR_INVALID_ARGUMENT ;;
  lib_call SM_ERR_STORAGE ;;
  mret (c_str master_password).

(** * Columns *)

Definition vault_copy_text_column (text : bytes) (output_len : nat) : outcome bytes :=
  check (negb (output_len =? 0)%nat) SM_ERR_INVALID_ARGUMENT ;;
  check (length (c_str text) <? output_len)%nat SM_ERR_STORAGE ;;
  Ok (c_str text).

Definition vault_column_blob_size (blob : bytes) : outcome nat :=
  check (negb (length blob =? 0)%nat) SM_ERR_STORAGE ;;
  Ok (length blob).

Definition vault_copy_blob_column (blob : bytes) (output_len : nat) : outcome bytes :=
  check (negb (output_len =? 0)%nat) SM_ERR_INVALID_ARGUMENT ;;
  check (negb (length blob =? 0)%nat && (length blob =? output_len)%nat) SM_ERR_STORAGE ;;
  Ok blob.

(** Nonce and ciphertext of a display name. *)
Definition vault_copy_name_metadata (nonce encrypted_name : bytes) : outcome (bytes * bytes) :=
  check ((length nonce =? VAULT_NAME_NONCE_BYTES)
         && (aead_ABYTES XCHACHA20_POLY1305 <? length encrypted_name)
         && (length encrypted_name <=? VAULT_ENCRYPTED_NAME_MAX))%nat SM_ERR_STORAGE ;;
  Ok (nonce, encrypted_name).

(** [vault_secret_metadata_t] of an existing secret; [exists == 0] is the
    [None] of [vault_find_secret_metadata]. *)
Record vault_secret_metadata_t := Metadata {
  md_id : bytes;
  md_version : Z;
  md_nonce_counter : Z;
  md_name_nonce : bytes;
  md_encrypted_name : bytes;
  md_created_at : bytes;
  md_expires_at : option bytes;
  md_rotation_interval_seconds : Z;
}.

(** [vault_secret_row_t]. *)
Record vault_secret_row_t := VaultSecretRow {
  vr_id : bytes;
  vr_version : Z;
  vr_encrypted : encrypted_secret_t;
}.

(** [SELECT ... WHERE name = ? AND <active row> LIMIT 1] *)
Definition find_active (name : bytes) (t : list secret_row) : option secret_row :=
  snd <$> list_find (λ r, sr_name r = name ∧ active_row t r = true) t.

(** [SELECT ... WHERE name = ? AND version = ? LIMIT 1] *)
Definition find_version (name : bytes) (version : Z) (t : list secret_row) : option secret_row :=
  snd <$> list_find (λ r, sr_name r = name ∧ sr_version r = version) t.

Definition copy_metadata (r : secret_row) : outcome vault_secret_metadata_t :=
  id ← vault_copy_text_column (sr_id r) UTILS_UUID_V4_BUFFER_LEN;
  let version := column_int (sr_version r) in
  '(name_nonce, encrypted_name) ← vault_copy_name_metadata (sr_name_nonce r) (sr_encrypted_name r);
  created_at ← vault_copy_text_column (sr_created_at r) UTILS_ISO8601_UTC_BUFFER_LEN;
  expires_at ← match sr_expires_at r with
               | None => Ok None
               | Some t => x ← vault_copy_text_column t UTILS_ISO8601_UTC_BUFFER_LEN; Ok (Some x)
               end;
  let interval := default 0%Z (sr_rotation_interval r) in
  check (0 <=? interval)%Z SM_ERR_STORAGE ;;
  check ((1 <=? version) && (0 <=? sr_nonce_counter r))%Z SM_ERR_STORAGE ;;
  Ok (Metadata id version (sr_nonce_counter r) name_nonce encrypted_name created_at expires_at interval).

Definition vault_find_secret_metadata (name : bytes) : M (option vault_secret_metadata_t) :=
  require_db ;;
  row ← sql_query (λ db, find_active (c_str name) (t_secrets db));
  match row with
  | None => mret None
  | Some r =>
      lib_call SM_ERR_STORAGE ;;
      metadata ← lift (copy_metadata r);
      mret (Some metadata)
  end.

Definition vault_get_version_ttl (name : bytes) (version : Z) : M Z :=
  require_db ;;
  guard_or (1 <=? version)%Z SM_ERR_INVALID_ARGUMENT ;;
  row ← sql_query (λ db, find_version (c_str name) version (t_secrets db));
  match row with
  | None => mret 0%Z
  | Some r =>
      let interval := default 0%Z (sr_rotation_interval r) in
      guard_or (0 <=? interval)%Z SM_ERR_STORAGE ;; mret interval
  end.

(** [SELECT COUNT( * ), MAX(version), MAX(nonce_counter)]: [None] without
    history. *)
Definition vault_find_secret_history_bounds (name : bytes) : M (option (Z * Z)) :=
  require_db ;;
  rows ← sql_query (λ db, rows_named (c_str name) (t_secrets db));
  if (0 <? column_int (Z.of_nat (length rows)))%Z then
    let max_version := column_int (default 0%Z (sql_max sr_version rows)) in
    let max_nonce_counter := default 0%Z (sql_max sr_nonce_counter rows) in
    guard_or ((1 <=? max_version) && (0 <=? max_nonce_counter))%Z SM_ERR_STORAGE ;;
    mret (Some (max_version, max_nonce_counter))
  else mret None.

(** [next version, next nonce counter]: refused at the maxima. *)
Definition next_bounds (max_version max_nonce_counter : Z) : outcome (Z * Z) :=
  check (negb (max_version =? INT_MAX) && negb (max_nonce_counter =? INT64_MAX))%Z SM_ERR_STORAGE ;;
  Ok (max_version + 1, max_nonce_counter + 1)%Z.

(** The blobs of an envelope, bound one by one. *)
Definition vault_bind_encrypted_secret (encrypted : encrypted_secret_t) : outcome unit :=
  vault_bind_blob (es_ciphertext encrypted) ;;
  vault_bind_blob (es_encrypted_dek encrypted) ;;
  vault_bind_blob (es_nonce encrypted) ;;
  vault_bind_blob (es_dek_nonce encrypted) ;;
  vault_bind_blob (es_key_commitment encrypted).

Definition inserted_row (id name name_nonce encrypted_name : bytes) (version nonce_counter : Z)
    (created_at updated_at : bytes) (expires_at : option bytes) (rotation_interval_seconds : Z)
    (encrypted : encrypted_secret_t) : secret_row :=
  SecretRow (c_str id) (c_str name) name_nonce encrypted_name version
    (c_str (es_algorithm encrypted)) (es_ciphertext encrypted) (es_encrypted_dek encrypted)
    (es_nonce encrypted) (es_dek_nonce encrypted) (es_key_commitment encrypted) nonce_counter
    (c_str created_at) (c_str updated_at) (c_str <$> expires_at)
    (if (0 <? rotation_interval_seconds)%Z then Some rotation_interval_seconds else None) 0.

Definition vault_insert_secret (id name name_nonce encrypted_name : bytes) (version nonce_counter : Z)
    (created_at updated_at : bytes) (expires_at : option bytes) (rotation_interval_seconds : Z)
    (encrypted : encrypted_secret_t) : M unit :=
  lift (vault_bind_blob name_nonce) ;;
  lift (vault_bind_blob encrypted_name) ;;
  lift (vault_bind_encrypted_secret encrypted) ;;
  sql_exec (λ db,
    t ← insert_secret_row
          (inserted_row id name name_nonce encrypted_name version nonce_counter created_at updated_at
             expires_at rotation_interval_seconds encrypted) (t_secrets db);
    Some (with_secrets t db, ())).

(** [UPDATE secrets SET is_archived = 1, updated_at = ? WHERE name = ? AND
    is_archived = 0] *)
Definition is_active_named (name : bytes) (r : secret_row) : bool :=
  bool_decide (sr_name r = name) && (sr_is_archived r =? 0)%Z.

Definition vault_archive_active_secret (name updated_at : bytes) (require_existing : bool) : M unit :=
  require_db ;;
  changes ← sql_exec (λ db,
    let '(t, n) := update_where (is_active_named (c_str name)) (archive_row (c_str updated_at))
                     (t_secrets db) in
    Some (with_secrets t db, n));
  guard_or (changes <=? 1)%nat SM_ERR_STORAGE ;;
  guard_or (negb (require_existing && (changes =? 0)%nat)) SM_ERR_NOT_FOUND.

Definition vault_copy_secret_row (r : secret_row) : M vault_secret_row_t :=
  id ← lift (vault_copy_text_column (sr_id r) UTILS_UUID_V4_BUFFER_LEN);
  let version := column_int (sr_version r) in
  guard_or (1 <=? version)%Z SM_ERR_STORAGE ;;
  algorithm ← lift (vault_copy_text_column (sr_algorithm r) CRYPTO_ENGINE_ALGORITHM_MAX);
  ciphertext_len ← lift (vault_column_blob_size (sr_ciphertext r));
  encrypted_dek_len ← lift (vault_column_blob_size (sr_encrypted_dek r));
  nonce_len ← lift (vault_column_blob_size (sr_nonce r));
  dek_nonce_len ← lift (vault_column_blob_size (sr_dek_nonce r));
  guard_or ((nonce_len <=? CRYPTO_ENGINE_MAX_NONCE_BYTES)
            && (dek_nonce_len <=? CRYPTO_ENGINE_MAX_NONCE_BYTES))%nat SM_ERR_STORAGE ;;
  lib_call SM_ERR_STORAGE ;;
  ciphertext ← lift (vault_copy_blob_column (sr_ciphertext r) ciphertext_len);
  encrypted_dek ← lift (vault_copy_blob_column (sr_encrypted_dek r) encrypted_dek_len);
  nonce ← lift (vault_copy_blob_column (sr_nonce r) nonce_len);
  dek_nonce ← lift (vault_copy_blob_column (sr_dek_nonce r) dek_nonce_len);
  key_commitment_len ← lift (vault_column_blob_size (sr_key_commitment r));
  guard_or (key_commitment_len =? CRYPTO_ENGINE_COMMITMENT_BYTES)%nat SM_ERR_STORAGE ;;
  key_commitment ← lift (vault_copy_blob_column (sr_key_commitment r) key_commitment_len);
  mret (VaultSecretRow id version
          (EncryptedSecret algorithm ciphertext encrypted_dek nonce dek_nonce key_commitment)).

(** [version] is not used when [active_only]. *)
Definition vault_load_secret_row (name : bytes) (version : Z) (active_only : bool)
  : M vault_secret_row_t :=
  require_db ;;
  guard_or (negb (bool_decide (c_str name = [])) && (active_only || (1 <=? version)%Z))
    SM_ERR_INVALID_ARGUMENT ;;
  row ← sql_query (λ db, if active_only then find_active (c_str name) (t_secrets db)
                         else find_version (c_str name) version (t_secrets db));
  match row with
  | None => throw SM_ERR_NOT_FOUND
  | Some r => vault_copy_secret_row r
  end.

(** Both arguments non-empty, compared as C strings. *)
Definition vault_expiry_is_due (expires_at now : bytes) : bool :=
  negb (bool_decide (c_str expires_at = [])) && negb (bool_decide (c_str now = []))
  && str_leb (c_str expires_at) (c_str now).

(** [WHERE <active> AND expires_at IS NOT NULL AND expires_at <= ?] *)
Definition expired_by (now : bytes) (t : list secret_row) (r : secret_row) : bool :=
  active_row t r && match sr_expires_at r with None => false | Some x => str_leb x now end.

(** [ORDER BY expires_at ASC, name ASC] *)
Definition by_expiry (a b : secret_row) : Prop :=
  match strcmp (default [] (sr_expires_at a)) (default [] (sr_expires_at b)) with
  | Lt => True
  | Eq => Is_true (str_leb (sr_name a) (sr_name b))
  | Gt => False
  end.
#[export] Instance by_expiry_dec a b : Decision (by_expiry a b).
Proof. unfold by_expiry. destruct (strcmp _ _); apply _. Defined.

Definition expired_rows (now : bytes) (t : list secret_row) : list secret_row :=
  merge_sort by_expiry (filter (λ r, Is_true (expired_by now t r)) t).

Definition vault_find_next_expired_secret (now : bytes) : M (option bytes) :=
  require_db ;;
  row ← sql_query (λ db, head (expired_rows (c_str now) (t_secrets db)));
  match row with
  | None => mret None
  | Some r =>
      guard_or (negb (length (sr_name r) =? 0)%nat) SM_ERR_STORAGE ;;
      lib_call SM_ERR_STORAGE ;;
      mret (Some (sr_name r))
  end.

Section VaultRows.
Context {CR : Crypto}.

Definition vault_log_success (action target : bytes) (target_version : Z) : M unit :=
  k ← g_subkeys;
  audit_log_event (str "user:default") action target target_version (str "SUCCESS") (kek_audit k).

Definition name_lookup (k : kdf_subkeys_t) (name : bytes) : bytes :=
  bin2hex (generichash (kek_meta k) name VAULT_NAME_LOOKUP_BYTES).

Definition vault_build_name_lookup (name : bytes) (lookup_hex_len : nat) : M bytes :=
  k ← g_subkeys;
  guard_or (negb (bool_decide (c_str name = [])) && (VAULT_NAME_LOOKUP_HEX_LEN <=? lookup_hex_len)%nat)
    SM_ERR_INVALID_ARGUMENT ;;
  lib_call SM_ERR_CRYPTO ;;
  mret (name_lookup k (c_str name)).

(** The nonce and the encrypted name. *)
Definition vault_encrypt_display_name (name stored_name : bytes)
    (nonce_len encrypted_name_capacity : nat) : M (bytes * bytes) :=
  k ← g_subkeys;
  let name_len := length (c_str name) in
  guard_or (negb (bool_decide (c_str stored_name = [])) && negb (name_len =? 0)%nat
            && (name_len <=? VAULT_SECRET_NAME_MAX)%nat && (nonce_len =? VAULT_NAME_NONCE_BYTES)%nat
            && (name_len + aead_ABYTES XCHACHA20_POLY1305 <=? encrypted_name_capacity)%nat)
    SM_ERR_INVALID_ARGUMENT ;;
  nonce ← randombytes_buf nonce_len;
  lib_call SM_ERR_CRYPTO ;;
  mret (nonce, aead_encrypt XCHACHA20_POLY1305 (kek_meta k) nonce (c_str stored_name) (c_str name)).

Definition vault_decrypt_display_name (stored_name nonce encrypted_name : bytes) (name_len : nat)
  : M bytes :=
  k ← g_subkeys;
  guard_or (negb (bool_decide (c_str stored_name = [])) && (length nonce =? VAULT_NAME_NONCE_BYTES)%nat
            && (aead_ABYTES XCHACHA20_POLY1305 <? length encrypted_name)%nat
            && (length encrypted_name <=? VAULT_ENCRYPTED_NAME_MAX)%nat && negb (name_len =? 0)%nat)
    SM_ERR_INVALID_ARGUMENT ;;
  name ← lift (from_option_or SM_ERR_CRYPTO
           (aead_decrypt XCHACHA20_POLY1305 (kek_meta k) nonce (c_str stored_name) encrypted_name));
  guard_or (length name <? name_len)%nat SM_ERR_STORAGE ;;
  mret name.

Definition vault_put_wrapped_meta_key (meta_key wrapping_key : bytes) : M unit :=
  nonce ← randombytes_buf VAULT_META_KEY_WRAP_NONCE_BYTES;
  lib_call SM_ERR_CRYPTO ;;
  let wrapped := aead_encrypt XCHACHA20_POLY1305 wrapping_key nonce VAULT_META_KEY_WRAP_AAD
                   (take crypto_aead_KEYBYTES meta_key) in
  guard_or (length wrapped =? VAULT_META_KEY_WRAP_BYTES)%nat SM_ERR_CRYPTO ;;
  vault_put_metadata_blob VAULT_METADATA_META_KEY_NONCE nonce ;;
  vault_put_metadata_blob VAULT_METADATA_META_KEY_WRAPPED wrapped.

(** The session keys with the stored [kek_meta] in place of the derived one. *)
Definition vault_load_meta_key (subkeys : kdf_subkeys_t) : M kdf_subkeys_t :=
  nonce ← vault_get_metadata_blob VAULT_METADATA_META_KEY_NONCE VAULT_META_KEY_WRAP_NONCE_BYTES;
  wrapped ← vault_get_metadata_blob VAULT_METADATA_META_KEY_WRAPPED VAULT_META_KEY_WRAP_BYTES;
  match nonce, wrapped with
  | Some n, Some c =>
      guard_or ((length n =? VAULT_META_KEY_WRAP_NONCE_BYTES)
                && (length c =? VAULT_META_KEY_WRAP_BYTES))%nat SM_ERR_STORAGE ;;
      meta_key ← lift (from_option_or SM_ERR_AUTH
        (aead_decrypt XCHACHA20_POLY1305 (kek_enc subkeys) n VAULT_META_KEY_WRAP_AAD c));
      guard_or (length meta_key =? crypto_aead_KEYBYTES)%nat SM_ERR_STORAGE ;;
      mret (Subkeys (kek_enc subkeys) (kek_audit subkeys) (kek_token subkeys) meta_key)
  | _, _ => throw SM_ERR_STORAGE
  end.

Definition vault_decrypt_secret_row (row : vault_secret_row_t) (name : bytes) (output_len : nat)
  : M bytes :=
  guard_or (negb (bool_decide (c_str name = []))) SM_ERR_INVALID_ARGUMENT ;;
  identity ← crypto_engine_build_row_identity (vr_id row) name CRYPTO_ENGINE_ROW_IDENTITY_HEX_LEN;
  k ← g_subkeys;
  crypto_engine_decrypt (vr_encrypted row) (kek_enc k) identity (vr_version row) output_len.

(** On failure the caller's buffer holds nothing of the secret: the result is
    the error alone. *)
Definition vault_read_secret (name : bytes) (version : Z) (active_only : bool) (output_len : nat)
    (log_read : bool) : M bytes :=
  guard_or (negb (bool_decide (c_str name = []))) SM_ERR_INVALID_ARGUMENT ;;
  stored_name ← vault_build_name_lookup name VAULT_NAME_LOOKUP_HEX_LEN;
  row ← vault_load_secret_row stored_name version active_only;
  output ← vault_decrypt_secret_row row stored_name output_len;
  (if log_read then vault_log_success (str "READ") stored_name (vr_version row) else mret ()) ;;
  mret output.

(** The plaintext and the name of the algorithm. *)
Definition vault_decrypt_secret_alloc (name : bytes) (version : Z) (algorithm_len : nat)
  : M (bytes * bytes) :=
  guard_or (negb (bool_decide (c_str name = [])) && (1 <=? version)%Z && negb (algorithm_len =? 0)%nat)
    SM_ERR_INVALID_ARGUMENT ;;
  row ← vault_load_secret_row name version false;
  let buffer_len := length (es_ciphertext (vr_encrypted row)) in
  lib_call SM_ERR_STORAGE ;;
  plaintext ← vault_decrypt_secret_row row name buffer_len;
  guard_or (length (c_str (es_algorithm (vr_encrypted row))) <? algorithm_len)%nat SM_ERR_STORAGE ;;
  mret (plaintext, c_str (es_algorithm (vr_encrypted row))).

End VaultRows.
