(* ===== verification/Vault.v ===== *)
(** The operations of the vault that change its state (second half of
    src/src/vault.c): unlocking, storing, reading, deleting and rolling back
    secrets, the automatic rotation of expired secrets and the rotation of the
    master password.

    Every operation that writes gathers its inputs first and then runs one
    transaction; [vault_op] enumerates these transactions and
    [vault_operation_atomic] says that each is all or nothing, whatever calls
    fail. *)

From S2P Require Import Prelude Status Sodium Schema State Utils Kdf CryptoEngine Storage KeyManager Merkle AuditLog VaultRows.

Section Vault.
Context {CR : Crypto}.

(** * Session *)

Definition vault_store_auth_metadata (salt verifier : bytes) (subkeys : kdf_subkeys_t) : M unit :=
  storage_begin_transaction ;;
  finish_transaction
    (vault_put_metadata_blob VAULT_METADATA_SALT salt ;;
     vault_put_metadata_blob VAULT_METADATA_VERIFIER verifier ;;
     vault_put_wrapped_meta_key (kek_meta subkeys) (kek_enc subkeys)).

(** The new salt, the verifier and the keys of a new password. *)
Definition vault_derive_credentials (master_password : bytes) : M (bytes * bytes * kdf_subkeys_t) :=
  guard_or (negb (bool_decide (c_str master_password = []))) SM_ERR_INVALID_ARGUMENT ;;
  salt ← kdf_generate_salt;
  lib_call SM_ERR_STORAGE ;;
  password_copy ← vault_copy_password master_password;
  master_key ← kdf_derive_master_key password_copy salt;
  lib_call SM_ERR_CRYPTO ;;
  vault_alloc_subkeys ;;
  subkeys ← kdf_derive_subkeys master_key;
  mret (salt, sha256 master_key, subkeys).

(** Any failure leaves the session locked. *)
Definition or_lock (m : M unit) : M unit :=
  r ← try m;
  match r with
  | Ok _ => mret ()
  | Err s => vault_lock_state ;; throw s
  end.

(** [g_subkeys = subkeys; g_unlocked = 1;] *)
Definition vault_set_session (subkeys : kdf_subkeys_t) : M unit := λ e w,
  (Ok (), set_session (Some subkeys) true w).

Definition vault_unlock_internal (master_password : bytes) (allow_metadata_initialize : bool) : M unit :=
  guard_or (negb (bool_decide (c_str master_password = []))) SM_ERR_INVALID_ARGUMENT ;;
  require_db ;;
  vault_lock_state ;;
  or_lock
    (metadata ← vault_load_auth_metadata;
     guard_or (bool_decide (is_Some metadata) || allow_metadata_initialize) SM_ERR_NOT_FOUND ;;
     salt ← match metadata with Some (salt, _) => mret salt | None => kdf_generate_salt end;
     lib_call SM_ERR_STORAGE ;;
     password_copy ← vault_copy_password master_password;
     master_key ← kdf_derive_master_key password_copy salt;
     lib_call SM_ERR_CRYPTO ;;
     let computed_verifier := sha256 master_key in
     (match metadata with
      | Some (_, verifier) =>
          if bool_decide (computed_verifier = verifier) then mret ()
          else vault_log_auth_failure_untrusted ;; throw SM_ERR_AUTH
      | None => mret ()
      end) ;;
     vault_alloc_subkeys ;;
     subkeys ← kdf_derive_subkeys master_key;
     session ← match metadata with
               | None => vault_store_auth_metadata salt computed_verifier subkeys ;; mret subkeys
               | Some _ => vault_load_meta_key subkeys
               end;
     vault_set_session session).

Definition vault_unlock (master_password : bytes) : M unit :=
  vault_unlock_internal master_password true.

Definition vault_unlock_existing (master_password : bytes) : M unit :=
  vault_unlock_internal master_password false.

(** * Secrets *)

(** No control characters, at most 256 bytes. *)
Definition vault_name_is_clean (name : bytes) : bool :=
  negb (bool_decide (c_str name = [])) && (length (c_str name) <=? VAULT_SECRET_NAME_MAX)%nat
  && forallb (λ c, negb ((byte_z c <? 32)%Z || (byte_z c =? 127)%Z)) (c_str name).

(** The statements of a new version: the archive of the active one, the new
    row and the audit entry. *)
Definition put_statements (archive : option bool) (action : bytes) (id stored_name : bytes)
    (display : bytes * bytes) (version nonce_counter : Z) (now : bytes) (expires_at : option bytes)
    (ttl : Z) (encrypted : encrypted_secret_t) : M unit :=
  (match archive with
   | Some require_existing => vault_archive_active_secret stored_name now require_existing
   | None => mret ()
   end) ;;
  vault_insert_secret id stored_name display.1 display.2 version nonce_counter now now expires_at ttl
    encrypted ;;
  vault_log_success action stored_name version.

(** [expires_at] of a time to live, unset for 0. *)
Definition expiry_of (ttl_seconds : Z) : M (option bytes) :=
  if (0 <? ttl_seconds)%Z then
    guard_or (ttl_seconds <=? INT64_MAX)%Z SM_ERR_INVALID_ARGUMENT ;;
    t ← utils_now_plus_seconds_iso8601 ttl_seconds UTILS_ISO8601_UTC_BUFFER_LEN;
    mret (Some t)
  else mret None.

(** The identifier of a new row and the envelope bound to it. *)
Definition seal_secret (plaintext stored_name : bytes) (version nonce_counter : Z)
    (algorithm : option bytes) : M (bytes * encrypted_secret_t) :=
  id ← utils_generate_uuid_v4 UTILS_UUID_V4_BUFFER_LEN;
  identity ← crypto_engine_build_row_identity id stored_name CRYPTO_ENGINE_ROW_IDENTITY_HEX_LEN;
  k ← g_subkeys;
  encrypted ← crypto_engine_encrypt_with_algorithm plaintext (kek_enc k) identity version
                nonce_counter algorithm;
  mret (id, encrypted).

Definition vault_put_with_options (name secret : bytes) (algorithm : option bytes) (ttl_seconds : Z)
  : M unit :=
  vault_require_unlocked ;;
  guard_or (vault_name_is_clean name) SM_ERR_INVALID_ARGUMENT ;;
  stored_name ← vault_build_name_lookup name VAULT_NAME_LOOKUP_HEX_LEN;
  display ← vault_encrypt_display_name name stored_name VAULT_NAME_NONCE_BYTES VAULT_ENCRYPTED_NAME_MAX;
  metadata ← vault_find_secret_metadata stored_name;
  history ← vault_find_secret_history_bounds stored_name;
  now ← utils_now_iso8601 UTILS_ISO8601_UTC_BUFFER_LEN;
  expires_at ← expiry_of ttl_seconds;
  '(version, nonce_counter) ← match history with
                              | Some (max_version, max_nonce_counter) =>
                                  lift (next_bounds max_version max_nonce_counter)
                              | None => mret (1, 1)%Z
                              end;
  '(id, encrypted) ← seal_secret secret stored_name version nonce_counter algorithm;
  finish_transaction
    (storage_begin_transaction ;;
     put_statements (match metadata with Some _ => Some true | None => None end)
       (match metadata with Some _ => str "UPDATE" | None => str "CREATE" end)
       id stored_name display version nonce_counter now expires_at ttl_seconds encrypted).

Definition vault_put (name secret : bytes) : M unit :=
  vault_put_with_options name secret None 0.

Definition vault_put_with_algorithm (name secret : bytes) (algorithm : option bytes) : M unit :=
  vault_put_with_options name secret algorithm 0.

Definition vault_get (name : bytes) (output_len : nat) : M bytes :=
  vault_require_unlocked ;;
  vault_read_secret name 0 true output_len true.

Definition vault_get_version (name : bytes) (version : Z) (output_len : nat) : M bytes :=
  vault_require_unlocked ;;
  guard_or (1 <=? version)%Z SM_ERR_INVALID_ARGUMENT ;;
  vault_read_secret name version false output_len true.

Definition vault_get_active_version (name : bytes) : M Z :=
  vault_require_unlocked ;;
  guard_or (negb (bool_decide (c_str name = []))) SM_ERR_INVALID_ARGUMENT ;;
  stored_name ← vault_build_name_lookup name VAULT_NAME_LOOKUP_HEX_LEN;
  metadata ← vault_find_secret_metadata stored_name;
  match metadata with
  | None => throw SM_ERR_NOT_FOUND
  | Some md => mret (md_version md)
  end.

Definition delete_statements (stored_name now : bytes) (version : Z) : M unit :=
  vault_archive_active_secret stored_name now true ;;
  vault_log_success (str "DELETE") stored_name version.

Definition vault_delete (name : bytes) : M unit :=
  vault_require_unlocked ;;
  require_db ;;
  guard_or (negb (bool_decide (c_str name = []))) SM_ERR_INVALID_ARGUMENT ;;
  stored_name ← vault_build_name_lookup name VAULT_NAME_LOOKUP_HEX_LEN;
  now ← utils_now_iso8601 UTILS_ISO8601_UTC_BUFFER_LEN;
  metadata ← vault_find_secret_metadata stored_name;
  match metadata with
  | None => throw SM_ERR_NOT_FOUND
  | Some md =>
      storage_begin_transaction ;;
      finish_transaction (delete_statements stored_name now (md_version md))
  end.

(** The version after the last one of a secret that must have a history. *)
Definition next_version (stored_name : bytes) : M (Z * Z) :=
  history ← vault_find_secret_history_bounds stored_name;
  match history with
  | None => throw SM_ERR_STORAGE
  | Some (max_version, max_nonce_counter) => lift (next_bounds max_version max_nonce_counter)
  end.

Definition vault_rollback (name : bytes) (version : Z) : M unit :=
  vault_require_unlocked ;;
  guard_or (negb (bool_decide (c_str name = [])) && (1 <=? version)%Z) SM_ERR_INVALID_ARGUMENT ;;
  stored_name ← vault_build_name_lookup name VAULT_NAME_LOOKUP_HEX_LEN;
  display ← vault_encrypt_display_name name stored_name VAULT_NAME_NONCE_BYTES VAULT_ENCRYPTED_NAME_MAX;
  '(plaintext, algorithm) ← vault_decrypt_secret_alloc stored_name version CRYPTO_ENGINE_ALGORITHM_MAX;
  src_ttl ← vault_get_version_ttl stored_name version;
  '(new_version, new_nonce_counter) ← next_version stored_name;
  now ← utils_now_iso8601 UTILS_ISO8601_UTC_BUFFER_LEN;
  new_expires_at ← expiry_of src_ttl;
  '(id, encrypted) ← seal_secret plaintext stored_name new_version new_nonce_counter (Some algorithm);
  finish_transaction
    (storage_begin_transaction ;;
     put_statements (Some false) (str "ROLLBACK") id stored_name display new_version new_nonce_counter
       now new_expires_at src_ttl encrypted).

(** * Rotation of expired secrets *)

(** [name] is a stored name. Nothing happens unless the secret is due. *)
Definition vault_rotate_expired_secret (name : bytes) : M unit :=
  guard_or (negb (bool_decide (c_str name = []))) SM_ERR_INVALID_ARGUMENT ;;
  now ← utils_now_iso8601 UTILS_ISO8601_UTC_BUFFER_LEN;
  metadata ← vault_find_secret_metadata name;
  match metadata with
  | None => throw SM_ERR_STORAGE
  | Some md =>
      if negb match md_expires_at md with
              | None => false
              | Some expires_at => vault_expiry_is_due expires_at now
              end
      then mret ()
      else
        '(plaintext, algorithm) ← vault_decrypt_secret_alloc name (md_version md)
                                    CRYPTO_ENGINE_ALGORITHM_MAX;
        '(new_version, new_nonce_counter) ← next_version name;
        id ← utils_generate_uuid_v4 UTILS_UUID_V4_BUFFER_LEN;
        identity ← crypto_engine_build_row_identity id name CRYPTO_ENGINE_ROW_IDENTITY_HEX_LEN;
        expires_at ← expiry_of (md_rotation_interval_seconds md);
        k ← g_subkeys;
        encrypted ← crypto_engine_encrypt_with_algorithm plaintext (kek_enc k) identity new_version
                      new_nonce_counter (Some algorithm);
        finish_transaction
          (storage_begin_transaction ;;
           put_statements (Some true) (str "ROTATE_DEK") id name (md_name_nonce md, md_encrypted_name md)
             new_version new_nonce_counter now expires_at (md_rotation_interval_seconds md) encrypted)
  end.

(** The loop of [vault_auto_rotate_expired] with a bound on its iterations;
    [None] when the bound is reached. *)
Fixpoint auto_rotate_loop (fuel : nat) (now : bytes) (rotated : nat) : M (option nat) :=
  match fuel with
  | O => mret None
  | S fuel' =>
      name ← vault_find_next_expired_secret now;
      match name with
      | None => mret (Some rotated)
      | Some n => vault_rotate_expired_secret n ;; auto_rotate_loop fuel' now (S rotated)
      end
  end.

Definition vault_auto_rotate_expired (fuel : nat) : M (option nat) :=
  vault_require_unlocked ;;
  now ← utils_now_iso8601 UTILS_ISO8601_UTC_BUFFER_LEN;
  auto_rotate_loop fuel now 0.

(** * Rotation of the master password *)

Definition rotate_kek_statements (old new : kdf_subkeys_t) (new_salt new_verifier : bytes) : M unit :=
  audit_verify_chain (kek_audit old) ;;
  key_manager_rotate_kek (kek_enc old) (kek_enc new) ;;
  vault_put_wrapped_meta_key (kek_meta old) (kek_enc new) ;;
  vault_put_metadata_blob VAULT_METADATA_SALT new_salt ;;
  vault_put_metadata_blob VAULT_METADATA_VERIFIER new_verifier ;;
  audit_resign_chain (kek_audit new) ;;
  audit_log_event (str "user:default") (str "ROTATE_KEK") (str "vault") 0 (str "SUCCESS") (kek_audit new).

Definition vault_rotate_kek (new_master_password : bytes) : M unit :=
  vault_require_unlocked ;;
  guard_or (negb (bool_decide (c_str new_master_password = []))) SM_ERR_INVALID_ARGUMENT ;;
  require_db ;;
  '(new_salt, new_verifier, new_subkeys) ← vault_derive_credentials new_master_password;
  old_subkeys ← g_subkeys;
  storage_begin_transaction ;;
  finish_transaction (rotate_kek_statements old_subkeys new_subkeys new_salt new_verifier) ;;
  vault_set_session (Subkeys (kek_enc new_subkeys) (kek_audit new_subkeys) (kek_token new_subkeys)
                       (kek_meta old_subkeys)).

(** * What the operations may change *)

#[export] Typeclasses Opaque g_subkeys vault_alloc_subkeys vault_lock_state vault_require_unlocked
  vault_get_metadata_blob vault_put_metadata_blob vault_log_auth_failure_untrusted
  vault_load_auth_metadata vault_copy_password vault_find_secret_metadata vault_get_version_ttl
  vault_find_secret_history_bounds vault_insert_secret vault_archive_active_secret
  vault_copy_secret_row vault_load_secret_row vault_find_next_expired_secret vault_log_success
  vault_build_name_lookup vault_encrypt_display_name vault_decrypt_display_name
  vault_put_wrapped_meta_key vault_load_meta_key vault_decrypt_secret_row vault_read_secret
  vault_decrypt_secret_alloc vault_derive_credentials expiry_of seal_secret next_version
  put_statements delete_statements rotate_kek_statements utils_now_iso8601
  utils_now_plus_seconds_iso8601 utils_generate_uuid_v4 key_manager_rotate_kek
  crypto_engine_build_row_identity crypto_engine_decrypt crypto_engine_encrypt_with_algorithm
  kdf_generate_salt kdf_derive_master_key kdf_derive_subkeys.

#[export] Instance keeps_g_subkeys : Keeps same_state g_subkeys.
Proof. intros e w. by unfold same_state. Qed.
#[export] Instance keeps_alloc_subkeys : Keeps same_state vault_alloc_subkeys.
Proof. unfold vault_alloc_subkeys. apply _. Qed.
#[export] Instance keeps_require_unlocked : Keeps same_state vault_require_unlocked.
Proof. intros e w. by unfold same_state. Qed.
#[export] Instance keeps_get_metadata_blob k n : Keeps same_state (vault_get_metadata_blob k n).
Proof. unfold vault_get_metadata_blob. apply _. Qed.
#[export] Instance keeps_get_not_before : Keeps same_state vault_get_token_not_before.
Proof. unfold vault_get_token_not_before. apply _. Qed.
#[export] Instance keeps_put_metadata_blob k v : Keeps in_transaction (vault_put_metadata_blob k v).
Proof. unfold vault_put_metadata_blob. apply _. Qed.
#[export] Instance keeps_put_not_before v : Keeps in_transaction (vault_put_token_not_before v).
Proof. unfold vault_put_token_not_before. apply _. Qed.
#[export] Instance keeps_log_auth_failure : Keeps in_transaction vault_log_auth_failure_untrusted.
Proof. unfold vault_log_auth_failure_untrusted. apply _. Qed.
#[export] Instance keeps_load_auth_metadata : Keeps same_state vault_load_auth_metadata.
Proof. unfold vault_load_auth_metadata. keeps_tac. Qed.
#[export] Instance keeps_copy_password p : Keeps same_state (vault_copy_password p).
Proof. unfold vault_copy_password. apply _. Qed.
#[export] Instance keeps_find_metadata n : Keeps same_state (vault_find_secret_metadata n).
Proof. unfold vault_find_secret_metadata. apply _. Qed.
#[export] Instance keeps_version_ttl n v : Keeps same_state (vault_get_version_ttl n v).
Proof. unfold vault_get_version_ttl. apply _. Qed.
#[export] Instance keeps_history_bounds n : Keeps same_state (vault_find_secret_history_bounds n).
Proof. unfold vault_find_secret_history_bounds. apply _. Qed.
#[export] Instance keeps_insert_secret i n nn en v c ct ut ex ri es :
  Keeps in_transaction (vault_insert_secret i n nn en v c ct ut ex ri es).
Proof. unfold vault_insert_secret. apply _. Qed.
#[export] Instance keeps_archive n u r : Keeps in_transaction (vault_archive_active_secret n u r).
Proof. unfold vault_archive_active_secret. apply _. Qed.
#[export] Instance keeps_copy_row r : Keeps same_state (vault_copy_secret_row r).
Proof. unfold vault_copy_secret_row. apply _. Qed.
#[export] Instance keeps_load_row n v a : Keeps same_state (vault_load_secret_row n v a).
Proof. unfold vault_load_secret_row. apply _. Qed.
#[export] Instance keeps_next_expired n : Keeps same_state (vault_find_next_expired_secret n).
Proof. unfold vault_find_next_expired_secret. apply _. Qed.
#[export] Instance keeps_log_success a t v : Keeps in_transaction (vault_log_success a t v).
Proof. unfold vault_log_success. apply _. Qed.
#[export] Instance keeps_name_lookup n l : Keeps same_state (vault_build_name_lookup n l).
Proof. unfold vault_build_name_lookup. apply _. Qed.
#[export] Instance keeps_encrypt_name n s l c : Keeps same_state (vault_encrypt_display_name n s l c).
Proof. unfold vault_encrypt_display_name. apply _. Qed.
#[export] Instance keeps_decrypt_name s n c l : Keeps same_state (vault_decrypt_display_name s n c l).
Proof. unfold vault_decrypt_display_name. apply _. Qed.
#[export] Instance keeps_put_meta_key m k : Keeps in_transaction (vault_put_wrapped_meta_key m k).
Proof. unfold vault_put_wrapped_meta_key. apply _. Qed.
#[export] Instance keeps_load_meta_key k : Keeps same_state (vault_load_meta_key k).
Proof. unfold vault_load_meta_key. keeps_tac. Qed.
#[export] Instance keeps_decrypt_row r n l : Keeps same_state (vault_decrypt_secret_row r n l).
Proof. unfold vault_decrypt_secret_row. apply _. Qed.
#[export] Instance keeps_read_secret n v a l b : Keeps in_transaction (vault_read_secret n v a l b).
Proof. unfold vault_read_secret. apply _. Qed.
#[export] Instance keeps_decrypt_alloc n v l : Keeps same_state (vault_decrypt_secret_alloc n v l).
Proof. unfold vault_decrypt_secret_alloc. apply _. Qed.
#[export] Instance keeps_derive_credentials p : Keeps same_state (vault_derive_credentials p).
Proof. unfold vault_derive_credentials. apply _. Qed.
#[export] Instance keeps_expiry_of t : Keeps same_state (expiry_of t).
Proof. unfold expiry_of. apply _. Qed.
#[export] Instance keeps_seal_secret p n v c a : Keeps same_state (seal_secret p n v c a).
Proof. unfold seal_secret. apply _. Qed.
#[export] Instance keeps_next_version n : Keeps same_state (next_version n).
Proof. unfold next_version. keeps_tac. Qed.
#[export] Instance keeps_put_statements a ac i n d v c nw ex ttl es :
  Keeps in_transaction (put_statements a ac i n d v c nw ex ttl es).
Proof. unfold put_statements. apply _. Qed.
#[export] Instance keeps_delete_statements n nw v : Keeps in_transaction (delete_statements n nw v).
Proof. unfold delete_statements. apply _. Qed.
#[export] Instance keeps_rotate_kek_statements k k' s v :
  Keeps in_transaction (rotate_kek_statements k k' s v).
Proof. unfold rotate_kek_statements. apply _. Qed.
#[export] Instance keeps_get n l : Keeps in_transaction (vault_get n l).
Proof. unfold vault_get. apply _. Qed.
#[export] Instance keeps_get_version n v l : Keeps in_transaction (vault_get_version n v l).
Proof. unfold vault_get_version. apply _. Qed.
#[export] Instance keeps_get_active_version n : Keeps same_state (vault_get_active_version n).
Proof. unfold vault_get_active_version. keeps_tac. Qed.

(** * Atomicity *)

#[export] Instance atomic_log_event ac a t v r k : Atomic (audit_log_event ac a t v r k).
Proof. unfold audit_log_event. apply _. Qed.
#[export] Instance atomic_log_success a t v : Atomic (vault_log_success a t v).
Proof. unfold vault_log_success. apply _. Qed.
#[export] Instance atomic_read_secret n v a l b : Atomic (vault_read_secret n v a l b).
Proof. unfold vault_read_secret. apply _. Qed.
#[export] Instance atomic_put n s a t : Atomic (vault_put_with_options n s a t).
Proof. unfold vault_put_with_options. apply _. Qed.
#[export] Instance atomic_delete n : Atomic (vault_delete n).
Proof. unfold vault_delete. apply _. Qed.
#[export] Instance atomic_rollback n v : Atomic (vault_rollback n v).
Proof. unfold vault_rollback. apply _. Qed.
#[export] Instance atomic_rotate_expired n : Atomic (vault_rotate_expired_secret n).
Proof. unfold vault_rotate_expired_secret. apply _. Qed.

(** The last step of the rotation replaces the session and cannot fail. *)
#[export] Instance atomic_then_session statements k :
  Keeps in_transaction statements →
  Atomic (storage_begin_transaction ;; finish_transaction statements ;; vault_set_session k) | 1.
Proof.
  intros K e w r w' Hw H. pose proof (atomic_begin_finish statements K e w) as Ha.
  unfold mbind, M_bind in *.
  destruct (storage_begin_transaction e w) as [[[]|s] w1]; [|by apply Ha].
  destruct (finish_transaction statements e w1) as [[[]|s] w2]; [|by apply Ha].
  injection H as <- <-. exact (Ha (Ok ()) w2 Hw eq_refl).
Qed.
#[export] Instance atomic_rotate_kek p : Atomic (vault_rotate_kek p).
Proof. unfold vault_rotate_kek. apply _. Qed.

(** The operations on the secrets of an open vault. *)
Inductive vault_op :=
  | OpPut (name secret : bytes) (algorithm : option bytes) (ttl_seconds : Z)
  | OpGet (name : bytes) (output_len : nat)
  | OpGetVersion (name : bytes) (version : Z) (output_len : nat)
  | OpDelete (name : bytes)
  | OpRollback (name : bytes) (version : Z)
  | OpRotateExpired (stored_name : bytes)
  | OpRotateKek (new_master_password : bytes).

(** The bytes an operation returns: none unless it reads a secret. *)
Definition run_op (o : vault_op) : M bytes :=
  match o with
  | OpPut name secret algorithm ttl => vault_put_with_options name secret algorithm ttl ;; mret []
  | OpGet name n => vault_get name n
  | OpGetVersion name version n => vault_get_version name version n
  | OpDelete name => vault_delete name ;; mret []
  | OpRollback name version => vault_rollback name version ;; mret []
  | OpRotateExpired name => vault_rotate_expired_secret name ;; mret []
  | OpRotateKek password => vault_rotate_kek password ;; mret []
  end.

#[export] Instance atomic_run_op o : Atomic (run_op o).
Proof. destruct o; apply _. Qed.

(** C20: Every operation on the secrets is all or nothing, whatever calls of
    SQLite, libsodium or the allocator fail in it, the commit and the rollback
    included: an operation that returns an error changed nothing durable; one
    that succeeds from a state without open transaction leaves none open, so
    that all it wrote is durable; in a state left by a failed rollback no
    operation makes anything durable. *)
Theorem vault_operation_atomic o e w r w' :
  settled w → run_op o e w = (r, w') →
  settled w' ∧
  (∀ s, r = Err s → durable w' = durable w) ∧
  (∀ out, r = Ok out → quiescent w → quiescent w' ∧ durable w' = visible w') ∧
  (¬ quiescent w → durable w' = durable w).
Proof.
  intros Hw H. destruct (atomic_run_op o e w r w' Hw H) as (Hs & Hq & Hd).
  split_and!; [done|intros s ->; apply Hd; by left| |by eauto].
  intros out -> Hqw. destruct (Hq eq_refl Hqw) as (c & E & Htx & Hc).
  split; [by exists c|]. unfold durable, visible. rewrite E. simpl. by rewrite Hc.
Qed.

End Vault.
