(* ===== verification/VaultSpec.v ===== *)
(** What the vault promises: an abstract store of versioned secrets with the
    trail of its operations, the transitions of the store, and the invariant
    of the database under which the tables stand for a store.

    A store is keyed by the lookup names of the secrets, as the table is. The
    refinement of this specification by the operations of [Vault] is in
    [VaultRefine]. *)

From S2P Require Import Prelude Status Sodium Schema State Utils CryptoEngine KeyManager AuditLog VaultRows Vault.

(** * The abstract store *)

Record version := Version {
  v_name : bytes;
  v_number : Z;
  v_secret : option bytes;
  v_live : bool;
}.

Record event := Event {
  ev_action : bytes;
  ev_target : bytes;
  ev_version : Z;
}.

Record store := Store {
  st_versions : list version;
  st_trail : list event;
}.

#[export] Instance version_eq_dec : EqDecision version.
Proof. solve_decision. Defined.
#[export] Instance event_eq_dec : EqDecision event.
Proof. solve_decision. Defined.

Definition versions_of (name : bytes) (st : store) : list version :=
  filter (λ v, v_name v = name) (st_versions st).

Definition find_live (name : bytes) (st : store) : option version :=
  snd <$> list_find (λ v, v_name v = name ∧ v_live v = true) (st_versions st).

Definition find_number (name : bytes) (number : Z) (st : store) : option version :=
  snd <$> list_find (λ v, v_name v = name ∧ v_number v = number) (st_versions st).

(** No version of [name] is live any more. *)
Definition retire_version (name : bytes) (v : version) : version :=
  if bool_decide (v_name v = name) then Version (v_name v) (v_number v) (v_secret v) false else v.
Definition retire (name : bytes) (st : store) : store :=
  Store (retire_version name <$> st_versions st) (st_trail st).

Definition record (x : event) (st : store) : store :=
  Store (st_versions st) (st_trail st ++ [x]).

(** Numbers count from 1 and are never used twice. *)
Definition next_number (name : bytes) (st : store) : Z :=
  match sql_max v_number (versions_of name st) with None => 1 | Some n => n + 1 end.

Definition add_version (name secret action : bytes) (st : store) : store :=
  let n := next_number name st in
  record (Event action name n)
    (Store (st_versions (retire name st) ++ [Version name n (Some secret) true]) (st_trail st)).

(** The transitions: [step lookup o st out st'] when the operation [o]
    succeeds, returning [out]; [lookup] takes a name to its lookup name, and
    [OpRotateExpired] is called with a lookup name. *)
Inductive step (lookup : bytes → bytes) : vault_op → store → bytes → store → Prop :=
  | step_put name secret algorithm ttl st :
      step lookup (OpPut name secret algorithm ttl) st []
        (add_version (lookup name) secret
           (match find_live (lookup name) st with Some _ => str "UPDATE" | None => str "CREATE" end) st)
  | step_get name n st v s :
      find_live (lookup name) st = Some v → v_secret v = Some s →
      step lookup (OpGet name n) st s (record (Event (str "READ") (lookup name) (v_number v)) st)
  | step_get_version name number n st v s :
      find_number (lookup name) number st = Some v → v_secret v = Some s →
      step lookup (OpGetVersion name number n) st s
        (record (Event (str "READ") (lookup name) number) st)
  | step_delete name st v :
      find_live (lookup name) st = Some v →
      step lookup (OpDelete name) st []
        (record (Event (str "DELETE") (lookup name) (v_number v)) (retire (lookup name) st))
  | step_rollback name number st v s :
      find_number (lookup name) number st = Some v → v_secret v = Some s →
      step lookup (OpRollback name number) st []
        (add_version (lookup name) s (str "ROLLBACK") st)
  | step_rotate_expired name st v s :
      find_live name st = Some v → v_secret v = Some s →
      step lookup (OpRotateExpired name) st [] (add_version name s (str "ROTATE_DEK") st)
  | step_not_due name st :
      step lookup (OpRotateExpired name) st [] st
  | step_rotate_kek password st :
      step lookup (OpRotateKek password) st [] (record (Event (str "ROTATE_KEK") (str "vault") 0) st).

(** ** What the transitions guarantee *)

(** Versions are never lost: a transition keeps every version it finds, up to
    the live flag, and only appends to the trail. *)
Definition same_version (v v' : version) : Prop :=
  v_name v' = v_name v ∧ v_number v' = v_number v ∧ v_secret v' = v_secret v.

Lemma same_version_retire name l : Forall2 same_version l (retire_version name <$> l).
Proof.
  induction l as [|v l IH]; simpl; constructor; [|done].
  unfold retire_version, same_version. by case_bool_decide.
Qed.

Lemma same_version_refl l : Forall2 same_version l l.
Proof. induction l; constructor; [done|done]. Qed.

Lemma step_history lookup o st out st' :
  step lookup o st out st' →
  ∃ l new events, st_versions st' = l ++ new ∧ Forall2 same_version (st_versions st) l ∧
    st_trail st' = st_trail st ++ events ∧ (length new ≤ 1)%nat ∧ (length events ≤ 1)%nat.
Proof.
  destruct 1; unfold add_version, record, retire; cbn [st_versions st_trail];
    eexists _, _, _;
    (split_and!;
     [first [reflexivity | symmetry; apply app_nil_r]
     |first [apply same_version_retire|apply same_version_refl]
     |first [reflexivity | symmetry; apply app_nil_r]|simpl; lia|simpl; lia]).
Qed.

(** * The tables as a store *)

Section Abstraction.
Context {CR : Crypto}.

Definition abs_version (kek : bytes) (r : secret_row) : version :=
  Version (sr_name r) (sr_version r)
    (match open_row kek r with Ok s => Some s | Err _ => None end) (sr_is_archived r =? 0)%Z.

Definition abs_event (r : audit_row) : event :=
  Event (ar_action r) (ar_target r) (row_version r).

Definition abstract (k : kdf_subkeys_t) (db : database) : store :=
  Store (abs_version (kek_enc k) <$> t_secrets db) (abs_event <$> t_audit_log db).

(** The columns of a row the vault wrote. *)
Record row_fine (r : secret_row) : Prop := {
  rf_storable : storable r;
  rf_version : (1 ≤ sr_version r ≤ INT_MAX)%Z;
  rf_nonce_counter : (0 ≤ sr_nonce_counter r ≤ INT64_MAX)%Z;
  rf_archived : sr_is_archived r = 0%Z ∨ sr_is_archived r = 1%Z;
  rf_display : is_ok (vault_copy_name_metadata (sr_name_nonce r) (sr_encrypted_name r)) = true;
  rf_created : (length (c_str (sr_created_at r)) < UTILS_ISO8601_UTC_BUFFER_LEN)%nat;
  rf_expires : ∀ x, sr_expires_at r = Some x →
    c_str x = x ∧ x ≠ [] ∧ (length x < UTILS_ISO8601_UTC_BUFFER_LEN)%nat;
  rf_interval : ∀ z, sr_rotation_interval r = Some z → (0 < z ≤ INT64_MAX)%Z;
}.

Record table_ok (t : list secret_row) : Prop := {
  tk_ids : ids_ok t;
  tk_rows : Forall row_fine t;
  tk_versions : NoDup ((λ r, (sr_name r, sr_version r)) <$> t);
  tk_live : ∀ r q, r ∈ t → q ∈ t → sr_is_archived r = 0%Z → sr_name q = sr_name r →
    (sr_version q ≤ sr_version r)%Z;
}.

(** Every version is readable under the key. *)
Definition sealed (kek : bytes) (t : list secret_row) : Prop :=
  ∀ r, r ∈ t → ∃ s, open_row kek r = Ok s.

(** The log verifies and numbers its entries from 1. *)
Definition numbered (log : list audit_row) : Prop :=
  ar_entry_id <$> log = Z.of_nat <$> seq 1 (length log) ∧ (Z.of_nat (length log) ≤ INT64_MAX)%Z.
Definition log_ok (key : bytes) (log : list audit_row) : Prop :=
  numbered log ∧ chain_ok key log = true.

Definition keys_ok (k : kdf_subkeys_t) : Prop :=
  length (kek_enc k) = 32%nat ∧ length (kek_audit k) = 32%nat ∧ length (kek_meta k) = 32%nat.

Record db_ok (k : kdf_subkeys_t) (db : database) : Prop := {
  db_keys : keys_ok k;
  db_table : table_ok (t_secrets db);
  db_sealed : sealed (kek_enc k) (t_secrets db);
  db_log : log_ok (kek_audit k) (t_audit_log db);
}.

(** ** Reading the tables *)

Lemma table_row t r : table_ok t → r ∈ t → row_fine r.
Proof. intros Ht Hr. pose proof (tk_rows _ Ht) as H. rewrite Forall_forall in H. auto. Qed.

Lemma row_version_int r : row_fine r → column_int (sr_version r) = sr_version r.
Proof.
  intros H. apply rf_version in H. unfold column_int. unfold INT_MAX in H.
  apply wrap_s_small; [lia|]. simpl. lia.
Qed.

(** Name and number identify a row. *)
Lemma same_version_row t r q :
  table_ok t → r ∈ t → q ∈ t → sr_name r = sr_name q → sr_version r = sr_version q → r = q.
Proof.
  intros Ht (i & Hi)%list_elem_of_lookup (j & Hj)%list_elem_of_lookup En Ev.
  assert (i = j) as ->; [|congruence].
  eapply (NoDup_lookup _ _ _ (sr_name r, sr_version r) (tk_versions _ Ht)).
  - by rewrite list_lookup_fmap, Hi.
  - rewrite list_lookup_fmap, Hj. simpl. congruence.
Qed.

(** The live row of a name is its last one, so the active row. *)
Lemma active_live t r : table_ok t → r ∈ t → active_row t r = (sr_is_archived r =? 0)%Z.
Proof.
  intros Ht Hr. unfold active_row. destruct (Z.eqb_spec (sr_is_archived r) 0) as [E|]; [|done].
  simpl. apply bool_decide_eq_true.
  assert (r ∈ rows_named (sr_name r) t) as Hin by (apply list_elem_of_filter; auto).
  destruct (sql_max sr_version (rows_named (sr_name r) t)) as [m|] eqn:Em.
  - apply sql_max_spec in Em as [(q & Hq & <-) Hle]. f_equal. specialize (Hle _ Hin).
    apply list_elem_of_filter in Hq as [Hn Hq]. pose proof (tk_live _ Ht r q Hr Hq E Hn). lia.
  - apply sql_max_None in Em. rewrite Em in Hin. by apply not_elem_of_nil in Hin.
Qed.

Lemma find_active_abs k db n :
  table_ok (t_secrets db) →
  find_live n (abstract k db) = abs_version (kek_enc k) <$> find_active n (t_secrets db).
Proof.
  intros Ht. unfold find_live, find_active, abstract. cbn [st_versions].
  apply find_first_fmap. intros r Hr. cbn. by rewrite active_live.
Qed.

Lemma find_version_abs k db n v :
  find_number n v (abstract k db) = abs_version (kek_enc k) <$> find_version n v (t_secrets db).
Proof. unfold find_number, find_version, abstract. cbn [st_versions]. by apply find_first_fmap. Qed.

Lemma sql_max_fmap {A B} (g : A → B) (f : B → Z) l : sql_max f (g <$> l) = sql_max (f ∘ g) l.
Proof. unfold sql_max. by rewrite foldr_fmap. Qed.

Lemma next_number_abs k db n :
  next_number n (abstract k db) =
  match sql_max sr_version (rows_named n (t_secrets db)) with None => 1 | Some m => m + 1 end%Z.
Proof.
  unfold next_number, versions_of, abstract, rows_named. cbn [st_versions].
  rewrite filter_fmap, sql_max_fmap. done.
Qed.

(** ** Writing the tables *)

Definition archive_named (n now : bytes) (t : list secret_row) : list secret_row :=
  (λ r, if is_active_named n r then archive_row now r else r) <$> t.

Lemma is_active_named_spec n r :
  is_active_named n r = true ↔ sr_name r = n ∧ sr_is_archived r = 0%Z.
Proof. unfold is_active_named. by rewrite andb_true_iff, bool_decide_eq_true, Z.eqb_eq. Qed.

Lemma archive_named_nop n now t :
  (∀ r, r ∈ t → is_active_named n r = false) → archive_named n now t = t.
Proof.
  intros H. unfold archive_named. rewrite <- (list_fmap_id t) at 2. apply list_fmap_ext.
  intros i r Hi. rewrite H; [done|]. by eapply list_elem_of_lookup_2.
Qed.

(** What the archiving changes of a row. *)
Lemma archived_row n now t r' :
  r' ∈ archive_named n now t →
  ∃ r, r ∈ t ∧ (r' = r ∧ is_active_named n r = false ∨
                r' = archive_row now r ∧ is_active_named n r = true).
Proof.
  intros (r & -> & Hr)%list_elem_of_fmap. exists r. split; [done|].
  destruct (is_active_named n r); auto.
Qed.

Lemma archive_keys n now t :
  sr_id <$> archive_named n now t = sr_id <$> t ∧
  (λ r, (sr_name r, sr_version r)) <$> archive_named n now t = (λ r, (sr_name r, sr_version r)) <$> t.
Proof.
  unfold archive_named. rewrite <- !list_fmap_compose.
  split; apply list_fmap_ext; intros i r _; simpl; by destruct (is_active_named n r).
Qed.

Lemma archive_row_fine now r : row_fine r → row_fine (archive_row now r).
Proof. intros []. split; simpl; try done. by right. Qed.

Lemma abs_archive kek n now t :
  Forall row_fine t →
  abs_version kek <$> archive_named n now t = retire_version n <$> (abs_version kek <$> t).
Proof.
  intros Hf. unfold archive_named. rewrite <- !list_fmap_compose. apply list_fmap_ext.
  intros i r Hi. cbn. unfold retire_version, is_active_named. cbn [v_name abs_version].
  rewrite Forall_forall in Hf. specialize (Hf r ltac:(by eapply list_elem_of_lookup_2)).
  case_bool_decide as E; [|done]. cbn [andb].
  destruct (rf_archived _ Hf) as [Ea|Ea]; rewrite Ea; simpl; unfold abs_version; simpl; by rewrite ?Ea.
Qed.

Lemma sealed_archive kek n now t : sealed kek t → sealed kek (archive_named n now t).
Proof.
  intros Hs r' (r & Hr & [[-> _]|[-> _]])%archived_row; destruct (Hs r Hr) as (s & E); exists s; exact E.
Qed.

Lemma table_archive n now t : table_ok t → table_ok (archive_named n now t).
Proof.
  intros Ht. pose proof Ht as [[Hids Hnul] Hrows Hver Hlive].
  destruct (archive_keys n now t) as [Ki Kv]. split.
  - split; [by rewrite Ki|]. rewrite Forall_forall in *.
    intros r' (r & Hr & [[-> _]|[-> _]])%archived_row; exact (Hnul r Hr).
  - rewrite Forall_forall in *.
    intros r' (r & Hr & [[-> _]|[-> _]])%archived_row; [by apply Hrows|].
    apply archive_row_fine, Hrows, Hr.
  - by rewrite Kv.
  - intros r' q' (r & Hr & Er)%archived_row (q & Hq & Eq)%archived_row Ha En.
    destruct Er as [[-> _]|[-> _]]; [|done].
    assert (sr_name q' = sr_name q ∧ sr_version q' = sr_version q) as [En' Ev]
      by by destruct Eq as [[-> _]|[-> _]].
    rewrite Ev. apply Hlive; congruence.
Qed.

(** What the constraints of the table say of an accepted row. *)
Lemma insert_accepted r t t' :
  insert_secret_row r t = Some t' →
  t' = t ++ [r] ∧ secret_row_checks r = true ∧
  ∀ q, q ∈ t → sr_id q ≠ sr_id r ∧ (sr_name q = sr_name r → sr_version q ≠ sr_version r) ∧
    (sr_name q = sr_name r → sr_is_archived r = 0%Z → sr_is_archived q ≠ 0%Z).
Proof.
  unfold insert_secret_row. destruct (secret_row_checks r); [|done].
  destruct (existsb _ t) eqn:E; [done|]. intros [= <-]. split_and!; [done..|].
  intros q Hq. assert (secret_row_conflicts r q = false) as Hc.
  { apply not_true_is_false. intros Hc. apply not_true_iff_false in E. apply E, existsb_exists.
    exists q. split; [by apply list_elem_of_In|done]. }
  unfold secret_row_conflicts in Hc. rewrite !orb_false_iff, !bool_decide_eq_false in Hc.
  destruct Hc as [[H1 H2] H3]. split_and!; [congruence|intros E1 E2; apply H2; by split|].
  intros E1 E2 E3. apply H3. by split_and!.
Qed.

Lemma table_add t r t' :
  table_ok t → row_fine r → sr_is_archived r = 0%Z →
  (∀ q, q ∈ t → sr_name q = sr_name r → (sr_version q < sr_version r)%Z) →
  insert_secret_row r t = Some t' → t' = t ++ [r] ∧ table_ok (t ++ [r]).
Proof.
  intros [[Hids Hnul] Hrows Hver Hlive] Hr Ha Hlt (-> & _ & Hnew)%insert_accepted. split; [done|].
  split.
  - split; [|apply Forall_app; split; [done|]].
    + rewrite fmap_app. apply NoDup_app. split_and!; [done| |apply NoDup_singleton].
      intros x (q & -> & Hq)%list_elem_of_fmap Hx%list_elem_of_singleton.
      by destruct (Hnew q Hq) as (H1 & _ & _).
    + apply Forall_singleton. destruct (rf_storable _ Hr) as (Hn & _). by apply bool_decide_eq_true in Hn.
  - apply Forall_app; split; [done|by apply Forall_singleton].
  - rewrite fmap_app. apply NoDup_app. split_and!; [done| |apply NoDup_singleton].
    intros x (q & -> & Hq)%list_elem_of_fmap Hx%list_elem_of_singleton. simpl in Hx.
    injection Hx as En Ev. destruct (Hnew q Hq) as (_ & H2 & _). by apply H2.
  - intros a q [Ha'| ->%list_elem_of_singleton]%elem_of_app [Hq| ->%list_elem_of_singleton]%elem_of_app E0 En.
    + by apply Hlive.
    + exfalso. destruct (Hnew a Ha') as (_ & _ & H3). by apply H3.
    + specialize (Hlt q Hq En). lia.
    + lia.
Qed.

(** The bound of the last version, as the code computes it. *)
Lemma rows_named_max t n m :
  sql_max sr_version (rows_named n t) = Some m →
  ∀ q, q ∈ t → sr_name q = n → (sr_version q ≤ m)%Z.
Proof.
  intros Hm q Hq <-. apply sql_max_spec in Hm as [_ H]. apply H, list_elem_of_filter. auto.
Qed.

Lemma rows_named_none t n :
  sql_max sr_version (rows_named n t) = None → ∀ q, q ∈ t → sr_name q ≠ n.
Proof.
  intros H%sql_max_None q Hq E. assert (q ∈ rows_named n t) as Hin by (apply list_elem_of_filter; auto).
  rewrite H in Hin. by apply not_elem_of_nil in Hin.
Qed.

(** The number the store gives to a new version is above all of its name. *)
Lemma next_number_above k db r :
  sr_version r = next_number (sr_name r) (abstract k db) →
  ∀ q, q ∈ t_secrets db → sr_name q = sr_name r → (sr_version q < sr_version r)%Z.
Proof.
  rewrite next_number_abs. destruct (sql_max _ _) as [m|] eqn:E; intros -> q Hq En.
  - pose proof (rows_named_max _ _ _ E q Hq En). lia.
  - by apply (rows_named_none _ _ E q Hq) in En.
Qed.

(** The table after a new version: the live row of the name is archived and
    the new row comes last. *)
Lemma table_put k db t0 t' r n now action secret a :
  table_ok (t_secrets db) → sealed (kek_enc k) (t_secrets db) →
  t0 = archive_named n now (t_secrets db) ∨ t0 = t_secrets db →
  insert_secret_row r t0 = Some t' →
  row_fine r → sr_name r = n → sr_is_archived r = 0%Z → open_row (kek_enc k) r = Ok secret →
  sr_version r = next_number n (abstract k db) → abs_event a = Event action n (sr_version r) →
  t' = archive_named n now (t_secrets db) ++ [r] ∧ table_ok t' ∧ sealed (kek_enc k) t' ∧
  abstract k (with_audit_log (t_audit_log db ++ [a]) (with_secrets t' db))
  = add_version n secret action (abstract k db).
Proof.
  intros Ht Hs Ht0 Hins Hr <- Ha Ho Hv Hev.
  assert (t0 = archive_named (sr_name r) now (t_secrets db)) as ->.
  { destruct Ht0 as [-> | ->]; [done|]. symmetry. apply archive_named_nop. intros q Hq.
    apply not_true_is_false. intros [En Eq]%is_active_named_spec.
    apply insert_accepted in Hins as (_ & _ & Hnew). destruct (Hnew q Hq) as (_ & _ & H3). by apply H3. }
  assert (∀ q, q ∈ archive_named (sr_name r) now (t_secrets db) → sr_name q = sr_name r →
            (sr_version q < sr_version r)%Z) as Hlt.
  { intros q' (q & Hq & Eq)%archived_row En. pose proof (next_number_above k db r Hv q Hq) as H.
    destruct Eq as [[-> _]|[-> _]]; exact (H En). }
  apply (table_add _ r t') in Hins as [-> Ht']; [|by apply table_archive|done|done|done].
  split_and!; [done|done| |].
  - intros q [Hq| ->%list_elem_of_singleton]%elem_of_app; [by eapply sealed_archive|eauto].
  - unfold add_version. rewrite <- Hv, <- Hev. unfold abstract, record, retire.
    cbn [t_secrets t_audit_log with_audit_log with_secrets st_versions st_trail].
    rewrite !fmap_app, abs_archive by apply Ht. do 2 f_equal.
    cbn. unfold abs_version. by rewrite Ho, Ha.
Qed.

(** ** The numbers of the log *)

Lemma numbered_id log r : numbered log → r ∈ log → (1 ≤ ar_entry_id r ≤ Z.of_nat (length log))%Z.
Proof.
  intros [Hn _] Hr. assert (ar_entry_id r ∈ ar_entry_id <$> log) as H by by apply list_elem_of_fmap_2.
  rewrite Hn in H. apply list_elem_of_fmap in H as (i & -> & Hi%elem_of_seq). lia.
Qed.

Lemma numbered_ordered log : numbered log → audit_ordered log.
Proof.
  intros [Hn _]. revert Hn. generalize 1%nat. unfold audit_ordered.
  induction log as [|r log IH]; intros k Hn; [constructor|].
  change (ar_entry_id r :: (ar_entry_id <$> log) = Z.of_nat k :: (Z.of_nat <$> seq (S k) (length log))) in Hn.
  injection Hn as Hr Hn.
  constructor; [by apply (IH (S k))|]. apply Forall_forall. intros q Hq.
  assert (ar_entry_id q ∈ ar_entry_id <$> log) as H by by apply list_elem_of_fmap_2.
  rewrite Hn in H. apply list_elem_of_fmap in H as (i & -> & Hi%elem_of_seq). lia.
Qed.

Lemma numbered_max log :
  numbered log → default 0%Z (sql_max ar_entry_id log) = Z.of_nat (length log).
Proof.
  intros Hn. destruct (sql_max ar_entry_id log) as [m|] eqn:E; simpl.
  - apply sql_max_spec in E as [(r & Hr & <-) Hle]. pose proof (numbered_id _ _ Hn Hr).
    assert (length log ≠ 0)%nat as Hl by (destruct log; [by apply not_elem_of_nil in Hr|done]).
    assert (Z.of_nat (length log) ∈ ar_entry_id <$> log) as Hin.
    { rewrite (proj1 Hn). apply list_elem_of_fmap_2, elem_of_seq. lia. }
    apply list_elem_of_fmap in Hin as (q & Eq & Hq). specialize (Hle q Hq). lia.
  - apply sql_max_None in E. by rewrite E.
Qed.

Lemma numbered_snoc log r :
  numbered log → audit_ordered (log ++ [r]) → ar_entry_id r = next_id log → numbered (log ++ [r]).
Proof.
  intros Hn Ho Hr. unfold next_id in Hr. rewrite (numbered_max _ Hn) in Hr.
  destruct Hn as [Hn Hm].
  assert (Z.of_nat (length log) < INT64_MAX)%Z as Hlt.
  { destruct (decide (Z.of_nat (length log) = INT64_MAX)) as [E|]; [|lia]. exfalso.
    assert (length log ≠ 0)%nat as Hl by (intros E'; by rewrite E' in E).
    assert (Z.of_nat (length log) ∈ ar_entry_id <$> log) as Hin.
    { rewrite Hn. apply list_elem_of_fmap_2, elem_of_seq. lia. }
    apply list_elem_of_fmap in Hin as (q & Eq & (i & Hi)%list_elem_of_lookup).
    assert (i = length log) as ->.
    { apply (audit_ordered_inj (log ++ [r]) i (length log) q r Ho); [by apply lookup_app_l_Some| |lia].
      by rewrite lookup_app_r, Nat.sub_diag by lia. }
    by rewrite lookup_ge_None_2 in Hi. }
  rewrite Z.min_r in Hr by lia. split; rewrite length_app; cbn [length]; [|lia].
  rewrite fmap_app, Hn, Nat.add_1_r, seq_S, fmap_app. cbn. do 2 f_equal. lia.
Qed.

End Abstraction.
