(* ===== verification/VaultRefine.v ===== *)
(** The operations of [Vault] refine the store of [VaultSpec]: an operation
    that succeeds on a database satisfying the invariant makes a transition of
    the store and keeps the invariant; with the atomicity of [Vault] an
    operation that fails leaves the durable store as it was. *)

From S2P Require Import Prelude Status Sodium Schema State Utils Kdf CryptoEngine Storage KeyManager Merkle AuditLog VaultRows Vault VaultSpec.

(** Distinct numbers between 1 and [m] are at most [m]. *)
Lemma NoDup_bounded (l : list Z) m :
  NoDup l → Forall (λ z, (1 ≤ z ≤ m)%Z) l → (0 ≤ m)%Z → (Z.of_nat (length l) ≤ m)%Z.
Proof.
  intros Hn Hb Hm. rewrite Forall_forall in Hb.
  assert (NoDup (Z.to_nat <$> l)) as Hn'.
  { apply NoDup_fmap_2_strong; [|done]. intros x y Hx%Hb Hy%Hb. lia. }
  assert (Z.to_nat <$> l ⊆+ seq 1 (Z.to_nat m)) as Hs.
  { apply NoDup_submseteq; [done|]. intros n (z & -> & Hz%Hb)%list_elem_of_fmap.
    apply elem_of_seq. lia. }
  apply submseteq_length in Hs. rewrite length_fmap, length_seq in Hs. lia.
Qed.

Section Refine.
Context {CR : Crypto} {CL : CryptoLaws CR}.

(** * What the reading steps return *)

Lemma require_unlocked_ok e w u w' :
  vault_require_unlocked e w = (Ok u, w') → w' = w ∧ w_unlocked w = true ∧ is_Some (w_subkeys w).
Proof.
  unfold vault_require_unlocked. destruct (w_unlocked w); [|done]. simpl.
  case_bool_decide; [|done]. by intros [= _ <-].
Qed.

Lemma g_subkeys_ok e w k w' : g_subkeys e w = (Ok k, w') → w_subkeys w = Some k ∧ w' = w.
Proof. unfold g_subkeys. destruct (w_subkeys w); [|done]. by intros [= <- <-]. Qed.

Lemma name_lookup_ok name n e w s w' k :
  w_subkeys w = Some k → vault_build_name_lookup name n e w = (Ok s, w') →
  s = name_lookup k (c_str name) ∧ c_str s = s ∧ s ≠ [].
Proof.
  intros Hk H. unfold vault_build_name_lookup in H. inv_m.
  match goal with H : g_subkeys _ _ = _ |- _ => apply g_subkeys_ok in H as [Hk' ->] end.
  assert (x = k) as -> by congruence.
  split_and!; [done|apply c_str_no_nul, bin2hex_no_nul|].
  intros E. unfold name_lookup in E. apply (f_equal length) in E. by rewrite length_bin2hex, length_generichash in E.
Qed.

Lemma find_metadata_ok n e w c m w' :
  w_conn w = Some c → vault_find_secret_metadata n e w = (Ok m, w') →
  match m with
  | None => find_active (c_str n) (t_secrets (conn_cur c)) = None
  | Some md => ∃ r, find_active (c_str n) (t_secrets (conn_cur c)) = Some r ∧ copy_metadata r = Ok md
  end.
Proof.
  intros Hc H. unfold vault_find_secret_metadata in H.
  apply bind_ok in H as (? & w1 & H1 & H). apply require_db_ok in H1 as [_ ->].
  apply bind_ok in H as (row & w2 & H2 & H). apply (sql_query_in _ _ _ _ _ _ Hc) in H2 as ->.
  destruct (find_active _ _) as [r|]; inv_m; [|done].
  by eexists.
Qed.

Lemma copy_metadata_ok r md :
  copy_metadata r = Ok md →
  md_version md = column_int (sr_version r) ∧ md_name_nonce md = sr_name_nonce r ∧
  md_encrypted_name md = sr_encrypted_name r ∧ md_expires_at md = c_str <$> sr_expires_at r ∧
  md_rotation_interval_seconds md = default 0%Z (sr_rotation_interval r).
Proof.
  unfold copy_metadata, vault_copy_text_column, vault_copy_name_metadata. intros H.
  inv_outcome. split_and!; try done; cbn [md_expires_at].
  destruct (sr_expires_at r); inv_outcome; done.
Qed.

(** The maxima of a name, of a table that satisfies the invariant. *)
Lemma history_ok n e w c h w' :
  w_conn w = Some c → table_ok (t_secrets (conn_cur c)) →
  vault_find_secret_history_bounds n e w = (Ok h, w') →
  let rows := rows_named (c_str n) (t_secrets (conn_cur c)) in
  match h with
  | None => sql_max sr_version rows = None
  | Some (v, counter) => sql_max sr_version rows = Some v ∧ sql_max sr_nonce_counter rows = Some counter
  end.
Proof.
  intros Hc Ht H. cbv zeta. unfold vault_find_secret_history_bounds in H.
  apply bind_ok in H as (? & w1 & H1 & H). apply require_db_ok in H1 as [_ ->].
  apply bind_ok in H as (rows & w2 & H2 & H). apply (sql_query_in _ _ _ _ _ _ Hc) in H2.
  assert (∀ r, r ∈ rows → r ∈ t_secrets (conn_cur c) ∧ sr_name r = c_str n) as Hrows.
  { intros r Hr. rewrite H2 in Hr. apply list_elem_of_filter in Hr. tauto. }
  assert (Z.of_nat (length rows) ≤ INT_MAX)%Z as Hlen.
  { rewrite <- (length_fmap sr_version). apply NoDup_bounded; [| |done].
    - rewrite H2. unfold rows_named. pose proof (tk_versions _ Ht) as Hn.
      clear -Hn. induction (t_secrets (conn_cur c)) as [|r t IH]; [constructor|].
      cbn [fmap list_fmap] in Hn. apply NoDup_cons in Hn as [Hr Hn]. rewrite filter_cons.
      case_decide as E; [|by apply IH]. cbn [fmap list_fmap]. apply NoDup_cons. split; [|by apply IH].
      intros (q & Ev & Hq)%list_elem_of_fmap. apply list_elem_of_filter in Hq as [En Hq].
      apply Hr, list_elem_of_fmap. exists q. split; [congruence|done].
    - apply Forall_fmap, Forall_forall. intros r [Hr _]%Hrows. by apply (table_row _ _ Ht) in Hr as []. }
  unfold column_int at 1 in H. rewrite wrap_s_small in H by (unfold INT_MAX in *; simpl; lia).
  rewrite <- H2. destruct (Z.ltb_spec 0 (Z.of_nat (length rows))) as [Hpos|Hpos].
  - destruct (sql_max sr_version rows) as [v|] eqn:Ev.
    2:{ apply sql_max_None in Ev. by rewrite Ev in Hpos. }
    destruct (sql_max sr_nonce_counter rows) as [k|] eqn:Ek.
    2:{ apply sql_max_None in Ek. by rewrite Ek in Hpos. }
    inv_m. cbn [default from_option]. split; [|done]. f_equal.
    apply sql_max_spec in Ev as [(r & Hr & <-) _]. apply Hrows in Hr as [Hr _].
    symmetry. apply row_version_int. by eapply table_row.
  - inv_m. apply sql_max_None. destruct rows; [done|]. simpl in Hpos. lia.
Qed.

(** The envelope of a row, column by column. *)
Lemma copy_row_ok r e w vr w' :
  vault_copy_secret_row r e w = (Ok vr, w') →
  vr = VaultSecretRow (c_str (sr_id r)) (column_int (sr_version r)) (row_envelope r).
Proof.
  unfold vault_copy_secret_row. intros H. inv_m.
  unfold vault_copy_text_column, vault_copy_blob_column, vault_column_blob_size in *. inv_outcome.
  done.
Qed.

Lemma load_row_ok n v active e w c vr w' :
  w_conn w = Some c → vault_load_secret_row n v active e w = (Ok vr, w') →
  ∃ r, (if active then find_active (c_str n) (t_secrets (conn_cur c))
        else find_version (c_str n) v (t_secrets (conn_cur c))) = Some r ∧
       vr = VaultSecretRow (c_str (sr_id r)) (column_int (sr_version r)) (row_envelope r).
Proof.
  intros Hc H. unfold vault_load_secret_row in H.
  apply bind_ok in H as (? & w1 & H1 & H). apply require_db_ok in H1 as [_ ->].
  apply bind_ok in H as (? & w2 & H1 & H). apply guard_ok in H1 as [_ ->].
  apply bind_ok in H as (row & w3 & H2 & H). apply (sql_query_in _ _ _ _ _ _ Hc) in H2.
  destruct row as [r|]; [|done]. exists r. split; [done|by eapply copy_row_ok].
Qed.

(** A row decrypted for its own name opens. *)
Lemma decrypt_row_ok r name n k e w pt w' :
  w_subkeys w = Some k → c_str name = c_str (sr_name r) →
  vault_decrypt_secret_row
    (VaultSecretRow (c_str (sr_id r)) (column_int (sr_version r)) (row_envelope r)) name n e w
    = (Ok pt, w') →
  open_row (kek_enc k) r = Ok pt.
Proof.
  intros Hk Hn H. unfold vault_decrypt_secret_row in H.
  apply bind_ok in H as (? & w1 & H1 & H). apply guard_ok in H1 as [_ ->].
  apply bind_ok in H as (identity & w2 & H1 & H). pose proof (keeps_run same_state _ _ _ _ _ H1) as S1.
  apply bind_ok in H as (k' & w3 & H2 & H). apply g_subkeys_ok in H2 as [Hk' ->].
  assert (k' = k) as -> by (destruct S1 as (_ & E & _); congruence).
  apply row_identity_shape in H1 as (-> & _). apply decrypt_opens in H as [H _].
  unfold open_row, row_identity. cbn [vr_id] in H. by rewrite c_str_idemp, Hn in H.
Qed.

(** Rows are found under the name they carry. *)
Lemma find_active_in n t r :
  find_active n t = Some r → r ∈ t ∧ sr_name r = n ∧ active_row t r = true.
Proof. intros (H1 & H2 & H3)%find_first_Some. done. Qed.
Lemma find_version_in n v t r :
  find_version n v t = Some r → r ∈ t ∧ sr_name r = n ∧ sr_version r = v.
Proof. intros (H1 & H2 & H3)%find_first_Some. done. Qed.

Lemma decrypt_alloc_ok n v len e w c k pt alg w' :
  w_conn w = Some c → w_subkeys w = Some k → c_str n = n →
  vault_decrypt_secret_alloc n v len e w = (Ok (pt, alg), w') →
  ∃ r, find_version n v (t_secrets (conn_cur c)) = Some r ∧ open_row (kek_enc k) r = Ok pt.
Proof.
  intros Hc Hk Hn H. unfold vault_decrypt_secret_alloc in H.
  apply bind_ok in H as (? & w1 & H1 & H). apply guard_ok in H1 as [_ ->].
  apply bind_ok in H as (vr & w2 & H1 & H). pose proof (keeps_run same_state _ _ _ _ _ H1) as S1.
  apply (load_row_ok _ _ _ _ _ c) in H1 as (r & Hr & ->); [|done]. rewrite Hn in Hr.
  apply bind_ok in H as (? & w3 & H1 & H). pose proof (keeps_run same_state _ _ _ _ _ H1) as S2.
  apply bind_ok in H as (pt' & w4 & H2 & H). inv_m. exists r. split; [done|].
  apply find_version_in in Hr as (_ & En & _).
  eapply decrypt_row_ok; [|by rewrite En|exact H2].
  destruct S1 as (_ & E1 & _), S2 as (_ & E2 & _). congruence.
Qed.

(** * What the writing steps do *)

Lemma archive_ok n now req e w c u w' :
  w_conn w = Some c → vault_archive_active_secret n now req e w = (Ok u, w') →
  ∃ c', w_conn w' = Some c' ∧
    conn_cur c' = with_secrets (archive_named (c_str n) (c_str now) (t_secrets (conn_cur c))) (conn_cur c).
Proof.
  intros Hc H. unfold vault_archive_active_secret in H.
  apply bind_ok in H as (? & w1 & H1 & H). apply require_db_ok in H1 as [_ ->].
  apply bind_ok in H as (changes & w2 & H1 & H). apply sql_exec_ok in H1 as (c0 & db & Hc0 & E & ->).
  assert (c0 = c) as -> by congruence. simpl in E. injection E as <- <-. inv_m.
  eexists. split; [done|]. done.
Qed.

Lemma insert_ok id n dn de v counter created updated expires ttl es e w c u w' :
  w_conn w = Some c →
  vault_insert_secret id n dn de v counter created updated expires ttl es e w = (Ok u, w') →
  ∃ c' t', w_conn w' = Some c' ∧ conn_cur c' = with_secrets t' (conn_cur c) ∧
    insert_secret_row (inserted_row id n dn de v counter created updated expires ttl es)
      (t_secrets (conn_cur c)) = Some t'.
Proof.
  intros Hc H. unfold vault_insert_secret in H. inv_m. apply sql_exec_ok in H as (c0 & db & Hc0 & E & ->).
  assert (c0 = c) as -> by congruence. apply bind_Some in E as (t' & Ht' & [= <-]).
  eexists _, t'. split; [done|]. done.
Qed.

(** A successful event is the next entry of the log. *)
Lemma event_ok action target version key e w c u w' :
  w_conn w = Some c → log_ok key (t_audit_log (conn_cur c)) → no_nul target = true →
  (0 ≤ version ≤ INT_MAX)%Z →
  audit_log_event (str "user:default") action target version (str "SUCCESS") key e w = (Ok u, w') →
  ∃ c' r, w_conn w' = Some c' ∧
    conn_cur c' = with_audit_log (t_audit_log (conn_cur c) ++ [r]) (conn_cur c) ∧
    log_ok key (t_audit_log (conn_cur c) ++ [r]) ∧ abs_event r = Event action target version.
Proof.
  intros Hc [Hn Hch] Hg Hv H.
  apply (log_event_chain _ _ _ _ _ _ _ _ _ _ c) in H as (ts & r & Hr & Hc' & Hch' & Ho');
    [|done|by apply numbered_ordered| |done|done|done|lia].
  2:{ intros q Hq. pose proof (numbered_id _ _ Hn Hq). destruct Hn. lia. }
  exists (written c (with_audit_log (t_audit_log (conn_cur c) ++ [r]) (conn_cur c))), r.
  split_and!; [done|done| |].
  - split; [|done]. apply numbered_snoc; [done|done|]. by rewrite Hr.
  - rewrite Hr. unfold abs_event, row_version. cbn. f_equal.
    destruct (Z.ltb_spec 0 version); [|lia]. unfold column_int, INT_MAX in *.
    apply wrap_s_small; [lia|]. simpl. lia.
Qed.

Lemma log_success_ok action target version e w c k u w' :
  w_conn w = Some c → w_subkeys w = Some k → log_ok (kek_audit k) (t_audit_log (conn_cur c)) →
  no_nul target = true → (0 ≤ version ≤ INT_MAX)%Z →
  vault_log_success action target version e w = (Ok u, w') →
  ∃ c' r, w_conn w' = Some c' ∧
    conn_cur c' = with_audit_log (t_audit_log (conn_cur c) ++ [r]) (conn_cur c) ∧
    log_ok (kek_audit k) (t_audit_log (conn_cur c) ++ [r]) ∧ abs_event r = Event action target version.
Proof.
  intros Hc Hk Hl Hn Hv H. unfold vault_log_success in H.
  apply bind_ok in H as (k' & w1 & H1 & H). apply g_subkeys_ok in H1 as [Hk' ->].
  assert (k' = k) as -> by congruence. by apply (event_ok _ _ _ _ _ _ c) in H.
Qed.

(** * The parts of a new version *)

Lemma uuid_ok n e w s w' :
  utils_generate_uuid_v4 n e w = (Ok s, w') → length s = 36%nat ∧ (Byte.x00 ∉ s).
Proof.
  unfold utils_generate_uuid_v4, utils_init_sodium. intros H. inv_m.
  match goal with H : length ?u = 16%nat |- _ =>
    destruct (uuid_set_version_text u H) as (Hl & Hc & _) end.
  split; [exact Hl|]. intros (i & Hi)%list_elem_of_lookup. specialize (Hc _ _ Hi).
  case_decide; [by apply (f_equal byte_z) in Hc|].
  unfold is_lower_hex in Hc. change (byte_z Byte.x00) with 0%Z in Hc. lia.
Qed.

Lemma seal_ok pt n v counter alg e w k id es w' :
  w_subkeys w = Some k → seal_secret pt n v counter alg e w = (Ok (id, es), w') →
  length id = 36%nat ∧ (Byte.x00 ∉ id) ∧
  open_envelope (kek_enc k) (bin2hex (sha256 (row_identity_preimage (c_str id) (c_str n)))) v es = Ok pt ∧
  (es_algorithm es = CRYPTO_ENGINE_ALGORITHM_AES_256_GCM ∨
   es_algorithm es = CRYPTO_ENGINE_ALGORITHM_XCHACHA20_POLY1305 ∨
   es_algorithm es = CRYPTO_ENGINE_ALGORITHM_AEGIS_256).
Proof.
  intros Hk H. unfold seal_secret in H.
  apply bind_ok in H as (id' & w1 & H1 & H). pose proof (keeps_run same_state _ _ _ _ _ H1) as S1.
  apply bind_ok in H as (identity & w2 & H2 & H). pose proof (keeps_run same_state _ _ _ _ _ H2) as S2.
  apply bind_ok in H as (k' & w3 & H3 & H). apply g_subkeys_ok in H3 as [Hk' ->].
  assert (k' = k) as ->.
  { destruct S1 as (_ & E1 & _), S2 as (_ & E2 & _). congruence. }
  apply bind_ok in H as (es' & w4 & H4 & H). inv_m.
  destruct (uuid_ok _ _ _ _ _ H1) as [Hl Hn]. apply row_identity_shape in H2 as (-> & _).
  split_and!; [done|done|by eapply encrypt_opens|by eapply encrypt_algorithm_canonical].
Qed.

Lemma expiry_ok ttl e w x w' :
  expiry_of ttl e w = (Ok x, w') → (ttl ≤ INT64_MAX)%Z ∧
  ∀ s, x = Some s → (Byte.x00 ∉ s) ∧ s ≠ [] ∧ (length s < UTILS_ISO8601_UTC_BUFFER_LEN)%nat.
Proof.
  unfold expiry_of. destruct (Z.ltb_spec 0 ttl) as [Hp|Hp]; intros H.
  - apply bind_ok in H as (? & w1 & H1 & H). apply guard_ok in H1 as [Hle%Z.leb_le ->].
    split; [done|]. intros s ->. unfold utils_now_plus_seconds_iso8601 in H. inv_m.
    match goal with H : utils_format_iso8601 _ _ = _ |- _ => rename H into Hf end.
    pose proof (utils_format_iso8601_text _ _ _ Hf) as [? ?]. split_and!; [done|done|by eapply utils_format_iso8601_fits].
  - inv_m. unfold INT64_MAX. split; [lia|done].
Qed.

Lemma now_ok e w s w' :
  utils_now_iso8601 UTILS_ISO8601_UTC_BUFFER_LEN e w = (Ok s, w') →
  c_str s = s ∧ (length s < UTILS_ISO8601_UTC_BUFFER_LEN)%nat.
Proof.
  intros (t & Hf)%utils_now_ok. split; [|by eapply utils_format_iso8601_fits].
  apply utils_format_iso8601_text in Hf as [H _]. by apply c_str_no_nul.
Qed.

Lemma display_ok name n len cap e w d w' :
  vault_encrypt_display_name name n len cap e w = (Ok d, w') → (cap ≤ VAULT_ENCRYPTED_NAME_MAX)%nat →
  is_ok (vault_copy_name_metadata d.1 d.2) = true.
Proof.
  unfold vault_encrypt_display_name. intros H Hcap. inv_m.
  match goal with H : _ = true |- _ =>
    rewrite !andb_true_iff, !negb_true_iff, !Nat.leb_le, !Nat.eqb_neq, Nat.eqb_eq in H;
    destruct H as ((((_ & Hne) & _) & Hlen) & Hle) end.
  unfold vault_copy_name_metadata. cbn [fst snd]. rewrite length_aead_encrypt.
  rewrite (proj2 (Nat.eqb_eq _ _)) by congruence.
  rewrite (proj2 (Nat.ltb_lt _ _)) by lia. rewrite (proj2 (Nat.leb_le _ _)) by lia. done.
Qed.

(** The inputs of a new version of [n] in the database [db]. *)
Record version_ready (k : kdf_subkeys_t) (db : database) (n secret id : bytes) (display : bytes * bytes)
    (v counter : Z) (now : bytes) (expires : option bytes) (ttl : Z) (es : encrypted_secret_t) : Prop := {
  vr_name : c_str n = n ∧ n ≠ [];
  vr_uuid : length id = 36%nat ∧ (Byte.x00 ∉ id);
  vr_display : is_ok (vault_copy_name_metadata display.1 display.2) = true;
  vr_number : v = next_number n (abstract k db) ∧ (v ≤ INT_MAX)%Z;
  vr_counter : (0 ≤ counter ≤ INT64_MAX)%Z;
  vr_now : c_str now = now ∧ (length now < UTILS_ISO8601_UTC_BUFFER_LEN)%nat;
  vr_expires : (ttl ≤ INT64_MAX)%Z ∧
    ∀ s, expires = Some s → (Byte.x00 ∉ s) ∧ s ≠ [] ∧ (length s < UTILS_ISO8601_UTC_BUFFER_LEN)%nat;
  vr_opens : open_envelope (kek_enc k)
    (bin2hex (sha256 (row_identity_preimage (c_str id) (c_str n)))) v es = Ok secret;
  vr_algorithm : es_algorithm es = CRYPTO_ENGINE_ALGORITHM_AES_256_GCM ∨
    es_algorithm es = CRYPTO_ENGINE_ALGORITHM_XCHACHA20_POLY1305 ∨
    es_algorithm es = CRYPTO_ENGINE_ALGORITHM_AEGIS_256;
}.

Lemma next_number_pos n k db : table_ok (t_secrets db) → (1 ≤ next_number n (abstract k db))%Z.
Proof.
  intros Ht. rewrite next_number_abs. destruct (sql_max _ _) as [m|] eqn:E; [|done].
  apply sql_max_spec in E as [(r & Hr & <-) _]. apply list_elem_of_filter in Hr as [_ Hr].
  apply (table_row _ _ Ht) in Hr as []. lia.
Qed.

Lemma ready_row k db n secret id display v counter now expires ttl es :
  table_ok (t_secrets db) → version_ready k db n secret id display v counter now expires ttl es →
  let r := inserted_row id n display.1 display.2 v counter now now expires ttl es in
  row_fine r ∧ sr_name r = n ∧ sr_is_archived r = 0%Z ∧ open_row (kek_enc k) r = Ok secret ∧
  sr_version r = v.
Proof.
  intros Ht [[Hn Hne] [Hl Hid] Hd [Hv Hvm] Hco [Hnow Hlnow] [Httl Hex] Ho Ha] r.
  pose proof (next_number_pos n k db Ht) as Hpos. rewrite <- Hv in Hpos.
  assert (column_int v = v) as Hint.
  { unfold column_int. unfold INT_MAX in Hvm. apply wrap_s_small; [lia|]. simpl. lia. }
  assert (c_str (es_algorithm es) = es_algorithm es) as Halg.
  { destruct Ha as [->|[->| ->]]; reflexivity. }
  split_and!; [|by simpl| |  |done]; [|done|].
  - split; unfold r, inserted_row; cbn [sr_version sr_nonce_counter sr_is_archived sr_name_nonce
      sr_encrypted_name sr_created_at sr_expires_at sr_rotation_interval]; auto.
    + unfold storable, no_nul. cbn [sr_id sr_name sr_version sr_algorithm].
      rewrite (c_str_no_nul id), Hn, Hint, Halg by done. unfold UTILS_UUID_V4_BUFFER_LEN, UTILS_UUID_V4_LEN.
      split_and!; [by apply bool_decide_eq_true|by intros ->|lia|done| |done|done].
      apply bool_decide_eq_true. rewrite <- Hn. apply c_str_nul_free.
    + rewrite Hnow, Hnow. done.
    + intros x Hx. destruct expires as [s|]; [|done]. injection Hx as <-.
      destruct (Hex s eq_refl) as (Hs & Hse & Hls). rewrite !(c_str_no_nul s) by done. done.
    + intros z Hz. destruct (Z.ltb_spec 0 ttl); [|done]. injection Hz as <-. done.
  - unfold open_row, row_identity, row_envelope, r, inserted_row.
    cbn [sr_id sr_name sr_version sr_algorithm sr_ciphertext sr_encrypted_dek sr_nonce sr_dek_nonce sr_key_commitment].
    rewrite !c_str_idemp, Hint, Halg. by destruct es.
Qed.

(** The statements of a new version add it to the store. *)
Lemma put_statements_ok arch action id n display v counter now expires ttl es secret k e w c u w' :
  w_conn w = Some c → w_subkeys w = Some k → db_ok k (conn_cur c) →
  version_ready k (conn_cur c) n secret id display v counter now expires ttl es →
  put_statements arch action id n display v counter now expires ttl es e w = (Ok u, w') →
  ∃ c', w_conn w' = Some c' ∧ db_ok k (conn_cur c') ∧
    abstract k (conn_cur c') = add_version n secret action (abstract k (conn_cur c)) ∧
    t_secrets (conn_cur c') = archive_named n now (t_secrets (conn_cur c)) ++
      [inserted_row id n display.1 display.2 v counter now now expires ttl es].
Proof.
  intros Hc Hk [Hkeys Ht Hs Hl] Hr H.
  destruct (ready_row _ _ _ _ _ _ _ _ _ _ _ _ Ht Hr) as (Hfine & Hname & Harch & Hopen & Hver).
  pose proof Hr as [[Hn _] _ _ [Hv Hvm] _ _ _ _ _].
  pose proof (next_number_pos n k (conn_cur c) Ht) as Hpos.
  unfold put_statements in H.
  apply bind_ok in H as (? & w1 & H1 & H).
  assert (∃ c1 t0, w_conn w1 = Some c1 ∧ conn_cur c1 = with_secrets t0 (conn_cur c) ∧
    (t0 = archive_named n now (t_secrets (conn_cur c)) ∨ t0 = t_secrets (conn_cur c)) ∧
    w_subkeys w1 = Some k) as (c1 & t0 & Hc1 & Hcur1 & Ht0 & Hk1).
  { destruct arch as [req|].
    - pose proof (keeps_run in_transaction _ _ _ _ _ H1) as (K & _).
      apply (archive_ok _ _ _ _ _ c) in H1 as (c1 & Hc1 & Hcur); [|done].
      rewrite Hn, (proj1 (vr_now _ _ _ _ _ _ _ _ _ _ _ _ Hr)) in Hcur. eexists _, _.
      split_and!; [done|exact Hcur|by left|congruence].
    - inv_m. exists c, (t_secrets (conn_cur c)). split_and!; [done| |by right|done].
      by destruct (conn_cur c). }
  apply bind_ok in H as (? & w2 & H2 & H). pose proof (keeps_run in_transaction _ _ _ _ _ H2) as (K2 & _).
  apply (insert_ok _ _ _ _ _ _ _ _ _ _ _ _ _ c1) in H2 as (c2 & t' & Hc2 & Hcur2 & Hins); [|done].
  rewrite Hcur1 in Hins, Hcur2. cbn [t_secrets with_secrets] in Hins.
  apply (log_success_ok _ _ _ _ _ c2 k) in H as (c3 & a & Hc3 & Hcur3 & Hl3 & Hev);
    [|done|congruence|by rewrite Hcur2| |].
  2:{ apply bool_decide_eq_true. rewrite <- Hn. apply c_str_nul_free. }
  2:{ rewrite <- Hv in Hpos. lia. }
  exists c3. split; [done|]. rewrite Hcur2 in Hcur3, Hl3.
  destruct (table_put k (conn_cur c) t0 t' _ n now action secret a Ht Hs Ht0 Hins Hfine Hname Harch Hopen)
    as (Et & Ht' & Hs' & Habs); [by rewrite Hver|by rewrite Hver|].
  rewrite Hcur3. split; [by split|]. split; [exact Habs|exact Et].
Qed.

(** Every operation starts from a database that satisfies the invariant, in
    a session that holds its keys. *)
Definition vault_state (w : world) (k : kdf_subkeys_t) (db : database) : Prop :=
  quiescent w ∧ w_subkeys w = Some k ∧ w_unlocked w = true ∧ visible w = Some db ∧ db_ok k db.

Lemma vault_state_conn w k db :
  vault_state w k db →
  ∃ c, w_conn w = Some c ∧ conn_cur c = db ∧ quiescent w ∧ w_subkeys w = Some k ∧ db_ok k (conn_cur c).
Proof.
  intros (Hq & Hk & _ & Hv & Hdb). unfold visible in Hv. destruct (w_conn w) as [c|]; [|done].
  injection Hv as <-. by exists c.
Qed.

Lemma same_state_vault w w' k db : same_state w w' → vault_state w k db → vault_state w' k db.
Proof.
  intros S (Hq & Hk & Hu & Hv & Hdb). pose proof (same_state_conn _ _ S) as (_ & Q & _ & _ & V).
  destruct S as (_ & E2 & E3 & _). unfold vault_state. rewrite E2, E3, V. auto.
Qed.

(** The transaction of a new version. *)
Lemma put_transaction_ok arch action id n display v counter now expires ttl es secret k db e w u w' :
  vault_state w k db → version_ready k db n secret id display v counter now expires ttl es →
  finish_transaction
    (storage_begin_transaction ;;
     put_statements arch action id n display v counter now expires ttl es) e w = (Ok u, w') →
  ∃ db', vault_state w' k db' ∧ abstract k db' = add_version n secret action (abstract k db) ∧
    t_secrets db' = archive_named n now (t_secrets db) ++
      [inserted_row id n display.1 display.2 v counter now now expires ttl es].
Proof.
  intros Hst Hr H. pose proof Hst as (_ & _ & Hu & _).
  destruct (vault_state_conn _ _ _ Hst) as (c & Hc & <- & Hq & Hk & Hdb).
  destruct (transaction_ok e w c _ u w' Hq Hc (or_introl H))
    as (w0 & w1 & c0 & c1 & c' & Hc0 & Hcur0 & Hk0 & Hs & Hc1 & Hq' & Hc' & Hcur & Hk' & Hu').
  rewrite <- Hcur0 in Hdb, Hr |- *.
  apply (put_statements_ok _ _ _ _ _ _ _ _ _ _ _ secret k _ _ c0) in Hs as (c2 & Hc2 & Hdb2 & Habs & Et);
    [|done|congruence|done|done].
  assert (c2 = c1) as -> by congruence. exists (conn_cur c1). split; [|by split].
  unfold vault_state, visible. rewrite Hc'. cbn. rewrite Hcur. split_and!; try done; congruence.
Qed.

End Refine.

(** [next H x H1]: the first step [H1] of the run [H], which keeps the state,
    returned [x]. [forward Hst]: what holds of the state where the step starts
    holds where it ends. *)
Ltac next H x H1 :=
  let w1 := fresh "w" in let K := fresh "K" in
  apply bind_ok in H as (x & w1 & H1 & H);
  pose proof (keeps_run same_state _ _ _ _ _ H1) as K.
Ltac forward Hst :=
  match type of Hst with
  | vault_state ?w _ _ =>
      match goal with K : same_state w _ |- _ => apply (same_state_vault _ _ _ _ K) in Hst; clear K end
  end.
Ltac guard_step H :=
  let H1 := fresh in let w1 := fresh "w" in
  apply bind_ok in H as (? & w1 & H1 & H);
  lazymatch type of H1 with
  | guard_or _ _ _ _ = _ => apply guard_ok in H1; destruct H1 as [_ ->]
  | vault_require_unlocked _ _ = _ => apply require_unlocked_ok in H1; destruct H1 as [-> _]
  | require_db _ _ = _ => apply require_db_ok in H1; destruct H1 as [_ ->]
  end.

Section Operations.
Context {CR : Crypto} {CL : CryptoLaws CR}.

Lemma state_conn w k db :
  vault_state w k db → ∃ c, w_conn w = Some c ∧ conn_cur c = db ∧ w_subkeys w = Some k ∧ db_ok k db.
Proof. intros (c & Hc & <- & _ & Hk & Hdb)%vault_state_conn. by exists c. Qed.

(** The next version, as the store counts it. *)
Lemma next_bounds_ok n k db v0 c0 v counter :
  table_ok (t_secrets db) →
  sql_max sr_version (rows_named n (t_secrets db)) = Some v0 →
  sql_max sr_nonce_counter (rows_named n (t_secrets db)) = Some c0 →
  next_bounds v0 c0 = Ok (v, counter) →
  (v = next_number n (abstract k db) ∧ (v ≤ INT_MAX)%Z) ∧ (0 ≤ counter ≤ INT64_MAX)%Z.
Proof.
  intros Ht Hv Hc H. unfold next_bounds in H. inv_outcome.
  match goal with H : _ && _ = true |- _ =>
    rewrite andb_true_iff, !negb_true_iff, !Z.eqb_neq in H; destruct H as [Hv1 Hc1] end.
  rewrite next_number_abs, Hv.
  apply sql_max_spec in Hv as [(r & Hr & <-) _]. apply sql_max_spec in Hc as [(q & Hq & <-) _].
  apply list_elem_of_filter in Hr as [_ Hr]. apply list_elem_of_filter in Hq as [_ Hq].
  apply (table_row _ _ Ht) in Hr as []. apply (table_row _ _ Ht) in Hq as []. lia.
Qed.

Lemma put_ok name secret alg ttl k db e w u w' :
  vault_state w k db → vault_put_with_options name secret alg ttl e w = (Ok u, w') →
  ∃ db', vault_state w' k db' ∧
    abstract k db' = add_version (name_lookup k (c_str name)) secret
      (match find_live (name_lookup k (c_str name)) (abstract k db) with
       | Some _ => str "UPDATE" | None => str "CREATE" end) (abstract k db).
Proof.
  intros Hst H. unfold vault_put_with_options in H. do 2 guard_step H.
  destruct (state_conn _ _ _ Hst) as (c & Hc & Hcur & Hk & Hdb).
  next H n H1. destruct (name_lookup_ok _ _ _ _ _ _ _ Hk H1) as (Hn & Hnn & Hne). forward Hst.
  next H display H1'. apply display_ok in H1' as Hd; [|done]. forward Hst.
  destruct (state_conn _ _ _ Hst) as (c1 & Hc1 & Hcur1 & _).
  next H md H2. apply (find_metadata_ok _ _ _ c1) in H2; [|done]. forward Hst.
  destruct (state_conn _ _ _ Hst) as (c2 & Hc2 & Hcur2 & _).
  next H h H3. apply (history_ok _ _ _ c2) in H3; [|done|by rewrite Hcur2; apply Hdb]. forward Hst.
  next H now H4. apply now_ok in H4. forward Hst.
  next H expires H5. apply expiry_ok in H5. forward Hst.
  next H vc H6. forward Hst. destruct vc as [v counter].
  destruct (state_conn _ _ _ Hst) as (c3 & _ & _ & Hk3 & _).
  next H ie H7. destruct ie as [id es].
  destruct (seal_ok _ _ _ _ _ _ _ _ _ _ _ Hk3 H7) as (Hl & Hid & Hop & Hal). forward Hst.
  rewrite Hcur1, Hnn in H2. rewrite Hcur2, Hnn in H3. cbv zeta in H3.
  assert (match find_live n (abstract k db) with Some _ => str "UPDATE" | None => str "CREATE" end
          = match md with Some _ => str "UPDATE" | None => str "CREATE" end) as Hact.
  { rewrite find_active_abs by apply Hdb. destruct md; [destruct H2 as (r & -> & _)|rewrite H2]; reflexivity. }
  assert ((v = next_number n (abstract k db) ∧ (v ≤ INT_MAX)%Z) ∧ (0 ≤ counter ≤ INT64_MAX)%Z) as [Hv Hco].
  { destruct h as [[v0 c0]|].
    - unfold lift in H6. injection H6 as H6 _. destruct H3 as [H3 H3'].
      eapply next_bounds_ok; [apply Hdb|done|done|done].
    - injection H6 as <- <- _. rewrite next_number_abs, H3. done. }
  rewrite <- Hn, Hact.
  apply (put_transaction_ok _ _ _ _ _ _ _ _ _ _ _ secret k db) in H as (db' & Hst' & Habs & _);
    [by exists db'|done|by split].
Qed.
(** A row of the invariant's table that opens is a readable version. *)
Lemma live_version k db n r :
  table_ok (t_secrets db) → find_active n (t_secrets db) = Some r →
  find_live n (abstract k db) = Some (abs_version (kek_enc k) r).
Proof. intros Ht Hr. by rewrite find_active_abs, Hr. Qed.

Lemma open_secret kek r s : open_row kek r = Ok s → v_secret (abs_version kek r) = Some s.
Proof. cbn. by intros ->. Qed.

Lemma read_ok name v active len k db e w out w' :
  vault_state w k db → vault_read_secret name v active len true e w = (Ok out, w') →
  let n := name_lookup k (c_str name) in
  ∃ r db', (if active then find_active n (t_secrets db) else find_version n v (t_secrets db)) = Some r ∧
    open_row (kek_enc k) r = Ok out ∧ vault_state w' k db' ∧
    abstract k db' = record (Event (str "READ") n (sr_version r)) (abstract k db).
Proof.
  intros Hst H. cbv zeta.
  assert (quiescent w') as Hq'.
  { destruct Hst as (Hq & _). destruct (atomic_read_secret name v active len true e w (Ok out) w') as (_ & Q & _);
      [apply settled_cases; by left|done|auto]. }
  pose proof (keeps_run in_transaction _ _ _ _ _ H) as (E1 & E2 & _).
  unfold vault_read_secret in H. guard_step H.
  destruct (state_conn _ _ _ Hst) as (c & Hc & Hcur & Hk & Hdb). rewrite Hk in E1.
  assert (w_unlocked w = true) as Hu by apply Hst. rewrite Hu in E2.
  next H n H1. destruct (name_lookup_ok _ _ _ _ _ _ _ Hk H1) as (Hn & Hnn & Hne). forward Hst.
  destruct (state_conn _ _ _ Hst) as (c1 & Hc1 & Hcur1 & _).
  next H vr H2. apply (load_row_ok _ _ _ _ _ c1) in H2 as (r & Hr & ->); [|done]. forward Hst.
  rewrite Hcur1, Hnn in Hr.
  assert (r ∈ t_secrets db ∧ sr_name r = n) as [Hin Hrn].
  { destruct active; [apply find_active_in in Hr|apply find_version_in in Hr]; tauto. }
  pose proof (table_row _ _ (db_table _ _ Hdb) Hin) as Hfine.
  destruct (state_conn _ _ _ Hst) as (_ & _ & _ & Hk2 & _).
  next H pt H3. apply (decrypt_row_ok _ _ _ k) in H3; [|done|congruence]. forward Hst.
  destruct (state_conn _ _ _ Hst) as (c3 & Hc3 & Hcur3 & Hk3 & _). cbn [vr_version] in H.
  apply bind_ok in H as (? & w4 & H4 & H). inv_m.
  apply (log_success_ok _ _ _ _ _ c3 k) in H4 as (c4 & a & Hc4 & Hcur4 & Hl & Hev);
    [|done|done|rewrite Hcur3; apply Hdb| |rewrite (row_version_int _ Hfine); destruct Hfine; lia].
  2:{ apply bool_decide_eq_true. rewrite <- Hnn. apply c_str_nul_free. }
  rewrite (row_version_int _ Hfine) in Hev. rewrite Hcur3 in Hcur4, Hl.
  exists r, (conn_cur c4). rewrite <- Hn. split_and!; [done|done| |].
  - unfold vault_state, visible. rewrite Hc4. cbn. rewrite Hcur4. split_and!; try done. by destruct Hdb; split.
  - rewrite Hcur4. unfold abstract, record. cbn [t_secrets t_audit_log with_audit_log st_versions st_trail].
    by rewrite fmap_app, <- Hev.
Qed.

Lemma delete_ok name k db e w u w' :
  vault_state w k db → vault_delete name e w = (Ok u, w') →
  let n := name_lookup k (c_str name) in
  ∃ r db', find_active n (t_secrets db) = Some r ∧ vault_state w' k db' ∧
    abstract k db' = record (Event (str "DELETE") n (sr_version r)) (retire n (abstract k db)).
Proof.
  intros Hst H. cbv zeta. unfold vault_delete in H. do 3 guard_step H.
  destruct (state_conn _ _ _ Hst) as (c & Hc & Hcur & Hk & Hdb).
  next H n H1. destruct (name_lookup_ok _ _ _ _ _ _ _ Hk H1) as (Hn & Hnn & Hne). forward Hst.
  next H now H4. apply now_ok in H4 as [Hnow _]. forward Hst.
  destruct (state_conn _ _ _ Hst) as (c1 & Hc1 & Hcur1 & _).
  next H md H2. apply (find_metadata_ok _ _ _ c1) in H2; [|done]. forward Hst.
  destruct md as [md|]; [|done]. destruct H2 as (r & Hr & Hmd).
  rewrite Hcur1, Hnn in Hr. apply copy_metadata_ok in Hmd as (Hv & _).
  destruct (find_active_in _ _ _ Hr) as (Hin & Hrn & _).
  pose proof (table_row _ _ (db_table _ _ Hdb) Hin) as Hfine. rewrite (row_version_int _ Hfine) in Hv.
  pose proof Hst as (_ & _ & Hu & _).
  destruct (vault_state_conn _ _ _ Hst) as (c2 & Hc2 & Hcur2 & Hq2 & Hk2 & _).
  destruct (transaction_ok _ _ c2 _ u w' Hq2 Hc2 (or_intror H))
    as (wa & wb & c0 & c3 & c' & Hc0 & Hcur0 & Hk0 & Hs & Hc3 & Hq' & Hc' & Hcur' & Hk' & Hu').
  unfold delete_statements in Hs. apply bind_ok in Hs as (? & wc & H5 & Hs).
  pose proof (keeps_run in_transaction _ _ _ _ _ H5) as (K & _).
  apply (archive_ok _ _ _ _ _ c0) in H5 as (c4 & Hc4 & Hcur4); [|done].
  rewrite Hcur0, Hcur2, Hnn, Hnow in Hcur4.
  apply (log_success_ok _ _ _ _ _ c4 k) in Hs as (c5 & a & Hc5 & Hcur5 & Hl & Hev);
    [|done|congruence|rewrite Hcur4; apply Hdb| |rewrite Hv; destruct Hfine; lia].
  2:{ apply bool_decide_eq_true. rewrite <- Hnn. apply c_str_nul_free. }
  assert (c5 = c3) as -> by congruence. rewrite Hcur4 in Hcur5, Hl. cbn [t_audit_log with_secrets] in Hcur5, Hl.
  exists r, (conn_cur c3). rewrite <- Hn. split_and!; [done| |].
  - unfold vault_state, visible. rewrite Hc'. cbn. rewrite Hcur', Hcur5. split_and!; try done; try congruence.
    destruct Hdb as [Hkeys Ht Hs' _]. split; [done|by apply table_archive|by apply sealed_archive|done].
  - rewrite Hcur5. unfold abstract, record, retire. cbn [t_secrets t_audit_log with_audit_log with_secrets st_versions st_trail].
    rewrite fmap_app, abs_archive by apply Hdb. rewrite <- Hv, <- Hev. done.
Qed.

Lemma next_version_ok n k db e w c v counter w' :
  w_conn w = Some c → conn_cur c = db → c_str n = n → table_ok (t_secrets db) →
  next_version n e w = (Ok (v, counter), w') →
  (v = next_number n (abstract k db) ∧ (v ≤ INT_MAX)%Z) ∧ (0 ≤ counter ≤ INT64_MAX)%Z.
Proof.
  intros Hc Hcur Hn Ht H. unfold next_version in H. next H h H1.
  apply (history_ok _ _ _ c) in H1; [|done|by rewrite Hcur]. rewrite Hcur, Hn in H1.
  destruct h as [[v0 c0]|]; [|done]. unfold lift in H. injection H as H _. destruct H1 as [H1 H1'].
  by eapply next_bounds_ok.
Qed.

Lemma rollback_ok name version k db e w u w' :
  vault_state w k db → vault_rollback name version e w = (Ok u, w') →
  let n := name_lookup k (c_str name) in
  ∃ r s db', find_version n version (t_secrets db) = Some r ∧ open_row (kek_enc k) r = Ok s ∧
    vault_state w' k db' ∧ abstract k db' = add_version n s (str "ROLLBACK") (abstract k db).
Proof.
  intros Hst H. cbv zeta. unfold vault_rollback in H. do 2 guard_step H.
  destruct (state_conn _ _ _ Hst) as (c & Hc & Hcur & Hk & Hdb).
  next H n H1. destruct (name_lookup_ok _ _ _ _ _ _ _ Hk H1) as (Hn & Hnn & Hne). forward Hst.
  next H display H2. apply display_ok in H2 as Hd; [|done]. forward Hst.
  destruct (state_conn _ _ _ Hst) as (c1 & Hc1 & Hcur1 & Hk1 & _).
  next H pa H3. destruct pa as [pt alg].
  destruct (decrypt_alloc_ok _ _ _ _ _ _ _ _ _ _ Hc1 Hk1 Hnn H3) as (r & Hr & Ho). forward Hst.
  rewrite Hcur1 in Hr.
  next H ttl H4. forward Hst.
  destruct (state_conn _ _ _ Hst) as (c2 & Hc2 & Hcur2 & _).
  next H vc H5. destruct vc as [v counter].
  destruct (next_version_ok _ k db _ _ _ _ _ _ Hc2 Hcur2 Hnn (db_table _ _ Hdb) H5) as [Hv Hco].
  forward Hst.
  next H now H6. apply now_ok in H6. forward Hst.
  next H expires H7. apply expiry_ok in H7. forward Hst.
  destruct (state_conn _ _ _ Hst) as (c3 & _ & _ & Hk3 & _).
  next H ie H8. destruct ie as [id es].
  destruct (seal_ok _ _ _ _ _ _ _ _ _ _ _ Hk3 H8) as (Hl & Hid & Hop & Hal). forward Hst.
  rewrite <- Hn. exists r, pt.
  apply (put_transaction_ok _ _ _ _ _ _ _ _ _ _ _ pt k db) in H as (db' & Hst' & Habs & _); [|done|by split].
  by exists db'.
Qed.

(** The expiry of a renewed secret: none, or later than some reading of the
    clock. *)
Definition renewed (e : env) (x : option bytes) : Prop :=
  match x with
  | None => True
  | Some s => ∃ t z, (env_clock e t < z)%Z ∧
      utils_format_iso8601 z UTILS_ISO8601_UTC_BUFFER_LEN = Ok s
  end.

Lemma expiry_renews ttl e w x w' : expiry_of ttl e w = (Ok x, w') → renewed e x.
Proof.
  unfold expiry_of. destruct (Z.ltb_spec 0 ttl) as [Hp|Hp]; intros H; [|apply ret_ok in H as [-> _]; done].
  apply bind_ok in H as (? & w1 & H1 & H). apply guard_ok in H1 as [Hle%Z.leb_le ->].
  apply bind_ok in H as (s & w2 & H2 & H). apply ret_ok in H as [-> ->].
  unfold utils_now_plus_seconds_iso8601 in H2. inv_m.
  assert (wrap_s 64 ttl = ttl) as Ht by (apply wrap_s_small; [lia|unfold INT64_MAX in *; simpl; lia]).
  rewrite Ht in *.
  match goal with H : time_null _ _ = _ |- _ => unfold time_null in H; injection H as <- <- end.
  match goal with H : (?a <=? wrap_s 64 _)%Z = true |- _ => apply Z.leb_le in H; rename H into Hle2 end.
  match goal with H : utils_format_iso8601 _ _ = _ |- _ => rename H into Hf end.
  eexists _, _. split; [|exact Hf]. apply Z.le_neq. split; [done|]. intros E.
  unfold wrap_s in E. unfold INT64_MAX in Hle. simpl Z.pow in E. Z.div_mod_to_equations. lia.
Qed.

Lemma now_read n e w s w' :
  utils_now_iso8601 n e w = (Ok s, w') → ∃ t, utils_format_iso8601 (env_clock e t) n = Ok s.
Proof.
  unfold utils_now_iso8601. intros H. inv_m.
  match goal with H : time_null _ _ = _ |- _ => unfold time_null in H; injection H as <- <- end. eauto.
Qed.

(** The secret that is due is its live version. *)
Lemma rotate_expired_ok name k db e w u w' :
  vault_state w k db → c_str name = name → vault_rotate_expired_secret name e w = (Ok u, w') →
  ∃ r t now, find_active name (t_secrets db) = Some r ∧
    utils_format_iso8601 (env_clock e t) UTILS_ISO8601_UTC_BUFFER_LEN = Ok now ∧
    ((∀ x, sr_expires_at r = Some x → str_leb x now = false) ∧ vault_state w' k db ∨
     ∃ s db' q, (∃ x, sr_expires_at r = Some x ∧ str_leb x now = true) ∧ open_row (kek_enc k) r = Ok s ∧
       vault_state w' k db' ∧ abstract k db' = add_version name s (str "ROTATE_DEK") (abstract k db) ∧
       t_secrets db' = archive_named name now (t_secrets db) ++ [q] ∧ sr_name q = name ∧ renewed e (sr_expires_at q)).
Proof.
  intros Hst Hnn H. unfold vault_rotate_expired_secret in H.
  apply bind_ok in H as (? & w1 & H1 & H). apply guard_ok in H1 as [Hne ->].
  apply negb_true_iff, bool_decide_eq_false in Hne. rewrite Hnn in Hne.
  next H now H6. apply now_read in H6 as H6'. destruct H6' as (tn & Hnow). apply now_ok in H6. forward Hst.
  destruct (state_conn _ _ _ Hst) as (c1 & Hc1 & Hcur1 & _ & Hdb).
  next H md H2. apply (find_metadata_ok _ _ _ c1) in H2; [|done]. forward Hst.
  destruct md as [md|]; [|done]. destruct H2 as (r & Hr & Hmd). rewrite Hcur1, Hnn in Hr.
  pose proof (copy_metadata_ok _ _ Hmd) as (Hv & Hnon & Henc & Hexp & _).
  exists r, tn, now. split_and!; [done|done|]. destruct (negb _) eqn:Hdue.
  { apply ret_ok in H as [_ ->]. left. split; [|done]. intros ex Hx. rewrite Hexp, Hx in Hdue. cbn in Hdue.
    destruct (find_active_in _ _ _ Hr) as (Hin & _).
    apply (table_row _ _ (db_table _ _ Hdb)) in Hin as Hfine. destruct (rf_expires _ Hfine ex Hx) as (Hxx & Hxe & _).
    apply negb_true_iff in Hdue. unfold vault_expiry_is_due in Hdue. rewrite !Hxx, (proj1 H6) in Hdue.
    rewrite !bool_decide_false in Hdue by (done || by eapply utils_format_iso8601_text). exact Hdue. }
  right.
  assert (∃ ex, sr_expires_at r = Some ex ∧ str_leb ex now = true) as Hexd.
  { apply negb_false_iff in Hdue. destruct (md_expires_at md) as [ex'|]; [|done].
    destruct (find_active_in _ _ _ Hr) as (Hin & _). apply (table_row _ _ (db_table _ _ Hdb)) in Hin as Hfine.
    destruct (sr_expires_at r) as [ex|] eqn:Ex; [|done]. injection Hexp as ->. exists ex. split; [done|].
    destruct (rf_expires _ Hfine ex Ex) as (Hxx & _). unfold vault_expiry_is_due in Hdue.
    rewrite !Hxx, (proj1 H6), !andb_true_iff in Hdue. tauto. }
  destruct (find_active_in _ _ _ Hr) as (Hin & Hrn & _).
  pose proof (table_row _ _ (db_table _ _ Hdb) Hin) as Hfine.
  rewrite (row_version_int _ Hfine) in Hv.
  destruct (state_conn _ _ _ Hst) as (c2 & Hc2 & Hcur2 & Hk2 & _).
  next H pa H3. destruct pa as [pt alg].
  destruct (decrypt_alloc_ok _ _ _ _ _ _ _ _ _ _ Hc2 Hk2 Hnn H3) as (r' & Hr' & Ho). forward Hst.
  rewrite Hcur2 in Hr'. destruct (find_version_in _ _ _ _ Hr') as (Hin' & Hrn' & Hv').
  assert (r' = r) as -> by (eapply same_version_row; [apply Hdb|done|done|congruence|congruence]).
  destruct (state_conn _ _ _ Hst) as (c3 & Hc3 & Hcur3 & _).
  next H vc H5. destruct vc as [v counter].
  destruct (next_version_ok _ k db _ _ _ _ _ _ Hc3 Hcur3 Hnn (db_table _ _ Hdb) H5) as [Hnv Hco].
  forward Hst.
  next H uid H7. apply uuid_ok in H7. forward Hst.
  next H idn H8. apply row_identity_shape in H8 as (-> & _). forward Hst.
  next H expires H9. apply expiry_renews in H9 as Hren. apply expiry_ok in H9. forward Hst.
  destruct (state_conn _ _ _ Hst) as (c4 & _ & _ & Hk4 & _).
  next H k' H10. apply g_subkeys_ok in H10 as [Hk' _]. assert (k' = k) as -> by congruence. forward Hst.
  next H es H11. apply encrypt_opens in H11 as Hop. apply encrypt_algorithm_canonical in H11.
  forward Hst.
  apply (put_transaction_ok _ _ _ _ _ _ _ _ _ _ _ pt k db) in H as (db' & Hst' & Habs & Et); [|done|].
  { exists pt, db'. eexists. split_and!; [done|done|done|done|exact Et|done|]. cbn [inserted_row sr_expires_at].
    assert (c_str <$> expires = expires) as Ec; [|by rewrite Ec].
    destruct expires as [s|]; [|done]. cbn. rewrite c_str_no_nul; [done|]. by apply (proj2 H9 s). }
  split; try done. cbn [fst snd]. rewrite Hnon, Henc. by destruct Hfine.
Qed.

(** * The rotation of the master password *)

Lemma derive_credentials_ok password e w salt verifier k w' :
  vault_derive_credentials password e w = (Ok (salt, verifier, k), w') →
  length salt = KDF_SALT_BYTES ∧ verifier = sha256 (pwhash (c_str password) salt) ∧
  k = session_keys password salt.
Proof.
  unfold vault_derive_credentials. intros H.
  apply bind_ok in H as (? & w1 & _ & H). apply bind_ok in H as (s & w2 & H2 & H).
  apply bind_ok in H as (? & w3 & _ & H). apply bind_ok in H as (p & w4 & H4 & H).
  apply bind_ok in H as (m & w5 & H5 & H). apply bind_ok in H as (? & w6 & H6 & H).
  apply bind_ok in H as (? & w7 & _ & H). apply bind_ok in H as (k' & w8 & H8 & H).
  apply ret_ok in H as [[= -> -> ->] ->].
  assert (length s = KDF_SALT_BYTES) as Hl.
  { unfold kdf_generate_salt, kdf_init_sodium in H2. inv_m. done. }
  assert (p = c_str password) as -> by (unfold vault_copy_password in H4; by inv_m).
  assert (m = pwhash (c_str password) s) as ->.
  { unfold kdf_derive_master_key, kdf_init_sodium in H5. inv_m. by rewrite c_str_idemp. }
  split_and!; [done|done|].
  unfold kdf_derive_subkeys, kdf_derive_subkey, kdf_init_sodium in H8. inv_m. done.
Qed.

Lemma session_keys_ok password salt : keys_ok (session_keys password salt).
Proof. unfold keys_ok, session_keys. cbn. by rewrite !length_kdf. Qed.

Lemma put_metadata_ok key v e w c u w' :
  w_conn w = Some c → vault_put_metadata_blob key v e w = (Ok u, w') →
  ∃ c', w_conn w' = Some c' ∧ conn_cur c' = put_metadata key v (conn_cur c).
Proof.
  intros Hc H. unfold vault_put_metadata_blob in H.
  apply bind_ok in H as (? & w1 & H1 & H). apply require_db_ok in H1 as [_ ->].
  apply bind_ok in H as (? & w2 & H2 & H). unfold lift in H2. injection H2 as _ <-.
  apply sql_exec_ok in H as (c0 & db & Hc0 & [= <- _] & ->). assert (c0 = c) as -> by congruence.
  by eexists.
Qed.

(** The wrapped key in the metadata. *)
Definition wraps_meta_key (wrapping_key meta_key : bytes) (m : gmap bytes bytes) : Prop :=
  ∃ nonce, length nonce = VAULT_META_KEY_WRAP_NONCE_BYTES ∧
    m !! VAULT_METADATA_META_KEY_NONCE = Some nonce ∧
    m !! VAULT_METADATA_META_KEY_WRAPPED =
      Some (aead_encrypt XCHACHA20_POLY1305 wrapping_key nonce VAULT_META_KEY_WRAP_AAD
              (take crypto_aead_KEYBYTES meta_key)).

Lemma put_wrapped_ok meta_key key e w c u w' :
  w_conn w = Some c → vault_put_wrapped_meta_key meta_key key e w = (Ok u, w') →
  ∃ c' m, w_conn w' = Some c' ∧
    conn_cur c' = Database (t_secrets (conn_cur c)) (t_audit_log (conn_cur c)) m (t_auth_failures (conn_cur c)) ∧
    wraps_meta_key key meta_key m ∧
    (∀ x, x ≠ VAULT_METADATA_META_KEY_NONCE → x ≠ VAULT_METADATA_META_KEY_WRAPPED →
       m !! x = t_metadata (conn_cur c) !! x).
Proof.
  intros Hc H. unfold vault_put_wrapped_meta_key in H.
  next H nonce H1. apply randombytes_buf_ok in H1 as [Hl _].
  next H x H2. next H y H3.
  assert (w_conn w2 = Some c) as Hc2.
  { destruct K as (E1 & _), K0 as (E2 & _), K1 as (E3 & _). congruence. }
  apply bind_ok in H as (? & w3 & H4 & H). apply (put_metadata_ok _ _ _ _ c) in H4 as (c3 & Hc3 & Hcur3); [|done].
  apply (put_metadata_ok _ _ _ _ c3) in H as (c4 & Hc4 & Hcur4); [|done].
  rewrite Hcur3 in Hcur4. exists c4. eexists. split_and!; [done|exact Hcur4| |].
  - exists nonce. split; [done|]. split; [|by rewrite lookup_insert_eq].
    rewrite lookup_insert_ne by done. cbn [put_metadata t_metadata]. by rewrite lookup_insert_eq.
  - intros z Hz1 Hz2. cbn. by rewrite !lookup_insert_ne by done.
Qed.

(** Re-wrapping the rows and re-signing the log leaves the store. *)
Lemma table_rewrapped ok nk t t' :
  table_ok t → sealed ok t → Forall2 (rewrapped ok nk) t t' →
  table_ok t' ∧ sealed nk t' ∧ abs_version nk <$> t' = abs_version ok <$> t.
Proof.
  intros Ht Hs HF.
  assert (∀ r', r' ∈ t' → ∃ r, r ∈ t ∧ rewrapped ok nk r r') as Hin.
  { intros r' (i & Hi)%list_elem_of_lookup.
    destruct (Forall2_lookup_r _ _ _ _ _ HF Hi) as (r & Hr & Hrw). exists r.
    split; [by eapply list_elem_of_lookup_2|done]. }
  assert (∀ A (f : secret_row → A), (∀ a b c r, f (rewrap_row a b c r) = f r) → f <$> t' = f <$> t) as Hmap.
  { intros A f Hf. clear -HF Hf. induction HF as [|r r' t t' (Hr & _) HF IH]; [done|].
    cbn. rewrite IH, Hr. by rewrite Hf. }
  pose proof Ht as [[Hids Hnul] Hrows Hver Hlive]. rewrite Forall_forall in *. split_and!.
  - split.
    + split; [by rewrite (Hmap _ sr_id)|]. rewrite Forall_forall.
      intros r' (r & Hr & -> & _)%Hin. exact (Hnul r Hr).
    + rewrite Forall_forall. intros r' (r & Hr & -> & _)%Hin. by destruct (Hrows r Hr); split.
    + by rewrite (Hmap _ (λ r, (sr_name r, sr_version r))).
    + intros r' q' (r & Hr & -> & _)%Hin (q & Hq & -> & _)%Hin. exact (Hlive r q Hr Hq).
  - intros r' (r & Hr & _ & _ & Ho)%Hin. destruct (Hs r Hr) as (pt & Hpt). eauto.
  - clear -HF Hs. induction HF as [|r r' t t' (Hr & _ & Ho) HF IH]; [done|]. cbn.
    rewrite IH by (intros q Hq; apply Hs, elem_of_cons; auto). f_equal.
    destruct (Hs r) as (pt & Hpt); [apply elem_of_cons; auto|].
    unfold abs_version. rewrite Hpt, (Ho _ Hpt), Hr. done.
Qed.

Lemma resigned_events key log :
  abs_event <$> resigned key log = abs_event <$> log ∧ (numbered log → numbered (resigned key log)).
Proof.
  assert (∀ A (f : audit_row → A), (∀ s r, f (sign_row s r) = f r) → f <$> resigned key log = f <$> log) as Hmap.
  { intros A f Hf. revert key. induction log as [|r log IH]; intros key; [done|]. cbn. by rewrite IH, Hf. }
  split; [by apply Hmap|]. unfold numbered. rewrite (Hmap _ ar_entry_id) by done.
  assert (length (resigned key log) = length log) as ->; [|done].
  rewrite <- (length_fmap ar_entry_id (resigned key log)), (Hmap _ ar_entry_id) by done. by rewrite length_fmap.
Qed.

Lemma rotate_statements_ok old new salt verifier e w c u w' :
  w_conn w = Some c → db_ok old (conn_cur c) → keys_ok new →
  (Z.of_nat (length (t_audit_log (conn_cur c))) ≤ INT_MAX)%Z →
  rotate_kek_statements old new salt verifier e w = (Ok u, w') →
  let k' := Subkeys (kek_enc new) (kek_audit new) (kek_token new) (kek_meta old) in
  ∃ c', w_conn w' = Some c' ∧ db_ok k' (conn_cur c') ∧
    abstract k' (conn_cur c')
      = record (Event (str "ROTATE_KEK") (str "vault") 0) (abstract old (conn_cur c)) ∧
    t_metadata (conn_cur c') !! VAULT_METADATA_SALT = Some salt ∧
    t_metadata (conn_cur c') !! VAULT_METADATA_VERIFIER = Some verifier ∧
    wraps_meta_key (kek_enc new) (kek_meta old) (t_metadata (conn_cur c')).
Proof.
  intros Hc [Hkeys Ht Hs [Hnum Hch]] Hnew Hlen H k'. unfold rotate_kek_statements in H.
  next H u1 H1. assert (w_conn w0 = Some c) as Hc0 by (destruct K as [-> _]; done). clear K H1.
  apply bind_ok in H as (u2 & w2 & H2 & H).
  apply (rotate_kek_rewraps _ _ _ _ c) in H2 as (c2 & t' & Hc2 & Hcur2 & HF); [|done|apply Ht].
  destruct (table_rewrapped _ _ _ _ Ht Hs HF) as (Ht' & Hs' & Habs).
  apply bind_ok in H as (u3 & w3 & H3 & H).
  apply (put_wrapped_ok _ _ _ _ c2) in H3 as (c3 & m & Hc3 & Hcur3 & Hwrap & Hm); [|done].
  apply bind_ok in H as (u4 & w4 & H4 & H).
  apply (put_metadata_ok _ _ _ _ c3) in H4 as (c4 & Hc4 & Hcur4); [|done].
  apply bind_ok in H as (u5 & w5 & H5 & H).
  apply (put_metadata_ok _ _ _ _ c4) in H5 as (c5 & Hc5 & Hcur5); [|done].
  apply bind_ok in H as (u6 & w6 & H6 & H).
  rewrite Hcur4, Hcur3, Hcur2 in Hcur5.
  assert (t_audit_log (conn_cur c5) = t_audit_log (conn_cur c)) as Elog by by rewrite Hcur5.
  apply (resign_chain_ok _ _ _ _ _ c5) in H6 as (c6 & Hc6 & _ & Hcur6 & _ & _ & Hch6);
    [|done|rewrite Elog; by apply numbered_ordered|].
  2:{ rewrite Elog. intros r Hr. pose proof (numbered_id _ _ Hnum Hr). lia. }
  rewrite Elog in Hcur6, Hch6.
  destruct (resigned_events (kek_audit new) (t_audit_log (conn_cur c))) as [Hev Hn6].
  apply (event_ok _ _ _ _ _ _ c6) in H as (c7 & a & Hc7 & Hcur7 & Hl7 & Ha);
    [|done|rewrite Hcur6; split; [by apply Hn6|done]|done|done].
  rewrite Hcur6, Hcur5 in Hcur7. rewrite Hcur6 in Hl7.
  set (log' := resigned (kek_audit new) (t_audit_log (conn_cur c))) in *.
  assert (conn_cur c7 = Database t' (log' ++ [a])
    (<[VAULT_METADATA_VERIFIER := verifier]> (<[VAULT_METADATA_SALT := salt]> m))
    (t_auth_failures (conn_cur c))) as E by exact Hcur7.
  exists c7. rewrite E. split_and!; [done| | | | |].
  - split; [|done|done|done]. unfold keys_ok in *. cbn. tauto.
  - unfold abstract, record. cbn [t_secrets t_audit_log st_versions st_trail].
    change (kek_enc k') with (kek_enc new). rewrite Habs, fmap_app, Hev, <- Ha. done.
  - cbn [t_metadata]. rewrite lookup_insert_ne by done. by rewrite lookup_insert_eq.
  - cbn [t_metadata]. by rewrite lookup_insert_eq.
  - destruct Hwrap as (nonce & Hnl & Hn1 & Hn2). exists nonce. cbn [t_metadata].
    rewrite !lookup_insert_ne by done. done.
Qed.

Lemma rotate_kek_ok password k db e w u w' :
  vault_state w k db → (Z.of_nat (length (t_audit_log db)) ≤ INT_MAX)%Z →
  vault_rotate_kek password e w = (Ok u, w') →
  ∃ salt db',
    let s := session_keys password salt in
    let k' := Subkeys (kek_enc s) (kek_audit s) (kek_token s) (kek_meta k) in
    length salt = KDF_SALT_BYTES ∧ vault_state w' k' db' ∧
    abstract k' db' = record (Event (str "ROTATE_KEK") (str "vault") 0) (abstract k db) ∧
    t_metadata db' !! VAULT_METADATA_SALT = Some salt ∧
    t_metadata db' !! VAULT_METADATA_VERIFIER = Some (sha256 (pwhash (c_str password) salt)) ∧
    wraps_meta_key (kek_enc k') (kek_meta k) (t_metadata db').
Proof.
  intros Hst Hlen H. unfold vault_rotate_kek in H. do 3 guard_step H.
  next H cr H1. destruct cr as [[salt verifier] new].
  apply derive_credentials_ok in H1 as (Hsalt & -> & ->). forward Hst.
  destruct (state_conn _ _ _ Hst) as (c & Hc & Hcur & Hk & Hdb).
  next H old H2. apply g_subkeys_ok in H2 as [Hk' _]. assert (old = k) as -> by congruence. forward Hst.
  destruct (vault_state_conn _ _ _ Hst) as (c2 & Hc2 & Hcur2 & Hq2 & Hk2 & Hdb2).
  assert (∃ w3, (storage_begin_transaction ;; finish_transaction
      (rotate_kek_statements k (session_keys password salt) salt (sha256 (pwhash (c_str password) salt))))
      e w1 = (Ok (), w3) ∧ w' = set_session (Some (Subkeys (kek_enc (session_keys password salt))
        (kek_audit (session_keys password salt)) (kek_token (session_keys password salt)) (kek_meta k))) true w3)
    as (w3 & H3 & ->).
  { apply bind_ok in H as ([] & wb & Hb & H). apply bind_ok in H as ([] & wf & Hf & H).
    exists wf. split; [by rewrite (bind_run _ _ _ _ _ _ Hb)|]. by injection H as _ <-. }
  destruct (transaction_ok _ _ c2 _ () w3 Hq2 Hc2 (or_intror H3))
    as (wa & wb & c0 & c3 & c' & Hc0 & Hcur0 & Hk0 & Hs & Hc3 & Hq' & Hc' & Hcur' & _ & _).
  rewrite <- Hcur0 in Hdb2. apply (rotate_statements_ok _ _ _ _ _ _ c0) in Hs
    as (c4 & Hc4 & Hdb4 & Habs & Hm1 & Hm2 & Hm3); [|done|done|apply session_keys_ok|by rewrite Hcur0, Hcur2].
  assert (c4 = c3) as -> by congruence. rewrite Hcur0, Hcur2 in Habs.
  exists salt, (conn_cur c3). cbv zeta. split_and!; try done.
  unfold vault_state, visible. cbn. rewrite Hc'. cbn. rewrite Hcur'. split_and!; try done.
Qed.

(** * Refinement *)

(** The arguments an operation is called with: the rotation of expired
    secrets gets a name of the table, which is a C string, and the rotation of
    the password re-signs entries whose numbers are bound as an [int]. *)
Definition op_fits (o : vault_op) (db : database) : Prop :=
  match o with
  | OpRotateExpired stored_name => c_str stored_name = stored_name
  | OpRotateKek _ => (Z.of_nat (length (t_audit_log db)) ≤ INT_MAX)%Z
  | _ => True
  end.

(** How a session takes names to lookup names: by a key that no rotation of
    the password replaces. *)
Definition names (k : kdf_subkeys_t) (name : bytes) : bytes := name_lookup k (c_str name).

Lemma names_meta k k' name : kek_meta k' = kek_meta k → names k' name = names k name.
Proof. unfold names, name_lookup. by intros ->. Qed.

(** An operation that succeeds makes a transition. *)
Lemma run_op_step o k db e w out w' :
  vault_state w k db → op_fits o db → run_op o e w = (Ok out, w') →
  ∃ k' db', vault_state w' k' db' ∧ kek_meta k' = kek_meta k ∧
    step (names k) o (abstract k db) out (abstract k' db').
Proof.
  intros Hst Hfit H. assert (db_ok k db) as Hdb by apply Hst. pose proof (db_table _ _ Hdb) as Ht.
  destruct o as [name secret alg ttl|name n|name v n|name|name v|name|password]; cbn [run_op] in H;
    try (apply bind_ok in H as ([] & w1 & H & H'); apply ret_ok in H' as [-> ->]).
  - apply (put_ok _ _ _ _ k db) in H as (db' & Hst' & Habs); [|done].
    exists k, db'. split_and!; [done..|]. rewrite Habs. exact (step_put (names k) name secret alg ttl _).
  - unfold vault_get in H. guard_step H.
    apply (read_ok _ _ _ _ k db) in H as (r & db' & Hr & Ho & Hst' & Habs); [|done].
    exists k, db'. split_and!; [done..|]. rewrite Habs.
    by eapply (step_get (names k) name n _ (abs_version (kek_enc k) r)); [apply live_version|apply open_secret].
  - unfold vault_get_version in H. do 2 guard_step H.
    apply (read_ok _ _ _ _ k db) in H as (r & db' & Hr & Ho & Hst' & Habs); [|done].
    exists k, db'. split_and!; [done..|]. rewrite Habs.
    destruct (find_version_in _ _ _ _ Hr) as (_ & _ & ->).
    eapply (step_get_version (names k) name v n _ (abs_version (kek_enc k) r)); [|by apply open_secret].
    unfold names. by rewrite find_version_abs, Hr.
  - apply (delete_ok _ k db) in H as (r & db' & Hr & Hst' & Habs); [|done].
    exists k, db'. split_and!; [done..|]. rewrite Habs.
    by apply (step_delete (names k) name _ (abs_version (kek_enc k) r)), live_version.
  - apply (rollback_ok _ _ k db) in H as (r & s & db' & Hr & Ho & Hst' & Habs); [|done].
    exists k, db'. split_and!; [done..|]. rewrite Habs.
    eapply (step_rollback (names k) name v _ (abs_version (kek_enc k) r)); [|by apply open_secret].
    unfold names. by rewrite find_version_abs, Hr.
  - apply (rotate_expired_ok _ k db) in H as (r & t & now & Hr & _ & [[_ Hst']|(s & db' & q & _ & Ho & Hst' & Habs & _)]);
      [| |done|done].
    { exists k, db. split_and!; [done..|]. apply step_not_due. }
    exists k, db'. split_and!; [done..|]. rewrite Habs.
    by eapply (step_rotate_expired (names k) name _ (abs_version (kek_enc k) r)); [apply live_version|apply open_secret].
  - apply (rotate_kek_ok _ k db) in H as (salt & db' & _ & Hst' & Habs & _); [|done|done].
    eexists _, db'. split_and!; [exact Hst'|done|]. rewrite Habs. apply step_rotate_kek.
Qed.

(** What a session holds between two operations, a rollback that failed
    included: the durable database satisfies the invariant under the keys. *)
Definition holds (w : world) (k : kdf_subkeys_t) (db : database) : Prop :=
  settled w ∧ w_subkeys w = Some k ∧ w_unlocked w = true ∧ durable w = Some db ∧ db_ok k db.

Lemma holds_vault_state w k db : holds w k db → quiescent w → vault_state w k db.
Proof.
  intros (_ & Hk & Hu & Hd & Hdb) (c & Hc & Htx & Hq). unfold vault_state, visible, durable in *.
  rewrite Hc in *. split_and!; try done; [by exists c|]. cbn in *. congruence.
Qed.

Lemma vault_state_holds w k db : vault_state w k db → holds w k db.
Proof.
  intros ((c & Hc & Htx & Hq) & Hk & Hu & Hv & Hdb). unfold holds, settled, durable, visible in *.
  rewrite Hc in *. split_and!; try done; [by exists c|]. cbn in *. congruence.
Qed.

Lemma vault_state_quiescent w k db : vault_state w k db → quiescent w.
Proof. by intros []. Qed.

(** Only the rotation of the password replaces the session, by its last
    step; it does so only if it could open its transaction. *)
Class Replaces (m : M unit) : Prop :=
  replaces : ∀ e w r w', m e w = (r, w') →
    (is_ok r = false → same_session w w') ∧ (is_ok r = true → settled w → quiescent w).

#[local] Instance replaces_bind {A} (m : M A) (f : A → M unit) :
  Keeps same_state m → (∀ a, Replaces (f a)) → Replaces (m ≫= f) | 5.
Proof.
  intros K Hf e w r w' H. pose proof (keeps (m := m) e w) as S. unfold mbind, M_bind in H.
  destruct (m e w) as [[a|s] w1]; cbn in S.
  - destruct (Hf a e w1 r w' H) as [H1 H2]. destruct (same_state_conn _ _ S) as (Hs & _ & Hq & _).
    split; [|auto]. intros Hr. etrans; [|by apply H1].
    by apply in_transaction_same_session, same_state_in_transaction.
  - injection H as <- <-. split; [|done]. intros _.
    by apply in_transaction_same_session, same_state_in_transaction.
Qed.
#[local] Instance replaces_pair {B C} (p : B * C) (f : B → C → M unit) :
  (∀ b c, Replaces (f b c)) → Replaces (let '(b, c) := p in f b c).
Proof. by destruct p. Qed.
#[local] Instance replaces_last statements k :
  Keeps in_transaction statements →
  Replaces (storage_begin_transaction ;; finish_transaction statements ;; vault_set_session k) | 1.
Proof.
  intros K e w r w' H. split.
  - intros Hr. unfold mbind, M_bind in H.
    pose proof (keeps (R := same_session) (m := storage_begin_transaction) e w) as S1.
    destruct (storage_begin_transaction e w) as [[[]|s] w1]; [|by injection H as <- <-].
    pose proof (keeps (R := same_session) (m := finish_transaction statements) e w1) as S2.
    destruct (finish_transaction statements e w1) as [[[]|s] w2]; injection H as <- <-; [done|].
    by etrans.
  - intros Hr (c & E & Hc). destruct r; [|done]. apply bind_ok in H as (u & w1 & H & _).
    exists c. split; [done|]. unfold storage_begin_transaction, tx_statement in H. rewrite E in H.
    destruct (env_fault _ _); [done|]. destruct (conn_in_tx c); [done|]. auto.
Qed.
#[local] Instance replaces_rotate_kek p : Replaces (vault_rotate_kek p).
Proof. unfold vault_rotate_kek. apply _. Qed.

#[local] Instance session_put n s a t : Keeps same_session (vault_put_with_options n s a t).
Proof. unfold vault_put_with_options. apply _. Qed.
#[local] Instance session_delete n : Keeps same_session (vault_delete n).
Proof. unfold vault_delete. apply _. Qed.
#[local] Instance session_rollback n v : Keeps same_session (vault_rollback n v).
Proof. unfold vault_rollback. apply _. Qed.
#[local] Instance session_rotate_expired n : Keeps same_session (vault_rotate_expired_secret n).
Proof. unfold vault_rotate_expired_secret. keeps_tac. Qed.

Lemma run_op_session o e w r w' :
  run_op o e w = (r, w') → settled w →
  same_session w w' ∨ is_ok r = true ∧ quiescent w.
Proof.
  intros H Hw. assert (∀ A (m : M A), Keeps same_session m → (∃ r, m e w = (r, w')) → same_session w w') as HK.
  { intros A m K (r1 & Hm). by eapply keeps_run in Hm. }
  destruct o; cbn [run_op] in H;
    try (left; refine (HK _ _ _ (ex_intro _ _ H)); apply _).
  unfold mbind, M_bind in H. destruct (vault_rotate_kek _ e w) as [[[]|s] w1] eqn:E;
    injection H as <- <-; destruct (replaces _ _ _ _ E) as [H1 H2]; auto.
Qed.

(** One operation, whatever its outcome: a transition of the store, or the
    durable store and the keys as they were. *)
Lemma run_op_holds o k db e w r w' :
  holds w k db → op_fits o db → run_op o e w = (r, w') →
  ∃ k' db', holds w' k' db' ∧ kek_meta k' = kek_meta k ∧
    (k' = k ∧ db' = db ∨ ∃ out, r = Ok out ∧ step (names k) o (abstract k db) out (abstract k' db')).
Proof.
  intros Hh Hfit H. pose proof Hh as (Hs & Hk & Hu & Hd & Hdb).
  destruct (atomic_run_op o e w r w' Hs H) as (Hs' & _ & Hd').
  assert (same_session w w' → durable w' = durable w → holds w' k db) as Hsame.
  { intros (S1 & S2 & _) E. unfold holds. by rewrite S1, S2, E. }
  destruct (run_op_session o e w r w' H Hs) as [S|[Hr Hq]].
  - destruct r as [out|s]; [|exists k, db; split_and!; auto].
    assert (quiescent w ∨ ¬ quiescent w) as [Hq|Hq].
    { destruct (proj1 (settled_cases w) Hs) as [|(c & E & Htx)]; [by left|right].
      intros (c' & E' & Htx' & _). congruence. }
    + destruct (run_op_step o k db e w out w' (holds_vault_state _ _ _ Hh Hq) Hfit H)
        as (k' & db' & Hst & Hm & Hstep).
      exists k', db'. split_and!; [by apply vault_state_holds|done|eauto].
    + exists k, db. split_and!; auto.
  - destruct r as [out|s]; [|done].
    destruct (run_op_step o k db e w out w' (holds_vault_state _ _ _ Hh Hq) Hfit H)
      as (k' & db' & Hst & Hm & Hstep).
    exists k', db'. split_and!; [by apply vault_state_holds|done|eauto].
Qed.

(** ** Sessions *)

(** A caller that runs one operation after the other, whatever they return. *)
Fixpoint run_ops (os : list vault_op) : M (list (outcome bytes)) :=
  match os with
  | [] => mret []
  | o :: os' => r ← try (run_op o); rs ← run_ops os'; mret (r :: rs)
  end.

(** The store [st'] keeps the versions and the trail of [st]. *)
Definition extends (st st' : store) : Prop :=
  ∃ l new events, st_versions st' = l ++ new ∧ Forall2 same_version (st_versions st) l ∧
    st_trail st' = st_trail st ++ events.

#[export] Instance same_version_preorder : PreOrder same_version.
Proof. split; [done|]. unfold same_version. intros a b c. intuition congruence. Qed.

#[export] Instance extends_preorder : PreOrder extends.
Proof.
  split.
  - intros st. exists (st_versions st), [], []. rewrite !app_nil_r.
    split_and!; [done|apply same_version_refl|done].
  - intros a b c (l & new & ev & E1 & F1 & T1) (l' & new' & ev' & E2 & F2 & T2).
    rewrite E1 in F2. apply Forall2_app_inv_l in F2 as (m1 & m2 & F2 & F3 & ->).
    exists m1, (m2 ++ new'), (ev ++ ev'). rewrite E2, T2, T1, <- !app_assoc. split_and!; [done| |done].
    by etrans.
Qed.

Lemma step_extends lookup o st out st' :
  step lookup o st out st' →
  extends st st' ∧ (length (st_trail st') ≤ S (length (st_trail st)))%nat.
Proof.
  intros (l & new & ev & E & F & T & _ & Hev)%step_history. split; [by exists l, new, ev|].
  rewrite T, length_app. lia.
Qed.

End Operations.
