(* ===== verification/VaultReads.v ===== *)
(** Reading secrets succeeds: in a healthy environment the live version and
    every kept version of a store that satisfies the invariant can be read,
    and a name without live version is reported as not found. With the
    refinement this gives what a caller of the vault relies on: what was put,
    and nothing else, is what a later read returns. *)

From S2P Require Import Prelude Status Sodium Schema State Utils Kdf CryptoEngine Storage KeyManager Merkle AuditLog VaultRows Vault VaultSpec VaultRefine.

Section Reads.
Context {CR : Crypto} {CL : CryptoLaws CR}.

(** * The steps of a read *)

(** The sizes the row is checked for follow from its opening. *)
Lemma open_envelope_sizes kek id v es pt :
  open_envelope kek id v es = Ok pt →
  (0 < length (es_ciphertext es))%nat ∧ (0 < length (es_encrypted_dek es))%nat ∧
  (0 < length (es_nonce es) ≤ CRYPTO_ENGINE_MAX_NONCE_BYTES)%nat ∧
  (0 < length (es_dek_nonce es) ≤ CRYPTO_ENGINE_MAX_NONCE_BYTES)%nat ∧
  length (es_key_commitment es) = CRYPTO_ENGINE_COMMITMENT_BYTES.
Proof.
  unfold open_envelope. intros H. inv_outcome.
  match goal with H : envelope_shape ?a es = true |- _ => rename a into alg; rename H into Hs end.
  unfold envelope_shape in Hs. rewrite !andb_true_iff, !Nat.leb_le, !Nat.eqb_eq in Hs.
  destruct Hs as ((((L1 & L2) & L3) & L4) & L5).
  rewrite tag_bytes_cipher in *. rewrite nonce_bytes_cipher in *.
  assert (16 ≤ aead_ABYTES (payload_cipher alg))%nat by (destruct (payload_cipher alg); simpl; lia).
  assert (12 ≤ aead_NPUBBYTES (payload_cipher alg) ≤ 32)%nat by (destruct (payload_cipher alg); simpl; lia).
  unfold CRYPTO_ENGINE_MAX_NONCE_BYTES. split_and!; lia.
Qed.

Lemma wp_same {A} (m : M A) `{!Keeps same_state m} (a : A) (Q : A → world → Prop) e w :
  wp m (λ x _, x = a) e w → (∀ w', same_state w w' → Q a w') → wp m Q e w.
Proof.
  intros H HQ. apply (wp_mono _ (λ x w', same_state w w' ∧ x = a)); [by apply wp_keeps|].
  intros x w' [S ->]. auto.
Qed.

Lemma wp_copy_row r kek pt (Q : vault_secret_row_t → world → Prop) e w :
  healthy e → row_fine r → open_row kek r = Ok pt →
  (∀ w', same_state w w' →
     Q (VaultSecretRow (c_str (sr_id r)) (column_int (sr_version r)) (row_envelope r)) w') →
  wp (vault_copy_secret_row r) Q e w.
Proof.
  intros He Hf Ho HQ. eapply wp_same; [apply _| |exact HQ].
  apply open_envelope_sizes in Ho. cbn [row_envelope es_ciphertext es_encrypted_dek es_nonce
    es_dek_nonce es_key_commitment] in Ho. destruct Ho as (H1 & H2 & H3 & H4 & H5).
  assert (0 < CRYPTO_ENGINE_COMMITMENT_BYTES)%nat as H6 by (vm_compute; lia).
  pose proof (row_version_int _ Hf) as Hv.
  destruct (rf_storable _ Hf) as (Hid & _ & Hidl & _ & _ & Hv1 & Halg).
  apply bool_decide_eq_true in Hid.
  assert (c_str (sr_algorithm r) = sr_algorithm r ∧
          (length (sr_algorithm r) < CRYPTO_ENGINE_ALGORITHM_MAX)%nat) as [Ha Hal].
  { unfold CRYPTO_ENGINE_ALGORITHM_MAX. destruct Halg as [->|[->| ->]]; split; try reflexivity; simpl; lia. }
  assert (∀ blob, (0 < length blob)%nat → vault_column_blob_size blob = Ok (length blob) ∧
            vault_copy_blob_column blob (length blob) = Ok blob) as Hblob.
  { intros b Hb. unfold vault_column_blob_size, vault_copy_blob_column.
    rewrite (proj2 (Nat.eqb_neq _ _)) by lia. cbn [negb]. rewrite Nat.eqb_refl. done. }
  unfold vault_copy_secret_row. wp_run.
  eapply wp_lift. { unfold vault_copy_text_column. rewrite (c_str_no_nul (sr_id r)) by done.
    rewrite (proj2 (Nat.ltb_lt _ _)) by done. reflexivity. }
  wp_run. apply wp_guard; [by apply Z.leb_le|]. wp_run.
  eapply wp_lift. { unfold vault_copy_text_column. rewrite Ha, (proj2 (Nat.ltb_lt _ _)) by done. reflexivity. }
  do 4 (wp_run; eapply wp_lift; [apply Hblob; lia|]).
  wp_run. apply wp_guard; [apply andb_true_iff; split; apply Nat.leb_le; lia|].
  do 4 (wp_run; eapply wp_lift; [apply Hblob; lia|]).
  wp_run. eapply wp_lift; [apply Hblob; lia|].
  wp_run. apply wp_guard; [by apply Nat.eqb_eq|]. wp_run.
  eapply wp_lift; [apply Hblob; lia|]. wp_run.
  unfold row_envelope. by rewrite (c_str_no_nul (sr_id r)), Ha.
Qed.

(** The row that a name, or a name and a number, select. *)
Definition selected (active : bool) (n : bytes) (v : Z) (t : list secret_row) : option secret_row :=
  if active then find_active n t else find_version n v t.

Lemma selected_in active n v t r : selected active n v t = Some r → r ∈ t ∧ sr_name r = n.
Proof. destruct active; [intros H%find_active_in|intros H%find_version_in]; tauto. Qed.

Lemma wp_load_row n v active c (Q : vault_secret_row_t → world → Prop) r kek pt e w :
  healthy e → w_conn w = Some c → c_str n = n → n ≠ [] → active = true ∨ (1 ≤ v)%Z →
  selected active n v (t_secrets (conn_cur c)) = Some r → row_fine r → open_row kek r = Ok pt →
  (∀ w', same_state w w' →
     Q (VaultSecretRow (c_str (sr_id r)) (column_int (sr_version r)) (row_envelope r)) w') →
  wp (vault_load_secret_row n v active) Q e w.
Proof.
  intros He Hc Hn Hne Hv Hr Hf Ho HQ. eapply wp_same; [apply _| |exact HQ].
  unfold vault_load_secret_row. wp_run. eapply wp_require_db; [done|]. wp_run.
  apply wp_guard.
  { rewrite Hn, bool_decide_false by done. destruct Hv as [->|Hv]; [done|].
    rewrite (proj2 (Z.leb_le _ _)) by lia. apply orb_true_r. }
  wp_run. eapply wp_sql_query; [done..|]. rewrite Hn.
  change (if active then _ else _) with (selected active n v (t_secrets (conn_cur c))).
  rewrite Hr. eapply wp_copy_row; done.
Qed.

Lemma wp_name_lookup name n k (Q : bytes → world → Prop) e w :
  healthy e → w_subkeys w = Some k → c_str name ≠ [] → (VAULT_NAME_LOOKUP_HEX_LEN ≤ n)%nat →
  (∀ w', same_state w w' → Q (names k name) w') → wp (vault_build_name_lookup name n) Q e w.
Proof.
  intros He Hk Hne Hn HQ. eapply wp_same; [apply _| |exact HQ].
  unfold vault_build_name_lookup. wp_run. exists k, w. split; [unfold g_subkeys; by rewrite Hk|].
  wp_run. apply wp_guard; [|by wp_run].
  rewrite bool_decide_false by done. by apply Nat.leb_le.
Qed.

Lemma names_text k name : c_str (names k name) = names k name ∧ length (names k name) = 64%nat.
Proof.
  unfold names, name_lookup. split; [apply c_str_no_nul, bin2hex_no_nul|].
  by rewrite length_bin2hex, length_generichash.
Qed.

Lemma names_nonempty k name : names k name ≠ [].
Proof. intros E. destruct (names_text k name) as [_ H]. by rewrite E in H. Qed.

Lemma wp_decrypt_row r name n k kek pt (Q : bytes → world → Prop) e w :
  healthy e → w_subkeys w = Some k → kek = kek_enc k → row_fine r → name = sr_name r →
  open_row kek r = Ok pt → (length pt ≤ n)%nat → (∀ w', same_state w w' → Q pt w') →
  wp (vault_decrypt_secret_row
        (VaultSecretRow (c_str (sr_id r)) (column_int (sr_version r)) (row_envelope r)) name n) Q e w.
Proof.
  intros He Hk -> Hf -> Ho Hn HQ. eapply wp_same; [apply _| |exact HQ].
  destruct (rf_storable _ Hf) as (Hid & Hidne & _ & Hnne & Hnn & _).
  apply bool_decide_eq_true in Hid, Hnn.
  unfold vault_decrypt_secret_row. wp_run.
  apply wp_guard; [rewrite (c_str_no_nul (sr_name r)), bool_decide_false by done; done|].
  wp_run. unfold crypto_engine_build_row_identity. cbn [vr_id]. wp_run. apply wp_guard.
  { rewrite (c_str_no_nul (sr_name r)), !(c_str_no_nul (sr_id r)), !bool_decide_false by done. done. }
  wp_run. eexists k, _. split; [unfold g_subkeys; cbn; by rewrite Hk|].
  cbn [vr_encrypted vr_version]. rewrite c_str_idemp.
  eapply wp_decrypt; done.
Qed.

(** A name is a loggable target. *)
Lemma names_loggable k name action :
  audit_valid_action action = true → loggable (str "user:default") action (names k name) (str "SUCCESS") = true.
Proof.
  intros Ha. unfold loggable. destruct (names_text k name) as [_ Hl].
  rewrite Ha, Hl, bool_decide_false by apply names_nonempty. done.
Qed.

(** Room for one more entry. *)
Lemma log_rows k db :
  db_ok k db → (Z.of_nat (length (t_audit_log db)) < INT64_MAX)%Z →
  ∀ r, r ∈ t_audit_log db → row_ok r = true ∧ (ar_entry_id r < INT64_MAX)%Z.
Proof.
  intros [_ _ _ [Hn Hch]] Hlen r Hr. unfold chain_ok in Hch.
  apply andb_true_iff in Hch as [Hh _]. split; [by eapply hashes_ok_rows|].
  pose proof (numbered_id _ _ Hn Hr). lia.
Qed.

Lemma wp_read_secret name v active n k db r pt e w :
  healthy e → clock_ok e → vault_state w k db → (Z.of_nat (length (t_audit_log db)) < INT64_MAX)%Z →
  c_str name ≠ [] → active = true ∨ (1 ≤ v)%Z →
  selected active (names k name) v (t_secrets db) = Some r → open_row (kek_enc k) r = Ok pt →
  (length pt ≤ n)%nat →
  wp (vault_read_secret name v active n true) (λ out _, out = pt) e w.
Proof.
  intros He Hclk Hst Hlog Hne Hv Hr Ho Hn.
  destruct (state_conn _ _ _ Hst) as (c & Hc & Hcur & Hk & Hdb).
  destruct (selected_in _ _ _ _ _ Hr) as [Hin Hrn].
  pose proof (table_row _ _ (db_table _ _ Hdb) Hin) as Hf. destruct (names_text k name) as [Htext _].
  unfold vault_read_secret. wp_run. apply wp_guard; [by rewrite bool_decide_false|]. wp_run.
  eapply (wp_name_lookup _ _ k); [done|done|done|done|]. intros w1 S1. wp_run.
  assert (w_conn w1 = Some c ∧ w_subkeys w1 = Some k) as [Hc1 Hk1].
  { destruct S1 as (-> & -> & _). done. }
  eapply (wp_load_row _ _ _ c); [done|done|done|apply names_nonempty|done|by rewrite Hcur|done|done|].
  intros w2 S2. wp_run.
  assert (w_conn w2 = Some c ∧ w_subkeys w2 = Some k) as [Hc2 Hk2].
  { destruct S2 as (-> & -> & _). done. }
  eapply (wp_decrypt_row _ _ _ k); [done|done|done|done|by rewrite Hrn|done|done|].
  intros w3 S3. wp_run.
  assert (w_conn w3 = Some c ∧ w_subkeys w3 = Some k) as [Hc3 Hk3].
  { destruct S3 as (-> & -> & _). done. }
  unfold vault_log_success. wp_run. exists k, w3. split; [unfold g_subkeys; by rewrite Hk3|].
  eapply (wp_log_event _ _ _ _ _ _ c); [done|done|done|apply Hdb|by apply names_loggable| |].
  { rewrite Hcur. by apply (log_rows k). }
  intros ts w4 x _ _ _ _. by wp_run.
Qed.

(** * The outcomes of a read *)

Lemma require_unlocked_run {A} (m : M A) e w k :
  w_subkeys w = Some k → w_unlocked w = true → (vault_require_unlocked ;; m) e w = m e w.
Proof. intros Hk Hu. unfold mbind, M_bind, vault_require_unlocked. by rewrite Hu, Hk. Qed.

Lemma get_live name n k db v s e w :
  healthy e → clock_ok e → vault_state w k db → (Z.of_nat (length (t_audit_log db)) < INT64_MAX)%Z →
  c_str name ≠ [] → find_live (names k name) (abstract k db) = Some v → v_secret v = Some s →
  (length s ≤ n)%nat → ∃ w', vault_get name n e w = (Ok s, w').
Proof.
  intros He Hclk Hst Hlog Hne Hv Hs Hn. pose proof Hst as (_ & Hk & Hu & _ & Hdb).
  rewrite find_active_abs in Hv by apply Hdb.
  destruct (find_active _ _) as [r|] eqn:Hr; [|done]. injection Hv as <-.
  cbn in Hs. destruct (open_row _ r) as [s'|] eqn:Ho; [|done]. injection Hs as ->.
  unfold vault_get. rewrite (require_unlocked_run _ _ _ k) by done.
  destruct (wp_read_secret name 0 true n k db r s e w) as (out & w' & E & ->); try done; [by left|].
  by exists w'.
Qed.

Lemma get_number name number n k db v s e w :
  healthy e → clock_ok e → vault_state w k db → (Z.of_nat (length (t_audit_log db)) < INT64_MAX)%Z →
  c_str name ≠ [] → find_number (names k name) number (abstract k db) = Some v → v_secret v = Some s →
  (length s ≤ n)%nat → ∃ w', vault_get_version name number n e w = (Ok s, w').
Proof.
  intros He Hclk Hst Hlog Hne Hv Hs Hn. pose proof Hst as (_ & Hk & Hu & _ & Hdb).
  rewrite find_version_abs in Hv.
  destruct (find_version _ _ _) as [r|] eqn:Hr; [|done]. injection Hv as <-.
  cbn in Hs. destruct (open_row _ r) as [s'|] eqn:Ho; [|done]. injection Hs as ->.
  destruct (find_version_in _ _ _ _ Hr) as (Hin & _ & Hnum).
  assert (1 ≤ number)%Z as Hpos.
  { rewrite <- Hnum. apply (table_row _ _ (db_table _ _ Hdb)) in Hin as []. lia. }
  unfold vault_get_version. rewrite (require_unlocked_run _ _ _ k) by done.
  rewrite guard_run by (by apply Z.leb_le).
  destruct (wp_read_secret name number false n k db r s e w) as (out & w' & E & ->); try done; [by right|].
  by exists w'.
Qed.

(** A name that has no live version is not found. *)
Lemma get_absent name n k db e w :
  healthy e → vault_state w k db → c_str name ≠ [] → find_live (names k name) (abstract k db) = None →
  fails (vault_get name n) SM_ERR_NOT_FOUND e w.
Proof.
  intros He Hst Hne Hv. pose proof Hst as (_ & Hk & Hu & _ & Hdb).
  destruct (state_conn _ _ _ Hst) as (c & Hc & Hcur & _).
  rewrite find_active_abs in Hv by apply Hdb.
  destruct (find_active _ _) as [r|] eqn:Hr; [done|].
  unfold fails, vault_get. rewrite (require_unlocked_run _ _ _ k) by done. fold (fails (vault_read_secret name 0 true n true) SM_ERR_NOT_FOUND e w).
  unfold vault_read_secret. apply fails_bind, wp_guard; [by rewrite bool_decide_false|].
  apply fails_bind. eapply (wp_name_lookup _ _ k); [done|done|done|done|]. intros w1 S1.
  assert (w_conn w1 = Some c) as Hc1 by (by destruct S1 as (-> & _)).
  apply fails_first. unfold vault_load_secret_row. apply fails_bind. eapply wp_require_db; [done|].
  destruct (names_text k name) as [Ht _]. rewrite Ht.
  apply fails_bind, wp_guard; [by rewrite bool_decide_false by apply names_nonempty|].
  apply fails_bind. eapply wp_sql_query; [done..|]. rewrite Hcur, Hr. apply fails_throw.
Qed.

(** * The store after an operation *)

Lemma find_live_add n s action st : find_live n (add_version n s action st) =
  Some (Version n (next_number n st) (Some s) true).
Proof.
  unfold find_live, add_version, record, retire. cbn [st_versions].
  rewrite list_find_app_r.
  - cbn. rewrite decide_True by done. done.
  - apply list_find_None, Forall_forall. intros v (u & -> & _)%list_elem_of_fmap.
    unfold retire_version. case_bool_decide; cbn; [|tauto]. intros [_ ?]. done.
Qed.

Lemma find_live_retire n st : find_live n (retire n st) = None.
Proof.
  unfold find_live, retire. cbn [st_versions].
  assert (list_find (λ v, v_name v = n ∧ v_live v = true) (retire_version n <$> st_versions st) = None) as ->; [|done].
  apply list_find_None, Forall_forall. intros v (u & -> & _)%list_elem_of_fmap.
  unfold retire_version. case_bool_decide; cbn; [|tauto]. intros [_ ?]. done.
Qed.

End Reads.
