(* ===== verification/VaultUnlock.v ===== *)
(** Opening a session: the password that opens the stored metadata, and only
    it, unlocks the vault with the keys the tables are written under. *)

From S2P Require Import Prelude Status Sodium Schema State Utils Kdf CryptoEngine Storage KeyManager Merkle AuditLog VaultRows Vault VaultSpec VaultRefine VaultReads.

Section Unlock.
Context {CR : Crypto} {CL : CryptoLaws CR}.

(** The keys of a session that opened the metadata: those of the password and
    the stored salt, the metadata key the one that is stored wrapped. *)
Definition opened (s : kdf_subkeys_t) (meta_key : bytes) : kdf_subkeys_t :=
  Subkeys (kek_enc s) (kek_audit s) (kek_token s) meta_key.

(** The verifier of a password. *)
Definition verifier_of (password salt : bytes) : bytes := sha256 (pwhash (c_str password) salt).

(** [password] opens the metadata [m], giving the keys [k]. *)
Definition opens (password : bytes) (k : kdf_subkeys_t) (m : gmap bytes bytes) : Prop :=
  ∃ salt nonce wrapped,
    length salt = KDF_SALT_BYTES ∧ length nonce = VAULT_META_KEY_WRAP_NONCE_BYTES ∧
    length wrapped = VAULT_META_KEY_WRAP_BYTES ∧ length (kek_meta k) = crypto_aead_KEYBYTES ∧
    m !! VAULT_METADATA_SALT = Some salt ∧
    m !! VAULT_METADATA_VERIFIER = Some (verifier_of password salt) ∧
    m !! VAULT_METADATA_META_KEY_NONCE = Some nonce ∧
    m !! VAULT_METADATA_META_KEY_WRAPPED = Some wrapped ∧
    aead_decrypt XCHACHA20_POLY1305 (kek_enc k) nonce VAULT_META_KEY_WRAP_AAD wrapped = Some (kek_meta k) ∧
    k = opened (session_keys password salt) (kek_meta k).

(** Neither salt nor verifier: the vault was never unlocked. *)
Definition never_unlocked (m : gmap bytes bytes) : Prop :=
  m !! VAULT_METADATA_SALT = None ∧ m !! VAULT_METADATA_VERIFIER = None.

Lemma wraps_opens password salt meta_key m :
  length salt = KDF_SALT_BYTES → length meta_key = crypto_aead_KEYBYTES →
  m !! VAULT_METADATA_SALT = Some salt → m !! VAULT_METADATA_VERIFIER = Some (verifier_of password salt) →
  wraps_meta_key (kek_enc (session_keys password salt)) meta_key m →
  opens password (opened (session_keys password salt) meta_key) m.
Proof.
  intros Hs Hk H1 H2 (nonce & Hn & H3 & H4).
  rewrite take_ge in H4 by (rewrite Hk; done).
  exists salt, nonce, (aead_encrypt XCHACHA20_POLY1305 (kek_enc (session_keys password salt)) nonce
    VAULT_META_KEY_WRAP_AAD meta_key).
  split_and!; try done.
  - rewrite length_aead_encrypt, Hk. reflexivity.
  - apply aead_decrypt_encrypt.
Qed.

(** The keys of a session have the sizes the tables need. *)
Lemma opens_keys password k m : opens password k m → keys_ok k.
Proof.
  intros (salt & nonce & wrapped & _ & _ & _ & Hm & _ & _ & _ & _ & _ & ->).
  destruct (session_keys_ok password salt) as (H1 & H2 & _). done.
Qed.

(** One set of metadata gives a password one set of keys. *)
Lemma opens_unique password k k' m : opens password k m → opens password k' m → k' = k.
Proof.
  intros (s & n & c & _ & _ & _ & _ & H1 & _ & H3 & H4 & H5 & E)
         (s' & n' & c' & _ & _ & _ & _ & H1' & _ & H3' & H4' & H5' & E').
  assert (s' = s) as -> by congruence. assert (n' = n) as -> by congruence.
  assert (c' = c) as -> by congruence.
  assert (kek_enc k' = kek_enc k) as Ee by (rewrite E, E'; done). rewrite Ee, H5 in H5'.
  injection H5' as Em. by rewrite E', E, Em.
Qed.

(** * What the steps read *)

Lemma get_blob_ok key n e w c r w' :
  w_conn w = Some c → vault_get_metadata_blob key n e w = (Ok r, w') →
  r = t_metadata (conn_cur c) !! key ∧ same_state w w'.
Proof.
  intros Hc H. split; [|exact (keeps_run same_state _ _ _ _ _ H)]. unfold vault_get_metadata_blob in H.
  apply bind_ok in H as (? & w1 & H1 & H). apply require_db_ok in H1 as [_ ->].
  apply bind_ok in H as (row & w2 & H2 & H). apply (sql_query_in _ _ _ _ _ _ Hc) in H2 as ->.
  destruct (_ !! _); by inv_m.
Qed.

Lemma load_auth_ok e w c r w' :
  w_conn w = Some c → vault_load_auth_metadata e w = (Ok r, w') →
  same_state w w' ∧
  match r with
  | None => never_unlocked (t_metadata (conn_cur c))
  | Some (salt, verifier) => length salt = KDF_SALT_BYTES ∧
      t_metadata (conn_cur c) !! VAULT_METADATA_SALT = Some salt ∧
      t_metadata (conn_cur c) !! VAULT_METADATA_VERIFIER = Some verifier
  end.
Proof.
  intros Hc H. split; [exact (keeps_run same_state _ _ _ _ _ H)|]. unfold vault_load_auth_metadata in H.
  apply bind_ok in H as (s & w1 & H1 & H). apply (get_blob_ok _ _ _ _ c) in H1 as [Es S1]; [|done].
  apply bind_ok in H as (v & w2 & H2 & H).
  apply (get_blob_ok _ _ _ _ c) in H2 as [Ev _]; [|by destruct S1 as (-> & _)].
  destruct s as [s|], v as [v|]; try done.
  - inv_m. match goal with H : _ && _ = true |- _ =>
      rewrite andb_true_iff, !Nat.eqb_eq in H; destruct H as [Hl _] end. done.
  - inv_m. done.
Qed.

Lemma load_meta_key_ok s e w c k w' :
  w_conn w = Some c → vault_load_meta_key s e w = (Ok k, w') →
  ∃ nonce wrapped, length nonce = VAULT_META_KEY_WRAP_NONCE_BYTES ∧
    length wrapped = VAULT_META_KEY_WRAP_BYTES ∧ length (kek_meta k) = crypto_aead_KEYBYTES ∧
    t_metadata (conn_cur c) !! VAULT_METADATA_META_KEY_NONCE = Some nonce ∧
    t_metadata (conn_cur c) !! VAULT_METADATA_META_KEY_WRAPPED = Some wrapped ∧
    aead_decrypt XCHACHA20_POLY1305 (kek_enc s) nonce VAULT_META_KEY_WRAP_AAD wrapped = Some (kek_meta k) ∧
    k = opened s (kek_meta k).
Proof.
  intros Hc H. unfold vault_load_meta_key in H.
  apply bind_ok in H as (n & w1 & H1 & H). apply (get_blob_ok _ _ _ _ c) in H1 as [En S1]; [|done].
  apply bind_ok in H as (x & w2 & H2 & H).
  apply (get_blob_ok _ _ _ _ c) in H2 as [Ex _]; [|by destruct S1 as (-> & _)].
  destruct n as [n|], x as [x|]; try done. inv_m.
  match goal with H : (_ =? _)%nat && _ = true |- _ =>
    rewrite andb_true_iff, !Nat.eqb_eq in H; destruct H as [Hl1 Hl2] end.
  match goal with H : (length _ =? crypto_aead_KEYBYTES)%nat = true |- _ => apply Nat.eqb_eq in H end.
  match goal with H : from_option_or _ _ = Ok _ |- _ => apply from_option_or_ok in H end.
  exists n, x. by split_and!.
Qed.

Lemma store_auth_ok salt verifier s e w c u w' :
  quiescent w → w_conn w = Some c →
  vault_store_auth_metadata salt verifier s e w = (Ok u, w') →
  ∃ m, quiescent w' ∧ visible w' = Some (Database (t_secrets (conn_cur c)) (t_audit_log (conn_cur c)) m
                                     (t_auth_failures (conn_cur c))) ∧
    m !! VAULT_METADATA_SALT = Some salt ∧ m !! VAULT_METADATA_VERIFIER = Some verifier ∧
    wraps_meta_key (kek_enc s) (kek_meta s) m.
Proof.
  intros Hq Hc H. unfold vault_store_auth_metadata in H.
  destruct (transaction_ok e w c _ u w' Hq Hc (or_intror H))
    as (w0 & w1 & c0 & c1 & c' & Hc0 & Hcur0 & _ & Hs & Hc1 & Hq' & Hc' & Hcur' & _ & _).
  apply bind_ok in Hs as (? & w2 & H2 & Hs). apply (put_metadata_ok _ _ _ _ c0) in H2 as (c2 & Hc2 & Hcur2); [|done].
  apply bind_ok in Hs as (? & w3 & H3 & Hs). apply (put_metadata_ok _ _ _ _ c2) in H3 as (c3 & Hc3 & Hcur3); [|done].
  apply (put_wrapped_ok _ _ _ _ c3) in Hs as (c4 & m & Hc4 & Hcur4 & Hw & Hm); [|done].
  assert (c4 = c1) as -> by congruence. exists m. rewrite Hcur3, Hcur2, Hcur0 in Hcur4, Hm.
  unfold visible. rewrite Hc'. cbn. rewrite Hcur', Hcur4. split_and!; try done.
  - rewrite Hm by done. cbn. rewrite lookup_insert_ne by done. by rewrite lookup_insert_eq.
  - rewrite Hm by done. cbn. by rewrite lookup_insert_eq.
Qed.

(** * The outcomes of [vault_unlock_internal] *)

Lemma or_lock_cases m e w r w' :
  or_lock m e w = (r, w') →
  match r with
  | Ok _ => m e w = (Ok (), w')
  | Err s => ∃ w1, m e w = (Err s, w1) ∧ w' = set_session None false w1
  end.
Proof.
  unfold or_lock, mbind, M_bind, try. destruct (m e w) as [[[]|s] w1]; intros [= <- <-]; [done|].
  by exists w1.
Qed.

(** What a successful call did. *)
Lemma unlock_ok password allow e w db u w' :
  quiescent w → visible w = Some db → vault_unlock_internal password allow e w = (Ok u, w') →
  ∃ k db', quiescent w' ∧ visible w' = Some db' ∧ w_subkeys w' = Some k ∧ w_unlocked w' = true ∧
    opens password k (t_metadata db') ∧ t_secrets db' = t_secrets db ∧ t_audit_log db' = t_audit_log db ∧
    (db' = db ∨ allow = true ∧ never_unlocked (t_metadata db)).
Proof.
  intros Hq Hv H. unfold visible in Hv. destruct (w_conn w) as [c|] eqn:Hc; [|done].
  injection Hv as <-. unfold vault_unlock_internal in H. do 2 guard_step H.
  apply bind_ok in H as (? & w0 & H0 & H). injection H0 as _ <-.
  assert (quiescent (set_session None false w)) as Hq0 by done.
  remember (set_session None false w) as wl eqn:Ewl.
  assert (w_conn wl = Some c) as Hcl by by subst. clear Hc Hq Ewl w.
  apply or_lock_cases in H.
  apply bind_ok in H as (md & w2 & H2 & H). apply (load_auth_ok _ _ c) in H2 as [S2 Hmd]; [|done].
  apply bind_ok in H as (? & wg & Hg & H). apply guard_ok in Hg as [Hg ->].
  next H salt H3. next H x4 H4. next H pw H5. next H mk H6. next H y7 H7.
  match type of H with _ _ ?wx = _ =>
    assert (same_state wl wx) as S6 by (etrans; [exact S2|]; repeat (etrans; [eassumption|]); reflexivity)
  end. clear K K0 K1 K2 K3.
  apply bind_ok in H as (? & w7 & H8 & H).
  next H z9 H9. next H s H10.
  assert (s = session_keys password salt ∧ mk = pwhash (c_str password) salt) as [-> ->].
  { assert (pw = c_str password) as -> by (unfold vault_copy_password in H5; by inv_m).
    assert (mk = pwhash (c_str password) salt) as ->.
    { unfold kdf_derive_master_key, kdf_init_sodium in H6. inv_m. by rewrite c_str_idemp. }
    split; [|done]. unfold kdf_derive_subkeys, kdf_derive_subkey, kdf_init_sodium in H10. inv_m. done. }
  apply bind_ok in H as (k & w10 & H11 & H).
  assert (w' = set_session (Some k) true w10) as -> by (clear -H; unfold vault_set_session in H; congruence). clear H.
  match type of H11 with _ _ ?wx = _ =>
    rename wx into w9; assert (same_state w7 w9) as S9 by (etrans; eassumption)
  end.
  destruct md as [[salt0 verifier]|].
  - apply ret_ok in H3 as [-> ->]. destruct (bool_decide (sha256 _ = _)) eqn:Ever; [|by inv_m].
    apply bool_decide_eq_true in Ever. apply ret_ok in H8 as [_ ->].
    assert (w_conn w9 = Some c) as Hc9 by (destruct S6 as (E1 & _), S9 as (E2 & _); congruence).
    pose proof (keeps_run same_state _ _ _ _ _ H11) as (E11 & _).
    apply (load_meta_key_ok _ _ _ c) in H11 as (n & x' & ? & ? & ? & ? & ? & Hdec & Ek); [|done].
    destruct Hmd as (? & ? & Hver).
    exists k, (conn_cur c). assert (w_conn w10 = Some c) as Hc10 by congruence.
    split_and!; try done; [|unfold visible; cbn; by rewrite Hc10| |by left].
    + destruct Hq0 as (c' & Hc' & Hq'). exists c'. split; [|done]. cbn. congruence.
    + exists salt0, n, x'. rewrite Ek. cbn [opened kek_meta kek_enc]. split_and!; try done. rewrite Hver. by rewrite <- Ever.
  - apply ret_ok in H8 as [_ ->]. apply bind_ok in H11 as (? & w11 & H11 & H12). apply ret_ok in H12 as [-> ->].
    assert (same_state wl w9) as S by (etrans; eassumption).
    assert (w_conn w9 = Some c) as Hc9 by (destruct S as (E2 & _); congruence).
    apply (store_auth_ok _ _ _ _ _ c) in H11 as (m & Hq' & Hv' & Hm1 & Hm2 & Hm3);
      [|by apply (same_state_conn _ _ S)|done].
    eexists _, _. split_and!; [|exact Hv'|done|done| |done|done|].
    + destruct Hq' as (c' & Hc' & Hq'). by exists c'.
    + apply wraps_opens; try done.
      * unfold kdf_generate_salt, kdf_init_sodium in H3. by inv_m.
      * by rewrite length_kdf.
    + by right.
Qed.
(** ** Refusals

    A call that fails may have added one entry to the list of failed
    authentications; nothing else becomes durable. *)

Definition same_tables (w w' : world) : Prop :=
  ∃ db db', durable w = Some db ∧ durable w' = Some db' ∧ t_secrets db' = t_secrets db ∧
    t_audit_log db' = t_audit_log db ∧ t_metadata db' = t_metadata db ∧
    ∃ entries, t_auth_failures db' = t_auth_failures db ++ entries ∧ (length entries ≤ 1)%nat.

Lemma same_tables_durable w w' : settled w → durable w' = durable w → same_tables w w'.
Proof.
  intros (c & E & _) H. unfold durable at 2 in H. rewrite E in H.
  exists (conn_committed c), (conn_committed c). unfold durable at 1. rewrite E. split_and!; try done.
  exists []. rewrite app_nil_r. split; [done|cbn; lia].
Qed.

Class CleanRefusal {A} (m : M A) : Prop :=
  clean_refusal : ∀ e w s w', settled w → m e w = (Err s, w') → same_tables w w'.
Class OkKeeps {A} (m : M A) : Prop := ok_keeps : ∀ e w a w', m e w = (Ok a, w') → same_state w w'.

#[local] Instance ok_keeps_keeps {A} (m : M A) : Keeps same_state m → OkKeeps m.
Proof. intros K e w a w' H. exact (keeps_run same_state _ _ _ _ _ H). Qed.
#[local] Instance ok_keeps_throw {A B} (m : M A) s : OkKeeps (m ;; throw s : M B) | 1.
Proof. intros e w a w' H. by inv_m. Qed.
#[local] Instance ok_keeps_if {A} (b : bool) (m n : M A) : OkKeeps m → OkKeeps n → OkKeeps (if b then m else n).
Proof. by destruct b. Qed.
#[local] Instance clean_keeps {A} (m : M A) : Atomic m → CleanRefusal m | 10.
Proof.
  intros Ha e w s w' Hw H. destruct (Ha e w _ w' Hw H) as (_ & _ & Hd).
  apply same_tables_durable; [done|]. apply Hd. by left.
Qed.
#[local] Instance clean_bind {A B} (m : M A) (f : A → M B) :
  OkKeeps m → CleanRefusal m → (∀ a, CleanRefusal (f a)) → CleanRefusal (m ≫= f) | 5.
Proof.
  intros K Hm Hf e w s w' Hw H. unfold mbind, M_bind in H. destruct (m e w) as [[a|t] w1] eqn:E.
  - pose proof (same_state_conn _ _ (K _ _ _ _ E)) as (S1 & _ & _ & S2 & _).
    specialize (Hf a e w1 s w' (S1 Hw) H). unfold same_tables in *. by rewrite S2 in Hf.
  - injection H as <- <-. by apply (Hm e w t).
Qed.
#[local] Instance clean_if {A} (b : bool) (m n : M A) :
  CleanRefusal m → CleanRefusal n → CleanRefusal (if b then m else n).
Proof. by destruct b. Qed.
#[local] Instance clean_then_session (m : M kdf_subkeys_t) :
  Atomic m → CleanRefusal (m ≫= vault_set_session) | 1.
Proof.
  intros Ha e w s w' Hw H. unfold mbind, M_bind in H. destruct (m e w) as [[a|t] w1] eqn:E; [done|].
  injection H as <- <-. by apply (clean_keeps m Ha e w t).
Qed.
#[local] Instance atomic_log_failure : Atomic vault_log_auth_failure_untrusted.
Proof. unfold vault_log_auth_failure_untrusted. apply _. Qed.
#[local] Instance clean_log_failure : CleanRefusal (vault_log_auth_failure_untrusted ;; throw SM_ERR_AUTH : M unit) | 1.
Proof.
  intros e w s w' Hw H. unfold mbind, M_bind in H.
  destruct (vault_log_auth_failure_untrusted e w) as [[[]|t] w1] eqn:E; injection H as <- <-.
  - unfold vault_log_auth_failure_untrusted in E. apply bind_ok in E as (? & w2 & H2 & E). apply require_db_ok in H2 as [_ ->].
    apply bind_ok in E as (now & w3 & H3 & E). pose proof (keeps_run same_state _ _ _ _ _ H3) as S3.
    apply sql_exec_ok in E as (c & db & Hc & [= <-] & ->).
    pose proof (same_state_conn _ _ S3) as (_ & _ & _ & Sd & _).
    assert (durable w = Some (conn_committed c)) as Hd.
    { rewrite <- Sd. unfold durable. by rewrite Hc. }
    unfold same_tables. rewrite Hd. unfold durable. cbn. unfold written.
    exists (conn_committed c). eexists. split; [done|]. split; [done|]. cbn.
    destruct (conn_in_tx c) eqn:Htx; cbn.
    { split_and!; try done. exists []. rewrite app_nil_r. split; [done|cbn; lia]. }
    assert (conn_committed c = conn_cur c) as ->.
    { destruct S3 as (E1 & _). destruct Hw as (c' & Hc' & Hq). rewrite E1, Hc' in Hc.
      injection Hc as <-. auto. }
    split_and!; try done. eexists. split; [reflexivity|cbn; lia].
  - by apply (clean_keeps (vault_log_auth_failure_untrusted) _ e w t).
Qed.
#[local] Instance atomic_store_auth s v k : Atomic (vault_store_auth_metadata s v k).
Proof. unfold vault_store_auth_metadata. apply _. Qed.

Lemma unlock_err password allow e w s w' :
  settled w → vault_unlock_internal password allow e w = (Err s, w') →
  w' = w ∧ s = SM_ERR_INVALID_ARGUMENT ∨
  w_subkeys w' = None ∧ w_unlocked w' = false ∧ same_tables w w'.
Proof.
  intros Hw H. unfold vault_unlock_internal in H.
  destruct (negb _) eqn:Hp; [|rewrite guard_fail in H by done; injection H as <- <-; by left].
  rewrite guard_run in H by done.
  destruct Hw as (c & Hc & Hq). unfold mbind at 1, M_bind in H. unfold require_db in H. rewrite Hc in H.
  unfold mbind at 1, M_bind in H. unfold vault_lock_state in H.
  right. apply or_lock_cases in H as (w1 & H & ->). split_and!; [done..|].
  assert (settled (set_session None false w)) as Hw by (exists c; done).
  assert (∀ w0, same_tables (set_session None false w) w0 → same_tables w (set_session None false w0)) as Hs
    by (intros w0 H0; exact H0).
  apply Hs. match type of H with ?m _ _ = _ =>
    assert (CleanRefusal m) as K; [|exact (K e _ s w1 Hw H)] end.
  apply clean_bind; [apply _..|]. intros [[salt verifier]|]; cbv beta iota; apply _.
Qed.
(** ** Calls that succeed *)

Lemma wp_get_blob key n c (Q : option bytes → world → Prop) e w :
  healthy e → w_conn w = Some c →
  (∀ b, t_metadata (conn_cur c) !! key = Some b → (length b ≤ n)%nat) →
  (∀ w', same_state w w' → Q (t_metadata (conn_cur c) !! key) w') →
  wp (vault_get_metadata_blob key n) Q e w.
Proof.
  intros He Hc Hb HQ. eapply wp_same; [apply _| |exact HQ].
  unfold vault_get_metadata_blob. wp_run. eapply wp_require_db; [done|]. wp_run.
  eapply wp_sql_query; [done..|]. destruct (t_metadata (conn_cur c) !! key) as [b|].
  - wp_run. apply wp_guard; [by apply Nat.leb_le, Hb|]. by wp_run.
  - by wp_run.
Qed.

Lemma wp_load_auth c salt verifier (Q : option (bytes * bytes) → world → Prop) e w :
  healthy e → w_conn w = Some c → length salt = KDF_SALT_BYTES → length verifier = crypto_hash_sha256_BYTES →
  t_metadata (conn_cur c) !! VAULT_METADATA_SALT = Some salt →
  t_metadata (conn_cur c) !! VAULT_METADATA_VERIFIER = Some verifier →
  (∀ w', same_state w w' → Q (Some (salt, verifier)) w') → wp vault_load_auth_metadata Q e w.
Proof.
  intros He Hc Hs Hv Es Ev HQ. eapply wp_same; [apply _| |exact HQ]. unfold vault_load_auth_metadata.
  wp_run. apply (wp_get_blob _ _ c); [done..|intros b Hb; assert (b = salt) as -> by congruence; lia|].
  intros w1 S1. rewrite Es. wp_run.
  apply (wp_get_blob _ _ c);
    [done|by destruct S1 as (-> & _)|intros b Hb; assert (b = verifier) as -> by congruence; lia|].
  intros w2 S2. rewrite Ev. wp_run.
  apply wp_guard; [by rewrite Hs, Hv|]. by wp_run.
Qed.

Lemma wp_load_auth_none c (Q : option (bytes * bytes) → world → Prop) e w :
  healthy e → w_conn w = Some c → never_unlocked (t_metadata (conn_cur c)) →
  (∀ w', same_state w w' → Q None w') → wp vault_load_auth_metadata Q e w.
Proof.
  intros He Hc [Es Ev] HQ. eapply wp_same; [apply _| |exact HQ]. unfold vault_load_auth_metadata.
  wp_run. apply (wp_get_blob _ _ c); [done..|congruence|].
  intros w1 S1. rewrite Es. wp_run.
  apply (wp_get_blob _ _ c); [done|by destruct S1 as (-> & _)|congruence|].
  intros w2 S2. rewrite Ev. by wp_run.
Qed.

Lemma wp_load_meta_key c s n x mk (Q : kdf_subkeys_t → world → Prop) e w :
  healthy e → w_conn w = Some c → length n = VAULT_META_KEY_WRAP_NONCE_BYTES →
  length x = VAULT_META_KEY_WRAP_BYTES → length mk = crypto_aead_KEYBYTES →
  t_metadata (conn_cur c) !! VAULT_METADATA_META_KEY_NONCE = Some n →
  t_metadata (conn_cur c) !! VAULT_METADATA_META_KEY_WRAPPED = Some x →
  aead_decrypt XCHACHA20_POLY1305 (kek_enc s) n VAULT_META_KEY_WRAP_AAD x = Some mk →
  (∀ w', same_state w w' → Q (opened s mk) w') → wp (vault_load_meta_key s) Q e w.
Proof.
  intros He Hc Hn Hx Hm En Ex Hd HQ. eapply wp_same; [apply _| |exact HQ]. unfold vault_load_meta_key.
  wp_run. apply (wp_get_blob _ _ c); [done..|intros b Hb; assert (b = n) as -> by congruence; lia|].
  intros w1 S1. rewrite En. wp_run.
  apply (wp_get_blob _ _ c);
    [done|by destruct S1 as (-> & _)|intros b Hb; assert (b = x) as -> by congruence; lia|].
  intros w2 S2. rewrite Ex. wp_run. apply wp_guard; [by rewrite Hn, Hx|]. wp_run.
  eapply wp_lift; [by apply from_option_or_ok|]. wp_run. apply wp_guard; [by apply Nat.eqb_eq|]. by wp_run.
Qed.

(** The prefix every call goes through: the master key of the password. *)
Lemma wp_password password (Q : bytes → world → Prop) e w :
  healthy e → c_str password ≠ [] → (∀ w', same_state w w' → Q (c_str password) w') →
  wp (vault_copy_password password) Q e w.
Proof.
  intros He Hp HQ. eapply wp_same; [apply _| |exact HQ]. unfold vault_copy_password. wp_run.
  apply wp_guard; [by rewrite bool_decide_false|]. by wp_run.
Qed.

Lemma wp_master_key password salt (Q : bytes → world → Prop) e w :
  healthy e → (∀ w', same_state w w' → Q (pwhash (c_str password) salt) w') →
  wp (kdf_derive_master_key (c_str password) salt) Q e w.
Proof.
  intros He HQ. eapply wp_same; [apply _| |exact HQ]. unfold kdf_derive_master_key, kdf_init_sodium.
  wp_run. by rewrite c_str_idemp.
Qed.

Lemma wp_subkeys password salt (Q : kdf_subkeys_t → world → Prop) e w :
  healthy e → (∀ w', same_state w w' → Q (session_keys password salt) w') →
  wp (kdf_derive_subkeys (pwhash (c_str password) salt)) Q e w.
Proof.
  intros He HQ. eapply wp_same; [apply _| |exact HQ].
  unfold kdf_derive_subkeys, kdf_derive_subkey, kdf_init_sodium. by wp_run.
Qed.

Lemma wp_or_lock m (Q : unit → world → Prop) e w : wp m Q e w → wp (or_lock m) Q e w.
Proof. intros H. unfold or_lock. wp_run. apply wp_try_ok. eapply wp_mono; [exact H|]. intros [] w' HQ. by wp_run. Qed.

(** The right password. *)
Lemma unlock_right password allow k e w c :
  healthy e → w_conn w = Some c → c_str password ≠ [] → opens password k (t_metadata (conn_cur c)) →
  ∃ w', vault_unlock_internal password allow e w = (Ok (), w') ∧
    w_conn w' = w_conn w ∧ w_subkeys w' = Some k ∧ w_unlocked w' = true ∧ w_disk w' = w_disk w.
Proof.
  intros He Hc Hp (salt & n & x & Hs & Hn & Hx & Hm & Es & Ev & En & Ex & Hd & Hk).
  assert (wp (vault_unlock_internal password allow) (λ _ w', w_conn w' = w_conn w ∧ w_subkeys w' = Some k ∧
    w_unlocked w' = true ∧ w_disk w' = w_disk w) e w) as ([] & w' & E & H); [|by exists w'].
  unfold vault_unlock_internal. wp_run. apply wp_guard; [by rewrite bool_decide_false|]. wp_run.
  eapply wp_require_db; [done|]. wp_run. eexists _, _. split; [reflexivity|]. apply wp_or_lock. wp_run.
  apply (wp_load_auth c salt (verifier_of password salt)); [done|done|done|apply length_sha256|done|done|].
  intros w1 S1. wp_run. apply wp_guard; [done|]. cbv beta iota. wp_run.
  apply wp_password; [done|done|]. intros w2 S2. wp_run.
  apply wp_master_key; [done|]. intros w3 S3. wp_run.
  unfold verifier_of. rewrite bool_decide_true by done. wp_run. unfold vault_alloc_subkeys. wp_run.
  apply wp_subkeys; [done|]. intros w4 S4. wp_run.
  assert (same_state (set_session None false w) w4) as S.
  { etrans; [exact S1|]. etrans; [exact S2|]. etrans; [exact S3|]. exact S4. }
  destruct S as (A1 & A2 & A3 & A4). cbn in A1, A4.
  apply (wp_load_meta_key c _ n x (kek_meta k)); [done|congruence|done|done|done|done|done| |].
  { rewrite Hk in Hd. exact Hd. }
  intros w5 (B1 & B2 & B3 & B4). eexists _, _. split; [reflexivity|]. rewrite <- Hk. cbn.
  split_and!; congruence.
Qed.
Lemma or_lock_fails m s e w : fails m s e w → fails (or_lock m) s e w.
Proof.
  intros (w1 & E). exists (set_session None false w1). unfold or_lock, try, mbind, M_bind. by rewrite E.
Qed.

(** A wrong password. *)
Lemma unlock_wrong password allow salt verifier e w c :
  healthy e → clock_ok e → w_conn w = Some c → c_str password ≠ [] →
  length salt = KDF_SALT_BYTES → length verifier = crypto_hash_sha256_BYTES →
  t_metadata (conn_cur c) !! VAULT_METADATA_SALT = Some salt →
  t_metadata (conn_cur c) !! VAULT_METADATA_VERIFIER = Some verifier →
  verifier ≠ verifier_of password salt →
  fails (vault_unlock_internal password allow) SM_ERR_AUTH e w.
Proof.
  intros He Hclk Hc Hp Hs Hv Es Ev Hne.
  unfold vault_unlock_internal. apply fails_bind, wp_guard; [by rewrite bool_decide_false|].
  apply fails_bind. eapply wp_require_db; [done|].
  apply fails_bind. eexists _, _. split; [reflexivity|]. apply or_lock_fails.
  apply fails_bind, (wp_load_auth c salt verifier); [done..|]. intros w1 S1.
  apply fails_bind, wp_guard; [done|]. cbv beta iota. apply fails_bind. wp_run.
  apply fails_bind. wp_run. apply fails_bind, wp_password; [done|done|]. intros w2 S2.
  apply fails_bind, wp_master_key; [done|]. intros w3 S3. apply fails_bind. wp_run.
  apply fails_first. rewrite bool_decide_false by (intros E; by apply Hne).
  unfold vault_log_auth_failure_untrusted. apply fails_bind. wp_run.
  assert (same_state (set_session None false w) w3) as (A1 & _).
  { etrans; [exact S1|]. etrans; [exact S2|]. exact S3. }
  cbn in A1. eapply wp_require_db; [cbn; by rewrite A1|]. wp_run.
  apply wp_utils_now; [done|done|]. intros ts t w4 _ S4.
  eapply (wp_sql_exec _ c); [done|destruct S4 as (-> & _); cbn; congruence|reflexivity|].
  apply fails_throw.
Qed.

(** The first call on a new database. *)
Lemma unlock_first password e w c :
  healthy e → w_conn w = Some c → conn_in_tx c = false → c_str password ≠ [] →
  never_unlocked (t_metadata (conn_cur c)) →
  ∃ w', vault_unlock_internal password true e w = (Ok (), w').
Proof.
  intros He Hc Htx Hp Hnew.
  assert (wp (vault_unlock_internal password true) (λ _ _, True) e w) as ([] & w' & E & _); [|by exists w'].
  unfold vault_unlock_internal. wp_run. apply wp_guard; [by rewrite bool_decide_false|]. wp_run.
  eapply wp_require_db; [done|]. wp_run. eexists _, _. split; [reflexivity|]. apply wp_or_lock. wp_run.
  apply (wp_load_auth_none c); [done..|].
  intros w1 S1. wp_run. apply wp_guard; [done|]. cbv beta iota. wp_run.
  apply wp_kdf_generate_salt; [done|]. intros salt Hsalt. wp_run.
  apply wp_password; [done|done|]. intros w2 S2. wp_run.
  apply wp_master_key; [done|]. intros w3 S3. wp_run.
  unfold vault_alloc_subkeys. wp_run.
  apply wp_subkeys; [done|]. intros w4 S4. wp_run.
  assert (w_conn w4 = Some c) as Hc4.
  { destruct S4 as (-> & _). cbn. destruct S3 as (-> & _). destruct S2 as (-> & _). cbn.
    by destruct S1 as (-> & _). }
  unfold vault_store_auth_metadata. apply (wp_transaction _ c); [done..|].
  assert (∀ key v c0 (Q : unit → world → Prop) w0, w_conn w0 = Some c0 → (Z.of_nat (length v) ≤ INT_MAX)%Z →
    (∀ c1 w1, w_conn w1 = Some c1 → conn_in_tx c1 = conn_in_tx c0 → Q () w1) →
    wp (vault_put_metadata_blob key v) Q e w0) as Hput.
  { intros key v c0 Q w0 Hc0 Hv HQ. unfold vault_put_metadata_blob. wp_run.
    eapply wp_require_db; [done|]. wp_run. eapply (wp_lift _ ()).
    { unfold vault_bind_blob. by rewrite (proj2 (Z.leb_le _ _)). }
    eapply wp_sql_exec; [done|done|reflexivity|]. by eapply HQ. }
  wp_run. eapply Hput; [reflexivity|by rewrite Hsalt|]. intros c5 w5 Hc5 Htx5. wp_run.
  eapply Hput; [done|by rewrite length_sha256|]. intros c6 w6 Hc6 Htx6. wp_run.
  unfold vault_put_wrapped_meta_key. wp_run. apply wp_guard.
  { rewrite length_aead_encrypt. cbn [session_keys kek_meta]. by rewrite length_take, length_kdf. }
  wp_run. eapply Hput; [done|by rewrite Hlen|]. intros c7 w7 Hc7 Htx7.
  eapply Hput; [done| |].
  { rewrite length_aead_encrypt. cbn [session_keys kek_meta]. by rewrite length_take, length_kdf. }
  intros c8 w8 Hc8 Htx8. exists c8. split; [done|]. split; [by rewrite Htx8, Htx7, Htx6, Htx5|].
  wp_run. by eexists _, _.
Qed.
End Unlock.
