(* ===== verification/VaultRotate.v ===== *)
(** The automatic rotation of expired secrets: its loop ends when the clock
    does not go back behind the time the loop started at, and does not end
    when it does. *)

From S2P Require Import Prelude Status Sodium Schema State Utils Kdf CryptoEngine Storage KeyManager Merkle AuditLog VaultRows Vault VaultSpec VaultRefine VaultReads.

(** Fewer rows satisfy a predicate after a map that adds none and loses one. *)
Lemma filter_fmap_shrinks {A} (P : A → Prop) `{∀ x, Decision (P x)} (f : A → A) l x0 :
  (∀ x, x ∈ l → P (f x) → P x) → x0 ∈ l → P x0 → ¬ P (f x0) →
  (length (filter P (f <$> l)) < length (filter P l))%nat.
Proof.
  intros Himp Hx0 HP HnP. induction l as [|x l IH]; [by apply not_elem_of_nil in Hx0|].
  assert (∀ l', (∀ y, y ∈ l' → P (f y) → P y) → length (filter P (f <$> l')) ≤ length (filter P l'))%nat as Hle.
  { clear. induction l' as [|y l' IH]; intros Hi; [done|]. cbn [fmap list_fmap].
    rewrite !filter_cons. specialize (IH (λ z Hz, Hi z (proj2 (elem_of_cons _ _ _) (or_intror Hz)))).
    specialize (Hi y (proj2 (elem_of_cons _ _ _) (or_introl eq_refl))).
    repeat case_decide; cbn [length]; try lia. tauto. }
  cbn [fmap list_fmap]. rewrite !filter_cons.
  assert (∀ y, y ∈ l → P (f y) → P y) as Hl by (intros y Hy; apply Himp, elem_of_cons; by right).
  apply elem_of_cons in Hx0 as [<-|Hin].
  - rewrite decide_False by done. rewrite decide_True by done. specialize (Hle l Hl). cbn [length]. lia.
  - specialize (IH Hl Hin). specialize (Himp x (proj2 (elem_of_cons _ _ _) (or_introl eq_refl))).
    repeat case_decide; cbn [length]; try lia. tauto.
Qed.

Lemma filter_ext_in {A} (P Q : A → Prop) `{!∀ x, Decision (P x), !∀ x, Decision (Q x)} (l : list A) :
  (∀ x, x ∈ l → P x ↔ Q x) → filter P l = filter Q l.
Proof.
  induction l as [|x l IH]; intros H'; [done|]. rewrite !filter_cons.
  rewrite IH by (intros y Hy; apply H', elem_of_cons; by right).
  specialize (H' x (proj2 (elem_of_cons _ _ _) (or_introl eq_refl))).
  repeat case_decide; tauto.
Qed.

Section Rotate.
Context {CR : Crypto} {CL : CryptoLaws CR}.

(** * The rows that are due *)

Definition due_rows (now : bytes) (t : list secret_row) : list secret_row :=
  filter (λ r, Is_true (expired_by now t r)) t.

Lemma due_spec now t r :
  table_ok t → r ∈ t →
  expired_by now t r = true ↔ sr_is_archived r = 0%Z ∧ ∃ x, sr_expires_at r = Some x ∧ str_leb x now = true.
Proof.
  intros Ht Hr. unfold expired_by. rewrite (active_live t r Ht Hr), andb_true_iff, Z.eqb_eq.
  destruct (sr_expires_at r) as [x|]; split.
  - intros [? ?]. eauto.
  - intros [? (y & [= <-] & ?)]. done.
  - by intros [_ ?].
  - by intros [_ (y & ? & _)].
Qed.

Lemma due_in now t r : r ∈ due_rows now t ↔ r ∈ t ∧ expired_by now t r = true.
Proof. unfold due_rows. rewrite list_elem_of_filter, Is_true_true. tauto. Qed.

Lemma find_next_ok now e w c o w' :
  w_conn w = Some c → c_str now = now → vault_find_next_expired_secret now e w = (Ok o, w') →
  match o with
  | None => due_rows now (t_secrets (conn_cur c)) = []
  | Some n => ∃ r, r ∈ due_rows now (t_secrets (conn_cur c)) ∧ sr_name r = n
  end.
Proof.
  intros Hc Hn H. unfold vault_find_next_expired_secret in H.
  apply bind_ok in H as (? & w1 & H1 & H). apply require_db_ok in H1 as [_ ->].
  apply bind_ok in H as (row & w2 & H2 & H). apply (sql_query_in _ _ _ _ _ _ Hc) in H2.
  rewrite Hn in H2. unfold expired_rows in H2.
  pose proof (merge_sort_Permutation by_expiry (due_rows now (t_secrets (conn_cur c)))) as Hp.
  fold (due_rows now (t_secrets (conn_cur c))) in H2. 
  destruct (merge_sort by_expiry (due_rows now (t_secrets (conn_cur c)))) as [|r l].
  - subst row. cbn [head] in H. apply ret_ok in H as [-> _]. by apply Permutation_nil.
  - subst row. cbn [head] in H. inv_m. exists r. split; [|done]. rewrite <- Hp. apply elem_of_cons. by left.
Qed.

(** The live row of a name is unique. *)
Lemma live_unique t r q :
  table_ok t → r ∈ t → q ∈ t → sr_name r = sr_name q → sr_is_archived r = 0%Z → sr_is_archived q = 0%Z → r = q.
Proof.
  intros Ht Hr Hq En Ar Aq. eapply same_version_row; [done..|].
  pose proof (tk_live _ Ht r q Hr Hq Ar (eq_sym En)). pose proof (tk_live _ Ht q r Hq Hr Aq En). lia.
Qed.

Lemma find_live_row t r n :
  table_ok t → r ∈ t → sr_name r = n → sr_is_archived r = 0%Z → ∀ q, find_active n t = Some q → q = r.
Proof.
  intros Ht Hr <- Ha q Hq. apply find_active_in in Hq as (Hin & En & Hact).
  rewrite (active_live t q Ht Hin) in Hact. apply Z.eqb_eq in Hact. by eapply live_unique.
Qed.

(** A time not before [t0] is not before it as text either. *)
Lemma now_later t0 now t now' :
  (0 ≤ t0)%Z → (t0 ≤ t)%Z → utils_format_iso8601 t0 UTILS_ISO8601_UTC_BUFFER_LEN = Ok now →
  utils_format_iso8601 t UTILS_ISO8601_UTC_BUFFER_LEN = Ok now' →
  str_leb now now' = true ∧ ((t0 < t)%Z → str_leb now' now = false).
Proof.
  intros H0 Hle E E'. pose proof (utils_format_iso8601_max _ _ E) as M. pose proof (utils_format_iso8601_max _ _ E') as M'.
  destruct (format_order t0 t UTILS_ISO8601_UTC_BUFFER_LEN) as (s1 & s2 & F1 & F2 & _ & C); [lia|lia|done|].
  rewrite E in F1. rewrite E' in F2. injection F1 as <-. injection F2 as <-.
  unfold str_leb. rewrite (strcmp_antisym now now'), C. destruct (Z.compare_spec t0 t); cbn; split; try done; lia.
Qed.

(** * One turn of the loop *)

Lemma c_str_row_name t r : table_ok t → r ∈ t → c_str (sr_name r) = sr_name r.
Proof.
  intros Ht Hr. destruct (rf_storable _ (table_row _ _ Ht Hr)) as (_ & _ & _ & _ & Hn & _).
  apply c_str_no_nul. by apply bool_decide_eq_true in Hn.
Qed.

(** After a rotation the rows that are due are those that were, less the one
    that was rotated. *)
Lemma due_shrinks e t0 now now2 t r q :
  (0 ≤ t0)%Z → (∀ n, t0 ≤ env_clock e n)%Z → utils_format_iso8601 t0 UTILS_ISO8601_UTC_BUFFER_LEN = Ok now →
  table_ok t → table_ok (archive_named (sr_name r) now2 t ++ [q]) → r ∈ due_rows now t → renewed e (sr_expires_at q) →
  (length (due_rows now (archive_named (sr_name r) now2 t ++ [q])) < length (due_rows now t))%nat.
Proof.
  intros H0 Hclk E Ht Ht' Hr Hq. set (t' := archive_named (sr_name r) now2 t ++ [q]) in *.
  set (due x := sr_is_archived x = 0%Z ∧ match sr_expires_at x with None => False | Some s => str_leb s now = true end).
  assert (∀ x, Decision (due x)) as Hdec.
  { intros x. unfold due. destruct (sr_expires_at x); apply _. }
  assert (∀ s, table_ok s → due_rows now s = filter due s) as Hfilter.
  { intros s Hs. unfold due_rows. apply filter_ext_in. intros x Hx.
    rewrite Is_true_true, (due_spec now s x Hs Hx). unfold due. destruct (sr_expires_at x) as [y|].
    - split; intros [? Hy]; (split; [done|]); [by destruct Hy as (? & [= <-] & ?)|by exists y].
    - by split; intros [_ Hy]; [destruct Hy as (? & ? & _)|]. }
  apply due_in in Hr as [Hin Hdue]. apply (due_spec now t r Ht Hin) in Hdue as (Ha & x & Hx & Hle).
  rewrite (Hfilter t Ht), (Hfilter t' Ht'). unfold t'. rewrite filter_app, length_app.
  assert (filter due [q] = []) as ->.
  { apply filter_none, Forall_singleton. intros [_ Hd]. destruct (sr_expires_at q) as [s|]; [|done].
    destruct Hq as (n & z & Hz & Es). specialize (Hclk n).
    destruct (now_later t0 now z s) as [_ Hlt]; [lia|lia|done|done|]. rewrite Hlt in Hd by lia. done. }
  cbn [length]. rewrite Nat.add_0_r. unfold archive_named.
  apply filter_fmap_shrinks with (x0 := r); [|done| |].
  - intros y Hy. unfold due. destruct (is_active_named _ y); [|done]. cbn. by intros [? _].
  - split; [done|]. by rewrite Hx.
  - unfold due. rewrite (proj2 (is_active_named_spec _ _)) by done. cbn. by intros [? _].
Qed.

Lemma auto_rotate_loop_ends e t0 now k :
  (0 ≤ t0)%Z → (∀ n, t0 ≤ env_clock e n)%Z → utils_format_iso8601 t0 UTILS_ISO8601_UTC_BUFFER_LEN = Ok now →
  ∀ fuel w db count r w', vault_state w k db → (length (due_rows now (t_secrets db)) < fuel)%nat →
  auto_rotate_loop fuel now count e w = (r, w') →
  r ≠ Ok None ∧ ∀ m, r = Ok (Some m) →
    (count ≤ m ≤ count + length (due_rows now (t_secrets db)))%nat ∧
    ∃ db', vault_state w' k db' ∧ due_rows now (t_secrets db') = [].
Proof.
  intros H0 Hclk E. pose proof (utils_format_iso8601_text _ _ _ E) as [Hnul _].
  induction fuel as [|fuel IH]; intros w db count r w' Hst Hf H; [lia|]. cbn [auto_rotate_loop] in H.
  destruct (state_conn _ _ _ Hst) as (c & Hc & Hcur & _ & Hdb).
  unfold mbind at 1, M_bind in H. pose proof (keeps (m := vault_find_next_expired_secret now) e w) as HS.
  destruct (vault_find_next_expired_secret now e w) as [[o|s] w1] eqn:Efind; cbn in HS; [|by injection H as <- <-].
  apply (find_next_ok _ _ _ c) in Efind; [|done|by apply c_str_no_nul].
  rewrite Hcur in Efind. apply (same_state_vault _ _ _ _ HS) in Hst.
  destruct o as [n|].
  2:{ injection H as <- <-. split; [done|]. intros m [= <-]. split; [lia|]. by exists db. }
  destruct Efind as (q & Hq & <-). pose proof Hq as [Hin Hdue]%due_in.
  pose proof (db_table _ _ Hdb) as Ht. apply (due_spec now _ q Ht Hin) in Hdue as (Ha & x & Hx & Hle).
  unfold mbind at 1, M_bind in H.
  destruct (vault_rotate_expired_secret (sr_name q) e w1) as [[[]|s] w2] eqn:Erot; [|by injection H as <- <-].
  apply (rotate_expired_ok _ k db) in Erot as (r0 & tn & now2 & Hr0 & Enow2 & Hor);
    [|done|by apply (c_str_row_name (t_secrets db))].
  assert (r0 = q) as -> by (by eapply (find_live_row (t_secrets db) q)).
  destruct Hor as [[Hnot _]|(s & db' & q' & _ & _ & Hst' & _ & Et & _ & Hren)].
  { destruct (now_later t0 now (env_clock e tn) now2) as [Hl _]; [done|by apply Hclk|done|done|].
    specialize (Hnot x Hx). by rewrite (str_leb_trans _ _ _ Hle Hl) in Hnot. }
  assert (table_ok (t_secrets db')) as Ht' by apply Hst'. rewrite Et in Ht'.
  pose proof (due_shrinks e t0 now now2 _ _ _ H0 Hclk E Ht Ht' Hq Hren) as Hlt. rewrite <- Et in Hlt.
  destruct (IH w2 db' (S count) r w' Hst') as [Hne Hok]; [lia|done|]. split; [done|].
  intros m Hm. destruct (Hok m Hm) as [Hc' Hdb']. split; [lia|done].
Qed.

(** A row whose expiry the loop sees but every later reading of the clock
    precedes is never rotated, so the loop finds it again for ever. *)
Definition stuck_row (e : env) (now : bytes) (t : list secret_row) : Prop :=
  ∃ r x, r ∈ t ∧ sr_is_archived r = 0%Z ∧ sr_expires_at r = Some x ∧ str_leb x now = true ∧
    ∀ n now2, utils_format_iso8601 (env_clock e n) UTILS_ISO8601_UTC_BUFFER_LEN = Ok now2 → str_leb x now2 = false.

Lemma auto_rotate_loop_stuck e now k :
  c_str now = now → ∀ fuel w db count m w', vault_state w k db → stuck_row e now (t_secrets db) →
  auto_rotate_loop fuel now count e w ≠ (Ok (Some m), w').
Proof.
  intros Hnow. induction fuel as [|fuel IH]; intros w db count m w' Hst Hstuck H; [done|].
  cbn [auto_rotate_loop] in H.
  destruct (state_conn _ _ _ Hst) as (c & Hc & Hcur & _ & Hdb). pose proof (db_table _ _ Hdb) as Ht.
  next H o H1. apply (find_next_ok _ _ _ c) in H1; [|done|done]. rewrite Hcur in H1. forward Hst.
  pose proof Hstuck as (r & x & Hin & Ha & Hx & Hle & Hclk).
  destruct o as [n|].
  2:{ assert (r ∈ due_rows now (t_secrets db)) as Hr.
      { apply due_in. split; [done|]. apply due_spec; [done..|]. by eauto. }
      rewrite H1 in Hr. by apply not_elem_of_nil in Hr. }
  destruct H1 as (q & Hq & <-). apply due_in in Hq as [Hqin Hdue].
  apply (due_spec now _ q Ht Hqin) in Hdue as (Haq & y & Hy & Hley).
  apply bind_ok in H as ([] & w2 & Erot & H).
  apply (rotate_expired_ok _ k db) in Erot as (r0 & tn & now2 & Hr0 & Enow2 & Hor);
    [|done|by apply (c_str_row_name (t_secrets db))].
  assert (r0 = q) as -> by (by eapply (find_live_row (t_secrets db) q)).
  destruct Hor as [[_ Hst']|(s & db' & q' & (y' & Hy' & Hley') & _ & Hst' & _ & Et & _)]; [by eapply IH|].
  eapply (IH w2 db'); [done| |exact H]. exists r, x. split_and!; try done. rewrite Et.
  apply elem_of_app. left. unfold archive_named. apply list_elem_of_fmap. exists r. split; [|done].
  destruct (is_active_named (sr_name q) r) eqn:En; [exfalso|done]. apply is_active_named_spec in En as [En _].
  assert (r = q) as -> by (by eapply (live_unique (t_secrets db))).
  assert (y' = x) as -> by congruence. by rewrite (Hclk tn now2 Enow2) in Hley'.
Qed.
End Rotate.
