(* ===== verification/VaultTheorems.v ===== *)
(** The theorems of the vault: the refinement of the store, what a session of
    operations guarantees, what a caller reads after a write, and what unlocks
    it. Each is an application of the lemmas of [VaultRefine], [VaultReads]
    and [VaultUnlock]. *)

From S2P Require Import Prelude Status Sodium Schema State Utils Kdf CryptoEngine Storage KeyManager Merkle AuditLog VaultRows Vault VaultSpec VaultRefine VaultReads VaultUnlock VaultRotate.

Section Theorems.
Context {CR : Crypto} {CL : CryptoLaws CR}.

(** * Shared steps *)

Lemma trail_abstract k db : length (st_trail (abstract k db)) = length (t_audit_log db).
Proof. unfold abstract. cbn [st_trail]. by rewrite length_fmap. Qed.

(** The arguments that do not depend on the state. *)
Definition op_wf (o : vault_op) : Prop :=
  match o with OpRotateExpired stored_name => c_str stored_name = stored_name | _ => True end.

Lemma op_wf_fits o db : op_wf o → (Z.of_nat (length (t_audit_log db)) ≤ INT_MAX)%Z → op_fits o db.
Proof. by destruct o. Qed.

Lemma run_ops_holds os e : ∀ w rs w' k db,
  holds w k db → Forall op_wf os →
  (Z.of_nat (length (t_audit_log db)) + Z.of_nat (length os) ≤ INT_MAX)%Z →
  run_ops os e w = (rs, w') →
  ∃ k' db', holds w' k' db' ∧ kek_meta k' = kek_meta k ∧
    extends (abstract k db) (abstract k' db') ∧
    (length (t_audit_log db') ≤ length (t_audit_log db) + length os)%nat.
Proof.
  induction os as [|o os IH]; intros w rs w' k db Hh Hwf Hlen H.
  { injection H as _ <-. exists k, db. split_and!; [done..|cbn; lia]. }
  apply Forall_cons in Hwf as [Ho Hos]. cbn [length] in Hlen. cbn [run_ops] in H.
  unfold mbind, M_bind, try in H. destruct (run_op o e w) as [r w1] eqn:E.
  destruct (run_op_holds o k db e w r w1 Hh) as (k1 & db1 & Hh1 & Hm1 & Hor);
    [apply op_wf_fits; [done|lia]|done|].
  assert (extends (abstract k db) (abstract k1 db1) ∧
          (length (t_audit_log db1) ≤ S (length (t_audit_log db)))%nat) as [Hext Hlen1].
  { destruct Hor as [[-> ->]|(out & _ & Hstep)]; [split; [done|lia]|].
    apply step_extends in Hstep as [? Hl]. by rewrite !trail_abstract in Hl. }
  assert (∃ rs', run_ops os e w1 = (rs', w')) as (rs' & E').
  { destruct (run_ops os e w1) as [[x|x] w2]; injection H as _ <-; by eexists. }
  destruct (IH w1 rs' w' k1 db1) as (k2 & db2 & Hh2 & Hm2 & Hext2 & Hlen2); [done|done|lia|done|].
  exists k2, db2. cbn [length]. split_and!; [done|congruence|by etrans|lia].
Qed.

(** * The refinement *)

(** C1: The vault refines the store of [VaultSpec]. From a state whose
    database satisfies the invariant, an operation that succeeds makes exactly
    the transition [step] of the abstract store for its arguments, returns
    what the transition returns, and re-establishes the invariant; one that
    fails leaves the durable database and the keys of the session as they
    were. *)
Theorem vault_operation_refines o k db e w r w' :
  vault_state w k db → op_fits o db → run_op o e w = (r, w') →
  match r with
  | Ok out => ∃ k' db', vault_state w' k' db' ∧ durable w' = Some db' ∧ kek_meta k' = kek_meta k ∧
      step (names k) o (abstract k db) out (abstract k' db')
  | Err _ => durable w' = Some db ∧ w_subkeys w' = Some k ∧ w_unlocked w' = true
  end.
Proof.
  intros Hst Hfit H. pose proof (vault_state_holds _ _ _ Hst) as Hh. destruct r as [out|s].
  - destruct (run_op_step o k db e w out w' Hst Hfit H) as (k' & db' & Hst' & Hm & Hstep).
    exists k', db'. split_and!; try done. by apply vault_state_holds in Hst' as (_ & _ & _ & Hd & _).
  - pose proof Hh as (Hs & Hk & Hu & Hd & _).
    destruct (atomic_run_op o e w _ w' Hs H) as (_ & _ & Hd'). rewrite Hd' by by left.
    destruct (run_op_session o e w _ w' H Hs) as [(-> & -> & _)|[Hr _]]; done.
Qed.

(** C2: No session loses a version of a secret. Whatever operations a caller
    runs one after the other and whatever calls fail in them, rollbacks of
    failed transactions included, the durable database satisfies the
    invariant under the keys of the session, keeps every version it held (its
    name, number and secret; only the live flag may have changed) and its
    audit trail starts with the trail it had. *)
Theorem vault_session_keeps_history os e w rs w' k db :
  holds w k db → Forall op_wf os →
  (Z.of_nat (length (t_audit_log db)) + Z.of_nat (length os) ≤ INT_MAX)%Z →
  run_ops os e w = (rs, w') →
  ∃ k' db', durable w' = Some db' ∧ db_ok k' db' ∧ w_subkeys w' = Some k' ∧
    extends (abstract k db) (abstract k' db').
Proof.
  intros Hh Hwf Hlen H.
  destruct (run_ops_holds os e w rs w' k db Hh Hwf Hlen H) as (k' & db' & (_ & ? & _ & ? & ?) & _ & ? & _).
  exists k', db'. by split_and!.
Qed.

(** * What a caller reads *)

Lemma record_live n x st : find_live n (record x st) = find_live n st.
Proof. done. Qed.

(** The versions of another name do not change. *)
Lemma find_live_add_other n m s action st :
  m ≠ n → find_live m (add_version n s action st) = find_live m st.
Proof.
  intros Hne. unfold find_live, add_version, record, retire. cbn [st_versions].
  assert (∀ l, snd <$> list_find (λ v, v_name v = m ∧ v_live v = true) (retire_version n <$> l)
    = snd <$> list_find (λ v, v_name v = m ∧ v_live v = true) l) as Hr.
  { induction l as [|v l IH]; [done|]. cbn [fmap list_fmap list_find].
    assert (v_name (retire_version n v) = m ∧ v_live (retire_version n v) = true ↔ v_name v = m ∧ v_live v = true)
      as Hiff.
    { unfold retire_version. case_bool_decide as E; [|done]. cbn. split; intros [E1 _]; congruence. }
    destruct (decide (v_name (retire_version n v) = m ∧ v_live (retire_version n v) = true)) as [Hd|Hd].
    - rewrite (decide_True _ _ (proj1 Hiff Hd)). cbn. f_equal. unfold retire_version.
      case_bool_decide as E; [|done]. apply Hiff in Hd as [? _]. congruence.
    - rewrite (decide_False _ _ (λ H, Hd (proj2 Hiff H))). cbn.
      repeat match goal with |- context [list_find ?P ?l] => destruct (list_find P l) as [[]|] end;
        cbn in *; congruence. }
  rewrite <- (Hr (st_versions st)).
  destruct (list_find _ (retire_version n <$> st_versions st)) as [[i v]|] eqn:E.
  - by rewrite (list_find_app_l _ _ _ _ _ E).
  - rewrite list_find_app_r by done. cbn. rewrite decide_False by (intros [? _]; congruence). done.
Qed.

(** The live version of a name is the last one put. *)
Lemma get_after_add name s action k db w1 db1 e n :
  healthy e → clock_ok e → vault_state w1 k db1 → c_str name ≠ [] →
  abstract k db1 = add_version (names k name) s action (abstract k db) →
  (Z.of_nat (length (t_audit_log db)) + 1 < INT64_MAX)%Z → (length s ≤ n)%nat →
  ∃ w2, vault_get name n e w1 = (Ok s, w2).
Proof.
  intros He Hclk Hst Hne Habs Hlen Hn.
  eapply (get_live name n k db1 (Version _ _ (Some s) true)); [done|done|done| |done| |reflexivity|done].
  - apply (f_equal (λ st, length (st_trail st))) in Habs. unfold add_version, record in Habs.
    cbn [st_trail] in Habs. rewrite length_app, !trail_abstract in Habs. cbn [length] in Habs. lia.
  - rewrite Habs. apply find_live_add.
Qed.

Lemma put_name_nonempty name secret alg ttl e w u w' :
  vault_put_with_options name secret alg ttl e w = (Ok u, w') → c_str name ≠ [].
Proof.
  intros H. unfold vault_put_with_options in H. guard_step H.
  apply bind_ok in H as (? & w1 & H1 & _). apply guard_ok in H1 as [H1 _].
  unfold vault_name_is_clean in H1. rewrite !andb_true_iff, negb_true_iff, bool_decide_eq_false in H1. tauto.
Qed.

(** C3: What was put is what is read, and nothing else changes. After a
    successful [vault_put_with_options] of a secret, [vault_get] of the name
    returns that secret whenever no library call fails and the buffer is large
    enough, and the live version of every name with another lookup name is
    the one it was. *)
Theorem vault_put_get name secret alg ttl k db e1 w u w1 :
  vault_state w k db → (Z.of_nat (length (t_audit_log db)) + 1 < INT64_MAX)%Z →
  vault_put_with_options name secret alg ttl e1 w = (Ok u, w1) →
  (∀ e2 n, healthy e2 → clock_ok e2 → (length secret ≤ n)%nat →
     ∃ w2, vault_get name n e2 w1 = (Ok secret, w2)) ∧
  ∃ db1, vault_state w1 k db1 ∧
    ∀ other, names k other ≠ names k name →
      find_live (names k other) (abstract k db1) = find_live (names k other) (abstract k db).
Proof.
  intros Hst Hlen H. pose proof (put_name_nonempty _ _ _ _ _ _ _ _ H) as Hne.
  destruct (put_ok _ _ _ _ k db _ _ _ _ Hst H) as (db1 & Hst1 & Habs). split.
  - intros e2 n He Hclk Hn. by eapply (get_after_add name secret _ k db w1 db1).
  - exists db1. split; [done|]. intros other Hother. rewrite Habs. by apply find_live_add_other.
Qed.

(** C4: A rollback brings a version back. After a successful
    [vault_rollback], [vault_get] returns the secret of the version that was
    named, and that version is still there under its own number. *)
Theorem vault_rollback_get name version k db e1 w u w1 :
  vault_state w k db → (Z.of_nat (length (t_audit_log db)) + 1 < INT64_MAX)%Z →
  vault_rollback name version e1 w = (Ok u, w1) →
  ∃ v s, find_number (names k name) version (abstract k db) = Some v ∧ v_secret v = Some s ∧
    ∀ e2 n, healthy e2 → clock_ok e2 → (length s ≤ n)%nat → ∃ w2, vault_get name n e2 w1 = (Ok s, w2).
Proof.
  intros Hst Hlen H.
  assert (c_str name ≠ []) as Hne.
  { unfold vault_rollback in H. guard_step H. apply bind_ok in H as (? & w2 & H1 & _).
    apply guard_ok in H1 as [H1 _]. rewrite andb_true_iff, negb_true_iff, bool_decide_eq_false in H1. tauto. }
  destruct (rollback_ok _ _ k db _ _ _ _ Hst H) as (r & s & db1 & Hr & Ho & Hst1 & Habs).
  exists (abs_version (kek_enc k) r), s. split_and!.
  - unfold names. by rewrite find_version_abs, Hr.
  - by apply open_secret.
  - intros e2 n He Hclk Hn. by eapply (get_after_add name s _ k db w1 db1).
Qed.

(** C5: A deleted secret is not found. After a successful [vault_delete],
    [vault_get] of the name reports [SM_ERR_NOT_FOUND] whenever no library
    call fails, while the store keeps every version with its number and
    secret. *)
Theorem vault_delete_get name k db e1 w u w1 :
  vault_state w k db → vault_delete name e1 w = (Ok u, w1) →
  (∀ e2 n, healthy e2 → ∃ w2, vault_get name n e2 w1 = (Err SM_ERR_NOT_FOUND, w2)) ∧
  ∃ db1, vault_state w1 k db1 ∧
    Forall2 same_version (st_versions (abstract k db)) (st_versions (abstract k db1)).
Proof.
  intros Hst H.
  assert (c_str name ≠ []) as Hne.
  { unfold vault_delete in H. do 2 guard_step H. apply bind_ok in H as (? & w2 & H1 & _).
    apply guard_ok in H1 as [H1 _]. by rewrite negb_true_iff, bool_decide_eq_false in H1. }
  destruct (delete_ok _ k db _ _ _ _ Hst H) as (r & db1 & Hr & Hst1 & Habs). split.
  - intros e2 n He. apply (get_absent name n k db1); [done..|]. rewrite Habs, record_live. apply find_live_retire.
  - exists db1. split; [done|]. rewrite Habs. apply same_version_retire.
Qed.

(** A version that was found is found in every later store. *)
Lemma find_number_extends n v st st' x :
  extends st st' → find_number n v st = Some x → ∃ x', find_number n v st' = Some x' ∧ same_version x x'.
Proof.
  intros (l & new & ev & El & F & _) H. unfold find_number in *. rewrite El. clear El. revert H F.
  generalize (st_versions st). intros vs H F. induction F as [|y y' vs l (E1 & E2 & E3) F IH]; [done|].
  cbn [app list_find] in *. destruct (decide (v_name y = n ∧ v_number y = v)) as [[D1 D2]|D].
  - injection H as ->. rewrite decide_True by (split; congruence). exists y'. split; [done|]. by split_and!.
  - rewrite decide_False by (intros [? ?]; apply D; split; congruence).
    destruct (list_find _ vs) as [[i z]|]; [|done].
    destruct (IH H) as (x' & Hx' & Hs). exists x'. split; [|done].
    destruct (list_find _ (l ++ new)) as [[]|]; done.
Qed.

(** C6: Every version stays readable. Whatever operations run in a session,
    rotations of the password included, and whatever calls fail in them, a
    version that the store held at the start can be read at the end by
    [vault_get_version], with the secret it had, provided the session does not
    end inside a transaction, which only a rollback that failed leaves open. *)
Theorem vault_versions_stay_readable os e w rs w' k db name number v s :
  holds w k db → Forall op_wf os →
  (Z.of_nat (length (t_audit_log db)) + Z.of_nat (length os) ≤ INT_MAX)%Z →
  run_ops os e w = (rs, w') → quiescent w' → c_str name ≠ [] →
  find_number (names k name) number (abstract k db) = Some v → v_secret v = Some s →
  ∀ e2 n, healthy e2 → clock_ok e2 → (length s ≤ n)%nat →
    ∃ w2, vault_get_version name number n e2 w' = (Ok s, w2).
Proof.
  intros Hh Hwf Hlen H Hq Hne Hv Hs e2 n He Hclk Hn.
  destruct (run_ops_holds os e w rs w' k db Hh Hwf Hlen H) as (k' & db' & Hh' & Hm & Hext & Hlen').
  destruct (find_number_extends _ _ _ _ _ Hext Hv) as (v' & Hv' & _ & _ & Es).
  eapply (get_number name number n k' db' v'); try done.
  - by apply holds_vault_state.
  - unfold INT_MAX, INT64_MAX in *. lia.
  - by rewrite (names_meta k k').
  - congruence.
Qed.

(** * Sessions *)

Lemma state_of_unlock k db w :
  quiescent w → visible w = Some db → w_subkeys w = Some k → w_unlocked w = true → db_ok k db →
  vault_state w k db.
Proof. intros. by split_and!. Qed.

(** A database without rows satisfies the invariant under any keys. *)
Lemma fresh_ok k db :
  keys_ok k → t_secrets db = [] → t_audit_log db = [] → db_ok k db.
Proof.
  intros Hk Es El. split; rewrite ?Es, ?El; [done| | |].
  - split; [split; [by apply NoDup_nil_2|by apply Forall_nil]|by apply Forall_nil|by apply NoDup_nil_2|].
    intros r q Hr. by apply not_elem_of_nil in Hr.
  - intros r Hr. by apply not_elem_of_nil in Hr.
  - split; [split; [done|by vm_compute]|done].
Qed.

(** C7: What unlocking does. A call that succeeds leaves a session that holds
    keys the password opens from the stored metadata, and leaves secrets and
    log as they were; it wrote only if the metadata held no salt and no
    verifier and the caller allowed to initialise them. A call that fails
    leaves the session locked, unless its arguments were refused at the entry,
    and changed nothing durable but the list of failed authentications, by one
    entry at most. *)
Theorem vault_unlock_outcome password allow e w db r w' :
  quiescent w → visible w = Some db → vault_unlock_internal password allow e w = (r, w') →
  match r with
  | Ok _ => ∃ k db', quiescent w' ∧ visible w' = Some db' ∧ w_subkeys w' = Some k ∧ w_unlocked w' = true ∧
      opens password k (t_metadata db') ∧ t_secrets db' = t_secrets db ∧ t_audit_log db' = t_audit_log db ∧
      (db' = db ∨ allow = true ∧ never_unlocked (t_metadata db))
  | Err s => w' = w ∧ s = SM_ERR_INVALID_ARGUMENT ∨
      w_subkeys w' = None ∧ w_unlocked w' = false ∧ same_tables w w'
  end.
Proof.
  intros Hq Hv H. destruct r as [u|s].
  - by apply (unlock_ok password allow e w db u w').
  - apply (unlock_err password allow e w s w'); [|done]. apply settled_cases. by left.
Qed.

(** C16: Only the password unlocks. When the metadata was written for [right]
    and no library call fails, a non-empty password that derives the same
    master key unlocks the session with the keys of [right]; every other one
    is refused with [SM_ERR_AUTH], or its master key and that of [right]
    collide under SHA-256. *)
Theorem vault_unlock_decides right k password allow e w c :
  healthy e → clock_ok e → w_conn w = Some c → opens right k (t_metadata (conn_cur c)) →
  c_str password ≠ [] →
  ∃ salt, t_metadata (conn_cur c) !! VAULT_METADATA_SALT = Some salt ∧
    let master p := pwhash (c_str p) salt in
    if decide (master password = master right) then
      ∃ w', vault_unlock_internal password allow e w = (Ok (), w') ∧
        w_conn w' = w_conn w ∧ w_subkeys w' = Some k ∧ w_unlocked w' = true
    else (∃ w', vault_unlock_internal password allow e w = (Err SM_ERR_AUTH, w')) ∨
         sha256_collision (master password, master right).
Proof.
  intros He Hclk Hc Ho Hp. pose proof Ho as (salt & n & x & Hs & Hn & Hx & Hm & Es & Ev & En & Ex & Hd & Hk).
  exists salt. split; [done|]. cbv zeta. case_decide as Hmk.
  - destruct (unlock_right password allow k e w c) as (w' & E & H1 & H2 & H3 & _); [done|done|done| |by exists w'].
    exists salt, n, x. unfold verifier_of, session_keys in *. cbn [kek_enc opened] in *. rewrite Hmk.
    by split_and!.
  - destruct (decide (verifier_of right salt = verifier_of password salt)) as [E|E].
    + right. split; [done|]. cbn. symmetry. exact E.
    + left. eapply (unlock_wrong password allow salt (verifier_of right salt)); try done. apply length_sha256.
Qed.

(** A new vault. On a database without rows and metadata, the first
    [vault_unlock] succeeds with any non-empty password when no library call
    fails; and whenever it succeeds, the session is one of an empty store. *)
Theorem vault_first_unlock password e w :
  quiescent w → visible w = Some empty_database → c_str password ≠ [] →
  (healthy e → is_ok (vault_unlock password e w).1 = true) ∧
  ∀ u w', vault_unlock password e w = (Ok u, w') →
    ∃ k db, vault_state w' k db ∧ opens password k (t_metadata db) ∧ abstract k db = Store [] [].
Proof.
  intros Hq Hv Hp. split.
  - intros He. pose proof Hq as (c & Hc & Htx & _). unfold visible in Hv. rewrite Hc in Hv. injection Hv as Hv.
    destruct (unlock_first password e w c) as (w' & E); try done; [by rewrite Hv|].
    unfold vault_unlock. by rewrite E.
  - intros u w' H. destruct (unlock_ok _ _ _ _ _ _ _ Hq Hv H)
      as (k & db & Hq' & Hv' & Hk & Hu & Ho & Es & El & _).
    exists k, db. split_and!; [|done|].
    + apply state_of_unlock; [done..|]. apply fresh_ok; [by eapply opens_keys|done|done].
    + unfold abstract. by rewrite Es, El.
Qed.

(** C17: The password changes and the store stays. After a successful
    [vault_rotate_kek] the metadata opens for the new password, and unlocking
    with it, in this process or in one that opens the file later, gives a
    session of the same store, whose trail has one more event. *)
Theorem vault_rotate_kek_reopens password k db e1 w u w1 :
  vault_state w k db → (Z.of_nat (length (t_audit_log db)) ≤ INT_MAX)%Z →
  vault_rotate_kek password e1 w = (Ok u, w1) →
  ∃ k' db', vault_state w1 k' db' ∧ opens password k' (t_metadata db') ∧
    abstract k' db' = record (Event (str "ROTATE_KEK") (str "vault") 0) (abstract k db) ∧
    ∀ e2 w2, healthy e2 → w_conn w2 = w_conn w1 →
      ∃ w3, vault_unlock_existing password e2 w2 = (Ok (), w3) ∧ vault_state w3 k' db'.
Proof.
  intros Hst Hlen H.
  assert (c_str password ≠ []) as Hp.
  { unfold vault_rotate_kek in H. guard_step H. apply bind_ok in H as (? & w2 & H1 & _).
    apply guard_ok in H1 as [H1 _]. by rewrite negb_true_iff, bool_decide_eq_false in H1. }
  destruct (rotate_kek_ok password k db _ _ _ _ Hst Hlen H) as (salt & db' & Hs & Hst' & Habs & Em & Ev & Hw).
  eexists _, db'. split; [exact Hst'|].
  assert (opens password (opened (session_keys password salt) (kek_meta k)) (t_metadata db')) as Ho.
  { apply wraps_opens; try done. by destruct Hst as (_ & _ & _ & _ & [(_ & _ & ?) _ _ _]). }
  split_and!; [exact Ho|exact Habs|].
  intros e2 w2 He Hc. destruct (vault_state_conn _ _ _ Hst') as (c & Hc' & Hcur & (c0 & Hc0 & Hq0) & _ & Hdb').
  rewrite Hc' in Hc. destruct (unlock_right password false (opened (session_keys password salt) (kek_meta k)) e2 w2 c)
    as (w3 & E & A1 & A2 & A3 & _); [done..|by rewrite Hcur|].
  exists w3. split; [done|]. apply state_of_unlock; [| |done|done|by rewrite <- Hcur].
  - exists c. split; [congruence|]. by replace c with c0 by congruence.
  - unfold visible. rewrite A1, Hc. cbn. by rewrite Hcur.
Qed.

(** * The rotation of expired secrets *)

(** C19: The automatic rotation ends. When the clock never shows a time before
    the one the call starts at, the loop of [vault_auto_rotate_expired] ends
    within one turn more than the table has rows: it fails, or it succeeds
    after rotating no more secrets than there were rows, leaving none that was
    due at the start. *)
Theorem vault_auto_rotate_terminates fuel k db e w r w' :
  vault_state w k db → (0 ≤ env_clock e (w_ticks w))%Z →
  (∀ n, env_clock e (w_ticks w) ≤ env_clock e n)%Z → (length (t_secrets db) < fuel)%nat →
  vault_auto_rotate_expired fuel e w = (r, w') →
  r ≠ Ok None ∧ ∀ m, r = Ok (Some m) →
    (m ≤ length (t_secrets db))%nat ∧ ∃ now db', vault_state w' k db' ∧
      utils_format_iso8601 (env_clock e (w_ticks w)) UTILS_ISO8601_UTC_BUFFER_LEN = Ok now ∧
      ∀ q, q ∈ t_secrets db' → expired_by now (t_secrets db') q = false.
Proof.
  intros Hst H0 Hclk Hf H. pose proof Hst as (_ & Hk & Hu & _).
  unfold vault_auto_rotate_expired in H. rewrite (require_unlocked_run _ _ _ k) in H by done.
  unfold mbind, M_bind in H. pose proof (keeps (m := utils_now_iso8601 UTILS_ISO8601_UTC_BUFFER_LEN) e w) as HS.
  destruct (utils_now_iso8601 _ e w) as [[now|s] w1] eqn:E; cbn in HS; [|by injection H as <- <-].
  assert (utils_format_iso8601 (env_clock e (w_ticks w)) UTILS_ISO8601_UTC_BUFFER_LEN = Ok now) as En.
  { unfold utils_now_iso8601 in E. inv_m.
    match goal with H : time_null _ _ = _ |- _ => unfold time_null in H; injection H as <- <- end. done. }
  assert (length (due_rows now (t_secrets db)) ≤ length (t_secrets db))%nat as Hdue by apply length_filter.
  destruct (auto_rotate_loop_ends e _ now k H0 Hclk En fuel w1 db 0 r w') as [Hne Hok]; [|lia|done|].
  { by apply (same_state_vault w). }
  split; [done|]. intros m Hm. destruct (Hok m Hm) as [Hc (db' & Hst' & Hd)]. split; [lia|].
  exists now, db'. split_and!; [done|done|]. intros q Hq. apply not_true_iff_false. intros Hex.
  assert (q ∈ due_rows now (t_secrets db')) as Hin by by apply due_in.
  rewrite Hd in Hin. by apply not_elem_of_nil in Hin.
Qed.

(** A clock that goes back makes the rotation loop for ever. If a live
    secret expires at or before the time [now] the loop compares with, but
    after every time the clock shows during the loop, then the loop never
    returns success, however many turns it is given: each turn finds the
    secret due, and [vault_rotate_expired_secret], which reads the clock
    again, finds it not due and reports success without rotating it. *)
Theorem vault_auto_rotate_stuck now fuel count k db e w m w' :
  c_str now = now → vault_state w k db → stuck_row e now (t_secrets db) →
  auto_rotate_loop fuel now count e w ≠ (Ok (Some m), w').
Proof. intros Hn Hst Hs. by eapply auto_rotate_loop_stuck. Qed.

End Theorems.

(** * Examples *)

Module VaultExample.

Definition e0 : env := Sample.env_at 1700000000.
Lemma e0_clock : clock_ok e0.
Proof. intros n. split; vm_compute; discriminate. Qed.

Definition pw : bytes := str "correct horse".
Definition name : bytes := str "db/password".
Definition secret : bytes := str "hunter2".
#[local] Existing Instance Toy.crypto.
#[local] Existing Instance Toy.laws.

(** A new vault, unlocked. *)
Definition w_open : world := (vault_unlock pw e0 Sample.world0).2.
Definition keys (w : world) : kdf_subkeys_t :=
  match w_subkeys w with Some k => k | None => Subkeys [] [] [] [] end.
Definition db_of (w : world) : database :=
  match w_conn w with Some c => conn_cur c | None => empty_database end.

(** The same with one secret, put with a time to live of a minute. *)
Definition w_put : world := (vault_put_with_options name secret None 60 e0 w_open).2.

(** The first unlock of an empty vault. *)
Lemma first_unlock e w u w' :
  quiescent w → visible w = Some empty_database → vault_unlock pw e w = (Ok u, w') →
  vault_state w' (keys w') (db_of w') ∧ opens pw (keys w') (t_metadata (db_of w')).
Proof.
  intros Hqw Hvw H.
  destruct (unlock_ok pw true e w empty_database u w') as (k & db & Hq & Hv & Hk & Hu & Ho & Es & El & _); [done..|].
  assert (keys w' = k) as -> by (unfold keys; by rewrite Hk).
  assert (db_of w' = db) as ->.
  { unfold db_of, visible in *. destruct (w_conn w'); [by injection Hv as ->|done]. }
  split; [|exact Ho]. apply state_of_unlock; [done..|]. apply fresh_ok; [by eapply opens_keys|done|done].
Qed.

Lemma open_run : vault_state w_open (keys w_open) (db_of w_open) ∧ opens pw (keys w_open) (t_metadata (db_of w_open)).
Proof.
  apply (first_unlock e0 Sample.world0 ()); [eexists; by split_and!|done|]. runs (vault_unlock pw) e0 Sample.world0.
Qed.

Lemma open_state : vault_state w_open (keys w_open) (db_of w_open).
Proof. exact (proj1 open_run). Qed.

Lemma put_run : vault_put_with_options name secret None 60 e0 w_open = (Ok (), w_put).
Proof.
  assert ((vault_put_with_options name secret None 60 e0 w_open).1 = Ok ()) as E by (vm_compute; reflexivity).
  unfold w_put. destruct (vault_put_with_options _ _ _ _ _ _) as [r w]. cbn in *. by rewrite E.
Qed.

Lemma put_state : vault_state w_put (keys w_open) (db_of w_put).
Proof.
  destruct (put_ok _ _ _ _ _ _ _ _ _ _ open_state put_run) as (db & Hst & _).
  pose proof Hst as (_ & _ & _ & Hv & _). unfold db_of, visible in *. destruct (w_conn w_put); [|done].
  by injection Hv as ->.
Qed.

Lemma run_ops_total os e w : ∃ rs, (run_ops os e w).1 = Ok rs.
Proof.
  revert w. induction os as [|o os IH]; intros w; [by exists []|]. cbn [run_ops]. unfold mbind, M_bind, try.
  destruct (run_op o e w) as [r w1]. destruct (IH w1) as [rs E].
  destruct (run_ops os e w1) as [r1 w2]. cbn in E. subst r1. by exists (r :: rs).
Qed.

Lemma no_transaction w :
  settled w → match w_conn w with Some c => negb (conn_in_tx c) | None => false end = true → quiescent w.
Proof.
  intros (c & E & Hq) Hb. rewrite E in Hb. exists c. apply negb_true_iff in Hb. auto.
Qed.

Lemma vault_operation_refines_witness :
  ∃ k' db', vault_state w_put k' db' ∧ durable w_put = Some db' ∧ kek_meta k' = kek_meta (keys w_open) ∧
    step (names (keys w_open)) (OpPut name secret None 60)
      (abstract (keys w_open) (db_of w_open)) [] (abstract k' db').
Proof.
  apply (vault_operation_refines (OpPut name secret None 60) (keys w_open) (db_of w_open) e0 w_open (Ok []) w_put);
    [exact open_state|exact I|].
  cbn [run_op]. by rewrite (bind_run _ _ _ _ _ _ put_run).
Defined.

(** A session in which one library call fails, inside a transaction. *)
Definition ops : list vault_op :=
  [OpPut name (str "new secret") None 0; OpGet name 32; OpRotateKek (str "battery staple"); OpDelete name].

Lemma vault_session_keeps_history_witness :
  let '(rs, w') := run_ops ops (Sample.env_failing 1700000000 72) w_put in
  ∃ k' db', durable w' = Some db' ∧ db_ok k' db' ∧ w_subkeys w' = Some k' ∧
    extends (abstract (keys w_open) (db_of w_put)) (abstract k' db').
Proof.
  destruct (run_ops ops (Sample.env_failing 1700000000 72) w_put) as [rs w'] eqn:E.
  apply (vault_session_keeps_history ops (Sample.env_failing 1700000000 72) w_put rs w' (keys w_open) (db_of w_put));
    [exact (vault_state_holds _ _ _ put_state)|repeat constructor|vm_compute; discriminate|exact E].
Defined.

Lemma vault_put_get_witness :
  ∃ w2, vault_get name 16 e0 w_put = (Ok secret, w2).
Proof.
  destruct (vault_put_get name secret None 60 (keys w_open) (db_of w_open) e0 w_open () w_put) as [H _];
    [exact open_state|by vm_compute|exact put_run|].
  apply H; [exact (Sample.env_at_healthy _)|exact e0_clock|vm_compute; lia].
Defined.

(** A second version, and the first one back. *)
Definition w_second : world := (vault_put_with_options name (str "second") None 0 e0 w_put).2.

Lemma second_state : vault_state w_second (keys w_open) (db_of w_second).
Proof.
  destruct (run_ok (vault_put_with_options name (str "second") None 0 e0 w_put)) as (u & w & H); [by vm_compute|].
  assert (w = w_second) as -> by (unfold w_second; by rewrite H).
  destruct (put_ok _ _ _ _ _ _ _ _ _ _ put_state H) as (db & Hst & _).
  pose proof Hst as (_ & _ & _ & Hv & _). unfold db_of, visible in *. destruct (w_conn w_second); [|done].
  by injection Hv as ->.
Qed.

Lemma vault_rollback_get_witness :
  ∃ v s w2, find_number (names (keys w_open) name) 1 (abstract (keys w_open) (db_of w_second)) = Some v ∧
    v_secret v = Some s ∧ vault_get name 16 e0 (vault_rollback name 1 e0 w_second).2 = (Ok s, w2).
Proof.
  destruct (vault_rollback_get name 1 (keys w_open) (db_of w_second) e0 w_second () (vault_rollback name 1 e0 w_second).2)
    as (v & s & Hv & Hs & Hget);
    [exact second_state|vm_compute; reflexivity|runs (vault_rollback name 1) e0 w_second|].
  exists v, s. destruct (Hget e0 16%nat) as (w2 & H); [exact (Sample.env_at_healthy _)|exact e0_clock|
    |exists w2; exact (conj Hv (conj Hs H))].
  assert (∃ v, find_number (names (keys w_open) name) 1 (abstract (keys w_open) (db_of w_second)) = Some v ∧
            v_secret v = Some secret) as (v' & Hv' & Hs').
  { eexists. split; vm_compute; reflexivity. }
  assert (v' = v) as -> by congruence. assert (s = secret) as -> by congruence. vm_compute. lia.
Defined.

Lemma vault_delete_get_witness :
  ∃ w2, vault_get name 16 e0 (vault_delete name e0 w_put).2 = (Err SM_ERR_NOT_FOUND, w2).
Proof.
  destruct (vault_delete_get name (keys w_open) (db_of w_put) e0 w_put () (vault_delete name e0 w_put).2) as [H _];
    [exact put_state|runs (vault_delete name) e0 w_put|].
  apply H. exact (Sample.env_at_healthy _).
Defined.

Lemma vault_versions_stay_readable_witness :
  ∃ w2, vault_get_version name 1 16 e0 (run_ops ops (Sample.env_failing 1700000000 72) w_put).2 = (Ok secret, w2).
Proof.
  destruct (run_ops_total ops (Sample.env_failing 1700000000 72) w_put) as [rs E].
  assert (quiescent (run_ops ops (Sample.env_failing 1700000000 72) w_put).2) as Hq.
  { destruct (run_ops_holds ops (Sample.env_failing 1700000000 72) w_put (Ok rs)
      (run_ops ops (Sample.env_failing 1700000000 72) w_put).2 (keys w_open) (db_of w_put)) as (? & ? & [Hs _] & _);
      [exact (vault_state_holds _ _ _ put_state)|repeat constructor|vm_compute; discriminate
      |exact (run_split (run_ops ops) (Sample.env_failing 1700000000 72) w_put (Ok rs) E)|].
    apply no_transaction; [exact Hs|vm_compute; reflexivity]. }
  assert (∃ v, find_number (names (keys w_open) name) 1 (abstract (keys w_open) (db_of w_put)) = Some v ∧
            v_secret v = Some secret) as (v & Hv & Hs).
  { eexists. split; vm_compute; reflexivity. }
  apply (vault_versions_stay_readable ops (Sample.env_failing 1700000000 72) w_put (Ok rs)
    (run_ops ops (Sample.env_failing 1700000000 72) w_put).2 (keys w_open) (db_of w_put) name 1 v secret);
    [exact (vault_state_holds _ _ _ put_state)|repeat constructor|vm_compute; discriminate
    |exact (run_split (run_ops ops) (Sample.env_failing 1700000000 72) w_put (Ok rs) E)|exact Hq
    |vm_compute; discriminate|exact Hv|exact Hs|exact (Sample.env_at_healthy _)
    |exact e0_clock|vm_compute; lia].
Defined.

Lemma vault_unlock_outcome_witness :
  let w' := (vault_unlock_internal (str "wrong") false e0 w_put).2 in
  w' = w_put ∧ SM_ERR_AUTH = SM_ERR_INVALID_ARGUMENT ∨
  w_subkeys w' = None ∧ w_unlocked w' = false ∧ same_tables w_put w'.
Proof.
  apply (vault_unlock_outcome (str "wrong") false e0 w_put (db_of w_put) (Err SM_ERR_AUTH));
    [exact (proj1 put_state)|vm_compute; reflexivity|runs (vault_unlock_internal (str "wrong") false) e0 w_put].
Defined.

(** The metadata that the first unlock wrote. *)
Lemma open_opens : opens pw (keys w_open) (t_metadata (db_of w_open)).
Proof. exact (proj2 open_run). Qed.

Lemma vault_unlock_decides_witness :
  (∃ w', vault_unlock_internal (str "wrong") false e0 w_open = (Err SM_ERR_AUTH, w')) ∨
  ∃ salt, sha256_collision (pwhash (c_str (str "wrong")) salt, pwhash (c_str pw) salt).
Proof.
  destruct (vault_state_conn _ _ _ open_state) as (c & Hc & _).
  assert (db_of w_open = conn_cur c) as Ed by (unfold db_of; by rewrite Hc).
  destruct (vault_unlock_decides pw (keys w_open) (str "wrong") false e0 w_open c) as (salt & Es & H);
    [exact (Sample.env_at_healthy _)|exact e0_clock|exact Hc|rewrite <- Ed; exact open_opens
    |vm_compute; discriminate|].
  assert (t_metadata (db_of w_open) !! VAULT_METADATA_SALT = Some salt) as Es' by by rewrite Ed.
  cbv zeta in H. destruct (decide _) as [D|D] in H; [exfalso|destruct H as [H|H]; [by left|right; by exists salt]].
  assert (salt = default [] (t_metadata (db_of w_open) !! VAULT_METADATA_SALT)) as -> by by rewrite Es'.
  revert D. vm_compute. discriminate.
Defined.

Lemma vault_first_unlock_witness :
  is_ok (vault_unlock pw e0 Sample.world0).1 = true.
Proof.
  destruct (vault_first_unlock pw e0 Sample.world0) as [H _];
    [eexists; by split_and!|reflexivity|vm_compute; discriminate|].
  apply H. exact (Sample.env_at_healthy _).
Defined.

Lemma vault_rotate_kek_reopens_witness :
  ∃ k' db' w3, vault_state w3 k' db' ∧
    vault_unlock_existing (str "battery staple") e0
      (vault_rotate_kek (str "battery staple") e0 w_put).2 = (Ok (), w3).
Proof.
  destruct (vault_rotate_kek_reopens (str "battery staple") (keys w_open) (db_of w_put) e0 w_put ()
    (vault_rotate_kek (str "battery staple") e0 w_put).2) as (k' & db' & _ & _ & _ & H);
    [exact put_state|vm_compute; discriminate|runs (vault_rotate_kek (str "battery staple")) e0 w_put|].
  destruct (H e0 (vault_rotate_kek (str "battery staple") e0 w_put).2) as (w3 & E & Hst);
    [exact (Sample.env_at_healthy _)|reflexivity|].
  exists k', db', w3. exact (conj Hst E).
Defined.

(** A quarter of an hour later the secret of [w_put] is due. *)
Definition later : env := Sample.env_at 1700000900.

Lemma vault_auto_rotate_terminates_witness :
  let '(r, w') := vault_auto_rotate_expired 3 later w_put in
  r = Ok (Some 1%nat) ∧ r ≠ Ok None.
Proof.
  destruct (vault_auto_rotate_expired 3 later w_put) as [r w'] eqn:E.
  destruct (vault_auto_rotate_terminates 3 (keys w_open) (db_of w_put) later w_put r w') as [H _];
    [exact put_state|vm_compute; discriminate|intros n; vm_compute; discriminate|vm_compute; lia|exact E|].
  split; [|exact H]. change r with ((r, w').1). rewrite <- E. vm_compute. reflexivity.
Defined.

(** The clock goes back by a quarter of an hour after the loop read it. *)
Lemma vault_auto_rotate_stuck_witness :
  auto_rotate_loop 1000 (str "2023-11-14T22:28:20Z") 0 e0 w_put ≠ (Ok (Some 1%nat), w_put).
Proof.
  apply (vault_auto_rotate_stuck _ 1000 0 (keys w_open) (db_of w_put)); [by vm_compute|exact put_state|].
  assert (∃ r, t_secrets (db_of w_put) = [r] ∧ sr_is_archived r = 0%Z ∧
    sr_expires_at r = Some (str "2023-11-14T22:14:20Z")) as (r & Er & Ha & Hx).
  { eexists. split_and!; vm_compute; reflexivity. }
  exists r, (str "2023-11-14T22:14:20Z"). rewrite Er. split_and!; [by apply list_elem_of_singleton|done|done|by vm_compute|].
  intros n now2 H. change (env_clock e0 n) with 1700000000%Z in H. revert H. vm_compute. intros [= <-]. reflexivity.
Defined.

Lemma vault_operation_atomic_witness :
  let '(r, w') := run_op (OpPut name secret None 0) (Sample.env_failing 1700000000 45) w_open in
  (∃ s, r = Err s) ∧ durable w' = durable w_open.
Proof.
  destruct (run_op (OpPut name secret None 0) (Sample.env_failing 1700000000 45) w_open) as [r w'] eqn:E.
  assert (settled w_open) as Hs by (apply settled_cases; left; exact (proj1 open_state)).
  destruct (vault_operation_atomic (OpPut name secret None 0) (Sample.env_failing 1700000000 45) w_open r w' Hs E)
    as (_ & Herr & _).
  assert (∃ s, r = Err s) as [s ->].
  { change r with ((r, w').1). rewrite <- E. eexists. vm_compute. reflexivity. }
  split; [by exists s|]. by apply (Herr s).
Defined.

End VaultExample.
