(* ===== verification/VaultQueries.v ===== *)
(** The questions a caller asks of an open vault (src/src/vault.c): listings,
    expiries, the security report, and the audit log's verification, root and
    proofs.

    A callback of the C interface gets a pointer [user_data] that the caller
    shares with it; here the callback returns the new user data. *)

From S2P Require Import Prelude Status Sodium Schema State Utils Kdf CryptoEngine Storage KeyManager Merkle AuditLog VaultRows Vault VaultSpec VaultRefine VaultReads VaultTheorems.

(** [vault_list_item_t] of include/vault.h. *)
Record vault_list_item_t := ListItem {
  li_name : bytes;
  li_version : Z;
  li_algorithm : bytes;
  li_created_at : bytes;
  li_updated_at : bytes;
  li_expires_at : option bytes;
  li_rotation_interval_seconds : Z;
  li_is_archived : Z;
  li_is_expired : bool;
}.

(** [vault_security_report_t] of include/vault.h. *)
Record vault_security_report_t := SecurityReport {
  rp_distinct_names : nat;
  rp_active_secrets : nat;
  rp_archived_versions : nat;
  rp_total_versions : nat;
  rp_deleted_names : nat;
  rp_ttl_active : nat;
  rp_expired_active : nat;
  rp_expiring_7d : nat;
  rp_active_aes256gcm : nat;
  rp_active_xchacha20poly1305 : nat;
  rp_active_aegis256 : nat;
  rp_audit_entries : nat;
  rp_audit_leaf_count : nat;
  rp_audit_root : bytes;
}.

(** * Statements *)

(** [ORDER BY name ASC, version ASC] *)
Definition by_name_version (a b : secret_row) : Prop :=
  match strcmp (sr_name a) (sr_name b) with
  | Lt => True
  | Eq => (sr_version a ≤ sr_version b)%Z
  | Gt => False
  end.
#[export] Instance by_name_version_dec a b : Decision (by_name_version a b).
Proof. unfold by_name_version. destruct (strcmp _ _); apply _. Defined.

Definition listed_rows (include_archived : bool) (t : list secret_row) : list secret_row :=
  merge_sort by_name_version (filter (λ r, Is_true (include_archived || active_row t r)) t).

(** [SUM(CASE WHEN p THEN 1 ELSE 0 END)] *)
Definition count_rows (p : secret_row → bool) (t : list secret_row) : nat :=
  length (filter (λ r, Is_true (p r)) t).

Definition names_of (t : list secret_row) : list bytes := remove_dups (sr_name <$> t).

(** [GROUP BY name HAVING SUM(active) = 0] *)
Definition deleted_names (t : list secret_row) : list bytes :=
  filter (λ n, count_rows (λ r, bool_decide (sr_name r = n) && active_row t r) t = 0) (names_of t).

Definition text_leb (a : option bytes) (b : bytes) : bool :=
  match a with None => false | Some x => str_leb x b end.

(** The ten columns of [report_sql], the audit columns still empty. *)
Definition report_row (now soon : bytes) (t : list secret_row) : vault_security_report_t :=
  let active p := count_rows (λ r, active_row t r && p r) t in
  SecurityReport (length (names_of t)) (active (λ _, true)) (count_rows (λ r, negb (active_row t r)) t)
    (length t) 0
    (active (λ r, match sr_rotation_interval r with None => false | Some z => (0 <? z)%Z end))
    (active (λ r, text_leb (sr_expires_at r) now))
    (active (λ r, bool_decide (is_Some (sr_expires_at r)) && negb (text_leb (sr_expires_at r) now)
                  && text_leb (sr_expires_at r) soon))
    (active (λ r, bool_decide (sr_algorithm r = str "AES-256-GCM")))
    (active (λ r, bool_decide (sr_algorithm r = str "XChaCha20-Poly1305")))
    (active (λ r, bool_decide (sr_algorithm r = str "AEGIS-256"))) 0 0 [].

Definition with_counts (deleted entries leaves : nat) (root : bytes) (p : vault_security_report_t)
  : vault_security_report_t :=
  SecurityReport (rp_distinct_names p) (rp_active_secrets p) (rp_archived_versions p) (rp_total_versions p)
    deleted (rp_ttl_active p) (rp_expired_active p) (rp_expiring_7d p) (rp_active_aes256gcm p)
    (rp_active_xchacha20poly1305 p) (rp_active_aegis256 p) entries leaves root.

Section Queries.
Context {CR : Crypto}.

(** * Listings *)

(** The caller's [user_data] is memory that its callback changes, so the
    functions give it back with their status, also when they fail. *)

(** The item of a row. *)
Definition list_item (now : bytes) (r : secret_row) : M vault_list_item_t :=
  lib_call SM_ERR_STORAGE ;;
  guard_or (negb (length (sr_name r) =? 0)%nat && negb (length (sr_name_nonce r) =? 0)%nat
            && negb (length (sr_encrypted_name r) =? 0)%nat) SM_ERR_STORAGE ;;
  display_name ← vault_decrypt_display_name (sr_name r) (sr_name_nonce r) (sr_encrypted_name r)
                   (VAULT_SECRET_NAME_MAX + 1);
  let rotation_interval := default 0%Z (sr_rotation_interval r) in
  guard_or (0 <=? rotation_interval)%Z SM_ERR_STORAGE ;;
  let version := column_int (sr_version r) in
  let is_archived := column_int (sr_is_archived r) in
  let expires_at := c_str <$> sr_expires_at r in
  guard_or ((1 <=? version) && ((is_archived =? 0) || (is_archived =? 1)))%Z SM_ERR_STORAGE ;;
  mret (ListItem (c_str display_name) version (c_str (sr_algorithm r)) (c_str (sr_created_at r))
          (c_str (sr_updated_at r)) expires_at rotation_interval is_archived
          (match expires_at with
           | Some x => (is_archived =? 0)%Z && vault_expiry_is_due x now
           | None => false
           end)).

(** One turn of the loop over the rows: the callback is given what [m] makes
    of the row. *)
Definition call_with {U A} (m : M A) (callback : A → U → M (U * outcome unit)) (user_data : U)
  : M (U * outcome unit) :=
  item ← try m;
  match item with
  | Ok item => callback item user_data
  | Err s => mret (user_data, Err s)
  end.

(** The loop stops at the first row with an error; it counts the rows. *)
Fixpoint each_row {U} (f : U → secret_row → M (U * outcome unit)) (n : nat) (user_data : U)
    (rows : list secret_row) : M (U * outcome nat) :=
  match rows with
  | [] => mret (user_data, Ok n)
  | r :: rows' =>
      '(user_data, status) ← f user_data r;
      match status with
      | Ok _ => each_row f (S n) user_data rows'
      | Err s => mret (user_data, Err s)
      end
  end.

(** [sqlite3_finalize]: its failure is the status of the call. *)
Definition finalize_rows {U} (result : U * outcome nat) : M (U * outcome nat) :=
  finalized ← try (lib_call SM_ERR_STORAGE);
  mret (result.1, match finalized with Ok _ => result.2 | Err s => Err s end).

(** Nothing is called back when the statement cannot be prepared. *)
Definition with_rows {U B} (prepare : M B) (user_data : U) (step : B → M (U * outcome nat))
  : M (U * outcome nat) :=
  prepared ← try prepare;
  match prepared with
  | Ok b => result ← step b; finalize_rows result
  | Err s => mret (user_data, Err s)
  end.

Definition vault_list_secrets {U} (include_archived : bool)
    (callback : vault_list_item_t → U → M (U * outcome unit)) (user_data : U) : M (U * outcome nat) :=
  with_rows
    (vault_require_unlocked ;;
     require_db ;;
     now ← utils_now_iso8601 UTILS_ISO8601_UTC_BUFFER_LEN;
     rows ← sql_query (λ db, listed_rows include_archived (t_secrets db));
     mret (now, rows))
    user_data
    (λ '(now, rows), each_row (λ u r, call_with (list_item now r) callback u) 0 user_data rows).

(** What [vault_check_expiry] gives its callback; [expires_at] is not NULL in
    a selected row. *)
Definition expiry_item (now : bytes) (r : secret_row) : M (bytes * Z * bytes * bool) :=
  lib_call SM_ERR_STORAGE ;;
  let version := column_int (sr_version r) in
  guard_or (negb (length (sr_name r) =? 0)%nat && negb (length (sr_name_nonce r) =? 0)%nat
            && negb (length (sr_encrypted_name r) =? 0)%nat && bool_decide (is_Some (sr_expires_at r))
            && (1 <=? version)%Z) SM_ERR_STORAGE ;;
  display_name ← vault_decrypt_display_name (sr_name r) (sr_name_nonce r) (sr_encrypted_name r)
                   (VAULT_SECRET_NAME_MAX + 1);
  let expires_at := c_str (default [] (sr_expires_at r)) in
  mret (c_str display_name, version, expires_at, vault_expiry_is_due expires_at now).

Definition expiry_callback {U} (callback : option (bytes → Z → bytes → bool → U → M (U * outcome unit)))
    (item : bytes * Z * bytes * bool) (user_data : U) : M (U * outcome unit) :=
  let '(name, version, expires_at, is_expired) := item in
  match callback with
  | Some f => f name version expires_at is_expired user_data
  | None => mret (user_data, Ok ())
  end.

Definition vault_check_expiry {U} (within_seconds : Z)
    (callback : option (bytes → Z → bytes → bool → U → M (U * outcome unit))) (user_data : U)
  : M (U * outcome nat) :=
  with_rows
    (vault_require_unlocked ;;
     require_db ;;
     now ← utils_now_iso8601 UTILS_ISO8601_UTC_BUFFER_LEN;
     threshold ← (if (0 <? within_seconds)%Z
                  then utils_now_plus_seconds_iso8601 within_seconds UTILS_ISO8601_UTC_BUFFER_LEN
                  else guard_or (length (c_str now) <? UTILS_ISO8601_UTC_BUFFER_LEN)%nat SM_ERR_INVALID_ARGUMENT ;;
                       mret (c_str now));
     rows ← sql_query (λ db, expired_rows (c_str threshold) (t_secrets db));
     mret (now, rows))
    user_data
    (λ '(now, rows), each_row (λ u r, call_with (expiry_item now r) (expiry_callback callback) u) 0 user_data rows).

(** * The audit log *)

Definition vault_audit_verify : M unit :=
  vault_require_unlocked ;;
  k ← g_subkeys;
  audit_verify_chain (kek_audit k).

Definition vault_audit_merkle_root (root_len : nat) : M (bytes * nat) :=
  vault_require_unlocked ;;
  k ← g_subkeys;
  audit_verify_chain (kek_audit k) ;;
  audit_compute_merkle_root root_len.

(** The hash of the entry, the root, and the proof with its index and the
    number of leaves. *)
Definition vault_audit_merkle_proof (entry_id : Z) (entry_hash_len root_len proof_capacity : nat)
  : M (bytes * bytes * (bytes * nat * nat)) :=
  vault_require_unlocked ;;
  guard_or (1 <=? entry_id)%Z SM_ERR_INVALID_ARGUMENT ;;
  k ← g_subkeys;
  audit_verify_chain (kek_audit k) ;;
  entry_hash ← audit_get_entry_hash entry_id entry_hash_len;
  '(root, root_leaf_count) ← audit_compute_merkle_root root_len;
  '(proof, leaf_index, leaf_count) ← audit_build_merkle_proof entry_id proof_capacity;
  guard_or (root_leaf_count =? leaf_count)%nat SM_ERR_STORAGE ;;
  mret (entry_hash, root, (proof, leaf_index, leaf_count)).

Definition vault_audit_verify_merkle_proof (entry_id : Z) (root proof : bytes) (leaf_index leaf_count : Z)
  : M unit :=
  vault_require_unlocked ;;
  guard_or (1 <=? entry_id)%Z SM_ERR_INVALID_ARGUMENT ;;
  k ← g_subkeys;
  audit_verify_chain (kek_audit k) ;;
  entry_hash ← audit_get_entry_hash entry_id AUDIT_MERKLE_ROOT_BYTES;
  audit_verify_merkle_proof entry_hash leaf_index leaf_count proof root.

Definition vault_security_report : M vault_security_report_t :=
  vault_require_unlocked ;;
  require_db ;;
  now ← utils_now_iso8601 UTILS_ISO8601_UTC_BUFFER_LEN;
  soon ← utils_now_plus_seconds_iso8601 (7 * 24 * 60 * 60) UTILS_ISO8601_UTC_BUFFER_LEN;
  report ← sql_query (λ db, report_row (c_str now) (c_str soon) (t_secrets db));
  deleted ← sql_query (λ db, length (deleted_names (t_secrets db)));
  entries ← sql_query (λ db, length (t_audit_log db));
  k ← g_subkeys;
  audit_verify_chain (kek_audit k) ;;
  '(root, leaves) ← audit_compute_merkle_root AUDIT_MERKLE_ROOT_BYTES;
  mret (with_counts deleted entries leaves root report).

Definition vault_debug_name_lookup (name : bytes) (lookup_hex_len : nat) : M bytes :=
  vault_require_unlocked ;;
  vault_build_name_lookup name lookup_hex_len.


(** * What the listings report *)

(** The item of a row, or the error it is refused with. *)
Definition display_name_of (k : kdf_subkeys_t) (r : secret_row) : outcome bytes :=
  check (negb (length (sr_name r) =? 0)%nat && negb (length (sr_name_nonce r) =? 0)%nat
         && negb (length (sr_encrypted_name r) =? 0)%nat) SM_ERR_STORAGE ;;
  check (negb (bool_decide (c_str (sr_name r) = [])) && (length (sr_name_nonce r) =? VAULT_NAME_NONCE_BYTES)%nat
         && (aead_ABYTES XCHACHA20_POLY1305 <? length (sr_encrypted_name r))%nat
         && (length (sr_encrypted_name r) <=? VAULT_ENCRYPTED_NAME_MAX)%nat) SM_ERR_INVALID_ARGUMENT ;;
  name ← from_option_or SM_ERR_CRYPTO
           (aead_decrypt XCHACHA20_POLY1305 (kek_meta k) (sr_name_nonce r) (c_str (sr_name r)) (sr_encrypted_name r));
  check (length name <? VAULT_SECRET_NAME_MAX + 1)%nat SM_ERR_STORAGE ;;
  Ok (c_str name).

Definition item_of (k : kdf_subkeys_t) (now : bytes) (r : secret_row) : outcome vault_list_item_t :=
  name ← display_name_of k r;
  check (0 <=? default 0%Z (sr_rotation_interval r))%Z SM_ERR_STORAGE ;;
  check ((1 <=? column_int (sr_version r))
         && ((column_int (sr_is_archived r) =? 0) || (column_int (sr_is_archived r) =? 1)))%Z SM_ERR_STORAGE ;;
  Ok (ListItem name (column_int (sr_version r)) (c_str (sr_algorithm r)) (c_str (sr_created_at r))
        (c_str (sr_updated_at r)) (c_str <$> sr_expires_at r) (default 0%Z (sr_rotation_interval r))
        (column_int (sr_is_archived r))
        (match sr_expires_at r with
         | Some x => (column_int (sr_is_archived r) =? 0)%Z && vault_expiry_is_due (c_str x) now
         | None => false
         end)).

(** The items up to the first row with an error, and that error. *)
Fixpoint map_until {A B} (f : A → outcome B) (l : list A) : list B * outcome unit :=
  match l with
  | [] => ([], Ok ())
  | x :: l' =>
      match f x with
      | Ok y => let '(ys, r) := map_until f l' in (y :: ys, r)
      | Err s => ([], Err s)
      end
  end.

(** The caller that keeps what the callback is given. *)
Definition collect {A} (item : A) (l : list A) : M (list A * outcome unit) := mret (l ++ [item], Ok ()).

(** [m] returns [r] and changes nothing, in a healthy environment. *)
Definition returns {A} (m : M A) (r : outcome A) (e : env) (w : world) : Prop :=
  ∃ w', m e w = (r, w') ∧ same_state w w'.

Lemma returns_bind {A B} (m : M A) (f : A → M B) r s e w :
  returns m r e w →
  match r with
  | Ok a => ∀ w', same_state w w' → returns (f a) s e w'
  | Err x => s = Err x
  end → returns (m ≫= f) s e w.
Proof.
  intros (w1 & E1 & S1) H. destruct r as [a|x].
  - destruct (H w1 S1) as (w2 & E2 & S2). exists w2. split; [|by etrans].
    by rewrite (bind_run _ _ _ _ _ _ E1).
  - subst s. exists w1. split; [|done]. by apply bind_run_err.
Qed.

Lemma returns_lift {A} (o : outcome A) e w : returns (lift o) o e w.
Proof. by exists w. Qed.
Lemma returns_lib_call s e w : healthy e → returns (lib_call s) (Ok ()) e w.
Proof. intros He. exists (called w). by rewrite lib_call_healthy. Qed.


(** A run and its reference, step by step. *)
Lemma returns_guard {A} b s (m : M A) (o : outcome A) e w :
  (b = true → returns m o e w) → returns (guard_or b s ;; m) (check b s ;; o) e w.
Proof.
  intros H. destruct b; [|by exists w]. destruct (H eq_refl) as (w' & E & S). exists w'.
  split; [|done]. by rewrite guard_run.
Qed.

Lemma returns_call {A} s (m : M A) (o : outcome A) e w :
  healthy e → (∀ w', same_state w w' → returns m o e w') → returns (lib_call s ;; m) o e w.
Proof. intros He H. eapply returns_bind; [by apply returns_lib_call|exact H]. Qed.

Lemma returns_keys {A} k (f : kdf_subkeys_t → M A) (o : outcome A) e w :
  w_subkeys w = Some k → returns (f k) o e w → returns (g_subkeys ≫= f) o e w.
Proof.
  intros Hk (w' & E & S). exists w'. split; [|done].
  by rewrite (bind_run _ _ _ _ k w) by (unfold g_subkeys; by rewrite Hk).
Qed.

Lemma returns_lift_bind {A B} (o : outcome A) (f : A → M B) (g : A → outcome B) e w :
  (∀ a, o = Ok a → returns (f a) (g a) e w) → returns (lift o ≫= f) (o ≫= g) e w.
Proof.
  intros H. destruct o as [a|s]; [|by exists w]. destruct (H a eq_refl) as (w' & E & S). by exists w'.
Qed.

Lemma returns_assoc {A B C} (m : M A) (f : A → M B) (g : B → M C) o e w :
  returns (m ≫= λ a, f a ≫= g) o e w → returns ((m ≫= f) ≫= g) o e w.
Proof.
  intros (w' & E & S). exists w'. split; [|done]. rewrite <- E. unfold mbind, M_bind.
  by destruct (m e w) as [[]].
Qed.

Lemma outcome_assoc {A B C} (m : outcome A) (f : A → outcome B) (g : B → outcome C) :
  (m ≫= f) ≫= g = m ≫= λ a, f a ≫= g.
Proof. by destruct m. Qed.

Lemma returns_ret {A} (a : A) e w : returns (mret a) (Ok a) e w.
Proof. by exists w. Qed.

Ltac reference_step :=
  lazymatch goal with
  | |- returns ((_ ≫= _) ≫= _) _ _ _ => apply returns_assoc
  | |- returns _ ((_ ≫= _) ≫= _) _ _ => rewrite outcome_assoc
  | |- returns (guard_or _ _ ≫= _) (check _ _ ≫= _) _ _ => apply returns_guard; intros ?
  | |- returns (lift _ ≫= _) (from_option_or _ _ ≫= _) _ _ => apply returns_lift_bind; intros ? ?
  | |- returns (g_subkeys ≫= _) _ _ _ => eapply returns_keys; [eassumption|]
  end.

Lemma returns_ret_bind {A B C} (a : A) (b : B) (f : A → M C) (g : B → outcome C) e w :
  returns (f a) (g b) e w → returns (mret a ≫= f) (Ok b ≫= g) e w.
Proof. done. Qed.

Lemma list_item_returns k now r e w :
  healthy e → w_subkeys w = Some k → returns (list_item now r) (item_of k now r) e w.
Proof.
  intros He Hk0. unfold list_item, vault_decrypt_display_name, item_of, display_name_of.
  apply returns_call; [done|]. intros w1 S1.
  assert (w_subkeys w1 = Some k) as Hk by (destruct S1 as (_ & E & _); congruence). clear Hk0 S1 w.
  change (negb (VAULT_SECRET_NAME_MAX + 1 =? 0)%nat) with true.
  repeat first [reference_step|rewrite andb_true_r]. apply returns_ret_bind. cbv beta zeta.
  repeat reference_step. destruct (sr_expires_at r); apply returns_ret.
Qed.

Lemma call_with_run {U A} (m : M A) (callback : A → U → M (U * outcome unit)) u e w r w1 :
  m e w = (r, w1) →
  call_with m callback u e w = match r with Ok a => callback a u e w1 | Err s => (Ok (u, Err s), w1) end.
Proof. intros E. unfold call_with, try. rewrite (bind_run _ _ _ _ r w1) by (by rewrite E). by destruct r. Qed.

(** The loop over the rows collects their items up to the first error. *)
Lemma list_rows_returns k now rows n l e w :
  healthy e → w_subkeys w = Some k →
  returns (each_row (λ u r, call_with (list_item now r) collect u) n l rows)
    (Ok (let '(items, r) := map_until (item_of k now) rows in (l ++ items, r ;; Ok (n + length items)))) e w.
Proof.
  intros He. revert n l w. induction rows as [|r rows IH]; intros n l w Hk; cbn [each_row map_until].
  - cbn. rewrite app_nil_r, Nat.add_0_r. apply returns_ret.
  - destruct (list_item_returns k now r e w He Hk) as (w1 & E1 & S1).
    destruct (item_of k now r) as [item|s].
    + assert (w_subkeys w1 = Some k) as Hk1 by (destruct S1 as (_ & E & _); congruence).
      destruct (IH (S n) (l ++ [item]) w1 Hk1) as (w2 & E2 & S2). exists w2. split; [|by etrans].
      rewrite (bind_run _ _ _ _ (l ++ [item], Ok ()) w1) by (by rewrite (call_with_run _ _ _ _ _ _ _ E1)).
      cbv beta iota. rewrite E2. destruct (map_until _ rows) as [items o].
      rewrite <- app_assoc. cbn. by rewrite Nat.add_succ_r.
    + exists w1. split; [|done]. rewrite (bind_run _ _ _ _ (l, Err s) w1) by (by rewrite (call_with_run _ _ _ _ _ _ _ E1)).
      cbn. by rewrite app_nil_r.
Qed.

#[local] Instance by_name_version_trans : Transitive by_name_version.
Proof.
  intros a b c. unfold by_name_version.
  destruct (strcmp (sr_name a) (sr_name b)) eqn:E1, (strcmp (sr_name b) (sr_name c)) eqn:E2; try done; intros H1 H2.
  - apply strcmp_eq in E1, E2. rewrite E1, E2, strcmp_refl. lia.
  - apply strcmp_eq in E1. by rewrite E1, E2.
  - apply strcmp_eq in E2. by rewrite <- E2, E1.
  - by rewrite (strcmp_lt_trans _ _ _ E1 E2).
Qed.
#[local] Instance by_name_version_total : Total by_name_version.
Proof.
  intros a b. unfold by_name_version. rewrite (strcmp_antisym (sr_name a) (sr_name b)).
  destruct (strcmp (sr_name a) (sr_name b)); cbn; [lia|tauto..].
Qed.

(** Without the archived versions, one row for each name with a live version. *)
Lemma listed_live t :
  table_ok t →
  (∀ r, r ∈ listed_rows false t ↔ r ∈ t ∧ sr_is_archived r = 0%Z) ∧
  StronglySorted (λ a b, strcmp (sr_name a) (sr_name b) = Lt) (listed_rows false t).
Proof.
  intros Ht.
  assert (∀ r, r ∈ listed_rows false t ↔ r ∈ t ∧ sr_is_archived r = 0%Z) as Hin.
  { intros r. unfold listed_rows. rewrite merge_sort_Permutation, list_elem_of_filter. cbn.
    split; intros [H1 H2].
    - rewrite active_live in H1 by done. by apply Is_true_true, Z.eqb_eq in H1.
    - rewrite active_live by done. split; [|done]. apply Is_true_true. by apply Z.eqb_eq. }
  split; [done|].
  assert (NoDup (listed_rows false t)) as Hnd.
  { unfold listed_rows. rewrite merge_sort_Permutation. apply NoDup_filter.
    eapply NoDup_fmap_1, (proj1 (tk_ids _ Ht)). }
  pose proof (StronglySorted_merge_sort by_name_version (filter (λ r, Is_true (false || active_row t r)) t)) as Hs.
  fold (listed_rows false t) in Hs. clear -Hs Hin Hnd Ht.
  assert (∀ r, r ∈ listed_rows false t → r ∈ t ∧ sr_is_archived r = 0%Z) as H by (intros; by apply Hin).
  clear Hin. induction Hs as [|r l Hl IH Hr]; constructor.
  - apply IH; [by apply NoDup_cons in Hnd as [_ ?]|]. intros q Hq. apply H. by right.
  - apply NoDup_cons in Hnd as [Hnr _]. rewrite Forall_forall in *. intros q Hq.
    specialize (Hr q Hq). unfold by_name_version in Hr.
    destruct (strcmp (sr_name r) (sr_name q)) eqn:E; [|done|done]. apply strcmp_eq in E.
    destruct (H r ltac:(by left)) as [Hrt Hra], (H q ltac:(by right)) as [Hqt Hqa].
    assert (r = q) as ->; [|done]. apply (same_version_row t); [done|done|done|done|].
    pose proof (tk_live _ Ht r q Hrt Hqt Hra (eq_sym E)). pose proof (tk_live _ Ht q r Hqt Hrt Hqa E). lia.
Qed.

Lemma now_run e w :
  clock_ok e →
  ∃ ts, utils_format_iso8601 (env_clock e (w_ticks w)) UTILS_ISO8601_UTC_BUFFER_LEN = Ok ts ∧
        utils_now_iso8601 UTILS_ISO8601_UTC_BUFFER_LEN e w = (Ok ts, tick w).
Proof.
  intros Hc. specialize (Hc (w_ticks w)).
  destruct (utils_format_iso8601_run _ UTILS_ISO8601_UTC_BUFFER_LEN Hc ltac:(lia)) as (u & _ & _ & E & _).
  exists (print_tm u). split; [done|]. unfold utils_now_iso8601. rewrite guard_run by done.
  rewrite (bind_run _ _ _ _ (env_clock e (w_ticks w)) (tick w)) by done.
  rewrite guard_run by (apply negb_true_iff, Z.eqb_neq; lia). unfold lift. by rewrite E.
Qed.

(** C15: in a healthy environment [vault_list_secrets] hands the callback the
    items of the selected rows in the order of names and versions, up to the
    first row that cannot be shown, whose error it returns, and else their
    number. Without archived
    versions the rows are exactly the live versions of the store, in strictly
    increasing order of their names. *)
Theorem vault_list_secrets_spec include_archived k db e w :
  vault_state w k db → healthy e → clock_ok e →
  (∃ now, utils_format_iso8601 (env_clock e (w_ticks w)) UTILS_ISO8601_UTC_BUFFER_LEN = Ok now ∧
     (vault_list_secrets include_archived collect [] e w).1
     = Ok (let '(items, r) := map_until (item_of k now) (listed_rows include_archived (t_secrets db)) in
           (items, r ;; Ok (length items)))) ∧
  (∀ v, v ∈ abs_version (kek_enc k) <$> listed_rows false (t_secrets db)
        ↔ v ∈ st_versions (abstract k db) ∧ v_live v = true) ∧
  StronglySorted (λ a b, strcmp (sr_name a) (sr_name b) = Lt) (listed_rows false (t_secrets db)).
Proof.
  intros Hst He Hclk. pose proof Hst as (_ & _ & Hu & _).
  destruct (state_conn _ _ _ Hst) as (c & Hc & Hcur & Hk & Hdb).
  destruct (listed_live _ (db_table _ _ Hdb)) as [Hin Hsort]. split_and!; [| |done].
  - destruct (now_run e w Hclk) as (now & Hnow & E1). exists now. split; [done|].
    destruct (list_rows_returns k now (listed_rows include_archived (t_secrets db)) 0 [] e (called (tick w)) He Hk)
      as (w2 & E2 & _).
    unfold vault_list_secrets, with_rows. erewrite (bind_run (try _)); cycle 1.
    { unfold try. rewrite (require_unlocked_run _ _ _ k) by done.
      rewrite (bind_run _ _ _ _ () w) by (unfold require_db; by rewrite Hc).
      rewrite (bind_run _ _ _ _ _ _ E1), (bind_run _ _ _ _ _ _ (sql_query_healthy _ e (tick w) c He Hc)), Hcur.
      reflexivity. }
    cbv beta iota. rewrite (bind_run _ _ _ _ _ _ E2). unfold finalize_rows, try.
    rewrite (bind_run _ _ _ _ (Ok ()) (called w2)) by (by rewrite lib_call_healthy).
    by destruct (map_until _ _).
  - intros v. rewrite list_elem_of_fmap. unfold abstract. cbn [st_versions]. rewrite list_elem_of_fmap. split.
    + intros (r & -> & [Hr Ha]%Hin). split; [by exists r|]. cbn. by apply Z.eqb_eq.
    + intros [(r & -> & Hr) Hl]. exists r. split; [done|]. apply Hin. split; [done|]. cbn in Hl. by apply Z.eqb_eq.
Qed.


(** * The security report *)

Lemma count_rows_split p t : length t = count_rows p t + count_rows (λ r, negb (p r)) t.
Proof.
  unfold count_rows. induction t as [|r t IH]; [done|]. rewrite !filter_cons.
  destruct (p r); repeat case_decide; cbn in *; try done; lia.
Qed.

Lemma count_rows_le p q t : (∀ r, r ∈ t → p r = true → q r = true) → count_rows p t ≤ count_rows q t.
Proof.
  unfold count_rows. induction t as [|r t IH]; intros H; [done|]. rewrite !filter_cons.
  assert (∀ r', r' ∈ t → p r' = true → q r' = true) as Ht by (intros r' Hr'; apply H; by right).
  specialize (IH Ht). specialize (H r ltac:(by left)).
  destruct (p r), (q r); repeat case_decide; cbn in *; try done; try lia; by specialize (H eq_refl).
Qed.

(** Disjoint conditions add up. *)
Lemma count_rows_add p q s t :
  (∀ r, r ∈ t → s r = p r || q r ∧ p r && q r = false) →
  count_rows s t = count_rows p t + count_rows q t.
Proof.
  unfold count_rows. induction t as [|r t IH]; intros H; [done|]. rewrite !filter_cons.
  specialize (IH (λ r' Hr', H r' (list_elem_of_further _ _ _ Hr'))).
  destruct (H r (list_elem_of_here _ _)) as [-> Hd].
  destruct (p r), (q r); repeat case_decide; cbn in *; try done; lia.
Qed.

Lemma count_rows_ext p q t : (∀ r, r ∈ t → p r = q r) → count_rows p t = count_rows q t.
Proof. intros H. apply Nat.le_antisymm; apply count_rows_le; intros r Hr; by rewrite H. Qed.

(** Three different names of algorithms, and no other. *)
Lemma count_algorithms p t :
  (∀ r, r ∈ t → sr_algorithm r = str "AES-256-GCM" ∨ sr_algorithm r = str "XChaCha20-Poly1305" ∨
                sr_algorithm r = str "AEGIS-256") →
  count_rows p t = count_rows (λ r, p r && bool_decide (sr_algorithm r = str "AES-256-GCM")) t
    + count_rows (λ r, p r && bool_decide (sr_algorithm r = str "XChaCha20-Poly1305")) t
    + count_rows (λ r, p r && bool_decide (sr_algorithm r = str "AEGIS-256")) t.
Proof.
  intros H.
  rewrite (count_rows_add (λ r, p r && negb (bool_decide (sr_algorithm r = str "AEGIS-256")))
    (λ r, p r && bool_decide (sr_algorithm r = str "AEGIS-256")) p t).
  - f_equal. apply count_rows_add. intros r Hr.
    destruct (H r Hr) as [-> | [-> | ->]]; cbn; by destruct (p r).
  - intros r _. by destruct (p r), (bool_decide _).
Qed.

(** A name has a live version exactly when one of its rows is active, and
    then only one is. *)
Lemma live_names t :
  table_ok t →
  NoDup (sr_name <$> filter (λ r, Is_true (active_row t r)) t) ∧
  ∀ n, n ∈ sr_name <$> filter (λ r, Is_true (active_row t r)) t ↔
       n ∈ filter (λ n, count_rows (λ r, bool_decide (sr_name r = n) && active_row t r) t ≠ 0) (names_of t).
Proof.
  intros Ht. split.
  - assert (∀ l, NoDup l → (∀ r, r ∈ l → r ∈ t ∧ active_row t r = true) → NoDup (sr_name <$> l)) as H.
    { induction 1 as [|r l Hr Hl IH]; intros Hin; [constructor|]. cbn. constructor.
      - intros (q & E & Hq)%list_elem_of_fmap. destruct (Hin r ltac:(by left)) as [Hrt Hra].
        destruct (Hin q ltac:(by right)) as [Hqt Hqa]. rewrite active_live in Hra, Hqa by done.
        apply Z.eqb_eq in Hra, Hqa. pose proof (tk_live _ Ht r q Hrt Hqt Hra (eq_sym E)).
        pose proof (tk_live _ Ht q r Hqt Hrt Hqa E).
        assert (r = q) as -> by (apply (same_version_row t); [done|done|done|done|lia]). done.
      - apply IH. intros q Hq. apply Hin. by right. }
    apply H.
    + apply NoDup_filter. eapply NoDup_fmap_1, (proj1 (tk_ids _ Ht)).
    + intros r [Ha%Is_true_true Hr]%list_elem_of_filter. done.
  - intros n. rewrite list_elem_of_fmap, list_elem_of_filter. unfold names_of.
    rewrite elem_of_remove_dups, list_elem_of_fmap. unfold count_rows. split.
    + intros (r & -> & [Ha Hr]%list_elem_of_filter). split; [|by exists r]. intros E%nil_length_inv.
      assert (r ∈ []) as Hin; [|by apply not_elem_of_nil in Hin]. rewrite <- E. apply list_elem_of_filter.
      split; [|done]. rewrite bool_decide_true by done. exact Ha.
    + intros [Hne (q & -> & Hq)].
      destruct (filter (λ r, Is_true (bool_decide (sr_name r = sr_name q) && active_row t r)) t) as [|r l] eqn:E; [done|].
      assert (r ∈ r :: l) as Hr by (by left). rewrite <- E in Hr. apply list_elem_of_filter in Hr as [Ha Hr].
      apply andb_True in Ha as [Hn%bool_decide_unpack Ha]. exists r. split; [done|]. by apply list_elem_of_filter.
Qed.

Lemma filter_split {A} (P : A → Prop) `{∀ x, Decision (P x)} (l : list A) :
  length l = length (filter (λ x, ¬ P x) l) + length (filter P l).
Proof.
  induction l as [|x l IH]; [done|]. rewrite !filter_cons.
  destruct (decide (P x)), (decide (¬ P x)); try done; cbn; lia.
Qed.

(** Every name is live or deleted. *)
Lemma names_live_or_deleted t :
  table_ok t → length (names_of t) = count_rows (active_row t) t + length (deleted_names t).
Proof.
  intros Ht. destruct (live_names t Ht) as [Hnd Hin]. unfold deleted_names.
  rewrite (filter_split (λ n, count_rows (λ r, bool_decide (sr_name r = n) && active_row t r) t = 0) (names_of t)).
  f_equal. change (count_rows (active_row t) t) with (length (filter (λ r, Is_true (active_row t r)) t)).
  rewrite <- (length_fmap sr_name (filter (λ r, Is_true (active_row t r)) t)). symmetry. apply Permutation_length, NoDup_Permutation.
  - done.
  - apply NoDup_filter, NoDup_remove_dups.
  - intros n. by rewrite Hin.
Qed.

Lemma report_ok k db e w p w' :
  vault_state w k db → vault_security_report e w = (Ok p, w') →
  ∃ now soon root, p = with_counts (length (deleted_names (t_secrets db))) (length (t_audit_log db))
                        (length (t_audit_log db)) root (report_row now soon (t_secrets db)) ∧
    (t_audit_log db ≠ [] → merkle_root (ar_entry_hash <$> t_audit_log db) = Some root).
Proof.
  intros Hst H. unfold vault_security_report in H. do 2 guard_step H.
  next H now H1. forward Hst. next H soon H2. forward Hst.
  destruct (state_conn _ _ _ Hst) as (c & Hc & Hcur & Hk & Hdb).
  next H rep H3. apply (sql_query_in _ _ _ _ _ _ Hc) in H3 as ->. forward Hst.
  destruct (state_conn _ _ _ Hst) as (c1 & Hc1 & Hcur1 & _).
  next H del H4. apply (sql_query_in _ _ _ _ _ _ Hc1) in H4 as ->. forward Hst.
  destruct (state_conn _ _ _ Hst) as (c2 & Hc2 & Hcur2 & _).
  next H ent H5. apply (sql_query_in _ _ _ _ _ _ Hc2) in H5 as ->. forward Hst.
  apply bind_ok in H as (k' & w7 & H6 & H). apply g_subkeys_ok in H6 as [_ ->].
  next H u H7. forward Hst. destruct (state_conn _ _ _ Hst) as (c3 & Hc3 & Hcur3 & _).
  apply bind_ok in H as ([root leaves] & w8 & H8 & H). inv_m.
  exists (c_str now), (c_str soon), root. rewrite Hcur, Hcur1, Hcur2. split.
  - apply (compute_root_count _ _ _ c3) in H8 as ->; [|done]. by rewrite Hcur3.
  - intros Hne. apply (compute_root_ok _ _ _ c3) in H8 as (E & _); [|done|by rewrite Hcur3|done].
    by rewrite Hcur3 in E.
Qed.

(** the numbers of a security report fit together: the versions are the
    active and the archived ones, each name is active or deleted, every active
    secret has one of the three algorithms, expired and soon expiring secrets
    are different active ones; and they are those of the store: the versions,
    the live versions and the entries of the trail, with the Merkle root of
    the log. *)
Theorem vault_security_report_consistent k db e w p w' :
  vault_state w k db → vault_security_report e w = (Ok p, w') →
  rp_total_versions p = length (st_versions (abstract k db)) ∧
  rp_active_secrets p = length (filter (λ v, v_live v = true) (st_versions (abstract k db))) ∧
  rp_total_versions p = rp_active_secrets p + rp_archived_versions p ∧
  rp_distinct_names p = rp_active_secrets p + rp_deleted_names p ∧
  rp_active_secrets p = rp_active_aes256gcm p + rp_active_xchacha20poly1305 p + rp_active_aegis256 p ∧
  rp_expired_active p + rp_expiring_7d p ≤ rp_active_secrets p ∧
  rp_ttl_active p ≤ rp_active_secrets p ∧
  rp_audit_entries p = length (st_trail (abstract k db)) ∧ rp_audit_leaf_count p = rp_audit_entries p ∧
  (t_audit_log db ≠ [] → merkle_root (ar_entry_hash <$> t_audit_log db) = Some (rp_audit_root p)).
Proof.
  intros Hst H. destruct (report_ok _ _ _ _ _ _ Hst H) as (now & soon & root & -> & Hroot).
  destruct (state_conn _ _ _ Hst) as (_ & _ & _ & _ & Hdb). pose proof (db_table _ _ Hdb) as Ht.
  cbn -[count_rows names_of deleted_names active_row].
  set (t := t_secrets db) in *.
  assert (∀ p, count_rows (λ r, active_row t r && p r) t ≤ count_rows (active_row t) t) as Hle.
  { intros p. apply count_rows_le. by intros r _ [? _]%andb_true_iff. }
  assert (count_rows (λ r, active_row t r && true) t = count_rows (active_row t) t) as ->.
  { unfold count_rows. f_equal. apply list_filter_iff. intros r. by rewrite andb_true_r. }
  split_and!.
  - by rewrite length_fmap.
  - rewrite filter_fmap, length_fmap. transitivity (count_rows (λ r, (sr_is_archived r =? 0)%Z) t).
    + apply count_rows_ext. intros r Hr. by apply active_live.
    + unfold count_rows. f_equal. apply list_filter_iff. intros r. apply Is_true_true.
  - apply count_rows_split.
  - by apply names_live_or_deleted.
  - apply count_algorithms. intros r Hr. apply (table_row _ _ Ht) in Hr as [(_ & _ & _ & _ & _ & _ & Ha)]. exact Ha.
  - rewrite <- count_rows_add with (s := λ r, active_row t r && (text_leb (sr_expires_at r) now
      || bool_decide (is_Some (sr_expires_at r)) && negb (text_leb (sr_expires_at r) now)
         && text_leb (sr_expires_at r) soon)); [apply Hle|].
    intros r _. destruct (active_row t r), (text_leb (sr_expires_at r) now), (text_leb (sr_expires_at r) soon),
      (bool_decide (is_Some (sr_expires_at r))); done.
  - apply Hle.
  - by rewrite length_fmap.
  - done.
  - exact Hroot.
Qed.

End Queries.

(** * Witnesses *)

Module QueryExample.
Import VaultExample.
#[local] Existing Instance Toy.crypto.
#[local] Existing Instance Toy.laws.

(** The listing of the vault with one secret, a quarter of an hour after it
    was put: its time to live is over. *)
Lemma vault_list_secrets_spec_witness :
  ∃ item, (vault_list_secrets false collect [] later w_put).1 = Ok ([item], Ok 1) ∧
    li_name item = name ∧ li_is_expired item = true.
Proof.
  destruct (vault_list_secrets_spec false (keys w_open) (db_of w_put) later w_put) as [(now & Hnow & E) _];
    [exact put_state|exact (Sample.env_at_healthy _)|intros n; vm_compute; split; discriminate|].
  rewrite E. clear E. revert Hnow. vm_compute. intros [= <-]. eexists. split; [reflexivity|].
  split; reflexivity.
Defined.

Lemma vault_security_report_consistent_witness :
  ∃ p, (vault_security_report later w_second).1 = Ok p ∧
    rp_total_versions p = rp_active_secrets p + rp_archived_versions p ∧ rp_audit_leaf_count p = rp_audit_entries p.
Proof.
  destruct (run_ok (vault_security_report later w_second)) as (p & w & H); [vm_compute; reflexivity|].
  destruct (vault_security_report_consistent (keys w_open) (db_of w_second) later w_second p w second_state H)
    as (_ & _ & E1 & _ & _ & _ & _ & _ & E2 & _).
  exists p. rewrite H. exact (conj eq_refl (conj E1 E2)).
Defined.

End QueryExample.
