(* ===== verification/VaultFile.v ===== *)
(** The vault file and its backups at the interface of src/src/vault.c:
    [vault_init], [vault_open] and [vault_close], the encrypted backups and the
    signed audit roots. *)

From S2P Require Import Prelude Status Sodium Schema State Files Openssl Utils Storage Sqlite StorageFile KeyManager Merkle Backup AuditLog VaultRows Vault VaultSpec VaultRefine VaultUnlock VaultTheorems VaultQueries.

Section VaultFile.
Context {CR : Crypto} {PX : Posix} {OS : Openssl} {SQ : Sqlite}.

Definition vault_init (db_path : bytes) : M unit := vault_lock_state ;; storage_init db_path.
Definition vault_open (db_path : bytes) : M unit := vault_lock_state ;; storage_open db_path.
Definition vault_close : M unit := vault_lock_state ;; storage_close.

Definition vault_backup_keygen (public_key_path private_key_path private_key_passphrase : bytes) : M unit :=
  backup_pqc_keygen public_key_path private_key_path private_key_passphrase.

Definition vault_backup_export (recipient_public_key_path capsule_path : bytes) : M unit :=
  vault_require_unlocked ;;
  guard_or (negb (bool_decide (c_str recipient_public_key_path = [])) && negb (bool_decide (c_str capsule_path = [])))
    SM_ERR_INVALID_ARGUMENT ;;
  require_db ;;
  '(audit_root, _) ← vault_audit_merkle_root AUDIT_MERKLE_ROOT_BYTES;
  backup_pqc_export recipient_public_key_path capsule_path audit_root.

Definition vault_backup_import (private_key_path private_key_passphrase capsule_path output_db_path : bytes)
  : M unit :=
  backup_pqc_import private_key_path private_key_passphrase capsule_path output_db_path.

Definition vault_audit_signing_keygen (public_key_path private_key_path private_key_passphrase : bytes) : M unit :=
  backup_mldsa_keygen public_key_path private_key_path private_key_passphrase.

(** What is signed: the root and the number of leaves. *)
Definition signed_message (root : bytes) (leaf_count : nat) : bytes :=
  root ++ utils_write_u64_le (Z.of_nat leaf_count).

(** The root, the number of leaves and the signature. *)
Definition vault_audit_sign_root (private_key_path private_key_passphrase : bytes) (root_len signature_len : nat)
  : M (bytes * nat * bytes) :=
  guard_or (root_len =? AUDIT_MERKLE_ROOT_BYTES)%nat SM_ERR_INVALID_ARGUMENT ;;
  '(root, leaf_count) ← vault_audit_merkle_root root_len;
  signature ← backup_mldsa_sign private_key_path private_key_passphrase (signed_message root leaf_count) signature_len;
  mret (root, leaf_count, signature).

End VaultFile.

Section Theorems.
Context {CR : Crypto} {CL : CryptoLaws CR} {PX : Posix} {PL : PosixLaws PX}.
Context {OS : Openssl} {OL : OpensslLaws OS} {SQ : Sqlite} {SL : SqliteLaws SQ}.

#[export] Instance keeps_audit_root n : Keeps same_state (vault_audit_merkle_root n).
Proof. unfold vault_audit_merkle_root. apply _. Qed.

(** Opening the file of a vault locks the session; unlocking it with a
    password that fits gives the state of the vault. *)
Lemma reopen path p password k db e2 e3 w :
  db_ok k db → opens password k (t_metadata db) → c_str password ≠ [] →
  w_conn w = None → resolves path p → holds_database p db (d_files (w_disk w)) →
  no_sidecars p (d_files (w_disk w)) → healthy e2 → healthy e3 →
  ∃ w2 w3, vault_open path e2 w = (Ok (), w2) ∧ w_unlocked w2 = false ∧
    vault_unlock_existing password e3 w2 = (Ok (), w3) ∧ vault_state w3 k db.
Proof.
  intros Hdb Ho Hpw Hc Hp Hh Hs He2 He3.
  destruct (wp_storage_open path p db
    (λ _ w', w_conn w' = Some (Connection db db false) ∧ w_unlocked w' = false) e2 (set_session None false w))
    as ([] & w2 & R2 & C2 & U2); [done..|].
  destruct (unlock_right password false k e3 w2 (Connection db db false)) as (w3 & R3 & A1 & A2 & A3 & _); [done..|].
  exists w2, w3. split_and!; [exact R2|done|exact R3|].
  apply state_of_unlock; [|by unfold visible; rewrite A1, C2|done..].
  exists (Connection db db false). rewrite A1. by split_and!.
Qed.

(** a vault survives its process: after [vault_close], which locks the
    session and may have run in any environment, [vault_open] and
    [vault_unlock_existing] with the same password give the same keys and the
    same database; until the unlock the session stays locked. *)
Theorem vault_close_reopen path p password k db e1 w u w1 e2 e3 :
  vault_state w k db → opens password k (t_metadata db) → c_str password ≠ [] →
  database_open p w → resolves path p → log_only p (d_files (w_disk w)) →
  vault_close e1 w = (Ok u, w1) → healthy e2 → healthy e3 →
  w_subkeys w1 = None ∧ w_unlocked w1 = false ∧ w_conn w1 = None ∧
  ∃ w2 w3, vault_open path e2 w1 = (Ok (), w2) ∧ w_unlocked w2 = false ∧
    vault_unlock_existing password e3 w2 = (Ok (), w3) ∧ vault_state w3 k db.
Proof.
  intros Hst Ho Hpw Hd Hp Hlog H He2 He3. destruct (vault_state_conn _ _ _ Hst) as (c & Hc & Hcur & Hq & _ & Hdb).
  destruct Hq as (c0 & Hc0 & _ & Hcom). assert (c0 = c) as -> by congruence.
  destruct (close_ok p c e1 (set_session None false w) u w1 H Hd Hc) as (Hh & Hn & Hk & Hu & Hside & _).
  split_and!; [done..|]. rewrite Hcom, Hcur in Hh. apply (reopen path p); try done; [by rewrite <- Hcur|by apply Hside].
Qed.

(** What a successful backup of a vault wrote. *)
Lemma vault_export_ok pub cap k db e w u w' :
  vault_backup_export pub cap e w = (Ok u, w') → vault_state w k db →
  ∃ root w1, same_state w w1 ∧ backup_pqc_export pub cap root e w1 = (Ok u, w').
Proof.
  unfold vault_backup_export. intros H Hst. apply bind_ok in H as (? & w1 & H1 & H).
  assert (w1 = w) as -> by (unfold vault_require_unlocked in H1; by injection H1).
  apply bind_ok in H as (? & ? & [_ ->]%guard_ok & H). apply bind_ok in H as (? & ? & [_ ->]%require_db_ok & H).
  apply bind_ok in H as ([root n] & w1 & H2 & H). exists root, w1. split; [by apply (keeps_run same_state _ _ _ _ _ H2)|done].
Qed.

(** C8: disaster recovery: after [vault_backup_keygen] and
    [vault_backup_export] of an unlocked vault, however the environments of the
    two behave, a process that has the key files and the capsule restores the
    vault: [vault_backup_import] makes the file, and opening it and unlocking
    it with the password of the vault at the time of the export give the keys
    and the database of that time. *)
Theorem vault_backup_restores pub priv pass cap out outp p password k db e0 w0 w0' e1 w w1 e2 w2 e3 e4 :
  vault_backup_keygen pub priv pass e0 w0 = (Ok (), w0') → (length (c_str pass) ≤ PEM_BUFSIZE)%nat →
  d_files (w_disk w0') ⊆ d_files (w_disk w) →
  vault_state w k db → opens password k (t_metadata db) → c_str password ≠ [] → database_open p w →
  vault_backup_export pub cap e1 w = (Ok (), w1) →
  d_files (w_disk w1) ⊆ d_files (w_disk w2) → w_conn w2 = None →
  resolves out outp → d_files (w_disk w2) !! outp = None → no_sidecars outp (d_files (w_disk w2)) →
  healthy e2 → healthy e3 → healthy e4 →
  ∃ w3 w4 w5, vault_backup_import priv pass cap out e2 w2 = (Ok (), w3) ∧
    vault_open out e3 w3 = (Ok (), w4) ∧ vault_unlock_existing password e4 w4 = (Ok (), w5) ∧ vault_state w5 k db.
Proof.
  intros [Hne (r1 & r2 & Hk)]%pqc_keygen_ok Hlen Hsub Hst Ho Hpw Hd Hexp Hsub2 Hc2 Hout Hnone Hside He2 He3 He4.
  destruct (vault_export_ok _ _ _ _ _ _ _ _ Hexp Hst) as (root & w' & S & Hexp').
  destruct (vault_state_conn _ _ _ Hst) as (c & Hc & Hcur & _ & _ & Hdb). pose proof S as (Sc & _ & _ & Sd).
  destruct (export_import pub priv pass cap out root outp r1 r2 c e1 w' () w1 e2 w2) as (w3 & R3 & W3); try done.
  { rewrite Sd. by eapply wrote_key_files. }
  { congruence. }
  pose proof (wrote_file _ _ _ _ W3) as F3. destruct W3 as (C3 & _ & _ & _ & D3).
  destruct Hd as (f & cat & ch & _ & _ & Hdf & Hv & _).
  destruct (image_serialize cat db) as (cat' & Hi & Hv'). rewrite Hv in Hv'.
  destruct (reopen out outp password k db e3 e4 w3) as (w4 & w5 & R4 & _ & R5 & H5); try done.
  { by rewrite <- Hcur. }
  { congruence. }
  { exists (created S_IRUSR_IWUSR (snapshot_of w' c)), cat'. split_and!; [done..| |done].
    unfold snapshot_of. by rewrite Sd, Hdf, Hcur. }
  { rewrite D3. by apply no_sidecars_insert. }
  by exists w3, w4, w5.
Qed.

End Theorems.

(** * Opening in any environment *)

Section Stored.
Context {CR : Crypto} {CL : CryptoLaws CR} {PX : Posix} {PL : PosixLaws PX} {SQ : Sqlite} {SL : SqliteLaws SQ}.

Lemma sqlite_open_ok p e w u w' :
  sqlite3_open_v2 p false e w = (Ok u, w') → w' = called w.
Proof.
  intros H. unfold sqlite3_open_v2 in H. apply bind_ok in H as (? & ? & [_ ->]%lib_call_ok & H).
  unfold mbind, M_bind, get_files in H. destruct (_ !! p); [by apply guard_ok in H as [_ ->]|discriminate H].
Qed.

Lemma journal_wal_ok p f cat db e w u w' :
  journal_mode_wal p e w = (Ok u, w') → d_files (w_disk w) !! p = Some f → f_kind f = Regular →
  sqlite3_image (f_content f) = Some (cat, db) → no_sidecars p (d_files (w_disk w)) →
  opened_on p f cat db w w'.
Proof.
  intros H Hf Hk Hi Hn. destruct (env_fault e (w_calls w)) eqn:He.
  - exfalso. unfold journal_mode_wal, mbind at 1, M_bind at 1, get_files in H. rewrite Hf in H.
    destruct f as [k content owned mode]. cbn in Hk. subst k.
    unfold mbind, M_bind, try, lib_call in H. rewrite He in H. discriminate H.
  - destruct (journal_wal_run p f cat db e w) as (w1 & E & O); [done..|]. rewrite E in H. by injection H as _ <-.
Qed.

(** [storage_open], when it succeeds in whatever environment, gives the
    database that is in the file. *)
Lemma open_ok path p db e w u w' :
  storage_open path e w = (Ok u, w') → resolves path p → w_conn w = None →
  holds_database p db (d_files (w_disk w)) → no_sidecars p (d_files (w_disk w)) →
  w_conn w' = Some (Connection db db false) ∧ database_open p w' ∧ log_only p (d_files (w_disk w')).
Proof.
  intros H Hp Hc Hh Hs. unfold storage_open in H. apply bind_ok in H as (? & ? & [_ ->]%guard_ok & H).
  apply bind_ok in H as (? & w1 & H1 & H). assert (w1 = w) as ->.
  { unfold no_handle in H1. apply bind_ok in H1 as (? & ? & [= <- <-] & [_ ->]%guard_ok). done. }
  apply bind_ok in H as (? & w2 & H2 & H). destruct (open_owner_only_cases _ _ _ _ _ _ H2 Hp) as [T2 _].
  apply bind_ok in H as (q & w3 & H3 & H).
  pose proof (tightened_holds _ _ _ _ _ T2 Hh) as Hh2. pose proof Hh2 as (f2 & _ & Hf2 & Hk2 & _).
  destruct (resolve_db_cases _ _ _ _ _ _ _ H3 Hp Hf2) as [S3 ->]; [by apply regular_no_link|].
  assert (tightened (vault_files p) w w3) as T3 by (etrans; [exact T2|by apply same_state_tightened]).
  destruct (tightened_holds _ _ _ _ _ T3 Hh) as (f & cat & Hf & Hk & Hi & Hv).
  pose proof (tightened_no_sidecars _ _ _ _ T3 Hs) as Hs3. apply or_close_ok in H.
  apply bind_ok in H as (? & w4 & ->%sqlite_open_ok & H). apply bind_ok in H as (? & w5 & H5 & H).
  apply (journal_wal_ok p f cat db) in H5; [|done..].
  apply bind_ok in H as (? & w6 & H6 & H). destruct (sidecars_cases _ _ _ _ _ _ H6 Hp) as [T6 _].
  assert (tightened (vault_files p) w5 w') as T7.
  { etrans; [exact T6|]. apply same_state_tightened. exact (keeps_run same_state _ _ _ _ _ H). }
  pose proof T7 as (C7 & _). pose proof H5 as (C5 & _ & _ & _ & _ & L5 & _).
  split_and!; [congruence|exact (tightened_open _ _ _ _ T7 (opened_database _ _ _ _ _ _ H5 Hk Hv))|exact (tightened_log _ _ _ _ T7 L5)].
Qed.

End Stored.

(** * Witnesses *)

Module VaultFileExample.
Import VaultExample.
#[local] Existing Instance Toy.crypto.
#[local] Existing Instance Toy.laws.
#[local] Existing Instance ToyPosix.posix.
#[local] Existing Instance ToyPosix.laws.
#[local] Existing Instance ToyOpenssl.openssl.
#[local] Existing Instance ToyOpenssl.laws.
#[local] Existing Instance ToySqlite.sqlite.
#[local] Existing Instance ToySqlite.laws.
Import StorageExample.

(** The vault of [StorageExample], unlocked for the first time, and with a
    pair of backup keys next to it. *)
Definition w_vault : world := (vault_unlock pw e0 w_init).2.
Definition w_keys : world := (vault_backup_keygen BackupExample.pub BackupExample.priv BackupExample.pass e0 w_vault).2.
Definition w_export : world := (vault_backup_export BackupExample.pub BackupExample.cap e0 w_keys).2.

Lemma vault_state_of : vault_state w_vault (keys w_vault) (db_of w_vault) ∧ opens pw (keys w_vault) (t_metadata (db_of w_vault)).
Proof.
  pose proof (proj1 (proj2 init_open)) as Hc.
  apply (first_unlock e0 w_init ()); [|unfold visible; rewrite Hc; reflexivity|runs (vault_unlock pw) e0 w_init].
  exact (ex_intro _ _ (conj Hc (conj eq_refl eq_refl))).
Qed.

(** A world with the same session is in the same state of the vault. *)
Lemma same_vault w w' k db :
  w_conn w' = w_conn w → w_subkeys w' = w_subkeys w → w_unlocked w' = w_unlocked w → vault_state w k db → vault_state w' k db.
Proof. intros E1 E2 E3. unfold vault_state, quiescent, visible. by rewrite E1, E2, E3. Qed.

Lemma keygen_same e w w' a b c :
  vault_backup_keygen a b c e w = (Ok (), w') → w_conn w' = w_conn w ∧ w_subkeys w' = w_subkeys w ∧ w_unlocked w' = w_unlocked w.
Proof. intros (_ & r1 & r2 & pubp & privp & krs & _ & _ & _ & _ & _ & _ & Ec & Ek & Eu & _)%pqc_keygen_ok. auto. Qed.

Lemma keys_run : vault_backup_keygen BackupExample.pub BackupExample.priv BackupExample.pass e0 w_vault = (Ok (), w_keys).
Proof. runs (vault_backup_keygen BackupExample.pub BackupExample.priv BackupExample.pass) e0 w_vault. Qed.

Lemma keys_state : vault_state w_keys (keys w_vault) (db_of w_vault).
Proof.
  pose proof (keygen_same _ _ _ _ _ _ keys_run) as E.
  exact (same_vault _ _ _ _ (proj1 E) (proj1 (proj2 E)) (proj2 (proj2 E)) (proj1 vault_state_of)).
Qed.

Lemma file_open w :
  f_kind <$> d_files (w_disk w) !! p = Some Regular → df_entry (d_database (w_disk w)) = p →
  df_changed (d_database (w_disk w)) = true →
  storage_verify_schema (df_catalogue (d_database (w_disk w))) = Ok () → database_open p w.
Proof.
  intros (f & Hf & Hk)%fmap_Some He Ech Hv. exists f, (df_catalogue (d_database (w_disk w))), true.
  split_and!; [done|done| |done|done]. destruct (d_database (w_disk w)) as [q cat ch]. cbn in *. by subst.
Qed.

Lemma vault_close_reopen_witness :
  ∃ w2 w3, vault_open path e0 (vault_close e0 w_vault).2 = (Ok (), w2) ∧ w_unlocked w2 = false ∧
    vault_unlock_existing pw e0 w2 = (Ok (), w3) ∧ vault_state w3 (keys w_vault) (db_of w_vault).
Proof.
  apply (vault_close_reopen path p pw (keys w_vault) (db_of w_vault) e0 w_vault () (vault_close e0 w_vault).2 e0 e0);
    [exact (proj1 vault_state_of)|exact (proj2 vault_state_of)|vm_compute; discriminate
    |apply file_open; vm_compute; reflexivity|exact path_resolves|split_and!; vm_compute; reflexivity
    |runs vault_close e0 w_vault|exact (Sample.env_at_healthy _)..].
Defined.

(** Another process with the same files. *)
Definition other (w : world) : world := World None None false (w_disk w) 0 0 0.

Lemma other_files w : d_files (w_disk w) ⊆ d_files (w_disk (other w)).
Proof. reflexivity. Qed.
Lemma other_conn w : w_conn (other w) = None.
Proof. reflexivity. Qed.

Lemma vault_backup_restores_witness :
  ∃ w3 w4 w5, vault_backup_import BackupExample.priv BackupExample.pass BackupExample.cap BackupExample.out e0 (other w_export)
      = (Ok (), w3) ∧
    vault_open BackupExample.out e0 w3 = (Ok (), w4) ∧ vault_unlock_existing pw e0 w4 = (Ok (), w5) ∧
    vault_state w5 (keys w_vault) (db_of w_vault).
Proof.
  apply (vault_backup_restores BackupExample.pub BackupExample.priv BackupExample.pass BackupExample.cap BackupExample.out
    (BackupExample.entry BackupExample.out) p pw (keys w_vault) (db_of w_vault) e0 w_vault w_keys e0 w_keys w_export
    e0 (other w_export) e0 e0);
    [exact keys_run
    |vm_compute; lia|reflexivity|exact keys_state|exact (proj2 vault_state_of)|vm_compute; discriminate
    |apply file_open; vm_compute; reflexivity
    |runs (vault_backup_export BackupExample.pub BackupExample.cap) e0 w_keys
    |exact (other_files w_export)|exact (other_conn w_export)|exact BackupExample.out_resolves|vm_compute; reflexivity
    |split_and!; vm_compute; reflexivity|exact (Sample.env_at_healthy _)..].
Defined.

End VaultFileExample.
