(* ===== verification/VaultTokens.v ===== *)
(** The access tokens of the vault (end of src/src/vault.c): issuing, checking
    and revoking, on top of [Access].

    A revocation stores the time as [token_not_before]: no token issued until
    then is accepted any more. The theorems say that this holds for ever, and
    that a token which is neither revoked nor expired is accepted. *)

From S2P Require Import Prelude Status Sodium Schema State Utils Kdf CryptoEngine Storage KeyManager Merkle AuditLog Access VaultRows Vault VaultSpec VaultRefine VaultReads VaultTheorems.

Section VaultTokens.
Context {CR : Crypto} {J : Cjson}.

Definition vault_issue_token (subject scope : bytes) (ttl_seconds : Z) (token_len : nat) : M bytes :=
  guard_or (negb (token_len =? 0)%nat) SM_ERR_INVALID_ARGUMENT ;;
  vault_require_unlocked ;;
  k ← g_subkeys;
  issued_token ← access_issue_token subject scope ttl_seconds (kek_token k) ACCESS_TOKEN_BUFFER_LEN;
  guard_or (length (c_str issued_token) <? token_len)%nat SM_ERR_INVALID_ARGUMENT ;;
  vault_log_success (str "TOKEN_ISSUE") (c_str subject) 0 ;;
  mret (c_str issued_token).

Definition vault_check_token (token : bytes) (required_scope : option bytes) : M unit :=
  vault_require_unlocked ;;
  k ← g_subkeys;
  claims ← access_verify_token token required_scope (kek_token k);
  not_before ← vault_get_token_not_before;
  guard_or (negb ((0 <? not_before)%Z && (tc_issued_at claims <=? not_before)%Z)) SM_ERR_AUTH.

Definition revoke_statements (now : Z) : M unit :=
  vault_put_token_not_before now ;;
  vault_log_success (str "TOKEN_REVOKE") (str "tokens") 0.

Definition vault_revoke_tokens : M unit :=
  vault_require_unlocked ;;
  now ← time_null;
  guard_or (negb (now <=? 0)%Z) SM_ERR_STORAGE ;;
  finish_transaction (storage_begin_transaction ;; revoke_statements now).

(** * Views of the database *)

(** What the connection sees and what is durable show, under [f], nothing that
    was not there before. *)
Definition keeps_view {X} (f : database → X) (w w' : world) : Prop :=
  ∀ c', w_conn w' = Some c' → ∃ c, w_conn w = Some c ∧
    (f (conn_cur c') = f (conn_cur c) ∨ f (conn_cur c') = f (conn_committed c)) ∧
    (f (conn_committed c') = f (conn_cur c) ∨ f (conn_committed c') = f (conn_committed c)).

Section Views.
Context {X : Type} (f : database → X).

#[export] Instance keeps_view_preorder : PreOrder (keeps_view f).
Proof.
  split; [intros w c Hc; exists c; auto|].
  intros w1 w2 w3 H1 H2 c3 Hc3. destruct (H2 c3 Hc3) as (c2 & Hc2 & I1 & I2).
  destruct (H1 c2 Hc2) as (c1 & Hc1 & J1 & J2). exists c1. split; [done|].
  destruct I1 as [-> | ->], I2 as [-> | ->]; auto.
Qed.

Lemma view_conn w w' : w_conn w' = w_conn w → keeps_view f w w'.
Proof. intros E c Hc. exists c. rewrite <- E. auto. Qed.

Lemma view_statement {A} (u : database → option (database * A)) :
  (∀ db db' a, u db = Some (db', a) → f db' = f db) → Keeps (keeps_view f) (sql_exec u).
Proof.
  intros Hu e w. unfold sql_exec. destruct (w_conn w) as [c|] eqn:Hc; [|by apply view_conn].
  destruct (env_fault _ _); [by apply view_conn|]. destruct (u (conn_cur c)) as [[db a]|] eqn:E; [|by apply view_conn].
  apply Hu in E. intros c' [= <-]. exists c. cbn [conn_cur conn_committed].
  split_and!; [done|auto|destruct (conn_in_tx c); auto].
Qed.

Lemma view_tx_statement ready g :
  (∀ c, (conn_cur (g c) = conn_cur c ∨ conn_cur (g c) = conn_committed c) ∧
        (conn_committed (g c) = conn_cur c ∨ conn_committed (g c) = conn_committed c)) →
  Keeps (keeps_view f) (tx_statement ready g).
Proof.
  intros Hg e w. unfold tx_statement. destruct (w_conn w) as [c|] eqn:Hc; [|by apply view_conn].
  destruct (env_fault _ _); [by apply view_conn|]. destruct (ready c); [|by apply view_conn].
  intros c' [= <-]. exists c. split; [done|]. destruct (Hg c) as [[-> | ->] [-> | ->]]; auto.
Qed.

#[export] Instance view_same {A} (m : M A) : Keeps same_state m → Keeps (keeps_view f) m | 10.
Proof. intros K e w. destruct (K e w) as (E & _). by apply view_conn. Qed.
#[export] Instance view_begin : Keeps (keeps_view f) storage_begin_transaction.
Proof. apply view_tx_statement. cbn. auto. Qed.
#[export] Instance view_commit : Keeps (keeps_view f) storage_commit_transaction.
Proof. apply view_tx_statement. cbn. auto. Qed.
#[export] Instance view_rollback : Keeps (keeps_view f) storage_rollback_transaction.
Proof. apply view_tx_statement. cbn. auto. Qed.
#[export] Instance view_session k : Keeps (keeps_view f) (vault_set_session k).
Proof. intros e w. by apply view_conn. Qed.
#[export] Instance view_finish m : Keeps (keeps_view f) m → Keeps (keeps_view f) (finish_transaction m).
Proof. intros Hm. unfold finish_transaction. apply _. Qed.

End Views.

(** The metadata change in a few places only. *)
Notation keeps_metadata := (keeps_view t_metadata).

#[export] Instance md_log_event ac a t v r k : Keeps keeps_metadata (audit_log_event ac a t v r k).
Proof.
  assert (∀ row, Keeps keeps_metadata (sql_exec (λ db,
    t ← insert_audit_row row (t_audit_log db); Some (with_audit_log t db, ())))).
  { intros row. apply view_statement. intros db db' [] H. cbn in H.
    destruct (insert_audit_row _ _); [|done]. by injection H as <-. }
  unfold audit_log_event. apply _.
Qed.
#[export] Instance md_log_success a t v : Keeps keeps_metadata (vault_log_success a t v).
Proof. unfold vault_log_success. apply _. Qed.
#[export] Instance md_resign_chain k : Keeps keeps_metadata (audit_resign_chain k).
Proof.
  assert (∀ x, Keeps keeps_metadata (resign_update x)).
  { intros x. unfold resign_update. apply keeps_bind; [apply _| |apply _]. apply view_statement. intros db db' n.
    destruct (update_signature _ _ _). by intros [= <- _]. }
  unfold audit_resign_chain. apply _.
Qed.
#[export] Instance md_rotate_keys k k' : Keeps keeps_metadata (key_manager_rotate_kek k k').
Proof.
  assert (∀ i a b c, Keeps keeps_metadata (key_manager_update_wrapped_dek i a b c)).
  { intros i a b c. unfold key_manager_update_wrapped_dek. apply keeps_bind; [apply _..|intros ?].
    apply keeps_bind; [apply _| |apply _]. apply view_statement. intros db db' n.
    destruct (update_where _ _ _). by intros [= <- _]. }
  unfold key_manager_rotate_kek, rotate_row. keeps_tac.
Qed.
#[export] Instance md_insert_secret i n nn en v c ct ut ex ri es :
  Keeps keeps_metadata (vault_insert_secret i n nn en v c ct ut ex ri es).
Proof.
  unfold vault_insert_secret. do 3 (apply keeps_bind; [apply _..|intros ?]).
  apply view_statement. intros db db' [] H. cbn in H. destruct (insert_secret_row _ _); [|done]. by injection H as <-.
Qed.
#[export] Instance md_archive n u r : Keeps keeps_metadata (vault_archive_active_secret n u r).
Proof.
  unfold vault_archive_active_secret. apply keeps_bind; [apply _..|intros ?].
  apply keeps_bind; [apply _| |apply _]. apply view_statement. intros db db' k.
  destruct (update_where _ _ _). by intros [= <- _].
Qed.
#[export] Instance md_put_statements a ac i n d v c nw ex ttl es :
  Keeps keeps_metadata (put_statements a ac i n d v c nw ex ttl es).
Proof. unfold put_statements. apply _. Qed.
#[export] Instance md_put name secret alg ttl : Keeps keeps_metadata (vault_put_with_options name secret alg ttl).
Proof. unfold vault_put_with_options. keeps_tac. Qed.

(** * The revocation time *)

(** The stored [token_not_before]. *)
Definition not_before (db : database) : option bytes := t_metadata db !! VAULT_METADATA_TOKEN_NOT_BEFORE.

Notation keeps_not_before := (keeps_view not_before).

(** What the connection sees, and what is durable, of it. *)
Definition not_before_is (b : option bytes) (w : world) : Prop :=
  ∀ c, w_conn w = Some c → not_before (conn_cur c) = b ∧ not_before (conn_committed c) = b.

Lemma not_before_kept b w w' : keeps_not_before w w' → not_before_is b w → not_before_is b w'.
Proof.
  intros K Hb c' Hc'. destruct (K c' Hc') as (c & Hc & I1 & I2). destruct (Hb c Hc) as [E1 E2].
  rewrite E1, E2 in *. tauto.
Qed.

#[export] Instance nb_metadata {A} (m : M A) : Keeps keeps_metadata m → Keeps keeps_not_before m | 20.
Proof.
  intros K e w c' Hc'. destruct (K e w c' Hc') as (c & Hc & I1 & I2). exists c. split; [done|].
  unfold not_before. destruct I1 as [-> | ->], I2 as [-> | ->]; auto.
Qed.
Lemma nb_put_blob key value :
  key ≠ VAULT_METADATA_TOKEN_NOT_BEFORE → Keeps keeps_not_before (vault_put_metadata_blob key value).
Proof.
  intros Hk. unfold vault_put_metadata_blob. repeat (apply keeps_bind; [apply _..|intros ?]).
  apply view_statement. intros db db' [] [= <-]. unfold not_before. cbn. by rewrite lookup_insert_ne.
Qed.
#[export] Instance nb_put_meta_key m k : Keeps keeps_not_before (vault_put_wrapped_meta_key m k).
Proof.
  unfold vault_put_wrapped_meta_key.
  do 4 (apply keeps_bind; [apply _|first [apply _|by apply nb_put_blob]|intros ?]). by apply nb_put_blob.
Qed.
#[export] Instance nb_rotate_kek_statements k k' s v : Keeps keeps_not_before (rotate_kek_statements k k' s v).
Proof.
  unfold rotate_kek_statements.
  do 6 (apply keeps_bind; [apply _|first [apply _|by apply nb_put_blob]|intros ?]). apply _.
Qed.
#[export] Instance nb_run_op o : Keeps keeps_not_before (run_op o).
Proof.
  destruct o; cbn [run_op];
    unfold vault_put_with_options, vault_get, vault_get_version, vault_read_secret, vault_delete, vault_rollback,
      vault_rotate_expired_secret, vault_rotate_kek, delete_statements; keeps_tac.
Qed.
#[export] Instance nb_run_ops os : Keeps keeps_not_before (run_ops os).
Proof. induction os; cbn [run_ops]; apply _. Qed.

(** * What the operations do *)

Context {CL : CryptoLaws CR} {JL : CjsonLaws J}.

Lemma get_not_before_ok e w c nb w' :
  w_conn w = Some c → vault_get_token_not_before e w = (Ok nb, w') →
  nb = match t_metadata (conn_cur c) !! VAULT_METADATA_TOKEN_NOT_BEFORE with None => 0%Z | Some v => read_le v end.
Proof.
  intros Hc H. unfold vault_get_token_not_before, vault_get_metadata_blob in H.
  apply bind_ok in H as (r & w1 & H1 & H). apply bind_ok in H1 as (? & w2 & H2 & H1).
  apply require_db_ok in H2 as [_ ->]. apply bind_ok in H1 as (o & w3 & H2 & H1).
  apply (sql_query_in _ _ _ _ _ _ Hc) in H2 as <-.
  destruct o as [v|]; inv_m; [|done]. by inv_m.
Qed.

(** An accepted token was issued after the stored revocation. *)
Lemma check_token_ok token required e w u w' :
  vault_check_token token required e w = (Ok u, w') →
  ∃ k c claims w1, w_subkeys w = Some k ∧ w_conn w = Some c ∧
    access_verify_token token required (kek_token k) e w = (Ok claims, w1) ∧
    ∀ v, t_metadata (conn_cur c) !! VAULT_METADATA_TOKEN_NOT_BEFORE = Some v →
      (0 < read_le v)%Z → (read_le v < tc_issued_at claims)%Z.
Proof.
  unfold vault_check_token. intros H. guard_step H.
  apply bind_ok in H as (k & w1 & H1 & H). apply g_subkeys_ok in H1 as [Hk ->].
  next H claims H2. apply bind_ok in H as (nb & w2 & H3 & H). inv_m.
  destruct (w_conn w) as [c|] eqn:Hc.
  2:{ destruct K as (E & _). unfold vault_get_token_not_before, vault_get_metadata_blob in H3.
      apply bind_ok in H3 as (? & ? & H3 & _). apply bind_ok in H3 as (? & ? & H3 & _).
      apply require_db_ok in H3 as [(? & ?) _]. congruence. }
  exists k, c, claims, w0. split_and!; [done|done|done|].
  intros v Hv Hpos. destruct K as (E & _). rewrite Hc in E.
  apply (get_not_before_ok _ _ c) in H3; [|done]. rewrite Hv in H3. subst nb.
  match goal with H : negb (_ && _) = true |- _ => rename H into Hg end.
  apply negb_true_iff, andb_false_iff in Hg as [Hg%Z.ltb_ge|Hg%Z.leb_gt]; lia.
Qed.

Lemma revoke_ok k db e w u w' :
  vault_state w k db → vault_revoke_tokens e w = (Ok u, w') →
  ∃ db', vault_state w' k db' ∧
    abstract k db' = record (Event (str "TOKEN_REVOKE") (str "tokens") 0) (abstract k db) ∧
    t_metadata db' !! VAULT_METADATA_TOKEN_NOT_BEFORE = Some (write_le 8 (env_clock e (w_ticks w))) ∧
    (0 < env_clock e (w_ticks w))%Z.
Proof.
  intros Hst H. unfold vault_revoke_tokens in H. guard_step H.
  next H now H1. unfold time_null in H1. injection H1 as <- <-. forward Hst.
  apply bind_ok in H as (? & w1 & H1 & H). apply guard_ok in H1 as [Hpos%negb_true_iff%Z.leb_gt ->].
  pose proof Hst as (_ & _ & Hu & _).
  destruct (vault_state_conn _ _ _ Hst) as (c & Hc & Hcur & Hq & Hk & Hdb).
  destruct (transaction_ok _ _ c _ u w' Hq Hc (or_introl H))
    as (wa & wb & c0 & c1 & c' & Hc0 & Hcur0 & Hk0 & Hs & Hc1 & Hq' & Hc' & Hcur' & Hk' & Hu').
  unfold revoke_statements, vault_put_token_not_before, utils_write_u64_le in Hs.
  apply bind_ok in Hs as (? & w2 & H2 & Hs). pose proof (keeps_run in_transaction _ _ _ _ _ H2) as (K & _).
  apply (put_metadata_ok _ _ _ _ c0) in H2 as (c2 & Hc2 & Hcur2); [|done].
  rewrite Hcur0, Hcur in Hcur2. rewrite Hcur in Hdb.
  apply (log_success_ok _ _ _ _ _ c2 k) in Hs as (c3 & a & Hc3 & Hcur3 & Hl & Hev);
    [|done|congruence|rewrite Hcur2; apply Hdb|done|done].
  assert (c3 = c1) as -> by congruence. rewrite Hcur2 in Hcur3, Hl. cbn [t_audit_log put_metadata] in Hcur3, Hl.
  exists (conn_cur c1). split_and!.
  - unfold vault_state, visible. rewrite Hc'. cbn. rewrite Hcur', Hcur3. split_and!; try done; try congruence.
    by destruct Hdb; split.
  - rewrite Hcur3. unfold abstract, record. cbn [t_secrets t_audit_log with_audit_log put_metadata st_versions st_trail].
    by rewrite fmap_app, <- Hev.
  - rewrite Hcur3. cbn. by rewrite lookup_insert_eq.
  - exact Hpos.
Qed.


Lemma issue_ok subject scope ttl n k db e w token w' :
  vault_state w k db → vault_issue_token subject scope ttl n e w = (Ok token, w') →
  let iat := env_clock e (w_ticks w) in
  ∃ db' nonce, vault_state w' k db' ∧ t_metadata db' = t_metadata db ∧
    abstract k db' = record (Event (str "TOKEN_ISSUE") (c_str subject) 0) (abstract k db) ∧
    length nonce = ACCESS_NONCE_BYTES ∧
    token = (let p := issued_payload subject scope nonce iat (iat + ttl) in
             token_text p (crypto_auth p (kek_token k))) ∧
    (c_str subject ≠ [] ∧ length (c_str subject) < ACCESS_SUBJECT_MAX) ∧
    (c_str scope ≠ [] ∧ length (c_str scope) < ACCESS_SCOPE_MAX) ∧
    (0 ≤ iat)%Z ∧ (iat + ttl ≤ ACCESS_MAX_JSON_SECONDS)%Z ∧
    length token < ACCESS_TOKEN_BUFFER_LEN ∧ length (kek_token k) = crypto_auth_KEYBYTES.
Proof.
  intros Hst H iat. unfold vault_issue_token in H. do 2 guard_step H.
  apply bind_ok in H as (k' & w1 & H1 & H). apply g_subkeys_ok in H1 as [Hk' ->].
  destruct (state_conn _ _ _ Hst) as (c & Hc & Hcur & Hk & Hdb). assert (k' = k) as -> by congruence.
  next H t H2. guard_step H.
  apply issue_token_ok in H2 as (nonce & Hn & -> & Hs & Hsc & Hi & Hx & Hl & Hkl). cbn zeta in *.
  rewrite (c_str_no_nul _ (token_text_no_nul _ _)) in H.
  apply bind_ok in H as (? & w2 & H3 & H). forward Hst. inv_m.
  pose proof (atomic_log_success _ _ _ _ _ _ _ (proj2 (settled_cases _) (or_introl (proj1 Hst))) H3) as (_ & Q & _).
  pose proof (keeps_run in_transaction _ _ _ _ _ H3) as (E1 & E2 & _).
  pose proof Hst as (_ & _ & Hu & _). destruct (state_conn _ _ _ Hst) as (c1 & Hc1 & Hcur1 & Hk1 & _).
  apply (log_success_ok _ _ _ _ _ c1 k) in H3 as (c3 & a & Hc3 & Hcur3 & Hlog & Hev);
    [|done|done|rewrite Hcur1; apply Hdb|apply bool_decide_eq_true, c_str_nul_free|done].
  rewrite Hcur1 in Hcur3, Hlog. exists (conn_cur c3), nonce. split_and!; try done; try apply Hs; try apply Hsc.
  - unfold vault_state, visible. rewrite Hc3. cbn. rewrite Hcur3. split_and!; try done; try congruence.
    + apply Q; [done|apply Hst].
    + by destruct Hdb; split.
  - by rewrite Hcur3.
  - rewrite Hcur3. unfold abstract, record. cbn [t_secrets t_audit_log with_audit_log st_versions st_trail].
    by rewrite fmap_app, <- Hev.
Qed.

(** The revocation time a database stores, 0 for none. *)
Definition not_before_of (db : database) (nb : Z) : Prop :=
  match t_metadata db !! VAULT_METADATA_TOKEN_NOT_BEFORE with
  | None => nb = 0%Z
  | Some v => length v = 8 ∧ nb = read_le v
  end.

Lemma wp_not_before nb c (Q : Z → world → Prop) e w :
  healthy e → w_conn w = Some c → not_before_of (conn_cur c) nb → (∀ w', Q nb w') →
  wp vault_get_token_not_before Q e w.
Proof.
  intros He Hc Hnb HQ. unfold vault_get_token_not_before, vault_get_metadata_blob, not_before_of in *.
  wp_run. eapply wp_require_db; [done|]. wp_run. eapply wp_sql_query; [done|done|].
  destruct (t_metadata _ !! _) as [v|].
  - destruct Hnb as [Hl ->]. wp_run. apply wp_guard; [by apply Nat.leb_le; lia|]. wp_run.
    apply wp_guard; [by apply Nat.eqb_eq|]. by wp_run.
  - subst nb. by wp_run.
Qed.

Lemma check_token_run token required k c nb e w r w1 :
  healthy e → w_subkeys w = Some k → w_unlocked w = true → w_conn w = Some c →
  not_before_of (conn_cur c) nb → access_verify_token token required (kek_token k) e w = (r, w1) →
  (vault_check_token token required e w).1
  = match r with
    | Ok claims => if (0 <? nb)%Z && (tc_issued_at claims <=? nb)%Z then Err SM_ERR_AUTH else Ok ()
    | Err s => Err s
    end.
Proof.
  intros He Hk Hu Hc Hnb Hr. unfold vault_check_token. rewrite (require_unlocked_run _ _ _ k) by done.
  rewrite (bind_run _ _ _ _ k w) by (unfold g_subkeys; by rewrite Hk).
  pose proof (keeps_run same_state _ _ _ _ _ Hr) as (E & _).
  destruct r as [claims|s].
  - rewrite (bind_run _ _ _ _ _ _ Hr).
    destruct (wp_not_before nb c (λ x _, x = nb) e w1) as (x & w2 & E2 & ->); [done|congruence|done|done|].
    rewrite (bind_run _ _ _ _ _ _ E2). unfold guard_or, lift. cbn.
    by destruct (_ && _).
  - by rewrite (bind_run_err _ _ _ _ _ _ Hr).
Qed.


End VaultTokens.

(** * Witnesses *)

Module TokenExample.
Import VaultExample.
#[local] Existing Instance Toy.crypto.
#[local] Existing Instance Toy.laws.
#[local] Existing Instance ToyJson.cjson.
#[local] Existing Instance ToyJson.laws.

Definition subject : bytes := str "ci-runner".
Definition scope : bytes := str "read:db/*".
Definition issue : outcome bytes * world := vault_issue_token subject scope 3600 2048 e0 w_open.
Definition token : bytes := text_of issue.1.

Lemma token_run : issue = (Ok token, issue.2).
Proof.
  assert (is_ok issue.1 = true) as H by (vm_compute; reflexivity).
  unfold token. destruct issue as [[t|s] w]; [reflexivity|discriminate H].
Qed.


(** A token of a later second survives a revocation, and the tokens from
    before do not. *)
Definition e1 : env := Sample.env_at 1700000010.
Definition w_revoked : world := (vault_revoke_tokens e0 w_open).2.
Definition w_after : world := (run_ops ops e0 w_revoked).2.
Definition late : outcome bytes * world := vault_issue_token subject scope 3600 2048 e1 w_after.
Definition late_token : bytes := text_of late.1.


(** A token from before the revocation is refused. *)
Example revoked_token : (vault_check_token token None e0 w_revoked).1 = Err SM_ERR_AUTH.
Proof. vm_compute. reflexivity. Qed.

End TokenExample.
