(* ===== verification/VaultLocked.v ===== *)
(** A locked vault: which operations of include/vault.h need an unlocked
    session, and that they all refuse without one. *)

From S2P Require Import Prelude Status Sodium Schema State Files Openssl Storage Sqlite Merkle Backup AuditLog Access VaultRows Vault VaultQueries VaultFile VaultTokens.

Section VaultLocked.
Context {CR : Crypto} {J : Cjson} {PX : Posix} {OS : Openssl} {SQ : Sqlite}.

(** The calls of vault.h that work in a session. The others are [vault_init],
    [vault_open], the two that unlock, [vault_close], the two that make key
    pairs and [vault_backup_import], which work without one; the two listings
    have results of another form and are stated beside these. Two operations
    look at the size of a buffer before they look at the session. *)
Inductive session_call : ∀ {A}, M A → Prop :=
  | call_put name secret : session_call (vault_put name secret)
  | call_put_with_algorithm name secret algorithm : session_call (vault_put_with_algorithm name secret algorithm)
  | call_put_with_options name secret algorithm ttl_seconds :
      session_call (vault_put_with_options name secret algorithm ttl_seconds)
  | call_get name output_len : session_call (vault_get name output_len)
  | call_get_version name version output_len : session_call (vault_get_version name version output_len)
  | call_get_active_version name : session_call (vault_get_active_version name)
  | call_delete name : session_call (vault_delete name)
  | call_rollback name version : session_call (vault_rollback name version)
  | call_rotate_kek new_master_password : session_call (vault_rotate_kek new_master_password)
  | call_auto_rotate_expired fuel : session_call (vault_auto_rotate_expired fuel)
  | call_security_report : session_call vault_security_report
  | call_backup_export recipient capsule : session_call (vault_backup_export recipient capsule)
  | call_audit_sign_root private_key passphrase signature_len :
      session_call (vault_audit_sign_root private_key passphrase AUDIT_MERKLE_ROOT_BYTES signature_len)
  | call_audit_verify : session_call vault_audit_verify
  | call_audit_merkle_root root_len : session_call (vault_audit_merkle_root root_len)
  | call_audit_merkle_proof entry_id hash_len root_len capacity :
      session_call (vault_audit_merkle_proof entry_id hash_len root_len capacity)
  | call_audit_verify_merkle_proof entry_id root proof leaf_index leaf_count :
      session_call (vault_audit_verify_merkle_proof entry_id root proof leaf_index leaf_count)
  | call_issue_token subject scope ttl_seconds token_len :
      token_len ≠ 0 → session_call (vault_issue_token subject scope ttl_seconds token_len)
  | call_check_token token required_scope : session_call (vault_check_token token required_scope)
  | call_revoke_tokens : session_call vault_revoke_tokens
  | call_debug_name_lookup name lookup_hex_len : session_call (vault_debug_name_lookup name lookup_hex_len).

(** The session holds no keys to work with. *)
Definition locked (w : world) : Prop := w_unlocked w = false ∨ w_subkeys w = None.

Lemma require_locked e w : locked w → vault_require_unlocked e w = (Err SM_ERR_AUTH, w).
Proof. unfold vault_require_unlocked. intros [-> | ->]; [done|]. by rewrite andb_false_r. Qed.

Lemma locked_first {A} (m : unit → M A) e w : locked w → (vault_require_unlocked ≫= m) e w = (Err SM_ERR_AUTH, w).
Proof. intros H. by apply bind_run_err, require_locked. Qed.

(** C18: A locked vault does nothing. In a session without keys every operation
    of vault.h that works in a session returns [SM_ERR_AUTH] and changes
    nothing at all; a listing has called its callback for no row. *)
Theorem vault_locked_refuses e w :
  locked w →
  (∀ A (m : M A), session_call m → m e w = (Err SM_ERR_AUTH, w)) ∧
  (∀ U include_archived callback (user_data : U),
     vault_list_secrets include_archived callback user_data e w = (Ok (user_data, Err SM_ERR_AUTH), w)) ∧
  (∀ U within_seconds callback (user_data : U),
     vault_check_expiry within_seconds callback user_data e w = (Ok (user_data, Err SM_ERR_AUTH), w)).
Proof.
  intros Hl. split_and!.
  - intros A m [];
      try (by apply locked_first);
      try (by unfold vault_put, vault_put_with_algorithm; apply locked_first).
    + unfold vault_audit_sign_root. rewrite guard_run by done. by apply bind_run_err, locked_first.
    + unfold vault_issue_token. rewrite guard_run by (by apply negb_true_iff, Nat.eqb_neq). by apply locked_first.
  - intros U ia cb u. unfold vault_list_secrets, with_rows.
    by rewrite (bind_run _ _ _ _ (Err SM_ERR_AUTH) w) by (unfold try; by rewrite locked_first).
  - intros U n cb u. unfold vault_check_expiry, with_rows.
    by rewrite (bind_run _ _ _ _ (Err SM_ERR_AUTH) w) by (unfold try; by rewrite locked_first).
Qed.

End VaultLocked.

(** * Witness *)

Module VaultLockedExample.
#[local] Existing Instance Toy.crypto.
#[local] Existing Instance ToyJson.cjson.
#[local] Existing Instance ToyPosix.posix.
#[local] Existing Instance ToyOpenssl.openssl.
#[local] Existing Instance ToySqlite.sqlite.

Definition e0 : env := Sample.env_at 1700000000.

(** A database that is open but not unlocked. *)
Lemma vault_locked_refuses_witness :
  vault_revoke_tokens e0 Sample.world0 = (Err SM_ERR_AUTH, Sample.world0) ∧
  vault_list_secrets true (λ _ n, mret (S n, Ok ())) 0 e0 Sample.world0 = (Ok (0, Err SM_ERR_AUTH), Sample.world0).
Proof.
  destruct (vault_locked_refuses e0 Sample.world0) as (H1 & H2 & _); [by left|].
  split; [exact (H1 _ _ call_revoke_tokens)|exact (H2 _ _ _ _)].
Defined.

End VaultLockedExample.
