(* ===== verification/CliText.v ===== *)
(** The text the command line reads and shows (src/src/main.c): numbers and
    durations, the table of the commands with its "did you mean" search,
    hexadecimal text, scopes, and the names in a listing.

    Arguments are C strings. [strtol] and [strtoull] are those of the C
    library in base 10 and in the "C" locale, which the program never leaves;
    [sodium_hex2bin] of libsodium is a parameter. *)

From S2P Require Import Prelude Status Merkle.

(** * Numbers *)

(** [isspace]. *)
Definition isspace (b : byte) : bool :=
  let z := byte_z b in (z =? 32)%Z || ((9 <=? z) && (z <=? 13))%Z.

Definition isdigit (b : byte) : bool := ((48 <=? byte_z b) && (byte_z b <=? 57))%Z.

Fixpoint skip_spaces (l : bytes) : bytes :=
  match l with
  | [] => []
  | b :: l' => if isspace b then skip_spaces l' else l
  end.

(** The sign and what follows it. *)
Definition split_sign (l : bytes) : bool * bytes :=
  match l with
  | b :: l' =>
      if decide (b = Byte.x2d) then (true, l')
      else if decide (b = Byte.x2b) then (false, l') else (false, l)
  | [] => (false, [])
  end.

(** The longest run of digits and what follows it. *)
Fixpoint span_digits (l : bytes) : bytes * bytes :=
  match l with
  | [] => ([], [])
  | b :: l' => if isdigit b then let '(ds, rest) := span_digits l' in (b :: ds, rest) else ([], l)
  end.

(** A number, [errno != 0], and the text at [end]: all of the text when
    there is no number. *)
Record parsed_number := ParsedNumber { pn_value : Z; pn_errno : bool; pn_end : bytes }.

Definition strtol (s : bytes) : parsed_number :=
  let '(negative, unsigned) := split_sign (skip_spaces s) in
  let '(ds, rest) := span_digits unsigned in
  match ds with
  | [] => ParsedNumber 0 false s
  | _ =>
      let v := if negative then (- read_dec ds)%Z else read_dec ds in
      if (v <? - LONG_MAX - 1)%Z then ParsedNumber (- LONG_MAX - 1) true rest
      else if (LONG_MAX <? v)%Z then ParsedNumber LONG_MAX true rest
      else ParsedNumber v false rest
  end.

Definition strtoull (s : bytes) : parsed_number :=
  let '(negative, unsigned) := split_sign (skip_spaces s) in
  let '(ds, rest) := span_digits unsigned in
  match ds with
  | [] => ParsedNumber 0 false s
  | _ =>
      let v := read_dec ds in
      if (UINT64_MAX <? v)%Z then ParsedNumber UINT64_MAX true rest
      else ParsedNumber (if negative then wrap_u 64 (- v) else v) false rest
  end.

(** [errno != 0 || end == value] *)
Definition no_number (s : bytes) (n : parsed_number) : bool := pn_errno n || bool_decide (pn_end n = s).

Definition starts_with_digit (s : bytes) : bool :=
  match s with b :: _ => isdigit b | [] => false end.

Definition cli_parse_positive_int (value : bytes) : outcome Z :=
  let s := c_str value in
  check (negb (bool_decide (s = []))) SM_ERR_INVALID_ARGUMENT ;;
  let result := strtol s in
  check (negb (no_number s result || negb (bool_decide (pn_end result = []))
               || (pn_value result <? 1)%Z || (INT_MAX <? pn_value result)%Z)) SM_ERR_INVALID_ARGUMENT ;;
  Ok (pn_value result).

Definition cli_parse_size_value (value : bytes) (allow_zero : bool) : outcome Z :=
  let s := c_str value in
  check (starts_with_digit s) SM_ERR_INVALID_ARGUMENT ;;
  let result := strtoull s in
  check (negb (no_number s result || negb (bool_decide (pn_end result = []))
               || (negb allow_zero && (pn_value result =? 0)%Z) || (SIZE_MAX <? pn_value result)%Z))
    SM_ERR_INVALID_ARGUMENT ;;
  Ok (pn_value result).

(** The seconds of a unit, by the character at [end]. *)
Definition duration_unit (b : byte) : option Z :=
  if decide (b = Byte.x73) then Some 1%Z
  else if decide (b = Byte.x6d) then Some 60%Z
  else if decide (b = Byte.x68) then Some (60 * 60)%Z
  else if decide (b = Byte.x64) then Some (24 * 60 * 60)%Z
  else None.

Definition cli_parse_duration_seconds (value : bytes) : outcome Z :=
  let s := c_str value in
  check (starts_with_digit s) SM_ERR_INVALID_ARGUMENT ;;
  let amount := strtoull s in
  check (negb (no_number s amount || (pn_value amount =? 0)%Z)) SM_ERR_INVALID_ARGUMENT ;;
  multiplier ← match pn_end amount with
               | [] => Ok 1%Z
               | [b] => from_option_or SM_ERR_INVALID_ARGUMENT (duration_unit b)
               | _ => Err SM_ERR_INVALID_ARGUMENT
               end;
  check (negb (UINT64_MAX / multiplier <? pn_value amount)%Z) SM_ERR_INVALID_ARGUMENT ;;
  Ok (wrap_u 64 (pn_value amount * multiplier)).

(** * Commands *)

(** [strcmp(a, literal) == 0] *)
Definition str_is (a : bytes) (literal : string) : bool := bool_decide (c_str a = str literal).

Definition cli_command_accepts_name (command : bytes) : bool :=
  str_is command "put" || str_is command "set" || str_is command "generate" || str_is command "gen"
  || str_is command "get" || str_is command "totp" || str_is command "delete" || str_is command "del"
  || str_is command "rollback".

Definition CLI_COMMAND_HELP : list (string * string) := [
  ("init",                  "init");
  ("put",                   "put NAME [--stdin | -v VALUE] [--algorithm ALG] [--ttl DURATION]");
  ("set",                   "put NAME [--stdin | -v VALUE] [--algorithm ALG] [--ttl DURATION]");
  ("generate",              "generate NAME [--length N] [--no-symbols] [--copy] [--ttl DURATION]");
  ("gen",                   "generate NAME [--length N] [--no-symbols] [--copy] [--ttl DURATION]");
  ("get",                   "get NAME [--version N] [--copy] [--raw]");
  ("totp",                  "totp NAME [--copy]");
  ("list",                  "list [--all]");
  ("ls",                    "list [--all]");
  ("delete",                "delete NAME");
  ("del",                   "delete NAME");
  ("rollback",              "rollback NAME --version N");
  ("rotate-kek",            "rotate-kek");
  ("rotate",                "rotate-kek");
  ("check-expiry",          "check-expiry [--within DURATION]");
  ("auto-rotate",           "auto-rotate");
  ("rotate-dek",            "auto-rotate");
  ("issue-token",           "issue-token --scope SCOPE --ttl DURATION [--subject NAME]");
  ("check-token",           "check-token --scope SCOPE (token from FUIN_TOKEN)");
  ("revoke-tokens",         "revoke-tokens");
  ("audit-verify",          "audit-verify");
  ("verify",                "audit-verify");
  ("audit-root",            "audit-root");
  ("merkle-root",           "audit-root");
  ("audit-proof",           "audit-proof --entry-id N");
  ("audit-verify-proof",    "audit-verify-proof --entry-id N --root HEX --proof HEX --leaf-index N --entries N");
  ("audit-keygen",          "audit-keygen --public-out PATH --private-out PATH");
  ("audit-sign-root",       "audit-sign-root --private-key PATH");
  ("audit-verify-root-sig", "audit-verify-root-sig --public-key PATH --root HEX --signature B64 --entries N");
  ("status-report",         "status-report");
  ("security-report",       "status-report");
  ("report",                "status-report");
  ("pqc-keygen",            "pqc-keygen --public-out PATH --private-out PATH");
  ("backup-export",         "backup-export --recipient PATH --out PATH");
  ("backup-import",         "backup-import --private-key PATH --input PATH --out PATH")]%string.

Definition cli_command_usage (command : bytes) : option bytes :=
  if bool_decide (c_str command = []) then None
  else (λ '(_, row), str row.2) <$> list_find (λ row, Is_true (str_is command row.1)) CLI_COMMAND_HELP.

(** The inner loop of [cli_edit_distance]: [prev] from [prev[j - 1]] on, and
    [curr[j - 1]]; the result is [curr] from [curr[j]] on. *)
Fixpoint edit_cells (x : byte) (b : bytes) (prev : list nat) (left : nat) : list nat :=
  match b, prev with
  | y :: b', diagonal :: (up :: _) as prev' =>
      let cost := if decide (x = y) then 0 else 1 in
      let best := up + 1 in
      let ins := left + 1 in
      let sub := diagonal + cost in
      let best := if ins <? best then ins else best in
      let best := if sub <? best then sub else best in
      best :: edit_cells x b' prev' best
  | _, _ => []
  end.

(** The outer loop: one row of the table per character, the [i]-th starts
    with [curr[0] = i]. *)
Fixpoint edit_rows (i : nat) (a b : bytes) (prev : list nat) : list nat :=
  match a with
  | [] => prev
  | x :: a' => edit_rows (S i) a' b (i :: edit_cells x b prev i)
  end.

Definition cli_edit_distance (a b : bytes) : nat :=
  let a := c_str a in
  let b := c_str b in
  if (62 <? length a) || (62 <? length b) then 64
  else default 0 (edit_rows 1 a b (seq 0 (S (length b))) !! length b).

(** The loop over the table: the best command so far and its distance. *)
Definition closer (command : bytes) (best : option string * nat) (row : string * string)
  : option string * nat :=
  let d := cli_edit_distance command (str row.1) in
  if d <? best.2 then (Some row.1, d) else best.

Definition cli_closest_command (command : bytes) : option string :=
  if length (c_str command) <? 2 then None
  else (foldl (closer command) (None, 3) CLI_COMMAND_HELP).1.

(** * Hexadecimal text *)

(** The two characters of a byte. *)
Definition hex_chars (b : byte) : bytes :=
  [hex_digit (Z.shiftr (byte_z b) 4); hex_digit (Z.land (byte_z b) 15)].

(** What [cli_print_hex] prints. *)
Definition hex_text (data : bytes) : bytes := data ≫= hex_chars.

(** Upper-case digits as lower-case ones. *)
Definition lower_hex (b : byte) : byte :=
  if ((65 <=? byte_z b) && (byte_z b <=? 70))%Z then z_byte (byte_z b + 32) else b.

(** [sodium_hex2bin(bin, bin_maxlen, hex, hex_len, NULL, &bin_len, &hex_end)]:
    the bytes and the text at [hex_end], [None] on error. *)
Class Hex2bin := { sodium_hex2bin : bytes → nat → option (bytes * bytes) }.

(** Text is decoded, digits of either case, and what is decoded completely is
    the text of the bytes. *)
Class Hex2binLaws (H : Hex2bin) : Prop := {
  hex2bin_text data n : length data ≤ n → sodium_hex2bin (hex_text data) n = Some (data, []);
  hex2bin_sound s n data : sodium_hex2bin s n = Some (data, []) → lower_hex <$> s = hex_text data;
}.

Section Hex.
Context {H2 : Hex2bin}.

Definition cli_decode_hex_exact (hex : bytes) (output_len : nat) : outcome bytes :=
  let hex := c_str hex in
  check (Z.of_nat output_len <=? SIZE_MAX / 2)%Z SM_ERR_INVALID_ARGUMENT ;;
  check (length hex =? output_len * 2)%nat SM_ERR_INVALID_ARGUMENT ;;
  '(output, hex_end) ← from_option_or SM_ERR_INVALID_ARGUMENT (sodium_hex2bin hex output_len);
  check ((length output =? output_len)%nat && bool_decide (hex_end = [])) SM_ERR_INVALID_ARGUMENT ;;
  Ok output.

Definition cli_decode_proof_hex (hex : bytes) (proof_capacity : nat) : outcome bytes :=
  let hex := c_str hex in
  check ((length hex mod (AUDIT_MERKLE_ROOT_BYTES * 2) =? 0)%nat && (length hex / 2 <=? proof_capacity)%nat)
    SM_ERR_INVALID_ARGUMENT ;;
  if (length hex =? 0)%nat then Ok []
  else
    '(proof, hex_end) ← from_option_or SM_ERR_INVALID_ARGUMENT (sodium_hex2bin hex proof_capacity);
    check (bool_decide (hex_end = []) && (length proof mod AUDIT_MERKLE_ROOT_BYTES =? 0)%nat)
      SM_ERR_INVALID_ARGUMENT ;;
    Ok proof.

End Hex.

(** * Scopes *)

Definition colon : byte := Byte.x3a.

(** [operation:name], where it fits the buffer. *)
Definition cli_required_scope (scope_len : nat) (operation name : bytes) : outcome bytes :=
  check (negb (scope_len =? 0)%nat && negb (bool_decide (c_str name = []))) SM_ERR_INVALID_ARGUMENT ;;
  let scope := c_str operation ++ colon :: c_str name in
  check (length scope <? scope_len)%nat SM_ERR_INVALID_ARGUMENT ;;
  Ok scope.

(** * Names in a listing *)

Definition CLI_LIST_NAME_WIDTH : nat := 28.
Definition CLI_LIST_NAME_ELLIPSIS : bytes := str "...".
Definition CLI_LIST_NAME_ELLIPSIS_LEN : nat := 3.
Definition CLI_DISPLAY_NAME_MAX : nat := 512.

Definition is_control (b : byte) : bool := (byte_z b <? 32)%Z || (byte_z b =? 127)%Z.

Definition display_char (b : byte) : byte := if is_control b then Byte.x3f else b.

(** The text that fits the buffer, or an error when it does not. *)
Definition cli_sanitize_display_text (input : bytes) (output_len : nat) : outcome bytes :=
  let input := c_str input in
  check (negb (output_len =? 0)%nat) SM_ERR_INVALID_ARGUMENT ;;
  check (length input <? output_len)%nat SM_ERR_INPUT_TOO_LARGE ;;
  Ok (display_char <$> input).

(** The length that the first byte of a character announces. *)
Definition utf8_char_len (c : byte) : nat :=
  let z := byte_z c in
  if (z <? 128)%Z then 1
  else if (Z.land z 224 =? 192)%Z then 2
  else if (Z.land z 240 =? 224)%Z then 3
  else if (Z.land z 248 =? 240)%Z then 4
  else 1.

Definition is_continuation (b : byte) : bool := (Z.land (byte_z b) 192 =? 128)%Z.

(** The loop over the other bytes of a character: [n] of them are there,
    within the [room] that is left. *)
Fixpoint continuations (n : nat) (l : bytes) (room : nat) : bool :=
  match n, l, room with
  | O, _, _ => true
  | S n', b :: l', S room' => is_continuation b && continuations n' l' room'
  | _, _, _ => false
  end.

(** The loop over the characters from [offset] on; a turn advances, so
    [max_bytes] turns are enough. *)
Fixpoint utf8_prefix (fuel : nat) (text : bytes) (max_bytes : nat) : nat :=
  match fuel, text with
  | S fuel', c :: rest =>
      if (max_bytes =? 0)%nat then 0
      else
        let char_len := utf8_char_len c in
        if negb (continuations (char_len - 1) rest (max_bytes - 1)) then 0
        else if (max_bytes <? char_len)%nat then 0
        else char_len + utf8_prefix fuel' (drop char_len text) (max_bytes - char_len)
  | _, _ => 0
  end.

Definition cli_utf8_prefix_len (text : bytes) (max_bytes : nat) : nat :=
  utf8_prefix max_bytes (c_str text) max_bytes.

Definition cli_format_list_name (name : bytes) (output_len : nat) : outcome bytes :=
  check (CLI_LIST_NAME_WIDTH + 1 <=? output_len)%nat SM_ERR_INVALID_ARGUMENT ;;
  match cli_sanitize_display_text name CLI_DISPLAY_NAME_MAX with
  | Err _ => Err SM_ERR_STORAGE
  | Ok safe_name =>
      if (length safe_name <=? CLI_LIST_NAME_WIDTH)%nat then
        check (length safe_name <? output_len)%nat SM_ERR_STORAGE ;; Ok safe_name
      else
        let prefix_len := cli_utf8_prefix_len safe_name (CLI_LIST_NAME_WIDTH - CLI_LIST_NAME_ELLIPSIS_LEN) in
        let prefix_len := if (prefix_len =? 0)%nat then CLI_LIST_NAME_WIDTH - CLI_LIST_NAME_ELLIPSIS_LEN
                          else prefix_len in
        Ok (take prefix_len safe_name ++ CLI_LIST_NAME_ELLIPSIS)
  end.

(** * The distance of two spellings *)

(** [edit_script a b n]: [b] comes from [a] by [n] insertions, deletions and
    substitutions of characters. *)
Inductive edit_script : bytes → bytes → nat → Prop :=
  | edit_nil : edit_script [] [] 0
  | edit_keep x a b n : edit_script a b n → edit_script (x :: a) (x :: b) n
  | edit_subst x y a b n : edit_script a b n → edit_script (x :: a) (y :: b) (S n)
  | edit_delete x a b n : edit_script a b n → edit_script (x :: a) b (S n)
  | edit_insert y a b n : edit_script a b n → edit_script a (y :: b) (S n).

Lemma edit_script_app a b n c d m :
  edit_script a b n → edit_script c d m → edit_script (a ++ c) (b ++ d) (n + m).
Proof. intros H Hc. induction H; cbn; [done|by constructor..]. Qed.

Lemma edit_script_rev a b n : edit_script a b n → edit_script (rev a) (rev b) n.
Proof.
  induction 1 as [|x a b n _ IH|x y a b n _ IH|x a b n _ IH|y a b n _ IH]; cbn; [constructor|..].
  - rewrite <- (Nat.add_0_r n). apply edit_script_app; [done|repeat constructor].
  - rewrite <- Nat.add_1_r. apply edit_script_app; [done|repeat constructor].
  - rewrite <- (app_nil_r (rev b)), <- Nat.add_1_r. apply edit_script_app; [done|repeat constructor].
  - rewrite <- (app_nil_r (rev a)), <- Nat.add_1_r. apply edit_script_app; [done|repeat constructor].
Qed.

Lemma edit_script_length a b n : edit_script a b n → length a ≤ length b + n ∧ length b ≤ length a + n.
Proof. induction 1; cbn; lia. Qed.

(** The recursive definition of the distance. *)
Fixpoint levenshtein (a : bytes) : bytes → nat :=
  fix go (b : bytes) : nat :=
    match a, b with
    | [], _ => length b
    | _, [] => length a
    | x :: a', y :: b' =>
        S (levenshtein a' b) `min` S (go b') `min` (levenshtein a' b' + if decide (x = y) then 0 else 1)
    end.

Lemma levenshtein_nil_l b : levenshtein [] b = length b.
Proof. by destruct b. Qed.
Lemma levenshtein_nil_r a : levenshtein a [] = length a.
Proof. by destruct a. Qed.

Lemma levenshtein_cons x a y b :
  levenshtein (x :: a) (y :: b)
  = S (levenshtein a (y :: b)) `min` S (levenshtein (x :: a) b)
    `min` (levenshtein a b + if decide (x = y) then 0 else 1).
Proof. done. Qed.

Lemma levenshtein_script a b : edit_script a b (levenshtein a b).
Proof.
  revert b. induction a as [|x a IHa].
  - intros b. rewrite levenshtein_nil_l. induction b as [|y b IHb]; [constructor|by apply edit_insert].
  - intros b. induction b as [|y b IHb].
    + cbn. specialize (IHa []). rewrite levenshtein_nil_r in IHa. by constructor.
    + rewrite levenshtein_cons. pose proof (IHa (y :: b)) as Hd. pose proof (IHa b) as Hs.
      destruct (Nat.min_spec (S (levenshtein a (y :: b))) (S (levenshtein (x :: a) b))) as [[_ ->]|[_ ->]];
        match goal with |- context [?m `min` ?n] => destruct (Nat.min_spec m n) as [[_ ->]|[_ ->]] end;
        try by constructor.
      all: case_decide; [subst; rewrite Nat.add_0_r|rewrite Nat.add_1_r]; by constructor.
Qed.

Lemma levenshtein_insert x a b : levenshtein a b ≤ S (levenshtein (x :: a) b) ∧ levenshtein (x :: a) b ≤ S (levenshtein a b).
Proof.
  revert x b. induction a as [|z a IHa]; intros x b; induction b as [|y b IHb].
  - cbn. lia.
  - rewrite levenshtein_cons. rewrite !levenshtein_nil_l in *. cbn [length].
    case_decide; lia.
  - rewrite !levenshtein_nil_r. cbn. lia.
  - rewrite !(levenshtein_cons _ _ y b). pose proof (IHa z (y :: b)). pose proof (IHa z b). pose proof (IHa x b).
    destruct (decide (z = y)), (decide (x = y)); lia.
Qed.

Lemma levenshtein_le a b n : edit_script a b n → levenshtein a b ≤ n.
Proof.
  induction 1 as [|x a b n _ IH|x y a b n _ IH|x a b n _ IH|y a b n _ IH]; [done|..].
  - rewrite levenshtein_cons, decide_True by done. lia.
  - rewrite levenshtein_cons. case_decide; lia.
  - pose proof (levenshtein_insert x a b). lia.
  - destruct a as [|x a]; [rewrite levenshtein_nil_l in *; cbn; lia|]. rewrite levenshtein_cons. lia.
Qed.

(** The distance of the reversed texts: the table of the code runs over the
    beginnings of its arguments. *)
Lemma levenshtein_rev a b : levenshtein (rev a) (rev b) = levenshtein a b.
Proof.
  apply Nat.le_antisymm; apply levenshtein_le.
  - apply edit_script_rev, levenshtein_script.
  - rewrite <- (rev_involutive a) at 1. rewrite <- (rev_involutive b) at 1. apply edit_script_rev, levenshtein_script.
Qed.

(** The row of the table for the beginning [rev ra]: the distances to the
    beginnings of [b], after [rev rb]. *)
Fixpoint row_from (ra rb b : bytes) : list nat :=
  levenshtein ra rb :: match b with [] => [] | y :: b' => row_from ra (y :: rb) b' end.

Lemma edit_cells_cons x y b d u p l :
  edit_cells x (y :: b) (d :: u :: p) l
  = let best := S u `min` S l `min` (d + if decide (x = y) then 0 else 1) in best :: edit_cells x b (u :: p) best.
Proof.
  cbn [edit_cells]. cbv zeta.
  match goal with |- ?m :: edit_cells _ _ _ ?m = ?n :: edit_cells _ _ _ ?n => enough (m = n) as -> by done end.
  repeat case_match; rewrite ?Nat.ltb_lt, ?Nat.ltb_ge in *; lia.
Qed.

Lemma row_from_head ra rb b : ∃ t, row_from ra rb b = levenshtein ra rb :: t.
Proof. destruct b; by eexists. Qed.

Lemma edit_cells_row x b ra rb :
  levenshtein (x :: ra) rb :: edit_cells x b (row_from ra rb b) (levenshtein (x :: ra) rb)
  = row_from (x :: ra) rb b.
Proof.
  revert rb. induction b as [|y b IH]; intros rb; [done|].
  change (row_from ra rb (y :: b)) with (levenshtein ra rb :: row_from ra (y :: rb) b).
  change (row_from (x :: ra) rb (y :: b)) with (levenshtein (x :: ra) rb :: row_from (x :: ra) (y :: rb) b).
  f_equal. destruct (row_from_head ra (y :: rb) b) as [t Et]. rewrite Et, edit_cells_cons, <- Et.
  rewrite <- levenshtein_cons. apply IH.
Qed.

Lemma edit_rows_row a ra b :
  edit_rows (S (length ra)) a b (row_from ra [] b) = row_from (rev_append a ra) [] b.
Proof.
  revert ra. induction a as [|x a IH]; intros ra; [done|]. cbn [edit_rows rev_append].
  pose proof (edit_cells_row x b ra []) as E. rewrite levenshtein_nil_r in E. cbn [length] in E. rewrite E.
  apply (IH (x :: ra)).
Qed.

Lemma row_from_nil b rb : row_from [] rb b = seq (length rb) (S (length b)).
Proof.
  revert rb. induction b as [|y b IH]; intros rb; cbn [row_from length seq]; rewrite levenshtein_nil_l; [done|].
  f_equal. apply (IH (y :: rb)).
Qed.

Lemma row_from_last ra rb b : row_from ra rb b !! length b = Some (levenshtein ra (rev_append b rb)).
Proof. revert rb. induction b as [|y b IH]; intros rb; cbn; [done|]. apply (IH (y :: rb)). Qed.

Lemma edit_distance_short a b :
  length (c_str a) ≤ 62 → length (c_str b) ≤ 62 → cli_edit_distance a b = levenshtein (c_str a) (c_str b).
Proof.
  intros Ha Hb. unfold cli_edit_distance.
  rewrite !(proj2 (Nat.ltb_ge _ _)) by done. cbn [orb].
  pose proof (row_from_nil (c_str b) []) as E1. pose proof (edit_rows_row (c_str a) [] (c_str b)) as E2.
  cbn [length] in E1, E2. rewrite <- E1, E2, row_from_last. cbn [default].
  rewrite !rev_append_rev, !app_nil_r. apply levenshtein_rev.
Qed.

(** Whatever the spelling, the search of the closest command compares exact
    distances: a spelling too long for the buffers is far from each command. *)
Lemma edit_distance_commands command row n :
  row ∈ CLI_COMMAND_HELP → n ≤ 3 →
  (cli_edit_distance command (str row.1) < n)%nat ↔ (levenshtein (c_str command) (str row.1) < n)%nat.
Proof.
  intros Hrow Hn.
  assert (c_str (str row.1) = str row.1 ∧ length (str row.1) ≤ 21) as [E Hlen].
  { assert (forallb (λ row, bool_decide (c_str (str row.1) = str row.1) && (length (str row.1) <=? 21)) CLI_COMMAND_HELP = true)
      as F by (vm_compute; reflexivity).
    rewrite forallb_forall in F. specialize (F row (proj1 (list_elem_of_In _ _) Hrow)).
    apply andb_true_iff in F as [?%bool_decide_eq_true ?%Nat.leb_le]. done. }
  destruct (decide (length (c_str command) ≤ 62)) as [Hc|Hc].
  - rewrite edit_distance_short by (rewrite ?E; lia). by rewrite E.
  - unfold cli_edit_distance. rewrite (proj2 (Nat.ltb_lt 62 (length (c_str command)))) by lia. cbn [orb].
    destruct (edit_script_length _ _ _ (levenshtein_script (c_str command) (str row.1))). lia.
Qed.

(** The search over a table: the first of the closest rows. *)
Lemma closer_spec command rows best :
  (∀ row n, row ∈ rows → n ≤ 3 →
     (cli_edit_distance command (str row.1) < n)%nat ↔ (levenshtein (c_str command) (str row.1) < n)%nat) →
  best.2 ≤ 3 →
  let r := foldl (closer command) best rows in
  (r = best ∨ ∃ before row after, rows = before ++ row :: after ∧ r = (Some row.1, levenshtein (c_str command) (str row.1)) ∧
     r.2 < best.2 ∧ ∀ row', row' ∈ before → r.2 < levenshtein (c_str command) (str row'.1)) ∧
  (∀ row, row ∈ rows → r.2 ≤ levenshtein (c_str command) (str row.1) ∨ 3 ≤ r.2 ∧ 3 ≤ levenshtein (c_str command) (str row.1)) ∧
  r.2 ≤ best.2.
Proof.
  intros Hd. revert best. induction rows as [|row rows IH]; intros best Hbest; cbn [foldl].
  - split_and!; [by left|by intros row ?%not_elem_of_nil|done].
  - assert (cli_edit_distance command (str row.1) < best.2 →
      cli_edit_distance command (str row.1) = levenshtein (c_str command) (str row.1)) as Heq.
    { intros Hlt. apply Nat.le_antisymm; apply Nat.le_ngt; intros H.
      - assert (cli_edit_distance command (str row.1) < cli_edit_distance command (str row.1)); [|lia].
        apply Hd; [by left|lia|done].
      - assert (levenshtein (c_str command) (str row.1) < S (cli_edit_distance command (str row.1))); [|lia].
        apply Hd; [by left|lia..]. }
    assert (levenshtein (c_str command) (str row.1) < best.2 → cli_edit_distance command (str row.1) < best.2) as Hfar
      by (apply Hd; [by left|done]).
    assert (closer command best row = if cli_edit_distance command (str row.1) <? best.2
      then (Some row.1, cli_edit_distance command (str row.1)) else best) as -> by done.
    remember (cli_edit_distance command (str row.1)) as d eqn:Ed. clear Ed.
    destruct (Nat.ltb_spec d best.2) as [Hlt|Hge].
    + destruct (IH ltac:(intros ? ? ?; apply Hd; by right) (Some row.1, d) ltac:(cbn; lia)) as (H1 & H2 & H3). cbn [snd] in *. specialize (Heq Hlt). subst d. split_and!; [| |lia].
      * right. destruct H1 as [->|(before & row' & after & -> & E & Hlt' & Hf)].
        -- exists [], row, rows. split_and!; [done..|]. by intros ? ?%not_elem_of_nil.
        -- exists (row :: before), row', after. split_and!; [done|done|lia|].
           intros row'' [->|Hin]%elem_of_cons; [lia|by apply Hf].
      * intros row' [->|Hin]%elem_of_cons; [by left|by apply H2].
    + destruct (IH ltac:(intros ? ? ?; apply Hd; by right) best Hbest) as (H1 & H2 & H3). split_and!; [| |done].
      * destruct H1 as [->|(before & row' & after & -> & E & Hlt' & Hf)]; [by left|right].
        exists (row :: before), row', after. split_and!; [done..|].
        intros row'' [->|Hin]%elem_of_cons; [|by apply Hf]. apply Nat.nle_gt. intros H. specialize (Hfar ltac:(lia)). lia.
      * intros row' [->|Hin]%elem_of_cons; [|by apply H2]. left.
        assert (¬ levenshtein (c_str command) (str row.1) < best.2) by (intros ?; specialize (Hfar ltac:(done)); lia). lia.
Qed.

(** C36: "did you mean": the command suggested for a spelling of two
    characters or more is the first row of the table whose distance is
    smallest: it is at most two insertions, deletions and substitutions of
    characters away, no row is nearer and every row before it is farther;
    none is suggested when every command is farther than two. The two rows of
    the code compute exactly this distance, of which no shorter script
    exists. *)
Theorem cli_closest_command_spec command :
  match cli_closest_command command with
  | Some best =>
      2 ≤ length (c_str command) ∧
      ∃ before usage after d, CLI_COMMAND_HELP = before ++ (best, usage) :: after ∧
        d ≤ 2 ∧ edit_script (c_str command) (str best) d ∧
        (∀ name usage n, (name, usage) ∈ CLI_COMMAND_HELP → edit_script (c_str command) (str name) n → d ≤ n) ∧
        (∀ name usage n, (name, usage) ∈ before → edit_script (c_str command) (str name) n → d < n)
  | None =>
      length (c_str command) < 2 ∨
      ∀ name usage n, (name, usage) ∈ CLI_COMMAND_HELP → edit_script (c_str command) (str name) n → 3 ≤ n
  end.
Proof.
  unfold cli_closest_command. destruct (Nat.ltb_spec (length (c_str command)) 2) as [Hlen|Hlen]; [by left|].
  destruct (closer_spec command CLI_COMMAND_HELP (None, 3) (λ row n, edit_distance_commands command row n) ltac:(done))
    as (H1 & H2 & H3). cbn [snd] in *.
  destruct (foldl (closer command) (None, 3) CLI_COMMAND_HELP) as [[best|] d]; cbn [fst snd] in *.
  - destruct H1 as [[=]|(before & [name usage] & after & E & [= -> ->] & Hlt & Hf)]. split; [done|].
    eexists before, usage, after, _. split_and!; [done| |apply levenshtein_script|..]; [cbn [fst snd] in *; lia|..].
    + intros name' usage' n Hin' Hs%levenshtein_le. destruct (H2 _ Hin') as [H|H]; cbn [fst snd] in *; lia.
    + intros name' usage' n Hin' Hs%levenshtein_le. specialize (Hf _ Hin'). cbn [fst snd] in *. lia.
  - right. destruct H1 as [[= ->]|(before & row & after & _ & [=] & _)].
    intros name usage n Hin Hs%levenshtein_le. destruct (H2 _ Hin) as [H|H]; cbn [fst snd] in *; lia.
Qed.

(** * Durations *)

Lemma isdigit_spec b : isdigit b = true ↔ is_digit b.
Proof. unfold isdigit, is_digit. rewrite andb_true_iff, !Z.leb_le. done. Qed.

Lemma span_digits_app l : l = (span_digits l).1 ++ (span_digits l).2 ∧ Forall is_digit (span_digits l).1.
Proof.
  induction l as [|b l [IH1 IH2]]; cbn; [done|]. destruct (isdigit b) eqn:E; [|done].
  destruct (span_digits l) as [ds rest]. cbn in *. apply isdigit_spec in E. split; [by rewrite IH1 at 1|by constructor].
Qed.

Lemma span_digits_stop ds rest :
  Forall is_digit ds → starts_with_digit rest = false → span_digits (ds ++ rest) = (ds, rest).
Proof.
  intros H Hr. induction H as [|b ds Hb _ IH]; cbn.
  - destruct rest as [|b rest]; [done|]. cbn in *. by rewrite Hr.
  - apply isdigit_spec in Hb. by rewrite Hb, IH.
Qed.

Lemma read_dec_nonneg ds : Forall is_digit ds → (0 ≤ read_dec ds)%Z.
Proof.
  unfold read_dec. intros H. assert (∀ acc, (0 ≤ acc)%Z → (0 ≤ foldl (λ acc b, acc * 10 + (byte_z b - 48)) acc ds)%Z) as G; [|by apply G].
  induction H as [|b ds Hb _ IH]; intros acc Hacc; cbn; [done|]. apply IH. unfold is_digit in Hb. lia.
Qed.

(** On text that starts with a digit there is no sign and no white space. *)
Lemma strtoull_digits s :
  starts_with_digit s = true →
  let '(ds, rest) := span_digits s in
  ds ≠ [] ∧ strtoull s = if (UINT64_MAX <? read_dec ds)%Z then ParsedNumber UINT64_MAX true rest
                         else ParsedNumber (read_dec ds) false rest.
Proof.
  destruct s as [|b s]; [done|]. cbn [starts_with_digit]. intros Hb. unfold strtoull.
  assert (skip_spaces (b :: s) = b :: s) as ->.
  { cbn. apply isdigit_spec in Hb. unfold is_digit in Hb. unfold isspace.
    destruct (Z.eqb_spec (byte_z b) 32), (Z.leb_spec (byte_z b) 13); try lia. by rewrite andb_false_r. }
  assert (split_sign (b :: s) = (false, b :: s)) as ->.
  { cbn. apply isdigit_spec in Hb. unfold is_digit in Hb.
    repeat case_decide; subst; [exfalso; apply (proj1 Hb); reflexivity..|done]. }
  cbn [span_digits]. rewrite Hb. destruct (span_digits s) as [ds rest]. by split.
Qed.

(** The seconds of a suffix of [s], [m], [h] or [d], or of none. *)
Definition suffix_seconds (suffix : bytes) : option Z :=
  match suffix with
  | [] => Some 1%Z
  | [b] => duration_unit b
  | _ => None
  end.

Lemma duration_unit_pos b m : duration_unit b = Some m → (0 < m)%Z ∧ isdigit b = false.
Proof. unfold duration_unit. repeat case_decide; intros [= <-]; subst; by split. Qed.

Lemma suffix_seconds_pos suffix m : suffix_seconds suffix = Some m → (0 < m)%Z ∧ starts_with_digit suffix = false.
Proof. destruct suffix as [|b [|]]; cbn; [by intros [= <-]|apply duration_unit_pos|done]. Qed.

(** C37: [cli_parse_duration_seconds] accepts exactly decimal digits with at
    most one unit, and its value is their product: neither the number nor the
    product wraps around 64 bits, and zero is refused. *)
Theorem cli_parse_duration_seconds_spec value n :
  cli_parse_duration_seconds value = Ok n ↔
  ∃ ds suffix m, c_str value = ds ++ suffix ∧ ds ≠ [] ∧ Forall is_digit ds ∧ suffix_seconds suffix = Some m ∧
    n = (read_dec ds * m)%Z ∧ (0 < n ≤ UINT64_MAX)%Z.
Proof.
  unfold cli_parse_duration_seconds. set (s := c_str value). clearbody s. split.
  - intros H. apply outcome_seq_ok in H as [Hs%check_ok H]. pose proof (strtoull_digits s Hs) as E.
    destruct (span_digits_app s) as [Es Hds]. destruct (span_digits s) as [ds rest]. cbn [fst snd] in *.
    destruct E as [Hne E]. rewrite E in H. clear E. apply outcome_seq_ok in H as [Hn%check_ok H].
    destruct (Z.ltb_spec UINT64_MAX (read_dec ds)) as [|Hle]; [done|]. cbn [pn_value pn_end pn_errno] in *.
    apply outcome_bind_ok in H as (m & Hm & H). apply outcome_seq_ok in H as [Hov%check_ok [= <-]].
    assert (suffix_seconds rest = Some m) as Hm'.
    { destruct rest as [|b [|]]; cbn in Hm; [by injection Hm as <-|by apply from_option_or_ok in Hm|done]. }
    destruct (suffix_seconds_pos _ _ Hm') as [Hpos _]. pose proof (read_dec_nonneg ds Hds) as Hnn.
    apply negb_true_iff, orb_false_iff in Hn as [_ Hz%Z.eqb_neq]. apply negb_true_iff, Z.ltb_ge in Hov.
    pose proof (Z.mul_div_le UINT64_MAX m Hpos). assert (read_dec ds * m ≤ UINT64_MAX)%Z by nia.
    rewrite wrap_u_small by (unfold UINT64_MAX in *; nia). exists ds, rest, m. split_and!; try done; nia.
  - intros (ds & suffix & m & -> & Hne & Hds & Hm & -> & Hn).
    destruct (suffix_seconds_pos _ _ Hm) as [Hpos Hstop]. pose proof (read_dec_nonneg ds Hds) as Hnn.
    assert (starts_with_digit (ds ++ suffix) = true) as Hs.
    { destruct ds as [|b ds]; [done|]. cbn. apply Forall_cons in Hds as [Hb _]. by apply isdigit_spec. }
    rewrite Hs. pose proof (strtoull_digits _ Hs) as E. rewrite span_digits_stop in E by done. destruct E as [_ ->].
    assert (read_dec ds ≤ UINT64_MAX / m)%Z as Hle by (apply Z.div_le_lower_bound; lia).
    assert (read_dec ds ≤ UINT64_MAX)%Z as Hle' by nia.
    rewrite (proj2 (Z.ltb_ge _ _)) by done. unfold no_number. cbn [pn_value pn_errno pn_end].
    rewrite bool_decide_eq_false_2; [|intros E%(f_equal length); rewrite length_app in E; destruct ds; cbn in E; [done|lia]].
    rewrite (proj2 (Z.eqb_neq _ _)) by nia. cbn [check orb negb mbind outcome_bind].
    assert (match suffix with [] => Ok 1%Z | [b] => from_option_or SM_ERR_INVALID_ARGUMENT (duration_unit b)
            | _ => Err SM_ERR_INVALID_ARGUMENT end = Ok m) as ->.
    { destruct suffix as [|b [|]]; cbn in *; [by injection Hm as <-|by rewrite Hm|done]. }
    cbn [mbind outcome_bind]. rewrite (proj2 (Z.ltb_ge _ _)) by done. cbn [check negb mbind outcome_bind].
    rewrite wrap_u_small; [done|]. unfold UINT64_MAX in *. lia.
Qed.

(** * Hexadecimal text *)

Lemma length_hex_text data : length (hex_text data) = 2 * length data.
Proof. unfold hex_text. induction data as [|b data IH]; [done|]. cbn [mbind list_bind]. rewrite length_app, IH. cbn. lia. Qed.

Lemma hex_text_no_nul data : Byte.x00 ∉ hex_text data.
Proof.
  assert (∀ b, Forall (λ c, c ≠ Byte.x00) (hex_chars b)) as H by (intros []; vm_compute; repeat constructor; done).
  unfold hex_text. intros (b & Hb & _)%list_elem_of_bind. specialize (H b). rewrite Forall_forall in H. by apply (H _ Hb).
Qed.

Section HexLemmas.
Context {H2 : Hex2bin} {HL : Hex2binLaws H2}.

(** the hexadecimal text the program prints is the text it reads: a root
    of [output_len] bytes and a proof of at most 64 hashes, printed with
    [cli_print_hex], are decoded to the same bytes; and text that is decoded
    at all is that of the bytes up to the case of its letters. *)
Theorem cli_decode_hex_roundtrip :
  (∀ root, (Z.of_nat (length root) ≤ SIZE_MAX / 2)%Z →
     cli_decode_hex_exact (hex_text root) (length root) = Ok root) ∧
  (∀ hex n root, cli_decode_hex_exact hex n = Ok root →
     length root = n ∧ lower_hex <$> c_str hex = hex_text root) ∧
  (∀ proof n, length proof mod AUDIT_MERKLE_ROOT_BYTES = 0 → length proof ≤ n →
     cli_decode_proof_hex (hex_text proof) n = Ok proof) ∧
  (∀ hex n proof, cli_decode_proof_hex hex n = Ok proof →
     length proof mod AUDIT_MERKLE_ROOT_BYTES = 0 ∧ length proof ≤ n ∧ lower_hex <$> c_str hex = hex_text proof).
Proof.
  unfold cli_decode_hex_exact, cli_decode_proof_hex. split_and!.
  - intros root Hlen. rewrite c_str_no_nul, length_hex_text by apply hex_text_no_nul.
    rewrite (proj2 (Z.leb_le _ _)) by done. rewrite (proj2 (Nat.eqb_eq (2 * _) _)) by lia. cbn [check mbind outcome_bind].
    rewrite hex2bin_text by done. cbn. by rewrite Nat.eqb_refl.
  - intros hex n root H. apply outcome_seq_ok in H as [_ H]. apply outcome_seq_ok in H as [_ H].
    apply outcome_bind_ok in H as ([out rest] & E%from_option_or_ok & H).
    apply outcome_seq_ok in H as [[Hl%Nat.eqb_eq ->%bool_decide_eq_true]%check_ok%andb_true_iff [= <-]].
    split; [done|by eapply hex2bin_sound].
  - intros proof n Hmod Hlen. rewrite c_str_no_nul, length_hex_text by apply hex_text_no_nul.
    replace (2 * length proof) with (length proof * 2) by lia.
    rewrite Nat.mul_mod_distr_r, Hmod by done. rewrite Nat.div_mul by done. rewrite (proj2 (Nat.leb_le _ _)) by done.
    cbn [check mbind outcome_bind Nat.mul Nat.eqb andb].
    destruct (Nat.eqb_spec (length proof * 2) 0) as [E|_]; [destruct proof; [done|cbn in E; lia]|].
    rewrite hex2bin_text by done. cbn [from_option_or mbind outcome_bind]. by rewrite Hmod.
  - intros hex n proof H. apply outcome_seq_ok in H as [[Hmod%Nat.eqb_eq Hle%Nat.leb_le]%check_ok%andb_true_iff H].
    destruct (Nat.eqb_spec (length (c_str hex)) 0) as [E|_].
    { injection H as <-. destruct (c_str hex); [|done]. split_and!; [done|cbn; lia|done]. }
    apply outcome_bind_ok in H as ([out rest] & E%from_option_or_ok & H).
    apply outcome_seq_ok in H as [[->%bool_decide_eq_true Hl%Nat.eqb_eq]%check_ok%andb_true_iff [= <-]].
    pose proof (hex2bin_sound _ _ _ E) as Es. split_and!; [done| |done].
    apply (f_equal length) in Es. rewrite length_fmap, length_hex_text in Es. rewrite Es in Hle.
    by rewrite Nat.mul_comm, Nat.div_mul in Hle.
Qed.

End HexLemmas.

(** * Names in a listing *)

(** Text of whole characters: each first byte is followed by as many
    continuation bytes as it announces. *)
Inductive whole_chars : bytes → Prop :=
  | whole_nil : whole_chars []
  | whole_char c cs l :
      length cs = utf8_char_len c - 1 → Forall (λ b, is_continuation b = true) cs →
      whole_chars l → whole_chars (c :: cs ++ l).

Lemma utf8_char_len_bounds c : 1 ≤ utf8_char_len c ≤ 4.
Proof. unfold utf8_char_len. repeat case_match; lia. Qed.

Lemma continuations_spec n l room :
  continuations n l room = true ↔ n ≤ room ∧ n ≤ length l ∧ Forall (λ b, is_continuation b = true) (take n l).
Proof.
  revert l room. induction n as [|n IH]; intros [|b l] room; cbn.
  - split; [|done]. intros _. split_and!; [lia..|done].
  - split; [|done]. intros _. split_and!; [lia..|done].
  - split; [done|]. intros (_ & ? & _). lia.
  - destruct room as [|room]; [split; [done|intros (? & _); lia]|].
    rewrite andb_true_iff, IH, Forall_cons. split; [intros (? & ? & ? & ?)|intros (? & ? & ? & ?)]; split_and!; auto with lia.
Qed.

(** The prefix has whole characters only, and fits. *)
Lemma utf8_prefix_whole fuel text max :
  utf8_prefix fuel text max ≤ max ∧ utf8_prefix fuel text max ≤ length text ∧
  whole_chars (take (utf8_prefix fuel text max) text).
Proof.
  revert text max. induction fuel as [|fuel IH]; intros text max; [cbn; split_and!; [lia..|constructor]|].
  destruct text as [|c rest]; [cbn; split_and!; [lia..|constructor]|]. cbn [utf8_prefix].
  destruct (Nat.eqb_spec max 0) as [->|Hmax]; [split_and!; [lia..|constructor]|].
  destruct (continuations (utf8_char_len c - 1) rest (max - 1)) eqn:Ec; cbn [negb]; [|split_and!; [lia..|constructor]].
  destruct (Nat.ltb_spec max (utf8_char_len c)) as [|Hle]; [split_and!; [lia..|constructor]|].
  apply continuations_spec in Ec as (_ & Hl & Hc). pose proof (utf8_char_len_bounds c) as Hb.
  destruct (IH (drop (utf8_char_len c) (c :: rest)) (max - utf8_char_len c)) as (H1 & H2 & H3).
  rewrite length_drop in H2. cbn [length] in *. split_and!; [lia..|].
  destruct (utf8_char_len c) as [|n] eqn:En; [lia|]. cbn [drop take Nat.add] in *.
  rewrite <- take_take_drop. rewrite Nat.sub_succ, Nat.sub_0_r in *.
  apply whole_char; [rewrite length_take; lia|by rewrite En in Hc || exact Hc|exact H3].
Qed.

(** On text of whole characters the prefix is as long as a character allows. *)
Lemma utf8_prefix_long fuel text max :
  whole_chars text → max ≤ fuel → max ≤ length text → max ≤ utf8_prefix fuel text max + 3.
Proof.
  intros H. revert fuel max. induction H as [|c cs l Hcs Hc _ IH]; intros fuel max Hfuel Hlen; [cbn in *; lia|].
  destruct fuel as [|fuel]; [lia|]. cbn [utf8_prefix]. pose proof (utf8_char_len_bounds c) as Hb.
  destruct (Nat.eqb_spec max 0) as [->|Hmax]; [lia|].
  destruct (decide (max < utf8_char_len c)) as [Hs|Hs]; [lia|].
  rewrite (proj2 (continuations_spec _ _ _)); cycle 1.
  { rewrite length_app, take_app_length' by done. split_and!; [lia..|done]. }
  cbn [negb]. rewrite (proj2 (Nat.ltb_ge _ _)) by lia.
  assert (drop (utf8_char_len c) (c :: cs ++ l) = l) as ->.
  { destruct (utf8_char_len c) as [|n]; [lia|]. cbn [drop]. apply drop_app_length'. lia. }
  cbn [length] in Hlen. rewrite length_app in Hlen.
  specialize (IH fuel (max - utf8_char_len c) ltac:(lia) ltac:(lia)). lia.
Qed.

(** Replacing the control characters keeps the characters whole. *)
Lemma display_char_class b :
  utf8_char_len (display_char b) = utf8_char_len b ∧ is_continuation (display_char b) = is_continuation b ∧
  is_control (display_char b) = false ∧ display_char b ≠ Byte.x00.
Proof. destruct b; vm_compute; by split_and!. Qed.

Lemma whole_chars_display l : whole_chars l → whole_chars (display_char <$> l).
Proof.
  induction 1 as [|c cs l Hcs Hc _ IH]; cbn; [constructor|]. rewrite fmap_app. constructor; [| |done].
  - rewrite length_fmap, Hcs. by destruct (display_char_class c) as [-> _].
  - apply Forall_fmap. eapply Forall_impl; [exact Hc|]. intros b Hb. cbn. by destruct (display_char_class b) as (_ & -> & _).
Qed.


(** * Witnesses *)

Module CliTextExample.

Definition hex_value (b : byte) : option Z :=
  let z := byte_z (lower_hex b) in
  if ((48 <=? z) && (z <=? 57))%Z then Some (z - 48)%Z
  else if ((97 <=? z) && (z <=? 102))%Z then Some (z - 87)%Z else None.

(** A decoder that reads pairs of digits up to the end of the text. *)
Fixpoint read_hex (s : bytes) (n : nat) : option (bytes * bytes) :=
  match s, n with
  | [], _ => Some ([], [])
  | a :: b :: s', S n' =>
      x ← hex_value a; y ← hex_value b; '(data, rest) ← read_hex s' n'; Some (z_byte (16 * x + y) :: data, rest)
  | _, _ => None
  end.

#[export] Instance hex2bin : Hex2bin := { sodium_hex2bin := read_hex }.

Lemma hex_chars_value b : hex_value <$> hex_chars b = [Some (byte_z b / 16); Some (byte_z b mod 16)]%Z.
Proof. by destruct b; vm_compute. Qed.

Lemma hex_value_chars a b x y :
  hex_value a = Some x → hex_value b = Some y → hex_chars (z_byte (16 * x + y)) = [lower_hex a; lower_hex b].
Proof.
  assert (∀ b x, hex_value b = Some x → (0 ≤ x < 16)%Z ∧ hex_digit x = lower_hex b) as H.
  { intros [] ? E; vm_compute in E; try discriminate E; injection E as <-; vm_compute; by split_and!. }
  intros [Hx <-]%H [Hy <-]%H. unfold hex_chars. rewrite byte_z_z_byte, Z.mod_small by lia.
  rewrite Z.shiftr_div_pow2 by lia. change 15%Z with (Z.ones 4). rewrite Z.land_ones by lia.
  change (2 ^ 4)%Z with 16%Z. rewrite Z.mul_comm, Z.div_add_l, Z.div_small, Z.add_0_r by lia.
  by rewrite Z.add_comm, Z.mod_add, Z.mod_small by lia.
Qed.

#[export] Instance hex2bin_laws : Hex2binLaws hex2bin.
Proof.
  split.
  - cbn [sodium_hex2bin hex2bin]. intros data. induction data as [|b data IH]; intros [|n] Hn; cbn in Hn; [done..|lia|].
    unfold hex_text. cbn [mbind list_bind]. fold (hex_text data). pose proof (hex_chars_value b) as E.
    unfold hex_chars in E |- *. cbn [fmap list_fmap] in E. injection E as E1 E2. cbn [app read_hex]. rewrite E1, E2.
    cbn [mbind option_bind]. change (mbind hex_chars data) with (hex_text data). rewrite IH by lia. cbn.
    do 3 f_equal. rewrite <- Z.div_mod by done. apply z_byte_byte_z.
  - cbn [sodium_hex2bin hex2bin]. fix go 1. intros [|a [|b s]] [|n] data; cbn [read_hex]; try done; try by intros [= <-].
    destruct (hex_value a) as [x|] eqn:Ea; [|done]. destruct (hex_value b) as [y|] eqn:Eb; [|done].
    cbn [mbind option_bind]. destruct (read_hex s n) as [[d rest]|] eqn:E; [|done]. cbn. intros [= <- ->].
    unfold hex_text. cbn [mbind list_bind]. rewrite (hex_value_chars _ _ _ _ Ea Eb). cbn. do 2 f_equal. exact (go _ _ _ E).
Qed.

Lemma cli_decode_hex_roundtrip_witness :
  cli_decode_hex_exact (hex_text [Byte.x0a; Byte.xff]) 2 = Ok [Byte.x0a; Byte.xff] ∧
  cli_decode_hex_exact (str "0AfF") 2 = Ok [Byte.x0a; Byte.xff] ∧
  cli_decode_proof_hex (hex_text (replicate 64 Byte.xa5)) 2048 = Ok (replicate 64 Byte.xa5).
Proof.
  destruct cli_decode_hex_roundtrip as (H1 & _ & H3 & _). split; [|split].
  - apply (H1 [Byte.x0a; Byte.xff]). vm_compute. discriminate.
  - vm_compute. reflexivity.
  - apply H3; [reflexivity|]. apply (proj1 (Nat.leb_le _ _)). vm_compute. reflexivity.
Defined.


(** Two spellings a hurried hand types, one as near to [gen] as to [get], and one
    no command is close to. *)
Example did_you_mean :
  cli_closest_command (str "lits") = Some "list"%string ∧ cli_closest_command (str "rotate-dex") = Some "rotate-dek"%string ∧
  cli_closest_command (str "ge") = Some "gen"%string ∧
  cli_closest_command (str "frobnicate") = None.
Proof. vm_compute. by split_and!. Qed.

Example durations :
  cli_parse_duration_seconds (str "90m") = Ok 5400%Z ∧ cli_parse_duration_seconds (str "0") = Err SM_ERR_INVALID_ARGUMENT ∧
  cli_parse_duration_seconds (str "307445734561825861m") = Err SM_ERR_INVALID_ARGUMENT ∧
  cli_parse_positive_int (str " +7") = Ok 7%Z ∧ cli_parse_positive_int (str "2147483648") = Err SM_ERR_INVALID_ARGUMENT.
Proof. vm_compute. by split_and!. Qed.

End CliTextExample.
