(* ===== verification/CliOptions.v ===== *)
(** The options of the command line (src/src/main.c): [cli_options_t], the
    parsing of the arguments and what comes from the process environment.

    [getopt_long] is the GNU one, with its permutation of operands and its
    abbreviations of long options. Arguments are C strings. *)

From stdpp Require Import functions.
From S2P Require Import Prelude Status State CliText.

(** What the program reads of its process: the environment variables, whether
    its output streams are terminals, and which files it may execute. *)
Record system := System {
  getenv : string → option bytes;
  isatty_stdout : bool;
  isatty_stderr : bool;
  access_x : bytes → bool;
}.

(** * [cli_options_t]

    The fields of the structure by their types; [memset] makes every pointer
    NULL and every number 0. *)

Inductive text_field :=
  | o_command | o_db_path | o_password | o_new_password | o_name | o_value | o_algorithm | o_subject
  | o_scope | o_token | o_positional_name | o_root_hex | o_proof_hex | o_signature_b64 | o_recipient_path
  | o_private_key_path | o_public_key_path | o_key_passphrase_file | o_public_out_path | o_private_out_path
  | o_input_path | o_output_path.

Inductive number_field :=
  | o_ttl_seconds | o_within_seconds | o_leaf_index | o_leaf_count | o_version | o_entry_id | o_generate_length.

Inductive flag_field :=
  | o_has_ttl | o_has_within | o_has_leaf_index | o_has_leaf_count | o_has_length | o_no_symbols | o_copy | o_raw
  | o_show_all | o_read_stdin | o_help.

#[export] Instance text_field_eq_dec : EqDecision text_field.
Proof. solve_decision. Defined.
#[export] Instance number_field_eq_dec : EqDecision number_field.
Proof. solve_decision. Defined.
#[export] Instance flag_field_eq_dec : EqDecision flag_field.
Proof. solve_decision. Defined.

Record cli_options_t := Options {
  opt_text : text_field → option bytes;
  opt_number : number_field → Z;
  opt_flag : flag_field → bool;
}.

Definition set_text (f : text_field) (v : option bytes) (o : cli_options_t) : cli_options_t :=
  Options (<[f := v]> (opt_text o)) (opt_number o) (opt_flag o).
Definition set_number (f : number_field) (v : Z) (o : cli_options_t) : cli_options_t :=
  Options (opt_text o) (<[f := v]> (opt_number o)) (opt_flag o).
Definition set_flag (f : flag_field) (o : cli_options_t) : cli_options_t :=
  Options (opt_text o) (opt_number o) (<[f := true]> (opt_flag o)).

Definition CLI_DEFAULT_DB_PATH : bytes := str "fuin.db".

Definition cli_init_options : cli_options_t :=
  set_text o_db_path (Some CLI_DEFAULT_DB_PATH) (Options (λ _, None) (λ _, 0%Z) (λ _, false)).

(** [(s == NULL) || (s[0] == 0)] *)
Definition empty_text (s : option bytes) : bool :=
  match s with Some l => bool_decide (c_str l = []) | None => true end.

(** * [getopt_long] *)

(** An entry of the option table: the name, whether it has an argument, and
    the value returned for it. *)
Record long_option := LongOption { lo_name : string; lo_has_arg : bool; lo_val : Z }.

(** What a call returns: the value and the argument of an option, or ['?']. *)
Abbreviation getopt_event := (option (Z * bytes)).

Definition same_action (a b : long_option) : bool :=
  bool_decide (lo_has_arg a = lo_has_arg b) && (lo_val a =? lo_val b)%Z.

(** The option of that name, or else the one it abbreviates, when all that
    it may stand for act the same. *)
Definition find_long (options : list long_option) (name : bytes) : option long_option :=
  match filter (λ o, str (lo_name o) = name) options with
  | o :: _ => Some o
  | [] =>
      match filter (λ o, name `prefix_of` str (lo_name o)) options with
      | o :: others => if forallb (same_action o) others then Some o else None
      | [] => None
      end
  end.

Definition equals_sign : byte := Byte.x3d.

(** The name and the argument of [name=argument]. *)
Fixpoint split_equals (l : bytes) : bytes * option bytes :=
  match l with
  | [] => ([], None)
  | b :: l' =>
      if decide (b = equals_sign) then ([], Some l')
      else let '(name, argument) := split_equals l' in (b :: name, argument)
  end.

Definition short_option (options : list (byte * bool)) (c : byte) : option bool :=
  snd <$> (snd <$> list_find (λ o, o.1 = c) options).

(** The options of one argument [-abc]; the last may want the next argument. *)
Fixpoint short_cluster (options : list (byte * bool)) (l : bytes) : list getopt_event * option Z :=
  match l with
  | [] => ([], None)
  | c :: l' =>
      match short_option options c with
      | Some true => match l' with [] => ([], Some (byte_z c)) | _ => ([Some (byte_z c, l')], None) end
      | known =>
          let '(events, wants) := short_cluster options l' in
          ((if known then Some (byte_z c, []) else None) :: events, wants)
      end
  end.

Definition hyphen : byte := Byte.x2d.

(** What an argument is: an operand ([-] alone is one), the end of the
    options ([--]), a long option or short ones. *)
Inductive argument := Operand | End_of_options | Long (body : bytes) | Short (body : bytes).

Definition classify (arg : bytes) : argument :=
  match arg with
  | a :: b :: body =>
      if decide (a = hyphen) then
        if decide (b = hyphen) then if decide (body = []) then End_of_options else Long body
        else Short (b :: body)
      else Operand
  | _ => Operand
  end.

(** All the calls on the arguments: what they return up to -1, and the
    operands that remain from [optind] on. With [posixly_correct] the first
    operand ends the options. *)
Fixpoint getopt_long (posixly_correct : bool) (shorts : list (byte * bool)) (longs : list long_option)
    (args : list bytes) : list getopt_event * list bytes :=
  match args with
  | [] => ([], [])
  | arg :: args' =>
      let continue rest := getopt_long posixly_correct shorts longs rest in
      match classify arg with
      | End_of_options => ([], args')
      | Long body =>
          let '(name, argument) := split_equals body in
          match find_long longs name with
          | None => let '(events, operands) := continue args' in (None :: events, operands)
          | Some o =>
              match lo_has_arg o, argument with
              | true, None =>
                  match args' with
                  | a :: args'' =>
                      let '(events, operands) := continue args'' in (Some (lo_val o, a) :: events, operands)
                  | [] => ([None], [])
                  end
              | false, Some _ => let '(events, operands) := continue args' in (None :: events, operands)
              | _, _ =>
                  let '(events, operands) := continue args' in
                  (Some (lo_val o, default [] argument) :: events, operands)
              end
          end
      | Short body =>
          let '(events, wants) := short_cluster shorts body in
          match wants, args' with
          | None, _ => let '(events', operands) := continue args' in (events ++ events', operands)
          | Some val, a :: args'' =>
              let '(events', operands) := continue args'' in (events ++ Some (val, a) :: events', operands)
          | Some _, [] => (events ++ [None], [])
          end
      | Operand =>
          if posixly_correct then ([], args)
          else let '(events, operands) := continue args' in (events, arg :: operands)
      end
  end.

(** * The options of the program *)

Definition short_options : list (byte * bool) :=
  [(Byte.x64, true); (Byte.x70, true); (Byte.x6e, true); (Byte.x76, true); (Byte.x73, false); (Byte.x68, false)].

Definition long_options : list long_option := [
  LongOption "db" true 100; LongOption "password" true 112; LongOption "new-password" true 1000;
  LongOption "version" true 1001; LongOption "algorithm" true 1002; LongOption "ttl" true 1003;
  LongOption "within" true 1004; LongOption "subject" true 1005; LongOption "scope" true 1006;
  LongOption "token" true 1007; LongOption "entry-id" true 1008; LongOption "root" true 1009;
  LongOption "proof" true 1010; LongOption "leaf-index" true 1011; LongOption "entries" true 1012;
  LongOption "all" false 1013; LongOption "recipient" true 1014; LongOption "private-key" true 1015;
  LongOption "public-out" true 1016; LongOption "private-out" true 1017; LongOption "input" true 1018;
  LongOption "out" true 1019; LongOption "length" true 1020; LongOption "no-symbols" false 1021;
  LongOption "copy" false 1022; LongOption "public-key" true 1023; LongOption "signature" true 1024;
  LongOption "raw" false 1025; LongOption "key-passphrase-file" true 1026; LongOption "name" true 110;
  LongOption "value" true 118; LongOption "stdin" false 115; LongOption "help" false 104].

Section CliOptions.
Variable sys : system.

Definition cli_sensitive_argv_allowed : bool :=
  match getenv sys "FUIN_ALLOW_INSECURE_ARGS" with
  | Some allowed => str_is allowed "1"
  | None => false
  end.

(** An option whose argument is a secret. *)
Definition sensitive (f : text_field) (optarg : bytes) (o : cli_options_t) : outcome cli_options_t :=
  check cli_sensitive_argv_allowed SM_ERR_INVALID_ARGUMENT ;; Ok (set_text f (Some optarg) o).

(** The loop body of [cli_parse_with_getopt]. *)
Definition handle_option (o : cli_options_t) (event : getopt_event) : outcome cli_options_t :=
  let text f optarg := Ok (set_text f (Some optarg) o) in
  let flag f := Ok (set_flag f o) in
  match event with
  | None => Err SM_ERR_INVALID_ARGUMENT
  | Some (option, optarg) =>
      match option with
      | 100 => text o_db_path optarg
      | 112 => sensitive o_password optarg o
      | 1000 => sensitive o_new_password optarg o
      | 1001 => n ← cli_parse_positive_int optarg; Ok (set_number o_version n o)
      | 1002 => text o_algorithm optarg
      | 1003 => n ← cli_parse_duration_seconds optarg; Ok (set_flag o_has_ttl (set_number o_ttl_seconds n o))
      | 1004 => n ← cli_parse_duration_seconds optarg; Ok (set_flag o_has_within (set_number o_within_seconds n o))
      | 1005 => text o_subject optarg
      | 1006 => text o_scope optarg
      | 1007 => sensitive o_token optarg o
      | 1008 => n ← cli_parse_positive_int optarg; Ok (set_number o_entry_id n o)
      | 1009 => text o_root_hex optarg
      | 1010 => text o_proof_hex optarg
      | 1011 => n ← cli_parse_size_value optarg true; Ok (set_flag o_has_leaf_index (set_number o_leaf_index n o))
      | 1012 => n ← cli_parse_size_value optarg false; Ok (set_flag o_has_leaf_count (set_number o_leaf_count n o))
      | 1013 => flag o_show_all
      | 1014 => text o_recipient_path optarg
      | 1015 => text o_private_key_path optarg
      | 1016 => text o_public_out_path optarg
      | 1017 => text o_private_out_path optarg
      | 1018 => text o_input_path optarg
      | 1019 => text o_output_path optarg
      | 1020 => n ← cli_parse_positive_int optarg; Ok (set_flag o_has_length (set_number o_generate_length n o))
      | 1021 => flag o_no_symbols
      | 1022 => flag o_copy
      | 1023 => text o_public_key_path optarg
      | 1024 => text o_signature_b64 optarg
      | 1025 => flag o_raw
      | 1026 => text o_key_passphrase_file optarg
      | 110 => text o_name optarg
      | 118 => sensitive o_value optarg o
      | 115 => flag o_read_stdin
      | 104 => flag o_help
      | _ => Err SM_ERR_INVALID_ARGUMENT
      end%Z
  end.

Fixpoint handle_options (o : cli_options_t) (events : list getopt_event) : outcome cli_options_t :=
  match events with
  | [] => Ok o
  | event :: events' => o' ← handle_option o event; handle_options o' events'
  end.

(** The first operand is the command when there is none yet, the next one the
    name; there may be no others. *)
Definition take_operands (o : cli_options_t) (operands : list bytes) : outcome cli_options_t :=
  let '(o, operands) :=
    match opt_text o o_command, operands with
    | None, a :: operands' => (set_text o_command (Some a) o, operands')
    | _, _ => (o, operands)
    end in
  let '(o, operands) :=
    match opt_text o o_positional_name, operands with
    | None, a :: operands' => (set_text o_positional_name (Some a) o, operands')
    | _, _ => (o, operands)
    end in
  check (bool_decide (operands = [])) SM_ERR_INVALID_ARGUMENT ;; Ok o.

Definition cli_parse_with_getopt (args : list bytes) (o : cli_options_t) : outcome cli_options_t :=
  let posixly_correct := bool_decide (is_Some (getenv sys "POSIXLY_CORRECT")) in
  let '(events, operands) := getopt_long posixly_correct short_options long_options args in
  o ← handle_options o events;
  take_operands o operands.

(** [if (options->field == NULL) options->field = getenv(variable);] *)
Definition from_environment (f : text_field) (variable : string) (o : cli_options_t) : cli_options_t :=
  match opt_text o f with
  | None => set_text f (getenv sys variable) o
  | Some _ => o
  end.

(** The name from its place after the command. *)
Definition name_operand (o : cli_options_t) : outcome cli_options_t :=
  match opt_text o o_positional_name, opt_text o o_command with
  | None, _ => Ok o
  | Some name, Some command =>
      if cli_command_accepts_name command && bool_decide (opt_text o o_name = None)
      then Ok (set_text o_name (Some name) o)
      else check (bool_decide (cli_command_usage command = None)) SM_ERR_INVALID_ARGUMENT ;; Ok o
  | Some _, None => Err SM_ERR_INVALID_ARGUMENT
  end.

(** The second half of [cli_parse_options]. *)
Definition complete_options (o : cli_options_t) : outcome cli_options_t :=
  let o := from_environment o_token "FUIN_TOKEN"
             (from_environment o_new_password "FUIN_NEW_PASSWORD" (from_environment o_password "FUIN_PASSWORD" o)) in
  check (negb (bool_decide (is_Some (opt_text o o_value)) && opt_flag o o_read_stdin)) SM_ERR_INVALID_ARGUMENT ;;
  check (negb (empty_text (opt_text o o_db_path))) SM_ERR_INVALID_ARGUMENT ;;
  o ← name_operand o;
  check (negb (opt_flag o o_raw && negb (opt_flag o o_help)
               && (match opt_text o o_command with Some command => negb (str_is command "get") | None => true end
                   || opt_flag o o_copy))) SM_ERR_INVALID_ARGUMENT ;;
  Ok o.

(** The first argument after the name of the program is the command, if it is
    no option; a process may be started without any argument, not even that
    name. *)
Definition cli_parse_options (argv : list bytes) : M cli_options_t :=
  match argv with
  | [] => throw SM_ERR_INVALID_ARGUMENT
  | _ :: (command :: args') as args =>
      if negb (bool_decide (head command = Some hyphen)) then
        lib_call SM_ERR_STORAGE ;;
        lift (o ← cli_parse_with_getopt args' (set_text o_command (Some command) cli_init_options); complete_options o)
      else lift (o ← cli_parse_with_getopt args cli_init_options; complete_options o)
  | [_] => lift (o ← cli_parse_with_getopt [] cli_init_options; complete_options o)
  end.

End CliOptions.

(** * Secrets on the command line *)

Definition sensitive_fields : list text_field := [o_password; o_new_password; o_token; o_value].

Lemma set_text_other f g v o : f ≠ g → opt_text (set_text f v o) g = opt_text o g.
Proof. intros H. unfold set_text. cbn. by rewrite fn_lookup_insert_ne. Qed.
Lemma set_text_same f v o : opt_text (set_text f v o) f = v.
Proof. unfold set_text. cbn. by rewrite fn_lookup_insert. Qed.

Section Sensitive.
Variable sys : system.

Lemma name_operand_text o o' f : f ≠ o_name → name_operand o = Ok o' → opt_text o' f = opt_text o f.
Proof.
  intros Hf. unfold name_operand.
  repeat case_match; try done; try (by intros [= <-]).
  - intros [= <-]. by apply set_text_other.
  - by intros [_ [= <-]]%outcome_seq_ok.
Qed.

Lemma from_environment_other f g v o : f ≠ g → opt_text (from_environment sys f v o) g = opt_text o g.
Proof. intros H. unfold from_environment. destruct (opt_text o f); [done|]. by apply set_text_other. Qed.
Lemma from_environment_none f v o : opt_text o f = None → opt_text (from_environment sys f v o) f = getenv sys v.
Proof. intros H. unfold from_environment. rewrite H. apply set_text_same. Qed.

Lemma complete_sensitive o o' :
  (∀ f, f ∈ sensitive_fields → opt_text o f = None) → complete_options sys o = Ok o' →
  opt_text o' o_password = getenv sys "FUIN_PASSWORD" ∧ opt_text o' o_new_password = getenv sys "FUIN_NEW_PASSWORD" ∧
  opt_text o' o_token = getenv sys "FUIN_TOKEN" ∧ opt_text o' o_value = None.
Proof.
  intros Ho H. unfold complete_options in H. apply outcome_seq_ok in H as [_ H]. apply outcome_seq_ok in H as [_ H].
  apply outcome_bind_ok in H as (o1 & H1 & H). apply outcome_seq_ok in H as [_ [= <-]].
  assert (∀ f, f ≠ o_name → opt_text o1 f = opt_text _ f) as E by (intros f Hf; exact (name_operand_text _ _ f Hf H1)).
  rewrite !E by done. clear E H1 o1.
  assert (∀ f, f ∈ sensitive_fields → opt_text o f = None) as Hn by done. unfold sensitive_fields in Hn.
  split_and!.
  - rewrite (from_environment_other o_token), (from_environment_other o_new_password) by done.
    apply from_environment_none, Hn. set_solver.
  - rewrite (from_environment_other o_token) by done.
    apply from_environment_none. rewrite from_environment_other by done. apply Hn. set_solver.
  - apply from_environment_none. rewrite !from_environment_other by done. apply Hn. set_solver.
  - rewrite !from_environment_other by done. apply Hn. set_solver.
Qed.

Hypothesis not_allowed : cli_sensitive_argv_allowed sys = false.

Lemma sensitive_refused f optarg o : sensitive sys f optarg o = Err SM_ERR_INVALID_ARGUMENT.
Proof. unfold sensitive. by rewrite not_allowed. Qed.

Lemma handle_option_sensitive o event o' f :
  f ∈ sensitive_fields → handle_option sys o event = Ok o' → opt_text o' f = opt_text o f.
Proof.
  intros Hf. assert (∀ g v, g ∉ sensitive_fields → opt_text (set_text g v o) f = opt_text o f) as Hset.
  { intros g v Hg. apply set_text_other. by intros ->. }
  destruct event as [[option optarg]|]; [|done]. unfold handle_option.
  repeat case_match; try done; rewrite ?sensitive_refused; try done; intros Hr;
    try (apply outcome_bind_ok in Hr as (n & _ & Hr)); injection Hr as <-; try done;
    apply Hset; unfold sensitive_fields; set_solver.
Qed.

Lemma handle_options_sensitive o events o' f :
  f ∈ sensitive_fields → handle_options sys o events = Ok o' → opt_text o' f = opt_text o f.
Proof.
  intros Hf. revert o. induction events as [|event events IH]; intros o; cbn; [by intros [= <-]|].
  intros (o1 & H1 & H)%outcome_bind_ok. by rewrite (IH _ H), (handle_option_sensitive _ _ _ _ Hf H1).
Qed.

Lemma take_operands_sensitive o operands o' f :
  f ∈ sensitive_fields → take_operands o operands = Ok o' → opt_text o' f = opt_text o f.
Proof.
  intros Hf. assert (∀ g v o, g ∉ sensitive_fields → opt_text (set_text g v o) f = opt_text o f) as Hset.
  { intros g v o1 Hg. apply set_text_other. by intros ->. }
  unfold take_operands.
  repeat case_match; simplify_eq; intros [_ [= <-]]%outcome_seq_ok; rewrite ?Hset; try done; unfold sensitive_fields; set_solver.
Qed.

Lemma getopt_sensitive args o o' f :
  f ∈ sensitive_fields → cli_parse_with_getopt sys args o = Ok o' → opt_text o' f = opt_text o f.
Proof.
  intros Hf. unfold cli_parse_with_getopt. destruct (getopt_long _ _ _ _) as [events operands].
  intros (o1 & H1 & H)%outcome_bind_ok.
  by rewrite (take_operands_sensitive _ _ _ _ Hf H), (handle_options_sensitive _ _ _ _ Hf H1).
Qed.

End Sensitive.

(** C34: unless FUIN_ALLOW_INSECURE_ARGS is "1", no argument, in whatever
    spelling or place, puts a secret into the options: when they are accepted
    the passwords and the token are those of the environment and there is no
    value, so nothing that other users can read in the list of processes is
    used as a secret. *)
Theorem cli_secrets_not_from_argv sys argv e w o w' :
  (∀ allowed, getenv sys "FUIN_ALLOW_INSECURE_ARGS" = Some allowed → c_str allowed ≠ str "1") →
  cli_parse_options sys argv e w = (Ok o, w') →
  opt_text o o_password = getenv sys "FUIN_PASSWORD" ∧ opt_text o o_new_password = getenv sys "FUIN_NEW_PASSWORD" ∧
  opt_text o o_token = getenv sys "FUIN_TOKEN" ∧ opt_text o o_value = None.
Proof.
  intros Hallowed H. assert (cli_sensitive_argv_allowed sys = false) as Hna.
  { unfold cli_sensitive_argv_allowed. destruct (getenv sys "FUIN_ALLOW_INSECURE_ARGS") as [a|]; [|done].
    apply bool_decide_eq_false_2. by apply Hallowed. }
  assert (∃ args' o0, (∀ f, f ∈ sensitive_fields → opt_text o0 f = None) ∧
    (o1 ← cli_parse_with_getopt sys args' o0; complete_options sys o1) = Ok o) as (args' & o0 & Ho0 & H').
  { assert (∀ c f, f ∈ sensitive_fields → opt_text (set_text o_command c cli_init_options) f = None ∧ opt_text cli_init_options f = None) as Hnone.
    { unfold sensitive_fields. intros c f Hf. repeat (apply elem_of_cons in Hf as [->|Hf]; [done|]). by apply not_elem_of_nil in Hf. }
    destruct argv as [|program [|command args']]; cbn [cli_parse_options] in H; [discriminate H| |destruct (negb _)];
      [|apply bind_ok in H as ([] & w1 & _ & H)|];
      eexists _, _; (split; [|exact (f_equal fst H)]); intros f Hf; by apply (Hnone (Some [])) || by apply Hnone. }
  apply outcome_bind_ok in H' as (o1 & H1 & H2). eapply complete_sensitive; [|exact H2].
  intros f Hf. by rewrite (getopt_sensitive sys Hna _ _ _ f Hf H1), Ho0.
Qed.

(** * Long options are read as they are written *)

(** An option in its long form, its argument after an equals sign. *)
Definition long_form (setting : long_option * bytes) : bytes :=
  hyphen :: hyphen :: str (lo_name setting.1) ++ if lo_has_arg setting.1 then equals_sign :: setting.2 else [].

(** What it sets. *)
Definition long_event (setting : long_option * bytes) : getopt_event :=
  Some (lo_val setting.1, if lo_has_arg setting.1 then setting.2 else []).

Lemma split_equals_app name rest :
  equals_sign ∉ name →
  split_equals (name ++ rest) = match rest with
                                | b :: rest' => if decide (b = equals_sign) then (name, Some rest')
                                                else let '(n, a) := split_equals rest in (name ++ n, a)
                                | [] => (name, None)
                                end.
Proof.
  induction name as [|b name IH]; intros Hn; cbn.
  - destruct rest as [|c rest]; [done|]. cbn. case_decide; [done|]. by destruct (split_equals rest).
  - apply not_elem_of_cons in Hn as [Hb Hn]. rewrite decide_False by congruence. rewrite IH by done.
    destruct rest as [|c rest]; [done|]. case_decide; [done|]. by destruct (split_equals (c :: rest)).
Qed.

Lemma long_options_found o :
  o ∈ long_options → find_long long_options (str (lo_name o)) = Some o ∧ equals_sign ∉ str (lo_name o) ∧ str (lo_name o) ≠ [].
Proof.
  assert (forallb (λ o, match find_long long_options (str (lo_name o)) with
                        | Some o' => bool_decide (lo_name o' = lo_name o) && same_action o' o
                        | None => false
                        end && bool_decide (equals_sign ∉ str (lo_name o)) && negb (bool_decide (str (lo_name o) = [])))
            long_options = true) as F by (vm_compute; reflexivity).
  rewrite forallb_forall in F. intros Ho%list_elem_of_In%F.
  apply andb_true_iff in Ho as [[Ho He%bool_decide_eq_true]%andb_true_iff Hn%negb_true_iff%bool_decide_eq_false].
  split_and!; [|done..]. destruct (find_long _ _) as [[n h v]|]; [|done].
  apply andb_true_iff in Ho as [En%bool_decide_eq_true [Eh%bool_decide_eq_true Ev%Z.eqb_eq]%andb_true_iff].
  destruct o. cbn in *. congruence.
Qed.

(** options in their long form, in any order and number and with any
    text as arguments, are read back exactly as they were written; what
    follows [--] are the operands, whatever they look like. *)
Theorem getopt_long_form posixly_correct settings operands :
  Forall (λ s, s.1 ∈ long_options) settings →
  getopt_long posixly_correct short_options long_options ((long_form <$> settings) ++ [hyphen; hyphen] :: operands)
  = (long_event <$> settings, operands).
Proof.
  induction 1 as [|[o arg] settings Ho _ IH]; [done|]. cbn [fmap list_fmap app fst] in *.
  destruct (long_options_found o Ho) as (Hfind & Heq & Hne). cbn [getopt_long].
  assert (classify (long_form (o, arg)) = Long (str (lo_name o) ++ if lo_has_arg o then equals_sign :: arg else [])) as ->.
  { unfold long_form, classify. cbn [fst snd]. rewrite !decide_True by done. rewrite decide_False; [done|].
    by intros [? _]%app_eq_nil. }
  rewrite split_equals_app by done. unfold long_event at 1. cbn [fst snd].
  destruct (lo_has_arg o) eqn:Ea; [rewrite decide_True by done|]; rewrite Hfind, Ea; by rewrite IH.
Qed.

Module CliOptionsExample.

(** No terminal, no variables but a password and a token. *)
Definition sys : system :=
  System (λ v, if decide (v = "FUIN_PASSWORD"%string) then Some (str "correct horse")
               else if decide (v = "FUIN_TOKEN"%string) then Some (str "t.k.n") else None)
    false false (λ _, false).

Definition argv : list bytes := [str "fuin"; str "get"; str "--versio"; str "3"; str "db/prod"; str "-d"; str "/v/f.db"; str "--raw"].

Lemma cli_secrets_not_from_argv_witness :
  ∃ o, (cli_parse_options sys argv (Sample.env_at 0) Sample.world0).1 = Ok o ∧
    opt_text o o_password = Some (str "correct horse") ∧ opt_text o o_value = None ∧
    opt_text o o_name = Some (str "db/prod") ∧ opt_number o o_version = 3%Z.
Proof.
  destruct (run_ok (cli_parse_options sys argv (Sample.env_at 0) Sample.world0)) as (o & w & H); [vm_compute; reflexivity|].
  destruct (cli_secrets_not_from_argv sys argv (Sample.env_at 0) Sample.world0 o w ltac:(by intros ?) H) as (E1 & _ & _ & E2).
  exists o. rewrite H. split; [reflexivity|]. split; [exact E1|]. split; [exact E2|].
  vm_compute in H. injection H as <- _. split; reflexivity.
Defined.

(** Without the variable every way to pass a secret is refused. *)
Example secrets_refused :
  Forall (λ a, is_ok (cli_parse_options sys (str "fuin" :: str "put" :: str "x" :: a) (Sample.env_at 0) Sample.world0).1 = false)
    [[str "-ps3cret"]; [str "--passw=s3cret"]; [str "-sv"; str "s3cret"]; [str "--token"; str "t"]; [str "--value=v"]].
Proof. repeat constructor; vm_compute; reflexivity. Qed.

(** Nor is anything read when there are no arguments at all. *)
Example no_arguments : (cli_parse_options sys [] (Sample.env_at 0) Sample.world0).1 = Err SM_ERR_INVALID_ARGUMENT.
Proof. reflexivity. Qed.

Lemma getopt_long_form_witness :
  getopt_long false short_options long_options
    [str "--db=/v/a=b.db"; str "--raw"; str "--"; str "-n"; str "--help"]
  = ([Some (100%Z, str "/v/a=b.db"); Some (1025%Z, [])], [str "-n"; str "--help"]).
Proof.
  apply (getopt_long_form false [(LongOption "db" true 100, str "/v/a=b.db"); (LongOption "raw" false 1025, [])]
    [str "-n"; str "--help"]).
  repeat constructor; unfold long_options; set_solver.
Defined.

End CliOptionsExample.
