(* ===== verification/CliIo.v ===== *)
(** Input and output of the command line (src/src/main.c): the standard
    streams and the terminal, messages, prompts, key passphrase files, and the
    clipboard with its helper.

    A command is a computation on the console: on top of [M] it carries what
    the process reads and writes, also when it fails. Only this file and the
    commands can write to the streams: the library has no access to them. *)

From S2P Require Import Prelude Status State Files Utils CliText CliOptions.

(** * The console *)

(** A process that was started, with its arguments, its environment variables
    and what it is given on its standard input. *)
Record child := Child { ch_argv : list bytes; ch_envp : list bytes; ch_stdin : bytes }.

(** [con_tty] are the lines typed at the controlling terminal, [None] when the
    process has none; [con_children] the processes it has started;
    [con_reported] is [g_cli_open_error_reported]. [con_stuck] says that a loop
    of the library was given too few turns to end. *)
Record console := Console {
  con_stdin : bytes;
  con_stdout : bytes;
  con_stderr : bytes;
  con_tty : option (list bytes);
  con_tty_out : bytes;
  con_clipboard : bytes;
  con_children : list child;
  con_reported : bool;
  con_stuck : bool;
}.

Definition set_stdin (s : bytes) (t : console) : console :=
  Console s (con_stdout t) (con_stderr t) (con_tty t) (con_tty_out t) (con_clipboard t) (con_children t) (con_reported t) (con_stuck t).
Definition add_stdout (s : bytes) (t : console) : console :=
  Console (con_stdin t) (con_stdout t ++ s) (con_stderr t) (con_tty t) (con_tty_out t) (con_clipboard t) (con_children t) (con_reported t) (con_stuck t).
Definition add_stderr (s : bytes) (t : console) : console :=
  Console (con_stdin t) (con_stdout t) (con_stderr t ++ s) (con_tty t) (con_tty_out t) (con_clipboard t) (con_children t) (con_reported t) (con_stuck t).
Definition set_tty (lines : option (list bytes)) (t : console) : console :=
  Console (con_stdin t) (con_stdout t) (con_stderr t) lines (con_tty_out t) (con_clipboard t) (con_children t) (con_reported t) (con_stuck t).
Definition add_tty_out (s : bytes) (t : console) : console :=
  Console (con_stdin t) (con_stdout t) (con_stderr t) (con_tty t) (con_tty_out t ++ s) (con_clipboard t) (con_children t) (con_reported t) (con_stuck t).
Definition set_clipboard (s : bytes) (t : console) : console :=
  Console (con_stdin t) (con_stdout t) (con_stderr t) (con_tty t) (con_tty_out t) s (con_children t) (con_reported t) (con_stuck t).
Definition add_child (c : child) (t : console) : console :=
  Console (con_stdin t) (con_stdout t) (con_stderr t) (con_tty t) (con_tty_out t) (con_clipboard t) (con_children t ++ [c]) (con_reported t) (con_stuck t).
Definition set_reported (b : bool) (t : console) : console :=
  Console (con_stdin t) (con_stdout t) (con_stderr t) (con_tty t) (con_tty_out t) (con_clipboard t) (con_children t) b (con_stuck t).
Definition set_stuck (t : console) : console :=
  Console (con_stdin t) (con_stdout t) (con_stderr t) (con_tty t) (con_tty_out t) (con_clipboard t) (con_children t) (con_reported t) true.

(** * Computations on the console *)

Definition C (A : Type) : Type := console → M (console * outcome A).

#[export] Instance C_ret : MRet C := λ A a t, mret (t, Ok a).
#[export] Instance C_bind : MBind C := λ A B f m t,
  r ← m t; match r.2 with Ok a => f a r.1 | Err s => mret (r.1, Err s) end.
#[global] Typeclasses Opaque C.

Definition fail_with {A} (s : sm_error) : C A := λ t, mret (t, Err s).
(** A call of the library. *)
Definition run {A} (m : M A) : C A := λ t, r ← try m; mret (t, r).
Definition of_outcome {A} (o : outcome A) : C A := λ t, mret (t, o).
Definition require (b : bool) (s : sm_error) : C unit := of_outcome (check b s).
Definition get_console : C console := λ t, mret (t, Ok t).
Definition put_console (t : console) : C unit := λ _, mret (t, Ok ()).
Definition modify_console (f : console → console) : C unit := λ t, mret (f t, Ok ()).

(** The status of [m] as a value. *)
Definition attempt {A} (m : C A) : C (outcome A) := λ t, r ← m t; mret (r.1, Ok r.2).
(** [(void)m;] *)
Definition ignore {A} (m : C A) : C unit := attempt m ;; mret ().
(** [if (m != SM_OK) return s;] *)
Definition or_status {A} (s : sm_error) (m : C A) : C A :=
  r ← attempt m; match r with Ok a => mret a | Err _ => fail_with s end.

(** * Streams *)

Inductive stream := Stdout | Stderr.

Definition append_to (f : stream) (text : bytes) : console → console :=
  match f with Stdout => add_stdout text | Stderr => add_stderr text end.

(** [fwrite] and [fprintf]: a failing call may have written a part. *)
Definition write_stream (f : stream) (text : bytes) : C unit :=
  r ← attempt (run (lib_call SM_ERR_STORAGE));
  match r with
  | Ok _ => modify_console (append_to f text)
  | Err s =>
      n ← run (randombytes_uniform (Z.of_nat (length text)));
      modify_console (append_to f (take (Z.to_nat n) text)) ;;
      fail_with s
  end.

(** The calls whose result is not looked at. *)
Definition print (f : stream) (text : bytes) : C unit := ignore (write_stream f text).

(** * Colour and messages *)

Definition esc (code : string) : bytes := Byte.x1b :: str code.
Definition CLI_SGR_RESET : bytes := esc "[0m".
Definition CLI_SGR_BOLD : bytes := esc "[1m".
Definition CLI_SGR_DIM : bytes := esc "[2m".
Definition CLI_SGR_RED : bytes := esc "[31m".
Definition CLI_SGR_GREEN : bytes := esc "[32m".
Definition CLI_SGR_YELLOW : bytes := esc "[33m".
Definition CLI_SGR_CYAN : bytes := esc "[36m".
Definition CLI_SYM_CHECK : bytes := [Byte.xe2; Byte.x9c; Byte.x93].
Definition CLI_SYM_CROSS : bytes := [Byte.xe2; Byte.x9c; Byte.x97].
Definition CLI_SYM_DOT : bytes := [Byte.xe2; Byte.x97; Byte.x8f].
Definition CLI_SYM_ARROW : bytes := [Byte.xe2; Byte.x86; Byte.x92].
Definition CLI_SYM_DASH : bytes := [Byte.xe2; Byte.x80; Byte.x94].
Definition CLI_SYM_SEP : bytes := [Byte.xc2; Byte.xb7].

Definition space : byte := Byte.x20.
Definition nl : bytes := [newline].

(** [%-*s], [%*s] and [%*d]. *)
Definition pad_right (w : nat) (s : bytes) : bytes := s ++ replicate (w - length s) space.
Definition pad_left (w : nat) (s : bytes) : bytes := replicate (w - length s) space ++ s.
(** [%zu] *)
Definition print_nat (n : nat) : bytes := print_dec (Z.of_nat n).
(** [%d] *)
Definition print_int (z : Z) : bytes := if (z <? 0)%Z then str "-" ++ print_dec (- z) else print_dec z.

Section CliIo.
Context {PX : Posix}.
Variable sys : system.

(** The probe of the code, which keeps its result: neither the variables nor
    the streams change while the process runs. *)
Definition cli_color_probe (f : stream) : bool :=
  if negb (empty_text (getenv sys "NO_COLOR")) then false
  else if match getenv sys "TERM" with Some term => str_is term "dumb" | None => false end then false
  else match f with Stdout => isatty_stdout sys | Stderr => isatty_stderr sys end.

Definition cli_color_enabled (f : stream) : bool := cli_color_probe f.

Definition cli_heading (f : stream) (text : string) : C unit :=
  if cli_color_enabled f then print f (CLI_SGR_BOLD ++ CLI_SGR_CYAN ++ str text ++ CLI_SGR_RESET ++ nl)
  else print f (str text ++ nl).

Definition cli_ok (f : stream) (msg : bytes) : C unit :=
  (if cli_color_enabled f then print f (CLI_SGR_GREEN ++ CLI_SYM_CHECK ++ str " " ++ CLI_SGR_RESET) else mret ()) ;;
  print f msg ;;
  print f nl.

Definition cli_error (msg : bytes) : C unit :=
  (if cli_color_enabled Stderr then print Stderr (CLI_SGR_RED ++ CLI_SGR_BOLD ++ CLI_SYM_CROSS ++ str " " ++ CLI_SGR_RESET)
   else print Stderr (str "fuin: ")) ;;
  print Stderr msg ;;
  print Stderr nl.

Definition cli_hint (f : stream) (msg : bytes) : C unit :=
  (if cli_color_enabled f then print f (CLI_SGR_DIM ++ str "  " ++ CLI_SYM_ARROW ++ str " ") else print f (str "  ")) ;;
  print f msg ;;
  (if cli_color_enabled f then print f CLI_SGR_RESET else mret ()) ;;
  print f nl.

Definition cli_listing_line (f : stream) (desc_col : Z) (cmd desc : string) : C unit :=
  let pad := (desc_col - 2 - Z.of_nat (length (str cmd)))%Z in
  let pad := Z.to_nat (if (pad <? 1)%Z then 1 else pad) in
  if cli_color_enabled f then
    print f (str "  " ++ CLI_SGR_CYAN ++ str cmd ++ CLI_SGR_RESET ++ replicate pad space ++ CLI_SGR_DIM ++ str desc
             ++ CLI_SGR_RESET ++ nl)
  else print f (str "  " ++ str cmd ++ replicate pad space ++ str desc ++ nl).

(** * Secrets read from a stream or a file *)

Definition CLI_MAX_SECRET_BYTES : nat := 1024 * 1024.
Definition CLI_PASSWORD_MAX : nat := 512.

Definition cli_alloc_secret_buffer (capacity : nat) : C unit :=
  require (negb (capacity =? 0)%nat) SM_ERR_INVALID_ARGUMENT ;;
  run (lib_call SM_ERR_STORAGE).

(** All of standard input, which is at its end afterwards. *)
Definition cli_read_stdin_secret : C bytes :=
  or_status SM_ERR_STORAGE (cli_alloc_secret_buffer CLI_MAX_SECRET_BYTES) ;;
  t ← get_console;
  run (lib_call SM_ERR_STORAGE) ;;
  modify_console (set_stdin (drop (CLI_MAX_SECRET_BYTES + 1) (con_stdin t))) ;;
  require (length (con_stdin t) <=? CLI_MAX_SECRET_BYTES)%nat SM_ERR_INPUT_TOO_LARGE ;;
  mret (con_stdin t).

(** The loop that takes line ends off the end of a text. *)
Definition is_line_end (b : byte) : bool := bool_decide (b = newline) || bool_decide (b = Byte.x0d).

Fixpoint drop_line_ends (l : bytes) : bytes :=
  match l with
  | [] => []
  | b :: l' =>
      match drop_line_ends l' with
      | [] => if is_line_end b then [] else [b]
      | kept => b :: kept
      end
  end.

(** One line typed without echo. [fgets] keeps what fits the buffer; the rest
    of the line is lost when the terminal is closed. *)
Definition cli_prompt_password (prompt : bytes) (out_len : nat) : C bytes :=
  require (2 <=? out_len)%nat SM_ERR_INVALID_ARGUMENT ;;
  t ← get_console;
  match con_tty t with
  | None => fail_with SM_ERR_INVALID_ARGUMENT
  | Some lines =>
      run (as_status SM_ERR_INVALID_ARGUMENT (lib_call SM_ERR_STORAGE)) ;;
      run (lib_call SM_ERR_STORAGE) ;;
      run (lib_call SM_ERR_STORAGE) ;;
      modify_console (add_tty_out (prompt ++ nl)) ;;
      modify_console (set_tty (Some (tail lines))) ;;
      line ← of_outcome (from_option_or SM_ERR_INVALID_ARGUMENT (head lines));
      require (negb (bool_decide (line = []))) SM_ERR_INVALID_ARGUMENT ;;
      let out := drop_line_ends (c_str (take (out_len - 1) line)) in
      require (negb (bool_decide (out = []))) SM_ERR_INVALID_ARGUMENT ;;
      mret out
  end.

Definition cli_prompt_password_confirmed (prompt confirm_prompt : bytes) (out_len : nat) : C bytes :=
  out ← cli_prompt_password prompt out_len;
  confirm ← cli_prompt_password confirm_prompt CLI_PASSWORD_MAX;
  require (bool_decide (out = confirm)) SM_ERR_AUTH ;;
  mret out.

Definition cli_tty_note (text : bytes) : C unit :=
  t ← get_console;
  match con_tty t with
  | None => mret ()
  | Some _ =>
      r ← attempt (run (lib_call SM_ERR_STORAGE));
      match r with Ok _ => modify_console (add_tty_out text) | Err _ => mret () end
  end.

(** The same statements as [backup_resolve_parent_path] and
    [backup_fopen_owner_only_read] of backup.c. *)
Definition cli_resolve_parent_path : bytes → M bytes := backup_resolve_parent_path.
Definition cli_fopen_owner_only_read : bytes → M bytes := backup_fopen_owner_only_read.

Definition cli_read_key_passphrase_file (path : bytes) (out_len : nat) : M bytes :=
  guard_or (negb (bool_decide (c_str path = [])) && (2 <=? out_len)%nat) SM_ERR_INVALID_ARGUMENT ;;
  entry ← cli_fopen_owner_only_read path;
  and_close
    (lib_call SM_ERR_STORAGE ;;
     content ← fcontent entry;
     guard_or (length content <=? out_len - 1)%nat SM_ERR_INPUT_TOO_LARGE ;;
     let out := drop_line_ends (c_str content) in
     guard_or (negb (bool_decide (out = []))) SM_ERR_INVALID_ARGUMENT ;;
     mret out).

Definition cli_load_key_passphrase (o : cli_options_t) (confirmed : bool) (out_len : nat) : C bytes :=
  match opt_text o o_key_passphrase_file with
  | Some path => run (cli_read_key_passphrase_file path out_len)
  | None =>
      if confirmed then
        cli_tty_note (str "Set a passphrase to encrypt the new private key file." ++ nl
          ++ str "You will need it whenever you use this key; your typing stays hidden." ++ nl) ;;
        cli_prompt_password_confirmed (str "Private key passphrase: ") (str "Confirm private key passphrase: ") out_len
      else
        cli_tty_note (str "Enter the passphrase that protects the private key (your typing stays hidden)." ++ nl) ;;
        cli_prompt_password (str "Private key passphrase: ") out_len
  end.

(** * The clipboard

    The programs that copy and paste are no part of the repository: a copy
    that exits without error has put what it read on the clipboard; one that
    fails may have done so. *)

Definition CLI_CLIPBOARD_CLEAR_SECONDS : Z := 30.
Definition CLI_CLIPBOARD_CLEAR_HELPER : string := "__fuin_clipboard_clear_helper".
Definition CLI_CLIPBOARD_ENV_MAX : nat := 12.

Definition CLI_CLIPBOARD_CANDIDATES : list bytes :=
  [str "/usr/bin/xclip"; str "/usr/local/bin/xclip"; str "/bin/xclip"; str "/run/current-system/sw/bin/xclip"].

Definition cli_clipboard_resolve_program (candidates : list bytes) : option bytes :=
  snd <$> list_find (λ p, Is_true (access_x sys p)) candidates.

(** The variables of a helper so far, with one more. *)
Definition cli_clipboard_add_env (envp_len : nat) (envp : list bytes) (name : string) (fallback_value : option bytes)
  : M (list bytes) :=
  guard_or (length envp + 1 <? envp_len)%nat SM_ERR_INVALID_ARGUMENT ;;
  let value :=
    match fallback_value with
    | Some v => if decide (name = "PATH"%string) then Some v
                else if empty_text (getenv sys name) then Some v else getenv sys name
    | None => if empty_text (getenv sys name) then None else getenv sys name
    end in
  match value with
  | Some v =>
      if bool_decide (c_str v = []) then mret envp
      else lib_call SM_ERR_STORAGE ;; mret (envp ++ [str name ++ equals_sign :: c_str v])
  | None => mret envp
  end.

Definition cli_clipboard_build_env (envp_len : nat) : M (list bytes) :=
  guard_or (2 <=? envp_len)%nat SM_ERR_INVALID_ARGUMENT ;;
  envp ← cli_clipboard_add_env envp_len [] "PATH"
           (Some (str "/usr/bin:/bin:/usr/sbin:/sbin:/usr/local/bin:/opt/homebrew/bin"));
  envp ← cli_clipboard_add_env envp_len envp "HOME" None;
  envp ← cli_clipboard_add_env envp_len envp "DISPLAY" None;
  envp ← cli_clipboard_add_env envp_len envp "WAYLAND_DISPLAY" None;
  envp ← cli_clipboard_add_env envp_len envp "XDG_RUNTIME_DIR" None;
  envp ← cli_clipboard_add_env envp_len envp "XAUTHORITY" None;
  cli_clipboard_add_env envp_len envp "DBUS_SESSION_BUS_ADDRESS" None.

(** [n] calls of the system, each of which may fail. *)
Fixpoint system_calls (n : nat) : M unit :=
  match n with O => mret () | S n' => lib_call SM_ERR_STORAGE ;; system_calls n' end.

(** A pipe and a helper at its other end: [pipe], the file actions ([actions]
    of them after their initialization) and [posix_spawn]. *)
Definition spawn_with_pipe (actions : nat) : M (list bytes) :=
  envp ← cli_clipboard_build_env CLI_CLIPBOARD_ENV_MAX;
  system_calls (1 + 1 + actions + 1) ;;
  mret envp.

(** What the copying program reads is put on the clipboard, or may be. *)
Definition clipboard_gets (succeeded : bool) (data : bytes) : C unit :=
  if succeeded then modify_console (set_clipboard data)
  else
    n ← run (randombytes_uniform 2);
    if (n =? 0)%Z then mret () else modify_console (set_clipboard data).

(** The bytes that reach the pipe before an error. *)
Definition cli_write_all_ignore_sigpipe (data : bytes) : C (bytes * bool) :=
  r ← attempt (run (lib_call SM_ERR_STORAGE));
  match r with
  | Ok _ => mret (data, true)
  | Err _ => n ← run (randombytes_uniform (Z.of_nat (length data))); mret (take (Z.to_nat n) data, false)
  end.

(** [program], the first candidate that can be run; SM_ERR_STORAGE if none. *)
Definition clipboard_program : C bytes :=
  of_outcome (from_option_or SM_ERR_STORAGE (cli_clipboard_resolve_program CLI_CLIPBOARD_CANDIDATES)).

Definition cli_clipboard_write (data : bytes) : C unit :=
  program ← clipboard_program;
  let copy_argv := [program; str "-selection"; str "clipboard"] in
  envp ← run (spawn_with_pipe 5);
  child_end ← attempt (run (lib_call SM_ERR_STORAGE));
  match child_end with
  | Err s => modify_console (add_child (Child copy_argv envp [])) ;; clipboard_gets false [] ;; fail_with s
  | Ok _ =>
      '(received, written) ← cli_write_all_ignore_sigpipe data;
      modify_console (add_child (Child copy_argv envp received)) ;;
      closed ← attempt (run (lib_call SM_ERR_STORAGE));
      exited ← attempt (run (lib_call SM_ERR_STORAGE));
      clipboard_gets (is_ok exited) received ;;
      require (written && is_ok closed && is_ok exited) SM_ERR_STORAGE
  end.

(** At most [max_len + 1] bytes of the clipboard. *)
Definition cli_clipboard_read_current (max_len : nat) : C bytes :=
  require (max_len <=? CLI_MAX_SECRET_BYTES)%nat SM_ERR_INVALID_ARGUMENT ;;
  program ← clipboard_program;
  run (lib_call SM_ERR_STORAGE) ;;
  envp ← run (spawn_with_pipe 4);
  modify_console (add_child (Child [program; str "-selection"; str "clipboard"; str "-o"] envp [])) ;;
  run (system_calls 4) ;;
  t ← get_console;
  mret (take (max_len + 1) (con_clipboard t)).

(** The process that clears the clipboard after a while if it still holds what
    the process reads on its standard input. *)
Definition cli_clipboard_clear_helper (argv : list bytes) : C unit :=
  require (length argv =? 4)%nat SM_ERR_INVALID_ARGUMENT ;;
  expected_len ← or_status SM_ERR_INVALID_ARGUMENT (of_outcome (cli_parse_size_value (nth 2 argv []) true));
  delay_seconds ← or_status SM_ERR_INVALID_ARGUMENT (of_outcome (cli_parse_size_value (nth 3 argv []) true));
  require ((expected_len <=? Z.of_nat CLI_MAX_SECRET_BYTES) && (delay_seconds <=? UINT32_MAX))%Z SM_ERR_INVALID_ARGUMENT ;;
  if (expected_len =? 0)%Z then mret ()
  else
    let expected_len := Z.to_nat expected_len in
    run (lib_call SM_ERR_STORAGE) ;;
    run (lib_call SM_ERR_STORAGE) ;;
    t ← get_console;
    require (expected_len <=? length (con_stdin t))%nat SM_ERR_STORAGE ;;
    let expected := take expected_len (con_stdin t) in
    current ← attempt (cli_clipboard_read_current expected_len);
    match current with
    | Ok current => if bool_decide (current = expected) then ignore (cli_clipboard_write []) else mret ()
    | Err _ => mret ()
    end.

Variable g_program_path : bytes.

Definition cli_clipboard_schedule_clear (data : bytes) : C unit :=
  require ((length data <=? CLI_MAX_SECRET_BYTES)%nat && negb (bool_decide (c_str g_program_path = [])))
    SM_ERR_INVALID_ARGUMENT ;;
  if (length data =? 0)%nat then mret ()
  else
    let helper_argv := [c_str g_program_path; str CLI_CLIPBOARD_CLEAR_HELPER; print_nat (length data);
                        print_dec CLI_CLIPBOARD_CLEAR_SECONDS] in
    envp ← run (spawn_with_pipe 5);
    child_end ← attempt (run (lib_call SM_ERR_STORAGE));
    match child_end with
    | Err s => modify_console (add_child (Child helper_argv envp [])) ;; fail_with s
    | Ok _ =>
        '(received, written) ← cli_write_all_ignore_sigpipe data;
        modify_console (add_child (Child helper_argv envp received)) ;;
        require written SM_ERR_STORAGE
    end.

End CliIo.

#[global] Typeclasses Opaque fail_with run of_outcome require get_console put_console modify_console attempt ignore or_status write_stream print cli_heading cli_ok cli_error cli_hint cli_listing_line cli_alloc_secret_buffer cli_read_stdin_secret cli_prompt_password cli_prompt_password_confirmed cli_tty_note cli_load_key_passphrase clipboard_gets cli_write_all_ignore_sigpipe clipboard_program cli_clipboard_write cli_clipboard_read_current cli_clipboard_clear_helper cli_clipboard_schedule_clear.
