(* ===== verification/Cli.v ===== *)
(** The commands of the command line and [main] (src/src/main.c), on top of
    the vault: opening it, prompting, authorizing a token, one definition per
    command, the dispatch and the exit status. *)

From S2P Require Import Prelude Status Sodium Schema State Files Openssl Utils Storage Sqlite StorageFile Merkle Backup Access VaultRows Vault VaultQueries VaultTokens VaultFile CliText CliOptions CliIo.

Section Cli.
Context {CR : Crypto} {J : Cjson} {PX : Posix} {OS : Openssl} {SQ : Sqlite} {H2 : Hex2bin}.
Variable sys : system.

(** * Help *)

Definition cli_print_intro (f : stream) : C unit :=
  (if cli_color_enabled sys f
   then print f (CLI_SGR_BOLD ++ str "fuin - seal your secrets, prove your history" ++ CLI_SGR_RESET ++ nl)
   else print f (str "fuin - seal your secrets, prove your history" ++ nl)) ;;
  print f (str "
Your secrets are encrypted on this machine (no server, no cloud),
and every operation is recorded in a tamper-evident audit log you
can verify yourself.

") ;;
  cli_heading sys f "Quick start:" ;;
  cli_listing_line sys f 29 "fuin init" "create a vault (asks for a master password)" ;;
  cli_listing_line sys f 29 "fuin generate db/prod" "generate and store a random secret" ;;
  cli_listing_line sys f 29 "fuin get db/prod --copy" "copy it to the clipboard (auto-clears in 30 s)" ;;
  cli_listing_line sys f 29 "fuin list" "see what is stored, without values" ;;
  cli_listing_line sys f 29 "fuin audit-verify" "prove the history is untampered" ;;
  print f nl ;;
  if cli_color_enabled sys f
  then print f (CLI_SGR_DIM ++ str "Run 'fuin --help' for the full command reference." ++ CLI_SGR_RESET ++ nl)
  else print f (str "Run 'fuin --help' for the full command reference." ++ nl).

Definition cli_print_usage (f : stream) : C unit :=
  print f (str "Usage: fuin COMMAND [NAME] [OPTIONS]

Commands that take a secret NAME accept it directly
(e.g. 'fuin get db/prod') or via -n/--name.

") ;;
  cli_heading sys f "Everyday commands:" ;;
  print f (str "  init                 Create a new vault database
  generate [NAME]      Generate, store, and print a random secret to
                       stdout (or copy it to the clipboard)
  put [NAME]           Store a secret (-v VALUE or --stdin)
  get [NAME]           Print a secret value (--copy for clipboard,
                       --raw for exact bytes without a newline)
  totp [NAME]          Print an RFC 6238 code from a stored base32 seed
  list                 List secret metadata without revealing values
  delete [NAME]        Soft-delete a secret (history is kept)

") ;;
  cli_heading sys f "Lifecycle and access control:" ;;
  print f (str "  rollback [NAME]      Restore a historical version (--version N)
  rotate-kek           Change the master password; rewraps all keys atomically
  check-expiry         List expired or soon-expiring active secrets
  auto-rotate          Re-encrypt expired active secrets with new keys
  issue-token          Issue a scoped HMAC access token
  check-token          Verify an HMAC access token and required scope
  revoke-tokens        Revoke all previously issued HMAC access tokens
  status-report        Print vault inventory and security posture

") ;;
  cli_heading sys f "Audit and proofs:" ;;
  print f (str "  audit-verify         Verify the audit hash chain and HMAC signatures
  audit-root           Print the Merkle root (store it OUTSIDE the vault)
  audit-proof          Print an inclusion proof for one audit entry
  audit-verify-proof   Verify an entry proof against a saved root
  audit-keygen         Generate an ML-DSA-65 audit signing keypair
  audit-sign-root      Sign the audit Merkle root with ML-DSA-65
  audit-verify-root-sig
                       Verify a saved root signature offline (no password)

") ;;
  cli_heading sys f "Backup (post-quantum hybrid):" ;;
  print f (str "  pqc-keygen           Generate an X25519+ML-KEM-768 recipient keypair
  backup-export        Export an encrypted backup capsule
  backup-import        Restore a capsule (still needs the master password)

") ;;
  cli_heading sys f "Options:" ;;
  print f (str "  -d, --db PATH        SQLite vault path (default: fuin.db)
  -p, --password PASS  Master password; disabled unless
                       FUIN_ALLOW_INSECURE_ARGS=1
      --new-password PASS
                       New master password; disabled unless
                       FUIN_ALLOW_INSECURE_ARGS=1
  -n, --name NAME      Secret name
  -v, --value VALUE    Secret value for put
      --algorithm NAME AEAD for put/generate: AES-256-GCM,
                       XChaCha20-Poly1305, or AEGIS-256
      --ttl DURATION   Secret TTL for put: 90d, 24h, 60m, or 3600s
      --within DURATION
                       Lookahead for check-expiry; same units as --ttl
      --subject NAME   Token subject for issue-token
      --scope SCOPE    Token scope or required scope
      --token TOKEN    HMAC token; disabled unless
                       FUIN_ALLOW_INSECURE_ARGS=1
      --version N      Historical version for get/rollback
      --entry-id N     Audit entry id for audit-proof/verify-proof
      --root HEX       Saved audit Merkle root for audit-verify-proof
      --proof HEX      Concatenated sibling hashes for audit-verify-proof
      --leaf-index N   Zero-based Merkle leaf index for audit-verify-proof
      --entries N      Audit leaf count for proofs/root signatures
      --recipient PATH hybrid public key for backup-export
      --private-key PATH
                       private key for backup-import/audit-sign-root
      --public-key PATH
                       ML-DSA public key for audit-verify-root-sig
      --key-passphrase-file PATH
                       First line supplies a backup/audit private key
                       passphrase; otherwise a no-echo prompt is used
      --signature B64  Root signature for audit-verify-root-sig
      --public-out PATH
                       Public key output for pqc-keygen
      --private-out PATH
                       Private key output for pqc-keygen
      --input PATH     Capsule input for backup-import
      --out PATH       Capsule or restored DB output path
      --all            Include archived versions for list
      --stdin          Read secret value for put from stdin
      --length N       Generated secret length (default 24, max 256)
      --no-symbols     Generate with letters and digits only
      --copy           Copy secret to clipboard instead of printing;
                       clipboard auto-clears after 30 seconds
      --raw            For get: write exact secret bytes, no newline
  -h, --help           Show this help

") ;;
  cli_heading sys f "Examples:" ;;
  print f (str "  fuin init
  fuin generate db/prod --length 32
  fuin put api/stripe --stdin < key.txt
  fuin get db/prod --copy
  fuin totp otp/github
  fuin rotate-kek

The master password is read from a no-echo prompt when the session
is interactive, or from FUIN_PASSWORD otherwise. Direct password,
token, and secret argv values require FUIN_ALLOW_INSECURE_ARGS=1.
").

Definition cli_print_command_help (f : stream) (command : bytes) : C unit :=
  match cli_command_usage command with
  | None => cli_print_usage f
  | Some usage =>
      print f (str "Usage: fuin " ++ usage ++ nl) ;;
      (if cli_command_accepts_name command
       then print f (str "
The NAME can be given directly (e.g. 'fuin get db/prod')
or via -n/--name.
")
       else mret ()) ;;
      print f (str "
Run 'fuin --help' for the full command reference and all options.
")
  end.

(** [options->field] where the code has found that it is not NULL. *)
Definition arg (o : cli_options_t) (f : text_field) : bytes := default [] (opt_text o f).

Definition cli_report_invalid_argument (o : cli_options_t) : C unit :=
  if empty_text (opt_text o o_command) then cli_print_usage Stderr
  else
    let command := c_str (arg o o_command) in
    match cli_command_usage command with
    | None =>
        cli_error sys (str "'" ++ command ++ str "' is not a fuin command") ;;
        (match cli_closest_command command with
         | Some guess => cli_hint sys Stderr (str "did you mean 'fuin " ++ str guess ++ str "'?")
         | None => mret ()
         end) ;;
        cli_hint sys Stderr (str "run 'fuin --help' to see all commands")
    | Some usage =>
        (if cli_command_accepts_name command && empty_text (opt_text o o_name)
         then cli_error sys (command ++ str ": missing secret NAME")
         else cli_error sys (command ++ str ": missing or invalid arguments")) ;;
        cli_hint sys Stderr (str "usage: fuin " ++ usage) ;;
        cli_hint sys Stderr (str "details: fuin " ++ command ++ str " --help")
    end.

(** * Opening the vault *)

(** [access(path, F_OK) == 0] *)
Definition access_f_ok (path : bytes) : C bool :=
  r ← attempt (run (lib_call SM_ERR_STORAGE));
  fs ← run get_files;
  mret (is_ok r && bool_decide (is_Some (follow_path fs path))).

Definition cli_require_password (o : cli_options_t) : C unit :=
  require (negb (empty_text (opt_text o o_password))) SM_ERR_INVALID_ARGUMENT.

Definition cli_report_missing_vault {A} (db_path : bytes) (lead : string) : C A :=
  cli_error sys (str lead ++ str " '" ++ c_str db_path ++ str "'") ;;
  modify_console (set_reported true) ;;
  (if cli_color_enabled sys Stderr then cli_hint sys Stderr (str "create one first: fuin init --db " ++ c_str db_path)
   else print Stderr (str "       create one first: fuin init --db " ++ c_str db_path ++ nl)) ;;
  fail_with SM_ERR_NOT_FOUND.

Definition cli_open_unlocked_vault (o : cli_options_t) : C unit :=
  let db_path := arg o o_db_path in
  let password := arg o o_password in
  cli_require_password o ;;
  if str_is (arg o o_command) "init" then
    run (vault_init db_path) ;;
    run (vault_unlock password)
  else
    exists_ ← access_f_ok db_path;
    if negb exists_ then cli_report_missing_vault db_path "no vault database at"
    else
      opened ← attempt (run (vault_open db_path));
      match opened with
      | Err s =>
          cli_error sys (str "cannot open vault database at '" ++ c_str db_path
            ++ str "' (not an initialised vault, or the path is not a regular file)") ;;
          modify_console (set_reported true) ;;
          fail_with s
      | Ok _ =>
          unlocked ← attempt (run (vault_unlock_existing password));
          match unlocked with
          | Err SM_ERR_NOT_FOUND => cli_report_missing_vault db_path "no initialized vault database at"
          | Err s => fail_with s
          | Ok _ => mret ()
          end
      end.

Definition CLI_SCOPE_BUFFER_LEN : nat := ACCESS_SCOPE_MAX.

Definition cli_authorize_token (o : cli_options_t) (operation : string) (name : bytes) : M unit :=
  match opt_text o o_token with
  | None => mret ()
  | Some token =>
      guard_or (negb (bool_decide (c_str token = []))) SM_ERR_INVALID_ARGUMENT ;;
      required_scope ← lift (cli_required_scope CLI_SCOPE_BUFFER_LEN (str operation) name);
      vault_check_token token (Some required_scope)
  end.

(** The checks the commands on a secret start with. *)
Definition require_name (o : cli_options_t) : C unit :=
  require (negb (empty_text (opt_text o o_name))) SM_ERR_INVALID_ARGUMENT.

Definition ttl_of (o : cli_options_t) : Z := if opt_flag o o_has_ttl then opt_number o o_ttl_seconds else 0%Z.

Variable g_program_path : bytes.

Definition cli_copy_secret_to_clipboard (data : bytes) : C unit :=
  run vault_close ;;
  cli_clipboard_write sys data ;;
  scheduled ← attempt (cli_clipboard_schedule_clear sys g_program_path data);
  match scheduled with
  | Ok _ => cli_ok sys Stderr (str "copied to clipboard; clearing in " ++ print_dec CLI_CLIPBOARD_CLEAR_SECONDS ++ str " seconds")
  | Err _ => cli_ok sys Stderr (str "copied to clipboard; auto-clear unavailable")
  end.

Definition cli_print_hex (data : bytes) : C unit := write_stream Stdout (hex_text data).

(** * Secrets *)

Definition cli_run_init (o : cli_options_t) : C unit :=
  cli_open_unlocked_vault o ;;
  cli_ok sys Stdout (str "vault initialized: " ++ c_str (arg o o_db_path)) ;;
  cli_heading sys Stdout "next steps:" ;;
  cli_listing_line sys Stdout 32 "fuin generate <name>" "store a random secret" ;;
  cli_listing_line sys Stdout 32 "fuin put <name> --stdin" "store an existing value" ;;
  cli_listing_line sys Stdout 32 "fuin get <name> --copy" "read it back".

Definition TYPED_VALUE_LEN : nat := 4096.

(** The value typed twice at the terminal. *)
Definition cli_type_value (name : bytes) : C bytes :=
  cli_tty_note (str "Enter the secret value to store under '" ++ c_str name ++ str "'" ++ nl
    ++ str "(e.g. a password, API key, or token). Type it twice." ++ nl) ;;
  let prompt := take 127 (str "Value for '" ++ c_str name ++ str "' (input hidden): ") in
  typed ← attempt
    (typed_value ← cli_prompt_password prompt TYPED_VALUE_LEN;
     typed_confirm ← cli_prompt_password (str "Retype to confirm (input hidden): ") TYPED_VALUE_LEN;
     require (bool_decide (typed_value = typed_confirm)) SM_ERR_AUTH ;;
     mret typed_value);
  match typed with
  | Ok value => mret value
  | Err SM_ERR_AUTH =>
      cli_error sys (str "the two values do not match") ;;
      fail_with SM_ERR_INVALID_ARGUMENT
  | Err _ =>
      cli_error sys (str "put needs a value: pass -v VALUE, pipe via --stdin, or run from an interactive terminal") ;;
      fail_with SM_ERR_INVALID_ARGUMENT
  end.

Definition cli_run_put (o : cli_options_t) : C unit :=
  require_name o ;;
  let name := arg o o_name in
  secret ← (if opt_flag o o_read_stdin then cli_read_stdin_secret
            else match opt_text o o_value with
                 | Some value => mret (c_str value)
                 | None => cli_type_value name
                 end);
  cli_open_unlocked_vault o ;;
  run (cli_authorize_token o "write" name) ;;
  run (vault_put_with_options name secret (opt_text o o_algorithm) (ttl_of o)) ;;
  cli_ok sys Stderr (str "secret stored: " ++ c_str name).

Definition CLI_GENERATE_DEFAULT_LENGTH : nat := 24.
Definition CLI_GENERATE_MAX_LENGTH : nat := 256.

Definition cli_run_generate (o : cli_options_t) : C unit :=
  require_name o ;;
  let name := arg o o_name in
  require (negb (opt_flag o o_has_length
                 && ((opt_number o o_generate_length <? 1) || (Z.of_nat CLI_GENERATE_MAX_LENGTH <? opt_number o o_generate_length)))%Z)
    SM_ERR_INVALID_ARGUMENT ;;
  let length := if opt_flag o o_has_length then Z.to_nat (opt_number o o_generate_length) else CLI_GENERATE_DEFAULT_LENGTH in
  password ← run (utils_generate_password (CLI_GENERATE_MAX_LENGTH + 1) length (negb (opt_flag o o_no_symbols)));
  cli_open_unlocked_vault o ;;
  run (cli_authorize_token o "write" name) ;;
  run (vault_put_with_options name password (opt_text o o_algorithm) (ttl_of o)) ;;
  (if opt_flag o o_copy then cli_copy_secret_to_clipboard password else print Stdout (password ++ nl)) ;;
  cli_ok sys Stderr (str "secret generated and stored: " ++ c_str name).

Definition cli_run_get (o : cli_options_t) : C unit :=
  require_name o ;;
  let name := arg o o_name in
  cli_alloc_secret_buffer CLI_MAX_SECRET_BYTES ;;
  cli_open_unlocked_vault o ;;
  run (cli_authorize_token o "read" name) ;;
  output ← run (if (0 <? opt_number o o_version)%Z then vault_get_version name (opt_number o o_version) CLI_MAX_SECRET_BYTES
                else vault_get name CLI_MAX_SECRET_BYTES);
  if opt_flag o o_copy then cli_copy_secret_to_clipboard output
  else
    write_stream Stdout output ;;
    if opt_flag o o_raw then mret () else write_stream Stdout nl.

Definition TOTP_SEED_LEN : nat := 256.
Definition TOTP_CODE_LEN : nat := 16.

Definition cli_run_totp (o : cli_options_t) : C unit :=
  require_name o ;;
  let name := arg o o_name in
  cli_alloc_secret_buffer CLI_MAX_SECRET_BYTES ;;
  cli_open_unlocked_vault o ;;
  run (cli_authorize_token o "read" name) ;;
  seed_text ← run (vault_get name CLI_MAX_SECRET_BYTES);
  seed ← of_outcome (utils_base32_decode seed_text TOTP_SEED_LEN);
  time ← run time_null;
  let now := wrap_u 64 time in
  code ← run (utils_totp_code seed now 30 6 TOTP_CODE_LEN);
  (if opt_flag o o_copy then cli_copy_secret_to_clipboard code else print Stdout (code ++ nl)) ;;
  print Stderr (str "valid for " ++ print_dec (30 - now mod 30) ++ str " more seconds" ++ nl).

Definition cli_run_delete (o : cli_options_t) : C unit :=
  require_name o ;;
  let name := arg o o_name in
  cli_open_unlocked_vault o ;;
  run (cli_authorize_token o "delete" name) ;;
  run (vault_delete name) ;;
  cli_ok sys Stderr (str "secret deleted: " ++ c_str name).

Definition cli_run_rollback (o : cli_options_t) : C unit :=
  require_name o ;;
  let name := arg o o_name in
  let version := opt_number o o_version in
  require (1 <=? version)%Z SM_ERR_INVALID_ARGUMENT ;;
  cli_open_unlocked_vault o ;;
  run (cli_authorize_token o "write" name) ;;
  run (vault_rollback name version) ;;
  active_version ← attempt (run (vault_get_active_version name));
  match active_version with
  | Ok active => cli_ok sys Stderr (str "secret rolled back: " ++ c_str name ++ str " version " ++ print_int version
                   ++ str " -> " ++ print_int active)
  | Err _ => cli_ok sys Stderr (str "secret rolled back: " ++ c_str name)
  end.

Definition cli_run_rotate_kek (o : cli_options_t) : C unit :=
  require (negb (empty_text (opt_text o o_new_password))) SM_ERR_INVALID_ARGUMENT ;;
  cli_open_unlocked_vault o ;;
  run (vault_rotate_kek (arg o o_new_password)) ;;
  cli_ok sys Stderr (str "kek rotated").

(** * Listings *)

Record cli_list_ctx_t := ListCtx { lc_printed : nat; lc_active : nat; lc_archived : nat; lc_expired : nat }.

(** A callback that prints, with its own data next to the console. *)
Definition printing {X} (body : X → C X) (u : console * X) : M ((console * X) * outcome unit) :=
  r ← body u.2 u.1;
  match r.2 with
  | Ok x => mret ((r.1, x), Ok ())
  | Err s => mret ((r.1, u.2), Err s)
  end.

(** A call of the library that calls back: the data and the number of items. *)
Definition run_listing {X} (m : console * X → M ((console * X) * outcome nat)) (x : X) : C (X * nat) := λ t,
  r ← m (t, x);
  let '((t', x'), status) := r in
  mret (t', match status with Ok n => Ok (x', n) | Err s => Err s end).

Definition list_header (color : bool) : bytes :=
  if color
  then CLI_SGR_DIM ++ pad_right 28 (str "NAME") ++ str " " ++ pad_left 4 (str "VER") ++ str "  " ++ pad_right 10 (str "STATE")
       ++ str "  " ++ pad_right 19 (str "ALGORITHM") ++ str " EXPIRES" ++ CLI_SGR_RESET ++ nl
  else pad_right 28 (str "NAME") ++ str " " ++ pad_left 4 (str "VER") ++ str "  " ++ pad_right 8 (str "STATE")
       ++ str "  " ++ pad_right 19 (str "ALGORITHM") ++ str " EXPIRES" ++ nl.

Definition cli_print_list_item (item : vault_list_item_t) (ctx : cli_list_ctx_t) : C cli_list_ctx_t :=
  display_name ← or_status SM_ERR_STORAGE (of_outcome (cli_format_list_name (li_name item) (CLI_LIST_NAME_WIDTH + 1)));
  let color := cli_color_enabled sys Stdout in
  (if (lc_printed ctx =? 0)%nat then write_stream Stdout (list_header color) else mret ()) ;;
  let is_archived := negb (li_is_archived item =? 0)%Z in
  let ctx := ListCtx (lc_printed ctx) (if is_archived then lc_active ctx else S (lc_active ctx))
               (if is_archived then S (lc_archived ctx) else lc_archived ctx)
               (if li_is_expired item then S (lc_expired ctx) else lc_expired ctx) in
  let state_word := if is_archived then str "archived" else str "active" in
  (if color then
     let state_color := if li_is_expired item then CLI_SGR_RED else if is_archived then CLI_SGR_YELLOW else CLI_SGR_GREEN in
     write_stream Stdout (pad_right 28 display_name ++ str " " ++ pad_left 4 (print_int (li_version item)) ++ str "  "
       ++ state_color ++ CLI_SYM_DOT ++ CLI_SGR_RESET ++ str " " ++ state_color ++ pad_right 8 state_word ++ CLI_SGR_RESET
       ++ str "  " ++ pad_right 19 (li_algorithm item) ++ str " ") ;;
     match li_expires_at item with
     | None => write_stream Stdout (CLI_SGR_DIM ++ CLI_SYM_DASH ++ CLI_SGR_RESET ++ nl)
     | Some expires_at =>
         write_stream Stdout (expires_at ++ (if li_is_expired item then CLI_SGR_RED ++ str "  EXPIRED" ++ CLI_SGR_RESET else []) ++ nl)
     end
   else
     let expires := match li_expires_at item with
                    | None => str "-"
                    | Some expires_at => take 63 (expires_at ++ (if li_is_expired item then str "  EXPIRED" else []))
                    end in
     write_stream Stdout (pad_right 28 display_name ++ str " " ++ pad_left 4 (print_int (li_version item)) ++ str "  "
       ++ pad_right 8 state_word ++ str "  " ++ pad_right 19 (li_algorithm item) ++ str " " ++ expires ++ nl)) ;;
  mret (ListCtx (S (lc_printed ctx)) (lc_active ctx) (lc_archived ctx) (lc_expired ctx)).

Definition cli_run_list (o : cli_options_t) : C unit :=
  cli_open_unlocked_vault o ;;
  '(ctx, matched) ← run_listing (vault_list_secrets (opt_flag o o_show_all) (λ item, printing (cli_print_list_item item)))
                      (ListCtx 0 0 0 0);
  if ((lc_printed ctx =? 0) && (matched =? 0))%nat then print Stdout (str "no secrets" ++ nl)
  else if (0 <? lc_printed ctx)%nat && cli_color_enabled sys Stdout then
    print Stdout (CLI_SGR_DIM ++ print_nat (lc_printed ctx) ++ str " shown " ++ CLI_SYM_SEP ++ str " " ++ print_nat (lc_active ctx)
      ++ str " active " ++ CLI_SYM_SEP ++ str " " ++ print_nat (lc_archived ctx) ++ str " archived " ++ CLI_SYM_SEP ++ str " "
      ++ print_nat (lc_expired ctx) ++ str " expired" ++ CLI_SGR_RESET ++ nl)
  else mret ().

Definition cli_print_expiry (name : bytes) (version : Z) (expires_at : bytes) (is_expired : bool) (_ : unit) : C unit :=
  require (1 <=? version)%Z SM_ERR_INVALID_ARGUMENT ;;
  safe_name ← or_status SM_ERR_STORAGE (of_outcome (cli_sanitize_display_text name CLI_DISPLAY_NAME_MAX));
  write_stream Stdout ((if is_expired then str "expired" else str "expiring") ++ str " name=" ++ safe_name ++ str " version="
    ++ print_int version ++ str " expires_at=" ++ expires_at ++ nl).

Definition cli_run_check_expiry (o : cli_options_t) : C unit :=
  cli_open_unlocked_vault o ;;
  '(_, matched) ← run_listing
    (vault_check_expiry (if opt_flag o o_has_within then opt_number o o_within_seconds else 0%Z)
       (Some (λ name version expires_at is_expired, printing (cli_print_expiry name version expires_at is_expired)))) ();
  if (matched =? 0)%nat then print Stdout (str "no expiring secrets" ++ nl) else mret ().

(** The turns given to the loop of the library. *)
Variable fuel : nat.

Definition cli_run_auto_rotate (o : cli_options_t) : C unit :=
  cli_open_unlocked_vault o ;;
  rotated ← run (vault_auto_rotate_expired fuel);
  match rotated with
  | Some n => cli_ok sys Stdout (str "dek rotated: " ++ print_nat n ++ str " expired secrets")
  | None => modify_console set_stuck
  end.

(** * Tokens *)

Definition cli_run_issue_token (o : cli_options_t) : C unit :=
  require (negb (empty_text (opt_text o o_scope)) && opt_flag o o_has_ttl) SM_ERR_INVALID_ARGUMENT ;;
  let subject := if empty_text (opt_text o o_subject) then str "user:default" else arg o o_subject in
  cli_open_unlocked_vault o ;;
  token ← run (vault_issue_token subject (arg o o_scope) (opt_number o o_ttl_seconds) ACCESS_TOKEN_BUFFER_LEN);
  print Stdout (token ++ nl) ;;
  print Stderr (str "scope: " ++ c_str (arg o o_scope) ++ str ", expires in: " ++ print_dec (opt_number o o_ttl_seconds) ++ str "s" ++ nl
    ++ str "use it: FUIN_TOKEN=<token> fuin get <name> (treat the token like a password)" ++ nl).

Definition cli_run_check_token (o : cli_options_t) : C unit :=
  require (negb (empty_text (opt_text o o_token)) && negb (empty_text (opt_text o o_scope))) SM_ERR_INVALID_ARGUMENT ;;
  cli_open_unlocked_vault o ;;
  run (vault_check_token (arg o o_token) (opt_text o o_scope)) ;;
  cli_ok sys Stdout (str "token verified").

Definition cli_run_revoke_tokens (o : cli_options_t) : C unit :=
  cli_open_unlocked_vault o ;;
  run vault_revoke_tokens ;;
  cli_ok sys Stdout (str "all previously issued tokens revoked").

(** * Audit *)

Definition cli_run_audit_verify (o : cli_options_t) : C unit :=
  cli_open_unlocked_vault o ;;
  run vault_audit_verify ;;
  cli_ok sys Stdout (str "audit log verified").

Definition cli_run_audit_root (o : cli_options_t) : C unit :=
  cli_open_unlocked_vault o ;;
  '(root, leaf_count) ← run (vault_audit_merkle_root AUDIT_MERKLE_ROOT_BYTES);
  print Stdout (str "audit_merkle_root=") ;;
  cli_print_hex root ;;
  write_stream Stdout (str " entries=" ++ print_nat leaf_count ++ nl).

Definition cli_run_audit_proof (o : cli_options_t) : C unit :=
  let entry_id := opt_number o o_entry_id in
  require (1 <=? entry_id)%Z SM_ERR_INVALID_ARGUMENT ;;
  cli_open_unlocked_vault o ;;
  '(entry_hash, root, (proof, leaf_index, leaf_count)) ←
    run (vault_audit_merkle_proof entry_id AUDIT_MERKLE_ROOT_BYTES AUDIT_MERKLE_ROOT_BYTES AUDIT_MERKLE_PROOF_MAX_BYTES);
  write_stream Stdout (str "audit_entry_id=" ++ print_int entry_id ++ str " leaf_index=" ++ print_nat leaf_index
    ++ str " entries=" ++ print_nat leaf_count ++ nl) ;;
  print Stdout (str "entry_hash=") ;;
  cli_print_hex entry_hash ;;
  write_stream Stdout nl ;;
  print Stdout (str "audit_merkle_root=") ;;
  cli_print_hex root ;;
  write_stream Stdout nl ;;
  print Stdout (str "proof=") ;;
  cli_print_hex proof ;;
  write_stream Stdout nl.

Definition cli_run_audit_verify_proof (o : cli_options_t) : C unit :=
  let entry_id := opt_number o o_entry_id in
  require ((1 <=? entry_id)%Z && bool_decide (is_Some (opt_text o o_root_hex)) && bool_decide (is_Some (opt_text o o_proof_hex))
           && opt_flag o o_has_leaf_index && opt_flag o o_has_leaf_count) SM_ERR_INVALID_ARGUMENT ;;
  root ← of_outcome (cli_decode_hex_exact (arg o o_root_hex) AUDIT_MERKLE_ROOT_BYTES);
  proof ← of_outcome (cli_decode_proof_hex (arg o o_proof_hex) AUDIT_MERKLE_PROOF_MAX_BYTES);
  cli_open_unlocked_vault o ;;
  run (vault_audit_verify_merkle_proof entry_id root proof (opt_number o o_leaf_index) (opt_number o o_leaf_count)) ;;
  cli_ok sys Stdout (str "audit proof verified").

Definition cli_run_audit_keygen (o : cli_options_t) : C unit :=
  require (bool_decide (is_Some (opt_text o o_public_out_path)) && bool_decide (is_Some (opt_text o o_private_out_path)))
    SM_ERR_INVALID_ARGUMENT ;;
  available ← run backup_mldsa_available;
  if negb available then
    cli_error sys (str "ML-DSA-65 unavailable (OpenSSL >= 3.5 required)") ;;
    fail_with SM_ERR_CRYPTO
  else
    key_passphrase ← cli_load_key_passphrase o true CLI_PASSWORD_MAX;
    run (vault_audit_signing_keygen (arg o o_public_out_path) (arg o o_private_out_path) key_passphrase) ;;
    print Stdout (str "audit signing keypair written: " ++ c_str (arg o o_public_out_path) ++ str " "
      ++ c_str (arg o o_private_out_path) ++ nl).

Definition cli_run_audit_sign_root (o : cli_options_t) : C unit :=
  require (bool_decide (is_Some (opt_text o o_private_key_path))) SM_ERR_INVALID_ARGUMENT ;;
  key_passphrase ← cli_load_key_passphrase o false CLI_PASSWORD_MAX;
  cli_open_unlocked_vault o ;;
  '(root, leaf_count, signature) ←
    run (vault_audit_sign_root (arg o o_private_key_path) key_passphrase AUDIT_MERKLE_ROOT_BYTES BACKUP_MLDSA_SIGNATURE_MAX_BYTES);
  signature_b64 ← run (utils_base64_encode signature (BACKUP_MLDSA_SIGNATURE_MAX_BYTES * 2));
  print Stdout (str "audit merkle root: ") ;;
  cli_print_hex root ;;
  print Stdout (nl ++ str "entries: " ++ print_nat leaf_count ++ nl) ;;
  print Stdout (str "algorithm: " ++ BACKUP_MLDSA_ALGORITHM ++ nl) ;;
  print Stdout (str "signature: " ++ signature_b64 ++ nl) ;;
  print Stdout (str "store the root and signature outside the vault" ++ nl).

Definition cli_run_audit_verify_root_sig (o : cli_options_t) : C unit :=
  require (bool_decide (is_Some (opt_text o o_public_key_path)) && bool_decide (is_Some (opt_text o o_root_hex))
           && opt_flag o o_has_leaf_count && bool_decide (is_Some (opt_text o o_signature_b64))) SM_ERR_INVALID_ARGUMENT ;;
  root ← of_outcome (cli_decode_hex_exact (arg o o_root_hex) AUDIT_MERKLE_ROOT_BYTES);
  signature ← run (utils_base64_decode (arg o o_signature_b64) BACKUP_MLDSA_SIGNATURE_MAX_BYTES);
  run (backup_mldsa_verify (arg o o_public_key_path) (root ++ utils_write_u64_le (opt_number o o_leaf_count)) signature) ;;
  cli_ok sys Stdout (str "audit root signature verified").

(** * The status report *)

(** A number in bold, or in the colour it calls for. *)
Definition in_color (code : bytes) (n : nat) : bytes := code ++ print_nat n ++ CLI_SGR_RESET.

Definition report_secrets (color : bool) (p : vault_security_report_t) : list bytes :=
  let bold := in_color CLI_SGR_BOLD in
  if color then
    let exp_c := if (0 <? rp_expired_active p)%nat then CLI_SGR_RED else CLI_SGR_BOLD in
    let soon_c := if (0 <? rp_expiring_7d p)%nat then CLI_SGR_YELLOW else CLI_SGR_BOLD in
    [str "  active: " ++ bold (rp_active_secrets p) ++ str " (" ++ bold (rp_distinct_names p) ++ str " distinct names), archived versions: "
       ++ bold (rp_archived_versions p) ++ str ", deleted names: " ++ bold (rp_deleted_names p) ++ nl;
     str "  expiry: " ++ bold (rp_ttl_active p) ++ str " with TTL, " ++ in_color exp_c (rp_expired_active p) ++ str " expired, "
       ++ in_color soon_c (rp_expiring_7d p) ++ str " expiring within 7 days" ++ nl;
     str "  algorithms: " ++ bold (rp_active_aes256gcm p) ++ str " AES-256-GCM, " ++ bold (rp_active_xchacha20poly1305 p)
       ++ str " XChaCha20-Poly1305, " ++ bold (rp_active_aegis256 p) ++ str " AEGIS-256" ++ nl]
  else
    [str "  active: " ++ print_nat (rp_active_secrets p) ++ str " (" ++ print_nat (rp_distinct_names p)
       ++ str " distinct names), archived versions: " ++ print_nat (rp_archived_versions p) ++ str ", deleted names: "
       ++ print_nat (rp_deleted_names p) ++ nl;
     str "  expiry: " ++ print_nat (rp_ttl_active p) ++ str " with TTL, " ++ print_nat (rp_expired_active p) ++ str " expired, "
       ++ print_nat (rp_expiring_7d p) ++ str " expiring within 7 days" ++ nl;
     str "  algorithms: " ++ print_nat (rp_active_aes256gcm p) ++ str " AES-256-GCM, " ++ print_nat (rp_active_xchacha20poly1305 p)
       ++ str " XChaCha20-Poly1305, " ++ print_nat (rp_active_aegis256 p) ++ str " AEGIS-256" ++ nl].

Fixpoint print_all (f : stream) (texts : list bytes) : C unit :=
  match texts with [] => mret () | s :: texts' => print f s ;; print_all f texts' end.

Definition cli_run_status_report (o : cli_options_t) : C unit :=
  cli_open_unlocked_vault o ;;
  p ← run vault_security_report;
  let color := cli_color_enabled sys Stdout in
  cli_heading sys Stdout "Secrets" ;;
  print_all Stdout (report_secrets color p) ;;
  cli_heading sys Stdout "Audit" ;;
  (if color
   then print Stdout (str "  entries: " ++ in_color CLI_SGR_BOLD (rp_audit_entries p) ++ str ", chain verified: " ++ CLI_SGR_GREEN
          ++ str "yes" ++ CLI_SGR_RESET ++ nl)
   else print Stdout (str "  entries: " ++ print_nat (rp_audit_entries p) ++ str ", chain verified: yes" ++ nl)) ;;
  print Stdout (str "  merkle root: ") ;;
  printed ← attempt (cli_print_hex (rp_audit_root p));
  (match printed with
   | Ok _ =>
       if color then print Stdout (str " (" ++ in_color CLI_SGR_BOLD (rp_audit_leaf_count p) ++ str " leaves; store it outside the vault)" ++ nl)
       else print Stdout (str " (" ++ print_nat (rp_audit_leaf_count p) ++ str " leaves; store it outside the vault)" ++ nl)
   | Err _ => mret ()
   end) ;;
  pqc_supported ← run backup_pqc_available;
  of_outcome printed ;;
  cli_heading sys Stdout "Post-quantum" ;;
  print Stdout (str "  " ++ (if (pqc_supported : bool) then str "X25519+ML-KEM-768 backup capsules supported; symmetric-256 core encryption"
                              else str "symmetric-256 crypto-agile; X25519+ML-KEM-768 unavailable in the linked libcrypto") ++ nl) ;;
  let large := (1000 <? rp_active_secrets p)%nat && (0 <? rp_active_aes256gcm p)%nat in
  let expired := (0 <? rp_expired_active p)%nat in
  if large || expired then
    cli_heading sys Stdout "Recommendations" ;;
    (if large
     then print Stdout (str "  - prefer XChaCha20-Poly1305 or AEGIS-256 for large vaults (AES-GCM nonce prefix scale limit)" ++ nl)
     else mret ()) ;;
    (if expired then
       print Stdout (str "  - run auto-rotate: " ++ (if color then in_color CLI_SGR_RED (rp_expired_active p) else print_nat (rp_expired_active p))
         ++ str " active secrets have expired" ++ nl)
     else mret ())
  else mret ().

(** * Backups *)

Definition cli_run_pqc_keygen (o : cli_options_t) : C unit :=
  require (negb (empty_text (opt_text o o_public_out_path)) && negb (empty_text (opt_text o o_private_out_path)))
    SM_ERR_INVALID_ARGUMENT ;;
  key_passphrase ← cli_load_key_passphrase o true CLI_PASSWORD_MAX;
  run (vault_backup_keygen (arg o o_public_out_path) (arg o o_private_out_path) key_passphrase) ;;
  print Stdout (str "hybrid backup keypair generated: public=" ++ c_str (arg o o_public_out_path) ++ str " private="
    ++ c_str (arg o o_private_out_path) ++ nl).

Definition cli_run_backup_export (o : cli_options_t) : C unit :=
  require (negb (empty_text (opt_text o o_recipient_path)) && negb (empty_text (opt_text o o_output_path)))
    SM_ERR_INVALID_ARGUMENT ;;
  cli_open_unlocked_vault o ;;
  run (vault_backup_export (arg o o_recipient_path) (arg o o_output_path)) ;;
  print Stdout (str "backup capsule exported: " ++ c_str (arg o o_output_path) ++ nl).

Definition cli_run_backup_import (o : cli_options_t) : C unit :=
  require (negb (empty_text (opt_text o o_private_key_path)) && negb (empty_text (opt_text o o_input_path))
           && negb (empty_text (opt_text o o_output_path))) SM_ERR_INVALID_ARGUMENT ;;
  key_passphrase ← cli_load_key_passphrase o false CLI_PASSWORD_MAX;
  run (vault_backup_import (arg o o_private_key_path) key_passphrase (arg o o_input_path) (arg o o_output_path)) ;;
  print Stdout (str "backup capsule imported: " ++ c_str (arg o o_output_path) ++ nl).

(** * Dispatch *)

(** The comparisons of the command with its spellings, in their order. *)
Definition dispatch_on (named : string → bool) (o : cli_options_t) : C unit :=
  if named "init" then cli_run_init o
  else if named "put" || named "set" then cli_run_put o
  else if named "generate" || named "gen" then cli_run_generate o
  else if named "get" then cli_run_get o
  else if named "totp" then cli_run_totp o
  else if named "list" || named "ls" then cli_run_list o
  else if named "delete" || named "del" then cli_run_delete o
  else if named "rollback" then cli_run_rollback o
  else if named "rotate-kek" || named "rotate" then cli_run_rotate_kek o
  else if named "check-expiry" then cli_run_check_expiry o
  else if named "auto-rotate" || named "rotate-dek" then cli_run_auto_rotate o
  else if named "issue-token" then cli_run_issue_token o
  else if named "check-token" then cli_run_check_token o
  else if named "revoke-tokens" then cli_run_revoke_tokens o
  else if named "audit-verify" || named "verify" then cli_run_audit_verify o
  else if named "audit-root" || named "merkle-root" then cli_run_audit_root o
  else if named "audit-proof" then cli_run_audit_proof o
  else if named "audit-verify-proof" then cli_run_audit_verify_proof o
  else if named "audit-keygen" then cli_run_audit_keygen o
  else if named "audit-sign-root" then cli_run_audit_sign_root o
  else if named "audit-verify-root-sig" then cli_run_audit_verify_root_sig o
  else if named "status-report" || named "security-report" || named "report"
       then cli_run_status_report o
  else if named "pqc-keygen" then cli_run_pqc_keygen o
  else if named "backup-export" then cli_run_backup_export o
  else if named "backup-import" then cli_run_backup_import o
  else fail_with SM_ERR_INVALID_ARGUMENT.

Definition cli_dispatch (o : cli_options_t) : C unit :=
  if empty_text (opt_text o o_command) then fail_with SM_ERR_INVALID_ARGUMENT
  else dispatch_on (str_is (arg o o_command)) o.

(** * [main] *)

Definition cli_command_needs_master_password (command : bytes) : bool :=
  negb (str_is command "pqc-keygen") && negb (str_is command "backup-import") && negb (str_is command "audit-keygen")
  && negb (str_is command "audit-verify-root-sig").

(** The outcome of a prompt: the options with the password, the options as
    they are when there is no terminal, or [None] when [main] gives up. *)
Definition prompted (f : text_field) (o : cli_options_t) (prompt : C bytes) : C (option cli_options_t) :=
  r ← attempt prompt;
  match r with
  | Ok password => mret (Some (set_text f (Some password) o))
  | Err SM_ERR_AUTH => cli_error sys (str "passwords do not match") ;; mret (None : option cli_options_t)
  | Err _ => mret (Some o)
  end.

Definition prompt_master_password (o : cli_options_t) : C (option cli_options_t) :=
  let command := arg o o_command in
  if bool_decide (opt_text o o_password = None) && cli_command_needs_master_password command then
    exists_ ← (if str_is command "init" then access_f_ok (arg o o_db_path) else mret true);
    if negb exists_ then
      cli_tty_note (str "Creating a new vault. Choose a master password to protect it." ++ nl
        ++ str "You will need it every time and it cannot be recovered if lost; your typing stays hidden." ++ nl) ;;
      prompted o_password o
        (cli_prompt_password_confirmed (str "Master password: ") (str "Confirm master password: ") CLI_PASSWORD_MAX)
    else
      cli_tty_note (str "Enter your master password to unlock the vault (your typing stays hidden)." ++ nl) ;;
      prompted o_password o (cli_prompt_password (str "Master password: ") CLI_PASSWORD_MAX)
  else mret (Some o).

Definition prompt_new_password (o : cli_options_t) : C (option cli_options_t) :=
  let command := arg o o_command in
  if bool_decide (opt_text o o_new_password = None) && (str_is command "rotate-kek" || str_is command "rotate") then
    cli_tty_note (str "Now choose a new master password (your typing stays hidden)." ++ nl
      ++ str "This re-wraps every key; the old password will stop working." ++ nl) ;;
    prompted o_new_password o
      (cli_prompt_password_confirmed (str "New master password: ") (str "Confirm new master password: ") CLI_PASSWORD_MAX)
  else mret (Some o).

(** What [main] says of a failed command. *)
Definition report_failure (o : cli_options_t) (status : sm_error) : C unit :=
  let command := arg o o_command in
  t ← get_console;
  if con_reported t then mret ()
  else
    match status with
    | SM_ERR_NOT_FOUND =>
        let of_entry := (str_is command "audit-proof" || str_is command "audit-verify-proof") && (0 <? opt_number o o_entry_id)%Z in
        entry ← (if of_entry then access_f_ok (arg o o_db_path) else mret false);
        if entry : bool then cli_error sys (str "audit entry " ++ print_int (opt_number o o_entry_id) ++ str " not found")
        else
          match opt_text o o_name with
          | None => mret ()
          | Some name =>
              exists_ ← access_f_ok (arg o o_db_path);
              if negb exists_ then mret ()
              else if (0 <? opt_number o o_version)%Z then
                cli_error sys (str "version " ++ print_int (opt_number o o_version) ++ str " of '" ++ c_str name ++ str "' not found")
              else if cli_color_enabled sys Stderr then
                cli_error sys (str "secret '" ++ c_str name ++ str "' not found") ;;
                cli_hint sys Stderr (str "run 'fuin list' to see stored names")
              else print Stderr (str "fuin: secret '" ++ c_str name ++ str "' not found (see stored names with: fuin list)" ++ nl)
          end
    | SM_ERR_AUTH =>
        cli_error sys (str "authentication failed (wrong master password, or the token lacks the required scope)")
    | SM_ERR_INPUT_TOO_LARGE =>
        cli_error sys (str "stdin secret is too large (max " ++ print_nat CLI_MAX_SECRET_BYTES ++ str " bytes)")
    | SM_ERR_INVALID_ARGUMENT => cli_report_invalid_argument o
    | s => cli_error sys (utils_status_message (sm_error_code s))
    end.

(** The command, the closing of the vault and the exit status. *)
Definition run_command (o : cli_options_t) : C Z :=
  modify_console (set_reported false) ;;
  status ← attempt (cli_dispatch o);
  close_status ← attempt (run vault_close);
  let status := match status, close_status with Ok _, Err s => Err s | _, _ => status end in
  match status with
  | Ok _ => mret 0%Z
  | Err s => report_failure o s ;; mret 1%Z
  end.

(** [main] from the prompts on: the options are accepted and name a command. *)
Definition cli_session (o : cli_options_t) : C Z :=
  with_password ← prompt_master_password o;
  match with_password with
  | None => mret 1%Z
  | Some o =>
      with_new_password ← prompt_new_password o;
      match with_new_password with
      | None => mret 1%Z
      | Some o => run_command o
      end
  end.

End Cli.

Section Main.
Context {CR : Crypto} {J : Cjson} {PX : Posix} {OS : Openssl} {SQ : Sqlite} {H2 : Hex2bin}.
Variable sys : system.
Variable fuel : nat.

(** The exit status of the process. *)
Definition cli_main (argv : list bytes) : C Z :=
  ready ← attempt (run (lib_call SM_ERR_CRYPTO));
  match ready with
  | Err _ => cli_error sys (str "libsodium initialization failed") ;; mret 1%Z
  | Ok _ =>
      let g_program_path := default [] (head argv) in
      if match argv with _ :: a :: _ => str_is a CLI_CLIPBOARD_CLEAR_HELPER | _ => false end then
        status ← attempt (cli_clipboard_clear_helper sys argv);
        mret (if is_ok status then 0 else 1)%Z
      else
        parsed ← attempt (run (cli_parse_options sys argv));
        match parsed with
        | Err _ => cli_print_usage sys Stderr ;; mret 2%Z
        | Ok o =>
            if opt_flag o o_help then
              (if bool_decide (is_Some (opt_text o o_command ≫= cli_command_usage))
               then cli_print_command_help sys Stdout (arg o o_command)
               else cli_print_usage sys Stdout) ;;
              mret 0%Z
            else if bool_decide (opt_text o o_command = None) then cli_print_intro sys Stdout ;; mret 0%Z
            else
              cli_session sys g_program_path fuel o
        end
  end.

End Main.

#[global] Typeclasses Opaque cli_print_intro cli_print_usage cli_print_command_help cli_report_invalid_argument access_f_ok cli_require_password cli_report_missing_vault cli_open_unlocked_vault require_name cli_copy_secret_to_clipboard cli_print_hex cli_type_value cli_print_list_item run_listing printing cli_print_expiry print_all cli_run_audit_keygen cli_run_audit_proof cli_run_audit_root cli_run_audit_sign_root cli_run_audit_verify cli_run_audit_verify_proof cli_run_audit_verify_root_sig cli_run_auto_rotate cli_run_backup_export cli_run_backup_import cli_run_check_expiry cli_run_check_token cli_run_delete cli_run_generate cli_run_get cli_run_init cli_run_issue_token cli_run_list cli_run_pqc_keygen cli_run_put cli_run_revoke_tokens cli_run_rollback cli_run_rotate_kek cli_run_status_report cli_run_totp cli_dispatch prompted prompt_master_password prompt_new_password report_failure run_command cli_session cli_main.
