(* ===== verification/CliTheorems.v ===== *)
(** What the command line guarantees: it ends with an exit status whatever
    fails, its table of commands and its dispatch agree, a token is checked
    before anything is shown or stored, helpers see no secret in their
    environment, and what one process stores another one reads. *)

From S2P Require Import Prelude Status Sodium Schema State Files Openssl Utils Storage Sqlite StorageFile KeyManager Merkle Backup AuditLog Access VaultRows Vault VaultSpec VaultRefine VaultReads VaultUnlock VaultTheorems VaultQueries VaultFile VaultTokens CliText CliOptions CliIo Cli.

(** * Running a sequence *)

Lemma c_bind_run {A B} (m : C A) (f : A → C B) t e w t1 a w1 :
  m t e w = (Ok (t1, Ok a), w1) → (m ≫= f) t e w = f a t1 e w1.
Proof. intros E. change ((r ← m t; match r.2 with Ok a => f a r.1 | Err s => mret (r.1, Err s) end) e w = f a t1 e w1). by rewrite (bind_run _ _ _ _ _ _ E). Qed.
Lemma c_bind_err {A B} (m : C A) (f : A → C B) t e w t1 s w1 :
  m t e w = (Ok (t1, Err s), w1) → (m ≫= f) t e w = (Ok (t1, Err s), w1).
Proof. intros E. change ((r ← m t; match r.2 with Ok a => f a r.1 | Err s => mret (r.1, Err s) end) e w = (Ok (t1, Err s), w1)). by rewrite (bind_run _ _ _ _ _ _ E). Qed.
Lemma c_attempt {A} (m : C A) t e w t1 r w1 :
  m t e w = (Ok (t1, r), w1) → attempt m t e w = (Ok (t1, Ok r), w1).
Proof. intros E. unfold attempt. by rewrite (bind_run _ _ _ _ _ _ E). Qed.
Lemma c_run {A} (m : M A) t e w r w1 : m e w = (r, w1) → run m t e w = (Ok (t, r), w1).
Proof. intros E. unfold run, try, mbind, M_bind. by rewrite E. Qed.

Lemma c_bind_ok {A B} (m : C A) (f : A → C B) t e w t' b w' :
  (m ≫= f) t e w = (Ok (t', Ok b), w') →
  ∃ t1 a w1, m t e w = (Ok (t1, Ok a), w1) ∧ f a t1 e w1 = (Ok (t', Ok b), w').
Proof.
  intros H. change ((r ← m t; match r.2 with Ok a => f a r.1 | Err s => mret (r.1, Err s) end) e w = (Ok (t', Ok b), w')) in H.
  apply bind_ok in H as ([t1 [a|s]] & w1 & E & H); [by exists t1, a, w1|by injection H].
Qed.

(** * Computations on the console that end

    [Ends R m]: run in any environment, [m] ends with a status, and the
    consoles before and after are related by [R]. *)

Class Ends {A} (R : relation console) (m : C A) : Prop :=
  ends : ∀ t e w, ∃ t' r w', m t e w = (Ok (t', r), w') ∧ R t t'.

Section Ends.
Context {R : relation console} `{!PreOrder R}.

#[export] Instance ends_ret {A} (a : A) : Ends R (mret a : C A).
Proof. intros t e w. by exists t, (Ok a), w. Qed.
#[export] Instance ends_fail {A} s : Ends R (fail_with s : C A).
Proof. intros t e w. by exists t, (Err s), w. Qed.
#[export] Instance ends_run {A} (m : M A) : Ends R (run m).
Proof. intros t e w. unfold run, try, mbind, M_bind. destruct (m e w) as [r w']. by exists t, r, w'. Qed.
#[export] Instance ends_outcome {A} (o : outcome A) : Ends R (of_outcome o).
Proof. intros t e w. by exists t, o, w. Qed.
#[export] Instance ends_require b s : Ends R (require b s).
Proof. apply ends_outcome. Qed.
#[export] Instance ends_get : Ends R get_console.
Proof. intros t e w. by exists t, (Ok t), w. Qed.

#[export] Instance ends_bind {A B} (m : C A) (f : A → C B) :
  Ends R m → (∀ a, Ends R (f a)) → Ends R (m ≫= f).
Proof.
  intros Hm Hf t e w. destruct (Hm t e w) as (t1 & [a|s] & w1 & E & H1).
  - destruct (Hf a t1 e w1) as (t2 & r & w2 & E2 & H2). exists t2, r, w2. split; [|by etrans].
    by rewrite (c_bind_run _ _ _ _ _ _ _ _ E).
  - exists t1, (Err s), w1. split; [|done]. exact (c_bind_err _ _ _ _ _ _ _ _ E).
Qed.
#[export] Instance ends_attempt {A} (m : C A) : Ends R m → Ends R (attempt m).
Proof.
  intros Hm t e w. destruct (Hm t e w) as (t1 & r & w1 & E & H1). exists t1, (Ok r), w1. split; [|done].
  exact (c_attempt _ _ _ _ _ _ _ E).
Qed.
#[export] Instance ends_ignore {A} (m : C A) : Ends R m → Ends R (ignore m).
Proof. intros Hm. unfold ignore. apply _. Qed.
#[export] Instance ends_or_status {A} s (m : C A) : Ends R m → Ends R (or_status s m).
Proof. intros Hm. unfold or_status. apply ends_bind; [apply _|]. intros [a|x]; apply _. Qed.

#[export] Instance ends_if {A} (b : bool) (m n : C A) : Ends R m → Ends R n → Ends R (if b then m else n).
Proof. by destruct b. Qed.
#[export] Instance ends_option {A B} (o : option B) (f : B → C A) (n : C A) :
  (∀ b, Ends R (f b)) → Ends R n → Ends R (match o with Some b => f b | None => n end).
Proof. by destruct o. Qed.
#[export] Instance ends_match {A B} (o : outcome B) (f : B → C A) (g : sm_error → C A) :
  (∀ b, Ends R (f b)) → (∀ s, Ends R (g s)) → Ends R (match o with Ok b => f b | Err s => g s end).
Proof. by destruct o. Qed.
#[export] Instance ends_pair {A B D} (p : B * D) (f : B → D → C A) :
  (∀ b d, Ends R (f b d)) → Ends R (let '(b, d) := p in f b d).
Proof. by destruct p. Qed.
Lemma ends_modify f : (∀ t, R t (f t)) → Ends R (modify_console f).
Proof. intros H t e w. by exists (f t), (Ok ()), w. Qed.

(** What is appended to a stream. *)
Lemma ends_write f text : (∀ s t, R t (append_to f s t)) → Ends R (write_stream f text).
Proof.
  intros H. unfold write_stream. apply ends_bind; [apply _|]. intros [u|s].
  - apply ends_modify. intros t. apply H.
  - apply ends_bind; [apply _|]. intros n. apply ends_bind; [|apply _]. apply ends_modify. intros t. apply H.
Qed.
Lemma ends_print f text : (∀ s t, R t (append_to f s t)) → Ends R (print f text).
Proof. intros H. apply ends_ignore. by apply ends_write. Qed.

End Ends.

(** What a process that is started gets: the arguments are the program, the
    name of the helper and two numbers, or those of a program for the
    clipboard; the variables of its environment are some of a fixed list,
    [PATH] with the value of the program and the others as they are. *)
Definition helper_path : bytes := str "/usr/bin:/bin:/usr/sbin:/sbin:/usr/local/bin:/opt/homebrew/bin".

Definition helper_variables : list string :=
  ["PATH"; "HOME"; "DISPLAY"; "WAYLAND_DISPLAY"; "XDG_RUNTIME_DIR"; "XAUTHORITY"; "DBUS_SESSION_BUS_ADDRESS"]%string.

Definition helper_variable (sys : system) (entry : bytes) : Prop :=
  ∃ name value, name ∈ helper_variables ∧ entry = str name ++ equals_sign :: value ∧
    (name = "PATH"%string ∧ value = c_str helper_path ∨ ∃ v, getenv sys name = Some v ∧ value = c_str v).

Definition helper_argv (program : bytes) (argv : list bytes) : Prop :=
  (∃ n, argv = [c_str program; str CLI_CLIPBOARD_CLEAR_HELPER; print_nat n; print_dec CLI_CLIPBOARD_CLEAR_SECONDS]) ∨
  ∃ p, p ∈ CLI_CLIPBOARD_CANDIDATES ∧
    (argv = [p; str "-selection"; str "clipboard"] ∨ argv = [p; str "-selection"; str "clipboard"; str "-o"]).

Definition helper_ok (sys : system) (program : bytes) (c : child) : Prop :=
  helper_argv program (ch_argv c) ∧ Forall (helper_variable sys) (ch_envp c).

(** A relation that allows whatever the program does to its console, the
    helpers of this kind included. *)
Class Writes (R : relation console) : Prop := {
  writes_preorder :: PreOrder R;
  writes_append f s t : R t (append_to f s t);
  writes_stdin s t : R t (set_stdin s t);
  writes_tty l t : R t (set_tty l t);
  writes_tty_out s t : R t (add_tty_out s t);
  writes_clipboard s t : R t (set_clipboard s t);
  writes_reported b t : R t (set_reported b t);
  writes_stuck t : R t (set_stuck t);
}.
Class Starts (sys : system) (program : bytes) (R : relation console) : Prop :=
  starts_child c t : helper_ok sys program c → R t (add_child c t).

(** Any console to any other. *)
Definition anything (t t' : console) : Prop := True.
#[export] Instance anything_writes : Writes anything.
Proof. by repeat split. Qed.
#[export] Instance anything_starts sys program : Starts sys program anything.
Proof. by repeat split. Qed.

(** The helpers that are started are as they should be. *)
Definition starts_helpers (sys : system) (program : bytes) (t t' : console) : Prop :=
  ∃ cs, con_children t' = con_children t ++ cs ∧ Forall (helper_ok sys program) cs.
#[export] Instance helpers_writes sys program : Writes (starts_helpers sys program).
Proof.
  assert (∀ t t', con_children t' = con_children t → starts_helpers sys program t t') as Hsame.
  { intros t t' E. exists []. by rewrite E, app_nil_r. }
  split; try (intros; by apply Hsame).
  - split; [intros t; by apply Hsame|]. intros t1 t2 t3 (c1 & E1 & H1) (c2 & E2 & H2). exists (c1 ++ c2).
    rewrite E2, E1, app_assoc. split; [done|by apply Forall_app].
  - intros f text t. by apply Hsame; destruct f.
Qed.
#[export] Instance helpers_starts sys program : Starts sys program (starts_helpers sys program).
Proof. intros c t H. exists [c]. split; [done|by apply Forall_singleton]. Qed.

(** Nothing that holds a secret is written: no output but messages and
    prompts, nothing on the clipboard and no helper is started. *)
Definition silent (t t' : console) : Prop :=
  con_stdout t' = con_stdout t ∧ con_clipboard t' = con_clipboard t ∧ con_children t' = con_children t.
#[export] Instance silent_preorder : PreOrder silent.
Proof. split; [by intros t|]. intros t1 t2 t3 (E1 & E2 & E3) (F1 & F2 & F3). split_and!; congruence. Qed.

#[export] Instance silent_stderr text : Ends silent (print Stderr text).
Proof. apply ends_print. by intros s t. Qed.
#[export] Instance silent_reported b : Ends silent (modify_console (set_reported b)).
Proof. by apply ends_modify. Qed.
#[export] Instance silent_tty_out s : Ends silent (modify_console (add_tty_out s)).
Proof. by apply ends_modify. Qed.
#[export] Instance silent_tty l : Ends silent (modify_console (set_tty l)).
Proof. by apply ends_modify. Qed.
#[export] Instance silent_stdin s : Ends silent (modify_console (set_stdin s)).
Proof. by apply ends_modify. Qed.

(** Go through a computation, by the shape of its parts. *)
Ltac ends_step :=
  lazymatch goal with
  | |- ∀ _, _ => intros ?
  | |- Ends _ (_ ≫= _) => apply ends_bind
  | |- Ends _ (let _ := _ in _) => cbv zeta
  | |- Ends _ (attempt _) => apply ends_attempt
  | |- Ends _ ?m =>
      first [apply _
            |apply ends_if
            |apply ends_match
            |match m with context [match ?x with _ => _ end] => is_var x; destruct x end
            |match m with context [match ?x with _ => _ end] => destruct x eqn:? end]
  end.
Ltac ends_tac := repeat (cbv beta; ends_step).

Section Messages.
Context {PX : Posix}.
Variable sys : system.
Context {R : relation console} {WR : Writes R}.

#[export] Instance permits_write f text : Ends R (write_stream f text).
Proof. apply ends_write. intros s t. apply writes_append. Qed.
#[export] Instance permits_print f text : Ends R (print f text).
Proof. apply ends_print. intros s t. apply writes_append. Qed.
#[export] Instance ends_stdin s : Ends R (modify_console (set_stdin s)).
Proof. apply ends_modify. intros t. apply writes_stdin. Qed.
#[export] Instance ends_tty l : Ends R (modify_console (set_tty l)).
Proof. apply ends_modify. intros t. apply writes_tty. Qed.
#[export] Instance ends_tty_out s : Ends R (modify_console (add_tty_out s)).
Proof. apply ends_modify. intros t. apply writes_tty_out. Qed.
#[export] Instance ends_clipboard s : Ends R (modify_console (set_clipboard s)).
Proof. apply ends_modify. intros t. apply writes_clipboard. Qed.
#[export] Instance ends_reported b : Ends R (modify_console (set_reported b)).
Proof. apply ends_modify. intros t. apply writes_reported. Qed.
#[export] Instance ends_stuck : Ends R (modify_console set_stuck).
Proof. apply ends_modify. intros t. apply writes_stuck. Qed.

#[export] Instance silent_error msg : Ends silent (cli_error sys msg).
Proof. unfold cli_error. ends_tac. Qed.
#[export] Instance silent_ok msg : Ends silent (cli_ok sys Stderr msg).
Proof. unfold cli_ok. ends_tac. Qed.
#[export] Instance silent_hint msg : Ends silent (cli_hint sys Stderr msg).
Proof. unfold cli_hint. ends_tac. Qed.
#[export] Instance permits_error msg : Ends R (cli_error sys msg).
Proof. unfold cli_error. ends_tac. Qed.
#[export] Instance permits_ok f msg : Ends R (cli_ok sys f msg).
Proof. unfold cli_ok. ends_tac. Qed.
#[export] Instance permits_hint f msg : Ends R (cli_hint sys f msg).
Proof. unfold cli_hint. ends_tac. Qed.
#[export] Instance permits_heading f text : Ends R (cli_heading sys f text).
Proof. unfold cli_heading. ends_tac. Qed.
#[export] Instance permits_listing f n a b : Ends R (cli_listing_line sys f n a b).
Proof. unfold cli_listing_line. ends_tac. Qed.

#[export] Instance silent_prompt prompt n : Ends silent (cli_prompt_password prompt n).
Proof. unfold cli_prompt_password. ends_tac. Qed.
#[export] Instance permits_prompt prompt n : Ends R (cli_prompt_password prompt n).
Proof. unfold cli_prompt_password. ends_tac. Qed.
#[export] Instance silent_note text : Ends silent (cli_tty_note text).
Proof. unfold cli_tty_note. ends_tac. Qed.
#[export] Instance permits_note text : Ends R (cli_tty_note text).
Proof. unfold cli_tty_note. ends_tac. Qed.
#[export] Instance permits_confirmed a b n : Ends R (cli_prompt_password_confirmed a b n).
Proof. unfold cli_prompt_password_confirmed. ends_tac. Qed.
#[export] Instance silent_stdin_secret : Ends silent cli_read_stdin_secret.
Proof. unfold cli_read_stdin_secret, cli_alloc_secret_buffer. ends_tac. Qed.
#[export] Instance permits_stdin_secret : Ends R cli_read_stdin_secret.
Proof. unfold cli_read_stdin_secret, cli_alloc_secret_buffer. ends_tac. Qed.
#[export] Instance permits_passphrase o c n : Ends R (cli_load_key_passphrase o c n).
Proof. unfold cli_load_key_passphrase. ends_tac. Qed.
#[export] Instance permits_access path : Ends R (access_f_ok path).
Proof. unfold access_f_ok. ends_tac. Qed.
#[export] Instance silent_access path : Ends silent (access_f_ok path).
Proof. unfold access_f_ok. ends_tac. Qed.

#[export] Instance permits_clipboard_gets b d : Ends R (clipboard_gets b d).
Proof. unfold clipboard_gets. ends_tac. Qed.
#[export] Instance permits_write_all d : Ends R (cli_write_all_ignore_sigpipe d).
Proof. unfold cli_write_all_ignore_sigpipe. ends_tac. Qed.
Lemma add_env_ok n envp name fallback e w envp' w' :
  cli_clipboard_add_env sys n envp name fallback e w = (Ok envp', w') → name ∈ helper_variables →
  (fallback = None ∨ name = "PATH"%string ∧ fallback = Some helper_path) →
  Forall (helper_variable sys) envp → Forall (helper_variable sys) envp'.
Proof.
  unfold cli_clipboard_add_env. intros H Hn Hf Henv. apply bind_ok in H as (? & w1 & [_ ->]%guard_ok & H). cbv zeta in H.
  set (value := match fallback with Some v => _ | None => _ end) in H.
  assert (∀ v, value = Some v → name = "PATH"%string ∧ v = helper_path ∨ getenv sys name = Some v) as Hv.
  { intros v. unfold value. destruct Hf as [->|[-> ->]]; [|rewrite decide_True by done; intros [= <-]; by left].
    destruct (empty_text _); [done|]. by right. }
  clearbody value. destruct value as [v|]; [|by injection H as <- _].
  destruct (bool_decide (c_str v = [])); [by injection H as <- _|].
  apply bind_ok in H as (? & w2 & _ & H). injection H as <- _. apply Forall_app. split; [done|]. constructor; [|done].
  exists name, (c_str v). split_and!; [done..|]. destruct (Hv v eq_refl) as [[-> ->]|E]; [by left|right; by exists v].
Qed.

Lemma build_env_ok n e w envp w' :
  cli_clipboard_build_env sys n e w = (Ok envp, w') → Forall (helper_variable sys) envp.
Proof.
  unfold cli_clipboard_build_env. intros H. apply bind_ok in H as (? & w1 & [_ ->]%guard_ok & H).
  assert (Forall (helper_variable sys) []) as H0 by constructor. revert H0 H. generalize (@nil bytes).
  intros l0 H0 H. unfold helper_variables in *.
  repeat (apply bind_ok in H as (? & ? & H1 & H); apply add_env_ok in H1;
    [|unfold helper_variables; set_solver|first [by left|by right]|done]; clear H0; rename H1 into H0).
  eapply add_env_ok; [exact H|unfold helper_variables; set_solver|by left|done].
Qed.

(** What follows the start of a process, or the choice of its program. *)
Lemma ends_spawn {A} n (f : list bytes → C A) :
  (∀ envp, Forall (helper_variable sys) envp → Ends R (f envp)) → Ends R (run (spawn_with_pipe sys n) ≫= f).
Proof.
  intros Hf t e w. destruct (spawn_with_pipe sys n e w) as [[envp|s] w1] eqn:E; cycle 1.
  { eexists _, _, _. split; [exact (c_bind_err _ _ _ _ _ _ _ _ (c_run _ _ _ _ _ _ E))|done]. }
  rewrite (c_bind_run _ _ _ _ _ _ _ _ (c_run _ t _ _ _ _ E)). apply bind_ok in E as (l & w2 & El%build_env_ok & E).
  apply bind_ok in E as (? & w3 & _ & E). injection E as -> _. by apply Hf.
Qed.
Lemma ends_program {A} (f : bytes → C A) :
  (∀ p, p ∈ CLI_CLIPBOARD_CANDIDATES → Ends R (f p)) → Ends R (clipboard_program sys ≫= f).
Proof.
  intros Hf t e w. unfold clipboard_program, cli_clipboard_resolve_program.
  destruct (list_find _ _) as [[i p]|] eqn:E; cbn [fmap option_fmap option_map snd from_option_or].
  - rewrite (c_bind_run _ _ t e w t p w eq_refl). apply Hf. apply list_find_Some in E as (Hi & _).
    by eapply list_elem_of_lookup_2.
  - eexists _, _, _. split; [exact (c_bind_err _ _ t e w t _ w eq_refl)|done].
Qed.

Section Starts.
Context (program : bytes) {SR : Starts sys program R}.

Lemma ends_child argv envp stdin :
  helper_argv program argv → Forall (helper_variable sys) envp →
  Ends R (modify_console (add_child (Child argv envp stdin))).
Proof. intros Ha He. apply ends_modify. intros t. apply starts_child. by split. Qed.

#[export] Instance permits_clipboard_write d : Ends R (cli_clipboard_write sys d).
Proof.
  unfold cli_clipboard_write. apply ends_program. intros p Hp. cbv zeta. apply ends_spawn. intros envp He.
  assert (∀ stdin, Ends R (modify_console (add_child (Child [p; str "-selection"; str "clipboard"] envp stdin)))).
  { intros stdin. apply ends_child; [right; exists p; auto|done]. }
  ends_tac.
Qed.
#[export] Instance permits_clipboard_read n : Ends R (cli_clipboard_read_current sys n).
Proof.
  unfold cli_clipboard_read_current. apply ends_bind; [apply _|intros _]. apply ends_program. intros p Hp.
  apply ends_bind; [apply _|intros _]. apply ends_spawn. intros envp He.
  apply ends_bind; [apply ends_child; [right; exists p; auto|done]|]. ends_tac.
Qed.
#[export] Instance permits_clear_helper argv : Ends R (cli_clipboard_clear_helper sys argv).
Proof. unfold cli_clipboard_clear_helper. ends_tac. Qed.
#[export] Instance permits_schedule d : Ends R (cli_clipboard_schedule_clear sys program d).
Proof.
  unfold cli_clipboard_schedule_clear. apply ends_bind; [apply _|intros _]. apply ends_if; [apply _|]. cbv zeta.
  apply ends_spawn. intros envp He.
  assert (∀ stdin, Ends R (modify_console (add_child (Child
    [c_str program; str CLI_CLIPBOARD_CLEAR_HELPER; print_nat (length d); print_dec CLI_CLIPBOARD_CLEAR_SECONDS] envp stdin)))).
  { intros stdin. apply ends_child; [left; by eexists|done]. }
  ends_tac.
Qed.
End Starts.

End Messages.

(** * Every command ends *)


Section Commands.
Context {CR : Crypto} {J : Cjson} {PX : Posix} {OS : Openssl} {SQ : Sqlite} {H2 : Hex2bin}.
Variables (sys : system) (g_program_path : bytes) (fuel : nat).
Context {R : relation console} {WR : Writes R} {SR : Starts sys g_program_path R}.

#[export] Instance silent_missing {A} p l : Ends silent (cli_report_missing_vault sys p l : C A).
Proof. unfold cli_report_missing_vault. ends_tac. Qed.
#[export] Instance permits_missing {A} p l : Ends R (cli_report_missing_vault sys p l : C A).
Proof. unfold cli_report_missing_vault. ends_tac. Qed.
#[export] Instance silent_open o : Ends silent (cli_open_unlocked_vault sys o).
Proof. unfold cli_open_unlocked_vault, cli_require_password. ends_tac. Qed.
#[export] Instance permits_open o : Ends R (cli_open_unlocked_vault sys o).
Proof. unfold cli_open_unlocked_vault, cli_require_password. ends_tac. Qed.
#[export] Instance silent_type name : Ends silent (cli_type_value sys name).
Proof. unfold cli_type_value. ends_tac. Qed.
#[export] Instance permits_type name : Ends R (cli_type_value sys name).
Proof. unfold cli_type_value. ends_tac. Qed.
#[export] Instance permits_copy d : Ends R (cli_copy_secret_to_clipboard sys g_program_path d).
Proof. unfold cli_copy_secret_to_clipboard. ends_tac. Qed.
#[export] Instance permits_hex d : Ends R (cli_print_hex d).
Proof. unfold cli_print_hex. ends_tac. Qed.
#[export] Instance permits_print_all f l : Ends R (print_all f l).
Proof. induction l; cbn; ends_tac. Qed.
#[export] Instance permits_usage f : Ends R (cli_print_usage sys f).
Proof. unfold cli_print_usage. ends_tac. Qed.
#[export] Instance permits_intro f : Ends R (cli_print_intro sys f).
Proof. unfold cli_print_intro. ends_tac. Qed.
#[export] Instance permits_command_help f c : Ends R (cli_print_command_help sys f c).
Proof. unfold cli_print_command_help. ends_tac. Qed.
#[export] Instance permits_invalid o : Ends R (cli_report_invalid_argument sys o).
Proof. unfold cli_report_invalid_argument. ends_tac. Qed.

(** A callback that ends makes a listing that ends: [walks m u] says that [m],
    given the console and the data of [u], gives back such a pair. *)
Definition walks {X B} (m : M ((console * X) * B)) (u : console * X) (e : env) (w : world) : Prop :=
  ∃ u' b w', m e w = (Ok (u', b), w') ∧ R u.1 u'.1.

Lemma each_row_walks {X} (f : console * X → secret_row → M ((console * X) * outcome unit)) rows :
  (∀ u r e w, walks (f u r) u e w) → ∀ n u e w, walks (each_row f n u rows) u e w.
Proof.
  intros Hf. induction rows as [|r rows IH]; intros n u e w; [by exists u, (Ok n), w|]. cbn [each_row].
  destruct (Hf u r e w) as (u' & [x|s] & w1 & E & H1).
  - destruct (IH (S n) u' e w1) as (u2 & b & w2 & E2 & H2'). exists u2, b, w2. split; [|by etrans].
    by rewrite (bind_run _ _ _ _ _ _ E).
  - exists u', (Err s), w1. split; [|done]. by rewrite (bind_run _ _ _ _ _ _ E).
Qed.

Lemma with_rows_walks {X B} (prepare : M B) (u : console * X) step e w :
  (∀ b e w, walks (step b) u e w) → walks (with_rows prepare u step) u e w.
Proof.
  intros Hs. unfold walks, with_rows. destruct (prepare e w) as [[b|s] w1] eqn:E.
  - rewrite (bind_run _ _ _ _ (Ok b) w1) by (unfold try; by rewrite E).
    destruct (Hs b e w1) as (u' & r & w2 & E2 & H1). rewrite (bind_run _ _ _ _ _ _ E2). unfold finalize_rows.
    destruct (lib_call SM_ERR_STORAGE e w2) as [f w3] eqn:E3.
    rewrite (bind_run _ _ _ _ f w3) by (unfold try; by rewrite E3). by eexists u', _, w3.
  - rewrite (bind_run _ _ _ _ (Err s) w1) by (unfold try; by rewrite E). by exists u, (Err s), w1.
Qed.

Lemma call_with_walks {X A} (m : M A) callback (u : console * X) e w :
  (∀ a e w, walks (callback a u) u e w) → walks (call_with m callback u) u e w.
Proof.
  intros Hc. destruct (m e w) as [[a|s] w1] eqn:E; unfold walks; rewrite (call_with_run _ _ _ _ _ _ _ E); [apply Hc|].
  by exists u, (Err s), w1.
Qed.

Lemma printing_walks {X} (body : X → C X) u e w : (∀ x, Ends R (body x)) → walks (printing body u) u e w.
Proof.
  intros Hb. unfold walks, printing. destruct (Hb u.2 u.1 e w) as (t' & [x|s] & w' & E & H1);
    rewrite (bind_run _ _ _ _ _ _ E); by eexists (t', _), _, w'.
Qed.

Lemma run_listing_ends {X} (m : console * X → M ((console * X) * outcome nat)) x :
  (∀ u e w, walks (m u) u e w) → Ends R (run_listing m x).
Proof.
  intros Hm t e w. unfold run_listing. destruct (Hm (t, x) e w) as ([t' x'] & r & w' & E & H1).
  rewrite (bind_run _ _ _ _ _ _ E). by eexists t', _, w'.
Qed.

#[export] Instance permits_item item ctx : Ends R (cli_print_list_item sys item ctx).
Proof. unfold cli_print_list_item. ends_tac. Qed.
#[export] Instance permits_expiry a b c d u : Ends R (cli_print_expiry a b c d u).
Proof. unfold cli_print_expiry. ends_tac. Qed.

#[export] Instance permits_listed b x :
  Ends R (run_listing (vault_list_secrets b (λ item, printing (cli_print_list_item sys item))) x).
Proof.
  apply run_listing_ends. intros u e w. apply with_rows_walks. intros [now rows] e1 w1. apply each_row_walks.
  intros u1 r e2 w2. apply call_with_walks. intros. apply printing_walks. apply _.
Qed.
#[export] Instance permits_expiries n x :
  Ends R (run_listing (vault_check_expiry n (Some (λ a b c d, printing (cli_print_expiry a b c d)))) x).
Proof.
  apply run_listing_ends. intros u e w. apply with_rows_walks. intros [now rows] e1 w1. apply each_row_walks.
  intros u1 r e2 w2. apply call_with_walks. intros [[[a b] c] d]. intros. apply printing_walks. apply _.
Qed.

#[export] Instance permits_dispatch o : Ends R (cli_dispatch sys g_program_path fuel o).
Proof.
  unfold cli_dispatch, dispatch_on. cbv zeta. apply ends_if; [apply _|].
  repeat (apply ends_if; [solve [unfold cli_run_init, cli_run_put, cli_run_generate, cli_run_get, cli_run_totp, cli_run_list,
    cli_run_delete, cli_run_rollback, cli_run_rotate_kek, cli_run_check_expiry, cli_run_auto_rotate, cli_run_issue_token,
    cli_run_check_token, cli_run_revoke_tokens, cli_run_audit_verify, cli_run_audit_root, cli_run_audit_proof,
    cli_run_audit_verify_proof, cli_run_audit_keygen, cli_run_audit_sign_root, cli_run_audit_verify_root_sig,
    cli_run_status_report, cli_run_pqc_keygen, cli_run_backup_export, cli_run_backup_import, require_name,
    cli_alloc_secret_buffer; ends_tac]|]).
  apply _.
Qed.

#[export] Instance permits_failure o s : Ends R (report_failure sys o s).
Proof. unfold report_failure. ends_tac. Qed.

End Commands.

(** * The exit status

    [Exits P m]: [m] ends without error, with a value that satisfies [P]. *)

Class Exits {A} (P : A → Prop) (m : C A) : Prop :=
  exits : ∀ t e w, ∃ t' a w', m t e w = (Ok (t', Ok a), w') ∧ P a.

Definition some_value {A} (a : A) : Prop := True.

Lemma exits_ret {A} (P : A → Prop) a : P a → Exits P (mret a : C A).
Proof. intros H t e w. by exists t, a, w. Qed.
Lemma exits_bind {A B} (P : B → Prop) (m : C A) (f : A → C B) :
  Exits some_value m → (∀ a, Exits P (f a)) → Exits P (m ≫= f).
Proof.
  intros Hm Hf t e w. destruct (Hm t e w) as (t1 & a & w1 & E & _). rewrite (c_bind_run _ _ _ _ _ _ _ _ E). apply Hf.
Qed.
#[export] Instance exits_attempt {A} (m : C A) : Ends anything m → Exits some_value (attempt m).
Proof. intros Hm t e w. destruct (Hm t e w) as (t1 & r & w1 & E & _). exists t1, r, w1. split; [|done]. exact (c_attempt _ _ _ _ _ _ _ E). Qed.
#[export] Instance exits_value {A} (a : A) : Exits some_value (mret a : C A).
Proof. by apply exits_ret. Qed.
#[export] Instance exits_modify f : Exits some_value (modify_console f).
Proof. intros t e w. by exists (f t), (), w. Qed.
#[export] Instance exits_console : Exits some_value get_console.
Proof. intros t e w. by exists t, t, w. Qed.
#[export] Instance exits_files : Exits some_value (run get_files).
Proof. intros t e w. by exists t, (d_files (w_disk w)), w. Qed.
#[export] Instance exits_print f text : Exits some_value (print f text).
Proof. unfold print, ignore. apply exits_bind; [apply _|]. intros. apply _. Qed.

Ltac exits_step :=
  lazymatch goal with
  | |- ∀ _, _ => intros ?
  | |- Exits _ (_ ≫= _) => apply exits_bind
  | |- Exits _ (let _ := _ in _) => cbv zeta
  | |- Exits _ (mret _) => apply exits_ret
  | |- Exits _ ?m =>
      first [apply _
            |match m with context [match ?x with _ => _ end] => is_var x; destruct x end
            |match m with context [match ?x with _ => _ end] => destruct x eqn:? end]
  | |- some_value _ => done
  end.
Ltac exits_tac := repeat (cbv beta; exits_step).

Section Exit.
Context {CR : Crypto} {J : Cjson} {PX : Posix} {OS : Openssl} {SQ : Sqlite} {H2 : Hex2bin}.
Variables (sys : system) (g_program_path : bytes) (fuel : nat).

#[export] Instance ends_clear_helper argv : Ends anything (cli_clipboard_clear_helper sys argv).
Proof. apply (permits_clear_helper sys []). Qed.
#[export] Instance exits_error msg : Exits some_value (cli_error sys msg).
Proof. unfold cli_error. exits_tac. Qed.
#[export] Instance exits_ok f msg : Exits some_value (cli_ok sys f msg).
Proof. unfold cli_ok. exits_tac. Qed.
#[export] Instance exits_hint f msg : Exits some_value (cli_hint sys f msg).
Proof. unfold cli_hint. exits_tac. Qed.
#[export] Instance exits_heading f text : Exits some_value (cli_heading sys f text).
Proof. unfold cli_heading. exits_tac. Qed.
#[export] Instance exits_listing f n a b : Exits some_value (cli_listing_line sys f n a b).
Proof. unfold cli_listing_line. exits_tac. Qed.
#[export] Instance exits_note text : Exits some_value (cli_tty_note text).
Proof. unfold cli_tty_note. exits_tac. Qed.
#[export] Instance exits_access path : Exits some_value (access_f_ok path).
Proof. unfold access_f_ok. exits_tac. Qed.
#[export] Instance exits_usage f : Exits some_value (cli_print_usage sys f).
Proof. unfold cli_print_usage. exits_tac. Qed.
#[export] Instance exits_intro f : Exits some_value (cli_print_intro sys f).
Proof. unfold cli_print_intro. exits_tac. Qed.
#[export] Instance exits_command_help f c : Exits some_value (cli_print_command_help sys f c).
Proof. unfold cli_print_command_help. exits_tac. Qed.
#[export] Instance exits_invalid o : Exits some_value (cli_report_invalid_argument sys o).
Proof. unfold cli_report_invalid_argument. exits_tac. Qed.
#[export] Instance exits_failure o s : Exits some_value (report_failure sys o s).
Proof. unfold report_failure. exits_tac. Qed.
#[export] Instance exits_prompted f o p : Ends anything p → Exits some_value (prompted sys f o p).
Proof. intros. unfold prompted. exits_tac. Qed.
#[export] Instance exits_master o : Exits some_value (prompt_master_password sys o).
Proof. unfold prompt_master_password. exits_tac. Qed.
#[export] Instance exits_new o : Exits some_value (prompt_new_password sys o).
Proof. unfold prompt_new_password. exits_tac. Qed.

#[export] Instance exits_command o : Exits (λ code, code = 0 ∨ code = 1)%Z (run_command sys g_program_path fuel o).
Proof. unfold run_command. exits_tac; auto. Qed.
#[export] Instance exits_session o : Exits (λ code, code = 0 ∨ code = 1)%Z (cli_session sys g_program_path fuel o).
Proof. unfold cli_session. exits_tac; auto. Qed.

#[export] Instance silent_heading text : Ends silent (cli_heading sys Stderr text).
Proof. unfold cli_heading. ends_tac. Qed.
#[export] Instance silent_usage : Ends silent (cli_print_usage sys Stderr).
Proof. unfold cli_print_usage. ends_tac. Qed.

End Exit.

Section Main.
Context {CR : Crypto} {J : Cjson} {PX : Posix} {OS : Openssl} {SQ : Sqlite} {H2 : Hex2bin}.
Variables (sys : system) (fuel : nat).


End Main.

(** * The table of commands and the dispatch *)

Section Dispatch.
Context {CR : Crypto} {J : Cjson} {PX : Posix} {OS : Openssl} {SQ : Sqlite} {H2 : Hex2bin}.
Variables (sys : system) (g_program_path : bytes) (fuel : nat).

(** What each command does, by the name its usage line teaches. *)
Definition handlers : list (string * (cli_options_t → C unit)) := [
  ("init", cli_run_init sys); ("put", cli_run_put sys); ("generate", cli_run_generate sys g_program_path);
  ("get", cli_run_get sys g_program_path); ("totp", cli_run_totp sys g_program_path); ("list", cli_run_list sys);
  ("delete", cli_run_delete sys); ("rollback", cli_run_rollback sys); ("rotate-kek", cli_run_rotate_kek sys);
  ("check-expiry", cli_run_check_expiry sys); ("auto-rotate", cli_run_auto_rotate sys fuel);
  ("issue-token", cli_run_issue_token sys); ("check-token", cli_run_check_token sys);
  ("revoke-tokens", cli_run_revoke_tokens sys); ("audit-verify", cli_run_audit_verify sys);
  ("audit-root", cli_run_audit_root sys); ("audit-proof", cli_run_audit_proof sys);
  ("audit-verify-proof", cli_run_audit_verify_proof sys); ("audit-keygen", cli_run_audit_keygen sys);
  ("audit-sign-root", cli_run_audit_sign_root sys); ("audit-verify-root-sig", cli_run_audit_verify_root_sig sys);
  ("status-report", cli_run_status_report sys); ("pqc-keygen", cli_run_pqc_keygen);
  ("backup-export", cli_run_backup_export sys); ("backup-import", cli_run_backup_import)]%string.

(** The first word of a usage line. *)
Fixpoint first_word (l : bytes) : bytes :=
  match l with
  | [] => []
  | b :: l' => if decide (b = space) then [] else b :: first_word l'
  end.

Lemma str_inj a b : str a = str b → a = b.
Proof.
  intros H%(f_equal String.string_of_list_byte). unfold str in H. by rewrite !String.string_of_list_byte_of_string in H.
Qed.

Lemma str_is_name c l m : c_str c = str l → str_is c m = String.eqb l m.
Proof.
  intros H. unfold str_is. rewrite H. destruct (String.eqb_spec l m) as [->|Hne].
  - by apply bool_decide_eq_true_2.
  - apply bool_decide_eq_false_2. by intros ?%str_inj.
Qed.

Lemma dispatch_ext p q o :
  (∀ m, p m = q m) → dispatch_on sys g_program_path fuel p o = dispatch_on sys g_program_path fuel q o.
Proof. intros H. unfold dispatch_on. by rewrite !H. Qed.

(** The handler of the first word of the usage. *)
Ltac handler_tac :=
  lazymatch goal with
  | |- ∃ name f, first_word (str ?u) = _ ∧ _ =>
      let n := eval vm_compute in (String.string_of_list_byte (first_word (str u))) in
      exists n; eexists; split; [vm_compute; reflexivity|split; [|reflexivity]];
      unfold handlers; repeat first [apply list_elem_of_here|apply list_elem_of_further]
  end.

(** C35: the table of the commands, which says what is a command and gives its
    usage, and the dispatch agree: a spelling of the table runs the operation
    whose usage is shown for it, aliases included, and any other spelling is
    an invalid argument without any effect. *)
Theorem cli_dispatch_table o command :
  opt_text o o_command = Some command →
  match cli_command_usage command with
  | Some usage => ∃ name f, first_word usage = str name ∧ (name, f) ∈ handlers ∧ cli_dispatch sys g_program_path fuel o = f o
  | None => cli_dispatch sys g_program_path fuel o = fail_with SM_ERR_INVALID_ARGUMENT
  end.
Proof.
  intros Ho. unfold cli_command_usage, cli_dispatch, arg. rewrite Ho. cbn [empty_text]. change (default [] (Some command)) with command.
  destruct (bool_decide (c_str command = [])) eqn:Ene; [done|].
  destruct (list_find (λ row, Is_true (str_is command row.1)) CLI_COMMAND_HELP) as [[i [name usage]]|] eqn:E; cbn [fmap option_fmap option_map].
  - apply list_find_Some in E as (Hi & Hn & _). apply Is_true_true, bool_decide_eq_true in Hn. cbn [fst snd] in *.
    rewrite (dispatch_ext _ (String.eqb name)) by (intros m; by apply str_is_name).
    apply list_elem_of_lookup_2 in Hi. unfold CLI_COMMAND_HELP in Hi.
    repeat (apply elem_of_cons in Hi as [[= -> ->]|Hi];
      [cbn [dispatch_on String.eqb Ascii.eqb Bool.eqb orb]; handler_tac|]).
    by apply not_elem_of_nil in Hi.
  - apply list_find_None in E. rewrite Forall_forall in E.
    assert (∀ l, existsb (String.eqb l) (fst <$> CLI_COMMAND_HELP) = true → str_is command l = false) as Hf.
    { intros l (x & [row [-> Hrow]]%list_elem_of_In%list_elem_of_fmap & ->%String.eqb_eq)%existsb_exists.
      apply not_true_iff_false. intros Hl. apply (E row Hrow). by apply Is_true_true. }
    unfold dispatch_on.
    repeat match goal with |- context [str_is command ?l] => rewrite (Hf l) by (vm_compute; reflexivity) end. done.
Qed.

End Dispatch.

(** * Tokens *)

(** The operation a command on a secret needs a scope for. *)
Definition secret_operation (command : bytes) : option string :=
  if str_is command "put" || str_is command "set" || str_is command "generate" || str_is command "gen"
     || str_is command "rollback" then Some "write"%string
  else if str_is command "get" || str_is command "totp" then Some "read"%string
  else if str_is command "delete" || str_is command "del" then Some "delete"%string
  else None.

Section Tokens.
Context {CR : Crypto} {J : Cjson} {PX : Posix} {OS : Openssl} {SQ : Sqlite} {H2 : Hex2bin}.
Variables (sys : system) (g_program_path : bytes) (fuel : nat).

(** The token was accepted for the operation on the name. *)
Definition token_checked (token : bytes) (operation : string) (name : bytes) (e : env) : Prop :=
  ∃ w1 w2, vault_check_token token (Some (str operation ++ colon :: c_str name)) e w1 = (Ok (), w2).

(** [m] succeeds or writes something that may hold a secret only after the
    token was accepted. *)
Definition gated {A} (P : env → Prop) (m : C A) : Prop :=
  ∀ t e w t' r w', m t e w = (Ok (t', r), w') → P e ∨ silent t t' ∧ is_ok r = false.

Lemma gated_bind {A B} P (m : C A) (f : A → C B) : Ends silent m → (∀ a, gated P (f a)) → gated P (m ≫= f).
Proof.
  intros Hm Hf t e w t' r w' H. destruct (Hm t e w) as (t1 & [a|s] & w1 & E & S1).
  - rewrite (c_bind_run _ _ _ _ _ _ _ _ E) in H. destruct (Hf a _ _ _ _ _ _ H) as [?|[S2 Hr]]; [by left|right].
    split; [by etrans|done].
  - rewrite (c_bind_err _ _ _ _ _ _ _ _ E) in H. injection H as <- <- _. by right.
Qed.

Lemma gated_fail {A} P s : gated P (fail_with s : C A).
Proof. intros t e w t' r w' [= <- <- _]. by right. Qed.

Lemma gated_authorize {A} o operation name token (f : unit → C A) :
  opt_text o o_token = Some token → c_str (str operation) = str operation →
  gated (token_checked token operation name) (run (cli_authorize_token o operation name) ≫= f).
Proof.
  intros Ho Hop t e w t' r w' H. destruct (cli_authorize_token o operation name e w) as [[[]|s] w1] eqn:E; cycle 1.
  { rewrite (c_bind_err _ _ _ _ _ _ _ _ (c_run _ t _ _ _ _ E)) in H. injection H as <- <- _. by right. }
  left. unfold cli_authorize_token in E. rewrite Ho in E. apply bind_ok in E as (? & ? & [_ ->]%guard_ok & E).
  apply bind_ok in E as (scope & w2 & E1 & E). injection E1 as E1 <-. unfold cli_required_scope in E1.
  apply outcome_seq_ok in E1 as [_ E1]. apply outcome_seq_ok in E1 as [_ [= <-]]. rewrite Hop in E. by exists w, w1.
Qed.

#[local] Instance silent_name o : Ends silent (require_name o).
Proof. unfold require_name. apply _. Qed.
#[local] Instance silent_alloc n : Ends silent (cli_alloc_secret_buffer n).
Proof. unfold cli_alloc_secret_buffer. ends_tac. Qed.

Ltac gated_tac :=
  cbv zeta;
  repeat first
    [eapply gated_authorize; [eassumption|reflexivity]
    |apply gated_bind; [ends_tac|intros ?]].

Lemma dispatch_named o command l :
  opt_text o o_command = Some command → c_str command = str l → str l ≠ [] →
  cli_dispatch sys g_program_path fuel o = dispatch_on sys g_program_path fuel (String.eqb l) o.
Proof.
  intros Ho Hl Hne. unfold cli_dispatch, arg. rewrite Ho. cbn [empty_text]. change (default [] (Some command)) with command.
  rewrite bool_decide_eq_false_2 by congruence. apply dispatch_ext. intros m. by apply str_is_name.
Qed.

Lemma dispatch_gated o command operation name token :
  opt_text o o_command = Some command → secret_operation command = Some operation →
  opt_text o o_name = Some name → opt_text o o_token = Some token →
  gated (token_checked token operation name) (cli_dispatch sys g_program_path fuel o).
Proof.
  intros Hc Hop Hn Ht. assert (arg o o_name = name) as Ha by (unfold arg; by rewrite Hn).
  unfold secret_operation in Hop.
  repeat match type of Hop with (if ?b then _ else _) = _ => destruct b eqn:? end; try done; injection Hop as <-;
    repeat match goal with E : (_ || _)%bool = true |- _ => apply orb_true_iff in E as [E|E] end;
    match goal with E : str_is command _ = true |- _ => apply bool_decide_eq_true in E; rewrite (dispatch_named o command _ Hc E) by done end;
    cbn [dispatch_on String.eqb Ascii.eqb Bool.eqb orb];
    unfold cli_run_put, cli_run_generate, cli_run_rollback, cli_run_get, cli_run_totp, cli_run_delete; rewrite Ha; gated_tac.
Qed.

#[local] Instance silent_confirmed a b n : Ends silent (cli_prompt_password_confirmed a b n).
Proof. unfold cli_prompt_password_confirmed. ends_tac. Qed.
#[local] Instance silent_master o : Ends silent (prompt_master_password sys o).
Proof. unfold prompt_master_password, prompted. ends_tac. Qed.
#[local] Instance silent_new o : Ends silent (prompt_new_password sys o).
Proof. unfold prompt_new_password, prompted. ends_tac. Qed.
#[local] Instance silent_invalid o : Ends silent (cli_report_invalid_argument sys o).
Proof. unfold cli_report_invalid_argument. ends_tac. Qed.
#[local] Instance silent_failure o s : Ends silent (report_failure sys o s).
Proof. unfold report_failure. ends_tac. Qed.

(** A prompt fills in a password and nothing else. *)
Definition same_but_passwords (o o' : cli_options_t) : Prop :=
  ∀ f, f ≠ o_password → f ≠ o_new_password → opt_text o' f = opt_text o f.

Lemma prompted_keeps f o p t e w t' o' w' :
  (f = o_password ∨ f = o_new_password) → Ends anything p →
  prompted sys f o p t e w = (Ok (t', Ok (Some o')), w') → same_but_passwords o o'.
Proof.
  intros Hf Hp H g Hg1 Hg2. unfold prompted in H. destruct (Hp t e w) as (t1 & r & w1 & E & _).
  rewrite (c_bind_run _ _ _ _ _ _ _ _ (c_attempt _ _ _ _ _ _ _ E)) in H.
  assert (∀ s, r = Err s → s ≠ SM_ERR_AUTH → o' = o) as Hsame by (intros [] -> ?; try done; by injection H as _ <- _).
  destruct r as [password|s].
  - injection H as _ <- _. apply set_text_other. by destruct Hf as [-> | ->].
  - destruct (decide (s = SM_ERR_AUTH)) as [->|Hs]; [|by rewrite (Hsame s)].
    destruct (exits_error sys (str "passwords do not match") t1 e w1) as (t2 & u & w2 & E2 & _).
    rewrite (c_bind_run _ _ _ _ _ _ _ _ E2) in H. by injection H.
Qed.

Lemma prompt_master_keeps o t e w t' o' w' :
  prompt_master_password sys o t e w = (Ok (t', Ok (Some o')), w') → same_but_passwords o o'.
Proof.
  unfold prompt_master_password. cbv zeta. destruct (_ && _); [|by intros [= _ <- _]].
  intros (t1 & found & w1 & _ & H)%c_bind_ok. destruct (negb found); apply c_bind_ok in H as (t2 & u & w2 & _ & H);
    (eapply prompted_keeps; [| |exact H]; [by left|apply _]).
Qed.

Lemma prompt_new_keeps o t e w t' o' w' :
  prompt_new_password sys o t e w = (Ok (t', Ok (Some o')), w') → same_but_passwords o o'.
Proof.
  unfold prompt_new_password. cbv zeta. destruct (_ && _); [|by intros [= _ <- _]].
  intros (t1 & found & w1 & _ & H)%c_bind_ok. eapply prompted_keeps; [| |exact H]; [by right|apply _].
Qed.


End Tokens.

(** * Helpers *)

Section Helpers.
Context {CR : Crypto} {J : Cjson} {PX : Posix} {OS : Openssl} {SQ : Sqlite} {H2 : Hex2bin}.
Variables (sys : system) (fuel : nat).

#[local] Instance permits_main {R} `{!Writes R} argv `{!Starts sys (default [] (head argv)) R} : Ends R (cli_main sys fuel argv).
Proof.
  unfold cli_main, cli_session, prompt_master_password, prompt_new_password, prompted, run_command. cbv zeta. ends_tac.
Qed.

(** C32: whatever it does, the program starts no process but its clipboard
    helper and xclip at one of four absolute paths. No argument of them holds a
    secret, but for its length, and their environment has none of the variables
    of the program, FUIN_PASSWORD, FUIN_NEW_PASSWORD and FUIN_TOKEN among them:
    at most [PATH], of a fixed value, and six variables of the desktop. *)
Theorem cli_helpers_see_no_secret argv t e w t' r w' :
  cli_main sys fuel argv t e w = (Ok (t', r), w') →
  ∃ cs, con_children t' = con_children t ++ cs ∧
    ∀ c, c ∈ cs →
      helper_argv (default [] (head argv)) (ch_argv c) ∧
      ∀ entry, entry ∈ ch_envp c → helper_variable sys entry ∧ ¬ str "FUIN_" `prefix_of` entry.
Proof.
  intros H. destruct (ends (R := starts_helpers sys (default [] (head argv))) (m := cli_main sys fuel argv) t e w)
    as (t1 & r1 & w1 & E & cs & Hcs & Hok). rewrite H in E. injection E as <- <- <-.
  exists cs. split; [done|]. intros c Hc. rewrite Forall_forall in Hok. destruct (Hok c Hc) as [Hargv Henv].
  split; [done|]. intros entry He. rewrite Forall_forall in Henv. specialize (Henv entry He). split; [done|].
  destruct Henv as (name & value & Hname & -> & _). intros [k E]. unfold helper_variables in Hname.
  repeat (apply elem_of_cons in Hname as [->|Hname]; [discriminate E|]). by apply not_elem_of_nil in Hname.
Qed.

End Helpers.

(** * Runs that succeed *)

(** [m] succeeds, and its value and what it leaves satisfy [Q]. *)
Definition cwp {A} (m : C A) (Q : A → console → world → Prop) (t : console) (e : env) (w : world) : Prop :=
  ∃ t' a w', m t e w = (Ok (t', Ok a), w') ∧ Q a t' w'.

Section Cwp.
Context {A : Type} (Q : A → console → world → Prop) (t : console) (e : env) (w : world).

Lemma cwp_bind {B} (m : C B) (f : B → C A) : cwp m (λ b t' w', cwp (f b) Q t' e w') t e w → cwp (m ≫= f) Q t e w.
Proof.
  intros (t1 & b & w1 & E & t2 & a & w2 & E2 & HQ). exists t2, a, w2. split; [|done].
  by rewrite (c_bind_run _ _ _ _ _ _ _ _ E).
Qed.
Lemma cwp_ret a : Q a t w → cwp (mret a) Q t e w.
Proof. intros H. by exists t, a, w. Qed.
Lemma cwp_run (m : M A) : wp m (λ a w', Q a t w') e w → cwp (run m) Q t e w.
Proof. intros (a & w' & E & HQ). exists t, a, w'. split; [exact (c_run _ _ _ _ _ _ E)|done]. Qed.
End Cwp.

Lemma cwp_mono {A} (m : C A) (Q Q' : A → console → world → Prop) t e w :
  cwp m Q t e w → (∀ a t' w', Q a t' w' → Q' a t' w') → cwp m Q' t e w.
Proof. intros (t' & a & w' & E & H) HQ. exists t', a, w'. auto. Qed.
Lemma cwp_attempt {A} (m : C A) (Q : outcome A → console → world → Prop) t e w :
  cwp m (λ a t' w', Q (Ok a) t' w') t e w → cwp (attempt m) Q t e w.
Proof. intros (t' & a & w' & E & H). exists t', (Ok a), w'. split; [exact (c_attempt _ _ _ _ _ _ _ E)|done]. Qed.
Lemma cwp_require b s (Q : unit → console → world → Prop) t e w : b = true → Q () t w → cwp (require b s) Q t e w.
Proof. intros -> H. by exists t, (), w. Qed.
Lemma cwp_outcome {A} (o : outcome A) a (Q : A → console → world → Prop) t e w : o = Ok a → Q a t w → cwp (of_outcome o) Q t e w.
Proof. intros -> H. by exists t, a, w. Qed.
Lemma cwp_console (Q : console → console → world → Prop) t e w : Q t t w → cwp get_console Q t e w.
Proof. intros H. by exists t, t, w. Qed.
Lemma cwp_modify f (Q : unit → console → world → Prop) t e w : Q () (f t) w → cwp (modify_console f) Q t e w.
Proof. intros H. by exists (f t), (), w. Qed.
Lemma cwp_call s (Q : unit → console → world → Prop) t e w : healthy e → Q () t (called w) → cwp (run (lib_call s)) Q t e w.
Proof. intros He H. apply cwp_run. by apply wp_lib_call. Qed.
Lemma cwp_write f text (Q : unit → console → world → Prop) t e w :
  healthy e → Q () (append_to f text t) (called w) → cwp (write_stream f text) Q t e w.
Proof. intros He H. unfold write_stream. apply cwp_bind, cwp_attempt, cwp_call; [done|]. by apply cwp_modify. Qed.
Lemma cwp_print f text (Q : unit → console → world → Prop) t e w :
  healthy e → Q () (append_to f text t) (called w) → cwp (print f text) Q t e w.
Proof. intros He H. unfold print, ignore. apply cwp_bind, cwp_attempt, cwp_write; [done|]. by apply cwp_ret. Qed.
Lemma cwp_or_status {A} s (m : C A) (Q : A → console → world → Prop) t e w : cwp m Q t e w → cwp (or_status s m) Q t e w.
Proof. intros H. unfold or_status. apply cwp_bind, cwp_attempt. eapply cwp_mono; [exact H|]. intros a t' w' HQ. by apply cwp_ret. Qed.

Ltac cwp_step :=
  lazymatch goal with
  | |- cwp (_ ≫= _) _ _ _ _ => apply cwp_bind
  | |- cwp (let _ := _ in _) _ _ _ _ => cbv zeta
  | |- cwp (mret _) _ _ _ _ => apply cwp_ret
  | |- cwp (attempt _) _ _ _ _ => apply cwp_attempt
  | |- cwp (or_status _ _) _ _ _ _ => apply cwp_or_status
  | |- cwp (run (lib_call _)) _ _ _ _ => apply cwp_call; [assumption|]
  | |- cwp (print _ _) _ _ _ _ => apply cwp_print; [assumption|]
  | |- cwp (write_stream _ _) _ _ _ _ => apply cwp_write; [assumption|]
  | |- cwp (modify_console _) _ _ _ _ => apply cwp_modify
  | |- cwp get_console _ _ _ _ => apply cwp_console
  end.
Ltac cwp_tac := cbv beta iota; repeat (cwp_step; cbv beta iota).

(** * The clipboard is cleared *)

Section Clipboard.
Context {CR : Crypto} {J : Cjson} {PX : Posix} {OS : Openssl} {SQ : Sqlite} {H2 : Hex2bin}.
Variables (sys : system) (fuel : nat).

Lemma print_dec_text z : (0 ≤ z)%Z → c_str (print_dec z) = print_dec z ∧ starts_with_digit (print_dec z) = true.
Proof.
  intros Hz. pose proof (print_dec_digits z Hz) as Hd. split.
  - apply c_str_no_nul. intros H0. rewrite Forall_forall in Hd. specialize (Hd _ H0). vm_compute in Hd. by destruct Hd as [[] _].
  - destruct (print_dec z) as [|b l] eqn:E; [|apply Forall_cons in Hd as [Hb _]; by apply isdigit_spec].
    rewrite print_dec_eq in E by done. by apply app_eq_nil in E as [_ ?].
Qed.

Lemma parse_print_size z : (0 ≤ z ≤ UINT64_MAX)%Z → cli_parse_size_value (print_dec z) true = Ok z.
Proof.
  intros Hz. destruct (print_dec_text z) as [Ec Hs]; [lia|]. unfold cli_parse_size_value. rewrite Ec, Hs.
  pose proof (strtoull_digits _ Hs) as E. pose proof (span_digits_stop (print_dec z) [] (print_dec_digits z ltac:(lia)) eq_refl) as Esp.
  rewrite app_nil_r in Esp. rewrite Esp in E. destruct E as [Hne ->]. rewrite read_print_dec by lia.
  rewrite (proj2 (Z.ltb_ge _ _)) by lia. unfold no_number. cbn [pn_value pn_errno pn_end].
  rewrite bool_decide_eq_false_2 by congruence. rewrite (proj2 (Z.ltb_ge SIZE_MAX z)) by (unfold SIZE_MAX; lia). done.
Qed.

Lemma wp_system_calls n (Q : unit → world → Prop) e w : healthy e → (∀ w', Q () w') → wp (system_calls n) Q e w.
Proof.
  intros He HQ. revert w. induction n as [|n IH]; intros w; cbn [system_calls]; [by apply wp_ret|].
  apply wp_bind, wp_lib_call; [done|]. apply IH.
Qed.

Lemma wp_add_env n envp name fallback (Q : list bytes → world → Prop) e w :
  healthy e → length envp + 1 < n → (∀ envp' w', length envp' ≤ S (length envp) → Q envp' w') →
  wp (cli_clipboard_add_env sys n envp name fallback) Q e w.
Proof.
  intros He Hn HQ. unfold cli_clipboard_add_env. apply wp_bind, wp_guard; [by apply Nat.ltb_lt|]. cbv zeta.
  set (value := match fallback with Some v => _ | None => _ end). clearbody value.
  destruct value as [v|]; [|apply wp_ret, HQ; lia]. destruct (bool_decide _); [apply wp_ret, HQ; lia|].
  apply wp_bind, wp_lib_call; [done|]. apply wp_ret, HQ. rewrite length_app. cbn. lia.
Qed.

Lemma wp_spawn n (Q : list bytes → world → Prop) e w : healthy e → (∀ envp w', Q envp w') → wp (spawn_with_pipe sys n) Q e w.
Proof.
  intros He HQ. unfold spawn_with_pipe, cli_clipboard_build_env, CLI_CLIPBOARD_ENV_MAX.
  apply wp_bind, wp_bind, wp_guard; [done|].
  do 6 (apply wp_bind, wp_add_env; [done|cbn in *; lia|intros ? ? ?]). apply wp_add_env; [done|cbn in *; lia|intros ? ? ?].
  apply wp_bind, wp_system_calls; [done|]. intros w9. apply wp_ret, HQ.
Qed.

(** C33: the helper clears the clipboard: where a program for the clipboard is
    installed and no call fails, the process that [cli_clipboard_schedule_clear]
    starts, when its time has come, leaves the clipboard empty if it still
    holds the secret the helper was given, and else as it is, and ends with
    status 0 having written nothing. *)
Theorem cli_clipboard_cleared program secret t e w :
  healthy e → is_Some (cli_clipboard_resolve_program sys CLI_CLIPBOARD_CANDIDATES) →
  0 < length secret ≤ CLI_MAX_SECRET_BYTES → con_stdin t = secret →
  ∃ t' w', cli_main sys fuel [program; str CLI_CLIPBOARD_CLEAR_HELPER; print_nat (length secret); str "30"] t e w
           = (Ok (t', Ok 0%Z), w') ∧
    con_clipboard t' = (if decide (con_clipboard t = secret) then [] else con_clipboard t) ∧
    con_stdout t' = con_stdout t ∧ con_stderr t' = con_stderr t.
Proof.
  intros He Hp Hlen Hin.
  set (Q t' := con_clipboard t' = (if decide (con_clipboard t = secret) then [] else con_clipboard t) ∧
    con_stdout t' = con_stdout t ∧ con_stderr t' = con_stderr t).
  cut (cwp (cli_main sys fuel [program; str CLI_CLIPBOARD_CLEAR_HELPER; print_nat (length secret); str "30"])
         (λ code t' _, code = 0%Z ∧ Q t') t e w); [intros (t' & code & w' & E & -> & HQ); by exists t', w'|].
  unfold cli_main. cwp_tac. rewrite (str_is_name _ CLI_CLIPBOARD_CLEAR_HELPER) by reflexivity. rewrite String.eqb_refl.
  apply cwp_bind, cwp_attempt. unfold cli_clipboard_clear_helper.
  apply cwp_bind, cwp_require; [done|]. apply cwp_bind, cwp_or_status.
  eapply cwp_outcome; [cbn [nth]; apply parse_print_size; unfold CLI_MAX_SECRET_BYTES, UINT64_MAX in *; lia|].
  apply cwp_bind, cwp_or_status. eapply cwp_outcome; [reflexivity|].
  apply cwp_bind, cwp_require.
  { apply andb_true_iff. split; [apply Z.leb_le; lia|done]. }
  rewrite (proj2 (Z.eqb_neq _ _)) by lia. cwp_tac. rewrite Nat2Z.id, Hin.
  apply cwp_require; [by apply Nat.leb_le|]. apply cwp_bind, cwp_attempt.
  destruct Hp as [p Hp]. unfold cli_clipboard_read_current, clipboard_program. rewrite Hp.
  apply cwp_bind, cwp_require; [apply Nat.leb_le; lia|]. apply cwp_bind. eapply cwp_outcome; [reflexivity|]. cwp_tac.
  apply cwp_run, wp_spawn; [done|]. intros envp w2. cwp_tac. apply cwp_run, wp_system_calls; [done|]. intros w3. cwp_tac.
  cbn [add_child con_clipboard]. rewrite firstn_all. destruct (decide (con_clipboard t = secret)) as [Heq|Hne].
  - rewrite Heq, take_ge by lia. rewrite bool_decide_eq_true_2 by done. unfold ignore. apply cwp_bind, cwp_attempt.
    unfold cli_clipboard_write, clipboard_program. rewrite Hp. apply cwp_bind. eapply cwp_outcome; [reflexivity|].
    cbv zeta. apply cwp_bind, cwp_run, wp_spawn; [done|]. intros envp2 w4. cwp_tac.
    unfold cli_write_all_ignore_sigpipe, clipboard_gets. cwp_tac. cbn [is_ok]. cwp_tac. apply cwp_require; [done|]. cwp_tac.
    split; [done|]. by unfold Q.
  - rewrite bool_decide_eq_false_2; [cwp_tac; split; [done|]; by unfold Q|].
    intros Ht. apply Hne. apply (f_equal length) in Ht as Hl. rewrite length_take in Hl.
    rewrite <- Ht, take_ge; [done|lia].
Qed.

End Clipboard.

(** * Witnesses *)

Module CliExample.
#[local] Existing Instance Toy.crypto.
#[local] Existing Instance Toy.laws.
#[local] Existing Instance ToyJson.cjson.
#[local] Existing Instance ToyPosix.posix.
#[local] Existing Instance ToyPosix.laws.
#[local] Existing Instance ToyOpenssl.openssl.
#[local] Existing Instance ToySqlite.sqlite.
#[local] Existing Instance ToySqlite.laws.
Import VaultExample StorageExample CliTextExample.

(** A desktop with a program for the clipboard. *)
Definition sys : system :=
  System (λ v, if decide (v = "FUIN_PASSWORD"%string) then Some pw
               else if decide (v = "DISPLAY"%string) then Some (str ":0") else None)
    false false (λ _, true).

(** A process with a text on its standard input and one on the clipboard. *)
Definition process (input clipboard : bytes) : console := Console input [] [] None [] clipboard [] false false.

(** The result of a session: the exit status and the console. *)
Definition exit_status (x : outcome (console * outcome Z) * world) : option Z :=
  match x.1 with Ok (_, Ok z) => Some z | _ => None end.
Definition console_of (x : outcome (console * outcome Z) * world) : console :=
  match x.1 with Ok (t, _) => t | Err _ => process [] [] end.

Lemma exited x z : exit_status x = Some z → x = (Ok (console_of x, Ok z), x.2).
Proof. destruct x as [[[t [c|s]]|s] w]; intros H; try discriminate H. by injection H as ->. Qed.

Definition options (command : string) (name : bytes) : cli_options_t :=
  set_text o_name (Some name) (set_text o_password (Some pw) (set_text o_db_path (Some path)
    (set_text o_command (Some (str command)) cli_init_options))).

Lemma cli_dispatch_table_witness :
  ∃ usage name f, cli_command_usage (str "gen") = Some usage ∧ first_word usage = str name ∧
    (name, f) ∈ handlers sys [] 0 ∧ cli_dispatch sys [] 0 (options "gen" (str "x")) = f (options "gen" (str "x")).
Proof.
  pose proof (cli_dispatch_table sys [] 0 (options "gen" (str "x")) (str "gen") eq_refl) as H.
  destruct (cli_command_usage (str "gen")) as [usage|] eqn:E; [|discriminate E].
  destruct H as (name & f & H). exists usage, name, f. exact (conj eq_refl H).
Defined.

(** The file of a vault that was made and closed. *)
Definition w_stored : world := (vault_close e0 (vault_unlock pw e0 w_init).2).2.

Definition with_token : cli_options_t := set_text o_token (Some (str "a.b.c")) (options "get" (str "db/prod")).

(** A process that is started without even a name is refused. *)
Example main_without_arguments : exit_status (cli_main sys 0 [] (process [] []) e0 w_stored) = Some 2%Z.
Proof. vm_compute. reflexivity. Qed.

Lemma token_session :
  exit_status (cli_session sys (str "fuin") 0 with_token (process [] []) e0 w_stored) = Some 1%Z.
Proof. vm_compute. reflexivity. Qed.


(** A secret is stored from the standard input, and copied by the next command. *)
Definition put_argv : list bytes := [str "fuin"; str "put"; str "db/prod"; str "--stdin"; str "--db"; path].
Definition copy_argv : list bytes := [str "fuin"; str "get"; str "db/prod"; str "--db"; path; str "--copy"].

Definition w_put : world := (cli_main sys 0 put_argv (process (str "s3cret") []) e0 w_stored).2.
#[local] Notation copied := (cli_main sys 0 copy_argv (process [] []) e0 w_put).

Lemma copied_ok : exit_status copied = Some 0%Z ∧ con_clipboard (console_of copied) = str "s3cret" ∧
  ch_argv <$> con_children (console_of copied)
    = [[str "/usr/bin/xclip"; str "-selection"; str "clipboard"];
       [str "fuin"; str CLI_CLIPBOARD_CLEAR_HELPER; str "6"; str "30"]] ∧
  con_stdout (console_of copied) = [].
Proof. split_and!; vm_compute; reflexivity. Qed.

Lemma two_children cs : con_children (console_of copied) = cs → length cs = 2.
Proof. intros <-. vm_compute. reflexivity. Qed.

Lemma cli_helpers_see_no_secret_witness :
  length (con_children (console_of copied)) = 2 ∧
  ∀ c, c ∈ con_children (console_of copied) →
    ∀ entry, entry ∈ ch_envp c → helper_variable sys entry ∧ ¬ str "FUIN_" `prefix_of` entry.
Proof.
  destruct (cli_helpers_see_no_secret sys 0 copy_argv (process [] []) e0 w_put _ _ _ (exited _ 0%Z (proj1 copied_ok))) as (cs & E & H).
  split; [exact (two_children _ eq_refl)|]. rewrite E. exact (λ c Hc, proj2 (H c Hc)).
Defined.

Lemma cli_clipboard_cleared_witness :
  ∃ t' w', cli_main sys 0 [str "fuin"; str CLI_CLIPBOARD_CLEAR_HELPER; print_nat 6; str "30"]
             (process (str "s3cret") (str "s3cret")) e0 w_stored = (Ok (t', Ok 0%Z), w') ∧ con_clipboard t' = [].
Proof.
  destruct (cli_clipboard_cleared sys 0 (str "fuin") (str "s3cret") (process (str "s3cret") (str "s3cret")) e0 w_stored)
    as (t' & w' & R & Hc & _).
  - exact (Sample.env_at_healthy _).
  - vm_compute. eauto.
  - unfold CLI_MAX_SECRET_BYTES. change (length (str "s3cret")) with 6. lia.
  - reflexivity.
  - exists t', w'. split; [exact R|]. rewrite Hc. reflexivity.
Defined.

(** [fgets] takes what fits the buffer: a password typed at the prompt is cut
    without a word, where the same password in [FUIN_PASSWORD] is taken whole. *)
Example prompt_truncates :
  match (cli_prompt_password (str "Master password: ") 8 (set_tty (Some [str "correct horse"]) (process [] [])) e0 w_start).1 with
  | Ok (_, r) => r
  | Err s => Err s
  end = Ok (str "correct").
Proof. vm_compute. reflexivity. Qed.

End CliExample.
