(* ===== verification/CliSession.v ===== *)
(** Two processes that share a vault: what [fuin put --stdin] of one process
    stores, [fuin get] of a later one prints. The theorem joins the layers:
    the session of the command line (Cli), the opening and closing of the
    file (StorageFile, VaultFile), the unlocking (VaultUnlock) and the store
    of secrets (VaultRefine, VaultReads). *)

From S2P Require Import Prelude Status Sodium Schema State Files Openssl Utils Storage Sqlite StorageFile KeyManager Merkle Backup AuditLog Access VaultRows Vault VaultSpec VaultRefine VaultReads VaultUnlock VaultTheorems VaultQueries VaultFile VaultTokens CliText CliOptions CliIo Cli CliTheorems.

(** * Runs that succeeded *)

Lemma c_run_ok {A} (m : M A) t e w t' a w' :
  run m t e w = (Ok (t', Ok a), w') → t' = t ∧ m e w = (Ok a, w').
Proof. unfold run, try, mbind, M_bind. destruct (m e w) as [r w1]. by intros [= <- -> <-]. Qed.
Lemma c_require_ok b s t e w t' u w' :
  require b s t e w = (Ok (t', Ok u), w') → b = true ∧ t' = t ∧ w' = w.
Proof. unfold require, of_outcome, check. destruct b; by intros [= <- <-]. Qed.
Lemma c_attempt_ok {A} (m : C A) t e w t' r w' :
  attempt m t e w = (Ok (t', Ok r), w') → m t e w = (Ok (t', r), w').
Proof.
  unfold attempt. intros ([t1 r1] & w1 & E & H)%bind_ok. by injection H as <- <- <-.
Qed.
Lemma c_or_status_ok {A} s (m : C A) t e w t' a w' :
  or_status s m t e w = (Ok (t', Ok a), w') → m t e w = (Ok (t', Ok a), w').
Proof.
  unfold or_status. intros (t1 & r & w1 & H%c_attempt_ok & H1)%c_bind_ok. destruct r; [by injection H1 as <- <- <-|discriminate H1].
Qed.

(** Messages leave the vault alone. *)
Class Leaves {A} (m : C A) : Prop := leaves : ∀ t, Keeps same_state (m t).

#[export] Instance leaves_bind {A B} (m : C A) (f : A → C B) : Leaves m → (∀ a, Leaves (f a)) → Leaves (m ≫= f).
Proof.
  intros Hm Hf t. change ((m ≫= f) t) with (r ← m t; match r.2 with Ok a => f a r.1 | Err s => mret (r.1, Err s) end).
  apply keeps_bind; [apply _|apply Hm|]. intros [t1 [a|s]]; [apply Hf|apply _].
Qed.
#[export] Instance leaves_ret {A} (a : A) : Leaves (mret a).
Proof. intros t. apply (keeps_ret same_state). Qed.
#[export] Instance leaves_attempt {A} (m : C A) : Leaves m → Leaves (attempt m).
Proof. intros Hm t. unfold attempt. apply keeps_bind; [apply _|apply Hm|intros r; apply _]. Qed.
#[export] Instance leaves_run {A} (m : M A) : Keeps same_state m → Leaves (run m).
Proof. intros Hm t. unfold run. apply _. Qed.
#[export] Instance leaves_modify f : Leaves (modify_console f).
Proof. intros t. unfold modify_console. apply _. Qed.
#[export] Instance leaves_fail {A} s : Leaves (fail_with s : C A).
Proof. intros t. unfold fail_with. apply _. Qed.
#[export] Instance leaves_write f text : Leaves (write_stream f text).
Proof. unfold write_stream. apply leaves_bind; [apply _|]. intros []; apply _. Qed.
#[export] Instance leaves_print f text : Leaves (print f text).
Proof. unfold print, ignore. apply _. Qed.
#[export] Instance leaves_ok sys f msg : Leaves (cli_ok sys f msg).
Proof. unfold cli_ok. apply leaves_bind; [destruct (cli_color_enabled sys f); apply _|]. intros []. apply _. Qed.

Lemma leaves_run_of {A} (m : C A) `{!Leaves m} t e w r w' : m t e w = (r, w') → same_state w w'.
Proof. intros H. pose proof (leaves (m := m) t). exact (keeps_run same_state _ _ _ _ _ H). Qed.

(** * The files under a session *)

Definition keeps_disk (w w' : world) : Prop := w_disk w' = w_disk w.
#[export] Instance keeps_disk_preorder : PreOrder keeps_disk.
Proof. split; [by intros w|]. unfold keeps_disk. intros a b c. congruence. Qed.
#[export] Instance disk_session {A} (m : M A) : Keeps same_session m → Keeps keeps_disk m | 10.
Proof. intros K e w. by destruct (K e w) as (_ & _ & E & _). Qed.
#[export] Instance disk_set_session k : Keeps keeps_disk (vault_set_session k).
Proof. intros e w. done. Qed.
#[export] Instance disk_lock_state : Keeps keeps_disk vault_lock_state.
Proof. intros e w. done. Qed.
#[export] Instance disk_or_lock m : Keeps keeps_disk m → Keeps keeps_disk (or_lock m).
Proof. intros K. unfold or_lock. keeps_tac. Qed.

#[export] Instance leaves_access `{Posix} path : Leaves (access_f_ok path).
Proof. unfold access_f_ok. apply _. Qed.

Section Session.
Context {CR : Crypto} {CL : CryptoLaws CR} {J : Cjson} {PX : Posix} {PL : PosixLaws PX}.
Context {OS : Openssl} {SQ : Sqlite} {SL : SqliteLaws SQ} {H2 : Hex2bin}.
Variables (sys : system) (g_program_path : bytes) (fuel : nat).

#[local] Instance disk_store_auth salt v s : Keeps keeps_disk (vault_store_auth_metadata salt v s).
Proof. unfold vault_store_auth_metadata. keeps_tac. Qed.
#[local] Instance disk_unlock password allow : Keeps keeps_disk (vault_unlock_internal password allow).
Proof.
  unfold vault_unlock_internal. do 3 (apply keeps_bind; [apply _..|intros ?]). apply disk_or_lock. keeps_tac.
Qed.

(** The file at [p] is a vault with the content [db] that [password] unlocks,
    with the keys [k], and no process has it open. *)
Definition stored (p password : bytes) (k : kdf_subkeys_t) (db : database) (w : world) : Prop :=
  w_conn w = None ∧ db_ok k db ∧ opens password k (t_metadata db) ∧
  holds_database p db (d_files (w_disk w)) ∧ no_sidecars p (d_files (w_disk w)).

(** The vault is open and unlocked. *)
Definition in_session (p password : bytes) (k : kdf_subkeys_t) (db : database) (w : world) : Prop :=
  vault_state w k db ∧ opens password k (t_metadata db) ∧ database_open p w ∧ log_only p (d_files (w_disk w)).

(** The options of a command on a secret of this vault, without a token. *)
Record for_secret (o : cli_options_t) (command : string) (path password name : bytes) : Prop := {
  fs_command : opt_text o o_command = Some (str command);
  fs_path : opt_text o o_db_path = Some path;
  fs_password : opt_text o o_password = Some password;
  fs_name : opt_text o o_name = Some name;
  fs_token : opt_text o o_token = None;
}.

Lemma missing_fails {A} path lead t e w t' (a : A) w' :
  cli_report_missing_vault sys path lead t e w = (Ok (t', Ok a), w') → False.
Proof.
  unfold cli_report_missing_vault. intros H. do 3 (apply c_bind_ok in H as (? & ? & ? & _ & H)). discriminate H.
Qed.

Lemma access_console path t e w t' b w' : access_f_ok path t e w = (Ok (t', Ok b), w') → t' = t.
Proof.
  unfold access_f_ok. intros (t1 & r & w1 & E1%c_attempt_ok & E)%c_bind_ok.
  apply c_bind_ok in E as (t2 & fs & w2 & [-> _]%c_run_ok & E). injection E as <- _ _.
  unfold run in E1. apply bind_ok in E1 as (? & ? & _ & E1). by injection E1 as <- _ _.
Qed.

(** Opening and unlocking, when they succeed in whatever environment. *)
Lemma unlock_session p password k db e w u w' :
  w_conn w = Some (Connection db db false) → database_open p w → log_only p (d_files (w_disk w)) →
  db_ok k db → opens password k (t_metadata db) →
  vault_unlock_existing password e w = (Ok u, w') → in_session p password k db w'.
Proof.
  intros Hc Hd Hs Hdb Ho H. pose proof (keeps_run keeps_disk _ _ _ _ _ H) as D. unfold keeps_disk in D.
  destruct (unlock_ok _ _ _ _ db _ _ ltac:(by eexists) ltac:(unfold visible; by rewrite Hc) H)
    as (k' & db' & Hq & Hv & Hk & Hu & Ho' & _ & _ & [->|[? _]]); [|done].
  assert (k' = k) as -> by (eapply opens_unique; eassumption).
  unfold in_session, database_open. rewrite D. by split_and!.
Qed.

Lemma open_unlocked_ok o command path name p password k db t e w t' u w' :
  for_secret o command path password name → str_is (str command) "init" = false →
  resolves path p → stored p password k db w →
  cli_open_unlocked_vault sys o t e w = (Ok (t', Ok u), w') → t' = t ∧ in_session p password k db w'.
Proof.
  intros [Ec Ep Epw _ _] Hinit Hp (Hc & Hdb & Ho & Hh & Hs) H. unfold cli_open_unlocked_vault, cli_require_password, arg in H.
  rewrite Ec, Ep, Epw in H. cbv zeta in H. change (default [] (Some (str command))) with (str command) in H.
  change (default [] (Some path)) with path in H. change (default [] (Some password)) with password in H.
  rewrite Hinit in H. apply c_bind_ok in H as (t1 & [] & w1 & (_ & -> & ->)%c_require_ok & H).
  apply c_bind_ok in H as (t1 & found & w1 & H1 & H). pose proof (leaves_run_of _ _ _ _ _ _ H1) as (S1 & _ & _ & S4).
  apply access_console in H1 as ->. destruct found; cbn [negb] in H; [|by apply missing_fails in H].
  apply c_bind_ok in H as (t2 & r2 & w2 & E2%c_attempt_ok & H). destruct r2 as [[]|s].
  2:{ apply c_bind_ok in H as (? & ? & ? & _ & H). apply c_bind_ok in H as (? & ? & ? & _ & H). discriminate H. }
  apply c_run_ok in E2 as [-> E2]. unfold vault_open in E2. apply bind_ok in E2 as (? & ? & [= _ <-] & E2).
  apply (open_ok path p db) in E2 as (C2 & D2 & N2); [|done|cbn; congruence|cbn; by rewrite S4..].
  apply c_bind_ok in H as (t3 & r3 & w3 & H3%c_attempt_ok & H).
  destruct r3 as [[]|s]; [|by destruct s; first [discriminate H|apply missing_fails in H]].
  apply c_run_ok in H3 as [-> H3]. injection H as <- _ <-.
  split; [done|]. by apply (unlock_session _ _ _ _ _ _ _ _ C2 D2 N2 Hdb Ho H3).
Qed.

(** Storing and closing. *)
Lemma in_session_same p password k db w w' : same_state w w' → in_session p password k db w → in_session p password k db w'.
Proof.
  intros S (Hst & Ho & Hd & Hs). pose proof (same_state_vault _ _ _ _ S Hst). destruct S as (_ & _ & _ & D).
  unfold in_session, database_open. by rewrite D.
Qed.

Lemma put_session p password k db name secret alg ttl e w u w' :
  in_session p password k db w → vault_put_with_options name secret alg ttl e w = (Ok u, w') →
  ∃ db' action, in_session p password k db' w' ∧
    abstract k db' = add_version (names k name) secret action (abstract k db).
Proof.
  intros (Hst & Ho & Hd & Hs) H. destruct (put_ok _ _ _ _ k db _ _ _ _ Hst H) as (db' & Hst' & Habs).
  exists db'. eexists. split; [|exact Habs]. pose proof (keeps_run same_session _ _ _ _ _ H) as (_ & _ & D & _).
  split_and!; [done| |unfold database_open; by rewrite D|by rewrite D].
  destruct (vault_state_conn _ _ _ Hst) as (c & Hc & <- & (c0 & Hc0 & _ & Hcom) & _).
  destruct (vault_state_conn _ _ _ Hst') as (c' & Hc' & <- & _).
  assert (c0 = c) as -> by congruence.
  destruct (keeps_run (keeps_view t_metadata) _ _ _ _ _ H c' Hc') as (c1 & Hc1 & E & _). assert (c1 = c) as -> by congruence.
  rewrite Hcom in E. by destruct E as [-> | ->].
Qed.

Lemma close_session p password k db e w u w' :
  in_session p password k db w → vault_close e w = (Ok u, w') → stored p password k db w'.
Proof.
  intros (Hst & Ho & Hd & Hlog) H. unfold vault_close in H. apply bind_ok in H as (? & ? & [= _ <-] & H).
  destruct (vault_state_conn _ _ _ Hst) as (c & Hc & Hcur & (c0 & Hc0 & _ & Hcom) & _ & Hdb).
  assert (c0 = c) as -> by congruence. rewrite Hcur in *.
  destruct (close_ok p c e (set_session None false w) _ _ H Hd Hc) as (Hh & Hn & _ & _ & Hside & _).
  rewrite Hcom in Hh. split_and!; [done..|by apply Hside].
Qed.

Lemma close_succeeds e w : healthy e → ∃ w', vault_close e w = (Ok (), w').
Proof.
  intros He. unfold vault_close, vault_lock_state, storage_close, mbind, M_bind, get_world, lib_call.
  cbn [set_session w_conn]. destruct (w_conn w) as [c|]; [|by eexists]. rewrite He. unfold database_of, get_files, put_files, put_world.
  rewrite alter_file_run. by eexists.
Qed.

(** A session that is given a password and changes none runs its command. *)
Lemma session_runs o command path name password t e w :
  for_secret o command path password name → str_is (str command) "rotate-kek" || str_is (str command) "rotate" = false →
  cli_session sys g_program_path fuel o t e w = run_command sys g_program_path fuel o t e w.
Proof.
  intros [Ec _ Epw _ _] Hr. unfold cli_session.
  assert (prompt_master_password sys o = mret (Some o)) as -> by (unfold prompt_master_password; by rewrite Epw).
  assert (prompt_new_password sys o = mret (Some o)) as E.
  { unfold prompt_new_password, arg. rewrite Ec. change (default [] (Some ?x)) with x. by rewrite Hr, andb_false_r. }
  rewrite (c_bind_run _ _ t e w t (Some o) w eq_refl). by rewrite E.
Qed.

Lemma run_command_zero o t e w t' w' :
  run_command sys g_program_path fuel o t e w = (Ok (t', Ok 0%Z), w') →
  ∃ w1 u, cli_dispatch sys g_program_path fuel o (set_reported false t) e w = (Ok (t', Ok ()), w1) ∧
    vault_close e w1 = (Ok u, w').
Proof.
  unfold run_command. intros (t1 & [] & w1 & [= <- <-] & H)%c_bind_ok.
  apply c_bind_ok in H as (t2 & r2 & w2 & E2%c_attempt_ok & H). apply c_bind_ok in H as (t3 & r3 & w3 & E3%c_attempt_ok & H).
  destruct (vault_close e w2) as [r w4] eqn:E. rewrite (c_run _ t2 _ _ _ _ E) in E3. injection E3 as <- <- <-.
  cbv zeta in H. destruct r2 as [[]|s], r as [u|s']; [|exfalso..].
  { injection H as <- <-. by exists w2, u. }
  all: by apply c_bind_ok in H as (? & ? & ? & _ & [=]).
Qed.

(** The secret on the standard input. *)
Lemma c_ret_ok {A} (a : A) t e w t' b w' : (mret a : C A) t e w = (Ok (t', Ok b), w') → t' = t ∧ a = b.
Proof. by intros [= <- <- _]. Qed.
#[local] Instance leaves_require b s : Leaves (require b s).
Proof. intros t. unfold require, of_outcome. apply _. Qed.
#[local] Instance leaves_get : Leaves get_console.
Proof. intros t. unfold get_console. apply _. Qed.
#[local] Instance leaves_or_status {A} s (m : C A) : Leaves m → Leaves (or_status s m).
Proof. intros K. unfold or_status. apply leaves_bind; [apply _|]. intros []; apply _. Qed.
#[local] Instance leaves_stdin_secret : Leaves cli_read_stdin_secret.
Proof. unfold cli_read_stdin_secret, cli_alloc_secret_buffer. apply _. Qed.

Lemma stdin_secret_ok t e w t' secret w' :
  cli_read_stdin_secret t e w = (Ok (t', Ok secret), w') →
  secret = con_stdin t ∧ length (con_stdin t) ≤ CLI_MAX_SECRET_BYTES.
Proof.
  unfold cli_read_stdin_secret, cli_alloc_secret_buffer.
  intros (t1 & [] & w1 & E%c_or_status_ok & H)%c_bind_ok.
  apply c_bind_ok in E as (? & [] & ? & (_ & -> & ->)%c_require_ok & [-> _]%c_run_ok).
  apply c_bind_ok in H as (? & ? & ? & [= <- <- <-] & H). apply c_bind_ok in H as (? & ? & ? & [-> _]%c_run_ok & H).
  apply c_bind_ok in H as (? & ? & ? & _ & H).
  apply c_bind_ok in H as (? & ? & ? & (Hl%Nat.leb_le & -> & ->)%c_require_ok & [_ <-]%c_ret_ok). done.
Qed.

(** The two commands. *)
Lemma put_command o path name p password k db t e w t' w' :
  for_secret o "put" path password name → opt_flag o o_read_stdin = true →
  resolves path p → stored p password k db w →
  cli_session sys g_program_path fuel o t e w = (Ok (t', Ok 0%Z), w') →
  c_str name ≠ [] ∧ length (con_stdin t) ≤ CLI_MAX_SECRET_BYTES ∧
  ∃ db' action, stored p password k db' w' ∧
    abstract k db' = add_version (names k name) (con_stdin t) action (abstract k db).
Proof.
  intros Ho Hin Hp Hst H. rewrite (session_runs _ _ _ _ _ _ _ _ Ho) in H by reflexivity.
  apply run_command_zero in H as (w1 & u & H & Hclose).
  rewrite (dispatch_named _ _ _ _ (str "put") "put") in H by first [exact (fs_command _ _ _ _ _ Ho)|reflexivity|discriminate].
  cbn [dispatch_on String.eqb Ascii.eqb Bool.eqb orb] in H.
  unfold cli_run_put, require_name, cli_authorize_token, arg in H.
  rewrite Hin, (fs_name _ _ _ _ _ Ho), (fs_token _ _ _ _ _ Ho) in H. cbv zeta in H.
  change (default [] (Some name)) with name in H.
  apply c_bind_ok in H as (t1 & [] & w2 & (Hne & -> & ->)%c_require_ok & H).
  apply c_bind_ok in H as (t2 & secret & w3 & E1 & H). pose proof (leaves_run_of _ _ _ _ _ _ E1) as (S1 & _ & _ & S4).
  apply stdin_secret_ok in E1 as [-> Hlen].
  apply c_bind_ok in H as (t3 & [] & w4 & E2 & H).
  apply (open_unlocked_ok o "put" path name p password k db) in E2 as [-> Hs]; [|exact Ho|reflexivity|done|].
  2:{ unfold stored. by rewrite S1, S4. }
  apply c_bind_ok in H as (t4 & [] & w5 & [-> [= <-]]%c_run_ok & H).
  apply c_bind_ok in H as (t5 & [] & w6 & [-> E3]%c_run_ok & H).
  split; [by apply (put_name_nonempty _ _ _ _ _ _ _ _ E3)|]. split; [done|].
  destruct (put_session _ _ _ _ _ _ _ _ _ _ _ _ Hs E3) as (db' & action & Hs' & Habs). exists db', action. split; [|done].
  pose proof (in_session_same _ _ _ _ _ _ (leaves_run_of _ _ _ _ _ _ H) Hs') as Hs2. by eapply close_session.
Qed.

(** Opening and unlocking where no call fails. *)
Lemma cwp_open_unlocked o command path name p password k db (Q : unit → console → world → Prop) t e w :
  healthy e → for_secret o command path password name → str_is (str command) "init" = false → c_str password ≠ [] →
  resolves path p → stored p password k db w → (∀ w', vault_state w' k db → Q () t w') →
  cwp (cli_open_unlocked_vault sys o) Q t e w.
Proof.
  intros He [Ec Ep Epw _ _] Hinit Hpw Hp (Hc & Hdb & Ho & Hh & Hs) HQ.
  unfold cli_open_unlocked_vault, cli_require_password, access_f_ok, arg. rewrite Ec, Ep, Epw. cbv zeta.
  change (default [] (Some (str command))) with (str command). change (default [] (Some path)) with path.
  change (default [] (Some password)) with password. rewrite Hinit.
  apply cwp_bind, cwp_require; [by cbn; rewrite bool_decide_eq_false_2|]. cwp_tac.
  apply cwp_run. exists (d_files (w_disk w)), (called w). split; [done|]. cwp_tac.
  pose proof Hh as (f & cat & Hf & Hk & _). rewrite (follow_resolved _ _ _ _ Hp Hf Hk). cbn [is_ok andb].
  rewrite bool_decide_eq_true_2 by done. cbn [negb]. cwp_tac.
  destruct (reopen path p password k db e e (called w)) as (w2 & w3 & R2 & _ & R3 & Hv); [done..|].
  apply cwp_run. exists (), w2. split; [done|]. cwp_tac. apply cwp_run. exists (), w3. split; [done|]. cwp_tac. by apply HQ.
Qed.

Lemma get_command o path name p password k db1 db secret action t e w :
  for_secret o "get" path password name → opt_flag o o_copy = false → (opt_number o o_version ≤ 0)%Z →
  c_str password ≠ [] → c_str name ≠ [] → resolves path p → stored p password k db w → healthy e → clock_ok e →
  abstract k db = add_version (names k name) secret action (abstract k db1) →
  (Z.of_nat (length (t_audit_log db1)) + 1 < INT64_MAX)%Z → length secret ≤ CLI_MAX_SECRET_BYTES →
  ∃ t' w', cli_session sys g_program_path fuel o t e w = (Ok (t', Ok 0%Z), w') ∧
    con_stdout t' = con_stdout t ++ secret ++ (if opt_flag o o_raw then [] else nl).
Proof.
  intros Ho Hcopy Hver Hpw Hne Hp Hst He Hclk Habs Hlog Hlen. rewrite (session_runs _ _ _ _ _ _ _ _ Ho) by reflexivity.
  set (out := con_stdout t ++ secret ++ (if opt_flag o o_raw then [] else nl)).
  cut (cwp (run_command sys g_program_path fuel o) (λ code t' _, code = 0%Z ∧ con_stdout t' = out) t e w);
    [intros (t' & code & w' & E & -> & HQ); by exists t', w'|].
  unfold run_command. cwp_tac.
  rewrite (dispatch_named _ _ _ _ (str "get") "get") by first [exact (fs_command _ _ _ _ _ Ho)|reflexivity|discriminate].
  cbn [dispatch_on String.eqb Ascii.eqb Bool.eqb orb]. unfold cli_run_get, require_name, cli_authorize_token, cli_alloc_secret_buffer, arg.
  rewrite Hcopy, (fs_name _ _ _ _ _ Ho), (fs_token _ _ _ _ _ Ho). cbv zeta. change (default [] (Some name)) with name.
  apply cwp_bind, cwp_require; [by cbn; rewrite bool_decide_eq_false_2|].
  apply cwp_bind, cwp_bind, cwp_require; [by apply negb_true_iff, Nat.eqb_neq|]. cwp_tac.
  apply (cwp_open_unlocked o "get" path name p password k db); [done|done|reflexivity|done..|]. intros w2 Hv. cwp_tac.
  apply cwp_run, wp_ret. cwp_tac. rewrite (proj2 (Z.ltb_ge _ _)) by done.
  destruct (get_after_add name secret action k db1 w2 db e CLI_MAX_SECRET_BYTES) as (w3 & R); [done..|].
  apply cwp_run. exists secret, w3. split; [done|]. cwp_tac.
  assert (∀ w5 t5, con_stdout t5 = out → cwp (run vault_close) (λ _ t' _, con_stdout t' = out) t5 e w5) as Hclose.
  { intros w5 t5 Ht. destruct (close_succeeds e w5 He) as (w6 & E). apply cwp_run. by exists (), w6. }
  destruct (opt_flag o o_raw); cwp_tac; (eapply cwp_mono; [apply Hclose|]).
  - unfold out. cbn [append_to add_stdout set_reported con_stdout]. by rewrite app_nil_r.
  - intros [] t' w' Ht. by cwp_tac.
  - unfold out. cbn [append_to add_stdout set_reported con_stdout]. by rewrite app_assoc.
  - intros [] t' w' Ht. by cwp_tac.
Qed.

(** C9: what one process stores another one prints: when [fuin put --stdin]
    on a stored vault, in whatever environment, exits with 0, a later process
    that runs [fuin get] on the same files with the same password, where no
    call fails, exits with 0 and prints exactly the bytes that were put,
    followed by a newline unless [--raw] is given. *)
Theorem cli_put_then_get o1 o2 path name p password k db t1 e1 w1 t1' w1' t2 e2 w2 :
  stored p password k db w1 → (Z.of_nat (length (t_audit_log db)) + 1 < INT64_MAX)%Z →
  resolves path p → c_str password ≠ [] →
  for_secret o1 "put" path password name → opt_flag o1 o_read_stdin = true →
  for_secret o2 "get" path password name → opt_flag o2 o_copy = false → (opt_number o2 o_version ≤ 0)%Z →
  cli_session sys g_program_path fuel o1 t1 e1 w1 = (Ok (t1', Ok 0%Z), w1') →
  w_conn w2 = None → w_disk w2 = w_disk w1' → healthy e2 → clock_ok e2 →
  ∃ t2' w2', cli_session sys g_program_path fuel o2 t2 e2 w2 = (Ok (t2', Ok 0%Z), w2') ∧
    con_stdout t2' = con_stdout t2 ++ con_stdin t1 ++ (if opt_flag o2 o_raw then [] else nl).
Proof.
  intros Hst Hlog Hp Hpw Ho1 Hin Ho2 Hcopy Hver H Hc2 Hd2 He Hclk.
  destruct (put_command _ _ _ _ _ _ _ _ _ _ _ _ Ho1 Hin Hp Hst H) as (Hne & Hlen & db' & action & Hst' & Habs).
  apply (get_command o2 path name p password k db db' (con_stdin t1) action); try done.
  destruct Hst' as (_ & Hrest). unfold stored. by rewrite Hc2, Hd2.
Qed.

End Session.

(** * Witness *)

Module CliSessionExample.
#[local] Existing Instance Toy.crypto.
#[local] Existing Instance Toy.laws.
#[local] Existing Instance ToyJson.cjson.
#[local] Existing Instance ToyPosix.posix.
#[local] Existing Instance ToyPosix.laws.
#[local] Existing Instance ToyOpenssl.openssl.
#[local] Existing Instance ToySqlite.sqlite.
#[local] Existing Instance ToySqlite.laws.
Import VaultExample StorageExample VaultFileExample CliTextExample CliExample.

Definition put_options : cli_options_t := set_flag o_read_stdin (options "put" (str "db/prod")).
Definition get_options : cli_options_t := set_flag o_raw (options "get" (str "db/prod")).
Definition input : console := process (str "s3cret") [].

Lemma stored_ok : stored p pw (keys w_vault) (db_of w_vault) w_stored.
Proof.
  eapply (close_session p pw (keys w_vault) (db_of w_vault) e0 w_vault ()).
  - split; [exact (proj1 vault_state_of)|]. split; [exact (proj2 vault_state_of)|].
    split; [apply file_open; vm_compute; reflexivity|split_and!; vm_compute; reflexivity].
  - runs vault_close e0 w_vault.
Qed.

Lemma other_disk w : w_disk (other w) = w_disk w.
Proof. reflexivity. Qed.

Lemma put_ok_status : exit_status (cli_session sys (str "fuin") 0 put_options input e0 w_stored) = Some 0%Z.
Proof. vm_compute. reflexivity. Qed.

#[local] Notation after_put := (cli_session sys (str "fuin") 0 put_options input e0 w_stored).

Lemma cli_put_then_get_witness :
  ∃ t' w', cli_session sys (str "fuin") 0 get_options (process [] []) e0 (other after_put.2) = (Ok (t', Ok 0%Z), w') ∧
    con_stdout t' = str "s3cret".
Proof.
  destruct (cli_put_then_get sys (str "fuin") 0 put_options get_options path (str "db/prod") p pw (keys w_vault) (db_of w_vault)
    input e0 w_stored (console_of after_put) after_put.2 (process [] []) e0 (other after_put.2)) as (t' & w' & R & E).
  - exact stored_ok.
  - vm_compute. reflexivity.
  - exact path_resolves.
  - vm_compute. discriminate.
  - split; reflexivity.
  - reflexivity.
  - split; reflexivity.
  - reflexivity.
  - discriminate.
  - exact (exited _ _ put_ok_status).
  - exact (other_conn after_put.2).
  - exact (other_disk after_put.2).
  - exact (Sample.env_at_healthy _).
  - intros n. vm_compute. split; discriminate.
  - exists t', w'. split; [exact R|]. rewrite E. reflexivity.
Defined.

End CliSessionExample.
